(* ===== verification/_CoqProject ===== *)
-Q . S2P
Prelude.v
Effects.v
Types.v
Library.v
LibModel.v
Strings.v
Client.v
Samples.v
Sim.v
Image.v
Karpenter.v
Classify.v
PoolStatus.v
Utf8.v
Slots.v
Events.v
Drain.v
Rollout.v
RolloutSafety.v
RolloutCapacity.v
RolloutHalt.v
RolloutProgress.v
RolloutApproval.v
RolloutWitness.v
Membership.v
MembershipSafety.v
MembershipWitness.v
MembershipSync.v
Reconcile.v
ReconcileSafety.v
ReconcileProps.v
ReconcileWitness.v
StageOp.v
Bootc.v
Daemon.v
DaemonSafety.v
Watcher.v
DaemonWitness.v
Watches.v
PullSecret.v
Executor.v
Registry.v
Main.v
RolloutCalm.v
DaemonCalm.v
Cluster.v
ClusterWitness.v
System.v
SystemWitness.v
Memory.v
DeepCopy.v
DeepCopyWitness.v
Schema.v
SchemaController.v
SchemaDaemon.v
