(* ===== verification/Prelude.v ===== *)
(** * Bootc Operator: a verification development

    The program under [src/] is a Kubernetes operator that keeps the operating
    system images (bootc) of a cluster's nodes at what BootcNodePool objects ask
    for.  It is two processes that talk through API objects only:

    - the controller ([cmd/controller], [internal/controller]) reconciles a
      BootcNodePool: it resolves the image reference to a digest, keeps one
      BootcNode per selected Node, and rolls the digest out node by node: a staged
      node gets a reboot slot (cordon, Karpenter fences, ownership records), is
      drained in a goroutine, approved for reboot (desiredImageState Booted), and
      gives the slot back when it is Ready on the new image;
    - the daemon ([cmd/daemon], [internal/daemon], [internal/bootc]) runs on every
      node: it reads the host's bootc status, stages the desired image in a
      goroutine, reports through the BootcNode's status and reboots the host when
      it is approved.

    ** How the code is modelled

    Go functions are programs of [Effects]: a tree of requests to the environment
    (API server, clock, registry, drain goroutines, host) whose answers are not
    constrained, with the function's mutable state and its error result around it
    ([go]).  [wpg m s h Φ] speaks of every run, whatever is answered: failing
    calls, stale reads and other writers included.  Theorems that need an API
    server that honours the patch contract say so ([honest_history],
    [quiet_history] of [Client]).  Loops over slices and maps are structural
    recursions, so every model terminates and no fuel is needed anywhere; the order
    of a [range] over a map is a parameter ([MapOrder]).  Third-party code (image
    reference parser, apimachinery, controller-runtime, go-containerregistry,
    encoding/json) is a parameter: class [Lib] with the documented behaviour in
    [LibLaws], [HostLib], [RegistryLib]; [LibModel] is a concrete instance, for the
    witnesses.  Integers that may overflow are [Z] with Go's wrap-around
    ([GoInt]); strings are byte strings; a nil map differs from an empty one
    ([GoMap]), a nil slice does not.  Each [SetStatusCondition] reads the clock.

    ** The files

    Foundations: [Prelude] (tactics, hint databases, Go maps, integers, errors),
    [Effects] (programs and their logic), [Types] ([api/v1alpha1] and the fields
    used of the Kubernetes types), [Library], [LibModel], [Strings] (Split,
    TrimSpace, prefixes), [Utf8], [Client] (the controller's requests), [Samples]
    and [Sim] (an executable quiet cluster for witnesses).

    Controller: [Image] ([image/digest.go]); [Karpenter]
    ([karpenter/nodeclaim.go], [controller/karpenter.go]); [Classify] (the
    classification half of [rollout.go]); [PoolStatus] ([status.go] and the
    Degraded condition); [Slots] (assigning and freeing a reboot slot); [Events]
    ([events.go]); [Drain] (drain bookkeeping); [Rollout] ([driveRollout]);
    [Membership] ([syncMembership], [handlePoolDeletion] and what they call);
    [Reconcile] ([Reconcile], [resolveTargetDigest], [fetchPullSecretData], status
    update); [Watches] (map functions and predicates); [PullSecret]
    ([pullsecret.go]); [Registry] ([registry/resolver.go]).

    Daemon: [StageOp] (the staging operation of [daemon/reconciler.go] with its
    goroutines, mutexes and event channel); [Bootc] ([bootc/status.go] types and
    the command lines); [Daemon] ([BootcNodeReconciler.Reconcile]); [Watcher]
    ([watcher.go]); [Executor] ([bootc/executor.go]).

    Processes: [Main] ([cmd/controller/main.go], [cmd/daemon/main.go],
    [version.go], [logwriter.go]).

    The whole: [RolloutCalm] and [DaemonCalm] (what a pass of either process does
    when nothing goes wrong), [Cluster] (rounds of a controller pass, a pass of
    every daemon and the hosts' reaction), [System] (controller, daemons and API
    server interleaved request by request, as a step relation); [ClusterWitness],
    [SystemWitness].

    API objects: [Memory] (a heap of structs with pointers and slices, the value of
    a struct, deep copies), [DeepCopy] ([zz_generated.deepcopy.go], the copies of
    [karpenter/nodeclaim.go], [groupversion_info.go]), [DeepCopyWitness]; [Schema]
    (the kubebuilder markers as predicates, and a typing discipline for programs),
    [SchemaController], [SchemaDaemon].

    A definition carries the name of the Go function or type it translates; record
    fields carry the field's name, with a prefix where Go's names collide.  The
    parts a long function is cut into (such as [processCandidate], [assignLoop]
    and [advance] of [driveRollout]) are named in their comments.

    ** What the theorems show

    - The composed system: [System] (in every interleaving, with crashes, lost
      answers and stale reads, a host reboots only after its node was drained and
      approved, in this order; the drain may belong to an earlier reboot of the
      node, see [ClusterWitness.rolled_back_reboots_undrained]), [Cluster] (a
      healthy cluster converges to the wanted image within six rounds per node).
    - Types: [SchemaController], [SchemaDaemon] (given valid objects, both processes
      send valid objects only); [DeepCopy] (copies share nothing with the original,
      which is why the other files may treat objects as values).
    - Safety of the controller, for every environment: [ReconcileSafety] (one pass,
      end to end), [RolloutSafety], [MembershipSafety] (protocols as [guarded]
      histories: what must have happened before each request), [Slots] (ownership
      is recorded before it is exercised and given up after), [RolloutHalt] (two
      unhealthy nodes stop the rollout), [RolloutCapacity] (the number of slots
      stays within maxUnavailable).
    - Progress of the controller: [RolloutProgress] (a pass leaves no capacity
      unused and no slotted node undrained), [RolloutApproval] (exactly the drained
      nodes are approved).
    - Function: [Classify] (states, buckets, timeouts, unhealthy slots),
      [PoolStatus], [Events], [MembershipSync] (what membership establishes is what
      the rollout assumes), [ReconcileProps] (tag resolution), [Slots] (round trip
      of assigning and freeing), [Watches] (nobody is forgotten), [PullSecret].
    - Safety of the daemon: [DaemonSafety] (reboots, staging, the auth file; and
      that the controller classifies what the daemon reports as the daemon meant
      it), [Executor] (commands on the host), [Main], [Registry].
    - Concurrency: [StageOp] (an invariant over all interleavings, refinement of a
      one-job specification, termination and wake-ups), [Watcher] (a live source of
      wake-ups at all times, and the cache written before anybody is woken).
    - [RolloutWitness], [MembershipWitness], [ReconcileWitness], [DaemonWitness]
      and the modules named [...Witness] apply the theorems to concrete clusters,
      and show the defects found as runs of the model.

    ** Not modelled

    - Log output; Prometheus and health endpoints; leader election.
    - What goroutines other than staging do inside: a drain (kubectl's eviction
      code) is started, polled and cancelled through requests.
    - controller-runtime's caches and work queue, beyond what an arbitrary answer
      covers and the wake-ups of [StageOp]: [SetupWithManager] is the data it
      registers, and rounds of [Cluster] assume that passes keep being run.
    - The interleaving of the status watcher's loop with [GetStatus] of a
      concurrent pass: their critical sections are atomic here.
    - Objects as values: the passes work on values, not on the heap of [Memory];
      [DeepCopy] shows that the copies they are based on are independent.
    - The limit of the schema on the length of condition messages, which the code
      does not keep ([SchemaWitness.message_too_long]).

    ** Plan

    Next: convergence with the membership half of a pass and with failing drains and
    hosts, the watcher's loop interleaved with the passes, and the events of a pass
    against the transitions of the pool's conditions. *)

From stdpp Require Export base gmap strings list list_numbers fin_maps sorting pretty.
From Stdlib Require Export ZArith Lia Sorting.Permutation.

(** Everything below is written with [Z] literals only where a [%Z] says so. *)
Create HintDb bootc discriminated.
Create Rewrite HintDb bootc_simpl.

(** ** Tactics of the development *)

(** Split every conjunction in the hypotheses, substitute the equalities and
    discard the contradictory branches. *)
Ltac crush :=
  repeat (simplify_eq/=; destruct_and?; try done);
  try (split_and?; done);
  try naive_solver lia.

(** Case analysis on the innermost [match] or [if] of the goal, keeping the
    equation. *)
Ltac split_match :=
  match goal with
  | |- context [match ?x with _ => _ end] =>
      lazymatch x with
      | context [match _ with _ => _ end] => fail
      | _ => let E := fresh "E" in destruct x eqn:E
      end
  end.

(** Same on a given hypothesis. *)
Ltac split_match_in H :=
  match type of H with
  | context [match ?x with _ => _ end] =>
      lazymatch x with
      | context [match _ with _ => _ end] => fail
      | _ => let E := fresh "E" in destruct x eqn:E
      end
  end.

(** ** Go maps

    A Go [map[string]string] is [None] when it is the nil map.  Reading a nil
    map is safe and finds nothing; [delete] on it is a no-op. *)
Module GoMap.

Abbreviation gomap := (option (gmap string string)).

(** [m[k]] with the comma-ok idiom. *)
Definition lookup (m : gomap) (k : string) : option string :=
  m ≫= λ g, g !! k.

(** [m[k]] without the comma-ok idiom: the zero value when absent. *)
Definition index (m : gomap) (k : string) : string :=
  default "" (lookup m k).

(** [_, ok := m[k]]. *)
Definition has (m : gomap) (k : string) : bool :=
  bool_decide (is_Some (lookup m k)).

(** [len(m)]. *)
Definition len (m : gomap) : nat :=
  match m with None => 0 | Some g => size g end.

(** The idiom [c := maps.Clone(m); if c == nil { c = map[string]string{} };
    c[k] = v]. *)
Definition set (m : gomap) (k v : string) : gomap :=
  Some (<[k := v]> (default ∅ m)).

(** [delete(m, k)]. *)
Definition remove (m : gomap) (k : string) : gomap :=
  delete k <$> m.

(** [maps.Equal(a, b)] of the standard library: same length, and every entry of
    [a] is an entry of [b]. *)
Definition maps_Equal (a b : gomap) : bool :=
  (len a =? len b) &&
  forallb (λ kv, bool_decide (lookup b kv.1 = Some kv.2))
    (map_to_list (default ∅ a)).

Lemma lookup_set m k v k' :
  lookup (set m k v) k' = if decide (k = k') then Some v else lookup m k'.
Proof.
  unfold lookup, set; simpl. rewrite lookup_insert.
  destruct m; simpl; [done|]. by rewrite lookup_empty.
Qed.

Lemma lookup_set_eq m k v : lookup (set m k v) k = Some v.
Proof. rewrite lookup_set. by case_decide. Qed.

Lemma lookup_set_ne m k v k' : k ≠ k' → lookup (set m k v) k' = lookup m k'.
Proof. intros. rewrite lookup_set. by case_decide. Qed.

Lemma lookup_remove m k k' :
  lookup (remove m k) k' = if decide (k = k') then None else lookup m k'.
Proof.
  unfold lookup, remove. destruct m; simpl; [|by case_decide].
  rewrite lookup_delete. done.
Qed.

Lemma lookup_remove_eq m k : lookup (remove m k) k = None.
Proof. rewrite lookup_remove. by case_decide. Qed.

Lemma lookup_remove_ne m k k' : k ≠ k' → lookup (remove m k) k' = lookup m k'.
Proof. intros. rewrite lookup_remove. by case_decide. Qed.

Lemma lookup_default m k : lookup m k = default ∅ m !! k.
Proof. destruct m; simpl; [done|]. by rewrite lookup_empty. Qed.

Lemma len_default m : len m = size (default ∅ m : gmap string string).
Proof. destruct m; simpl; [done|]. by rewrite map_size_empty. Qed.

Lemma has_true m k : has m k = true ↔ is_Some (lookup m k).
Proof. unfold has. by rewrite bool_decide_eq_true. Qed.

Lemma has_false m k : has m k = false ↔ lookup m k = None.
Proof.
  unfold has. rewrite bool_decide_eq_false, eq_None_not_Some. done.
Qed.

(** Two maps that answer every lookup alike. *)
Definition ext_eq (a b : gomap) : Prop := ∀ k, lookup a k = lookup b k.

Lemma ext_eq_default a b : ext_eq a b ↔ default ∅ a = default ∅ b.
Proof.
  split.
  - intros H. apply map_eq. intros k. rewrite <- !lookup_default. apply H.
  - intros H k. rewrite !lookup_default. by rewrite H.
Qed.

#[global] Instance ext_eq_equiv : Equivalence ext_eq.
Proof.
  split.
  - intros a k; done.
  - intros a b H k; by rewrite H.
  - intros a b c H1 H2 k. by rewrite H1, H2.
Qed.

#[global] Instance lookup_proper : Proper (ext_eq ==> eq ==> eq) lookup.
Proof. intros a b H k ? <-. apply H. Qed.

#[global] Instance has_proper : Proper (ext_eq ==> eq ==> eq) has.
Proof. intros a b H k ? <-. unfold has. by rewrite (H k). Qed.

#[global] Instance set_proper : Proper (ext_eq ==> eq ==> eq ==> ext_eq) set.
Proof. intros a b H k ? <- v ? <- k'. rewrite !lookup_set. by rewrite (H k'). Qed.

#[global] Instance remove_proper : Proper (ext_eq ==> eq ==> ext_eq) remove.
Proof. intros a b H k ? <- k'. rewrite !lookup_remove. by rewrite (H k'). Qed.

Lemma set_id m k v : lookup m k = Some v → ext_eq (set m k v) m.
Proof. intros H k'. rewrite lookup_set. case_decide; [by subst|done]. Qed.

Lemma remove_set m k v : lookup m k = None → ext_eq (remove (set m k v) k) m.
Proof.
  intros H k'. rewrite lookup_remove, lookup_set. case_decide; [by subst|done].
Qed.

(** [maps.Equal] decides [ext_eq]. *)
Lemma maps_Equal_spec a b : maps_Equal a b = true ↔ ext_eq a b.
Proof.
  unfold maps_Equal. rewrite andb_true_iff, Nat.eqb_eq, !len_default, forallb_forall.
  rewrite ext_eq_default. set (ga := default ∅ a). split.
  - intros [Hlen Hsub]. apply map_subseteq_size_eq; [|lia].
    apply map_subseteq_spec. intros k v Hk.
    specialize (Hsub (k, v)). rewrite bool_decide_eq_true in Hsub; simpl in Hsub.
    rewrite lookup_default in Hsub. apply Hsub.
    apply list_elem_of_In, elem_of_map_to_list. done.
  - intros Heq. split; [by rewrite Heq|].
    intros [k v] Hin%list_elem_of_In%elem_of_map_to_list. simpl.
    rewrite bool_decide_eq_true, lookup_default, <- Heq. done.
Qed.

End GoMap.
Export (notations) GoMap.
#[global] Arguments GoMap.lookup : simpl never.
#[global] Arguments GoMap.index : simpl never.
#[global] Arguments GoMap.has : simpl never.
#[global] Arguments GoMap.set : simpl never.
#[global] Arguments GoMap.remove : simpl never.
Abbreviation gomap := (option (gmap string string)).

#[export] Hint Rewrite GoMap.lookup_set_eq GoMap.lookup_remove_eq : bootc_simpl.

(** ** Go errors

    The error values the repository distinguishes: an API error with the kind
    that [apierrors.IsNotFound] and its siblings test, the controller's own
    [invalidSpecError], the NodeClaim sentinel, a plain message, a wrapped
    error ([fmt.Errorf] with [%w]), and a nil dereference where the source would
    panic. *)
Inductive apiErrorKind : Set :=
  KNotFound | KAlreadyExists | KConflict | KNoMatch | KOther.

Inductive error : Set :=
| ErrApi (kind : apiErrorKind) (msg : string)
| ErrInvalidSpec (msg : string)
| ErrNodeNameNotFound
| ErrString (msg : string)
| ErrWrap (pre : string) (e : error)
| ErrPanic (msg : string).

#[export] Instance apiErrorKind_eq_dec : EqDecision apiErrorKind.
Proof. solve_decision. Defined.
#[export] Instance error_eq_dec : EqDecision error.
Proof. solve_decision. Defined.

(** [err.Error()]: [fmt.Errorf("pre: %w", e)] prints the prefix, a colon and
    the wrapped text. *)
Fixpoint Error (e : error) : string :=
  match e with
  | ErrApi _ msg => msg
  | ErrInvalidSpec msg => msg
  | ErrNodeNameNotFound => "status.nodeName not found"
  | ErrString msg => msg
  | ErrWrap pre e => pre +:+ ": " +:+ Error e
  | ErrPanic msg => msg
  end.

(** The error at the bottom of the [Unwrap] chain. *)
Fixpoint rootCause (e : error) : error :=
  match e with ErrWrap _ e => rootCause e | _ => e end.

Definition apiKind (e : error) : option apiErrorKind :=
  match rootCause e with ErrApi k _ => Some k | _ => None end.

(** [apierrors.IsNotFound], [apierrors.IsAlreadyExists] and
    [apimeta.IsNoMatchError] look through wrapped errors. *)
Definition IsNotFound (e : error) : bool := bool_decide (apiKind e = Some KNotFound).
Definition IsAlreadyExists (e : error) : bool := bool_decide (apiKind e = Some KAlreadyExists).
Definition IsNoMatchError (e : error) : bool := bool_decide (apiKind e = Some KNoMatch).

(** A Go function that returns a value and an error. *)
Inductive result (A : Set) : Set :=
| Ok (a : A)
| Err (e : error).
Arguments Ok {A} a.
Arguments Err {A} e.

Definition is_ok {A : Set} (r : result A) : bool :=
  match r with Ok _ => true | Err _ => false end.

(** ** Machine integers and time

    [time.Duration] is an [int64] count of nanoseconds; [time.Time] is an
    instant in nanoseconds.  Subtracting two instants saturates, subtracting
    two durations wraps around. *)
Module GoInt.
Local Open Scope Z_scope.

Definition minInt64 : Z := - 2 ^ 63.
Definition maxInt64 : Z := 2 ^ 63 - 1.
Definition maxInt32 : Z := 2 ^ 31 - 1.
Definition minInt32 : Z := - 2 ^ 31.

Definition wrap64 (z : Z) : Z := (z - minInt64) mod 2 ^ 64 + minInt64.

Definition in64 (z : Z) : Prop := minInt64 <= z <= maxInt64.
Definition in32 (z : Z) : Prop := minInt32 <= z <= maxInt32.

(** [t.Sub(u)]: saturates at the bounds of [time.Duration]. *)
Definition timeSub (t u : Z) : Z := Z.max minInt64 (Z.min maxInt64 (t - u)).

Definition Second : Z := 1000000000.
Definition Minute : Z := 60 * Second.

Lemma wrap64_id z : in64 z -> wrap64 z = z.
Proof.
  unfold in64, wrap64, minInt64, maxInt64. intros.
  rewrite Z.mod_small; lia.
Qed.

Lemma wrap64_range z : in64 (wrap64 z).
Proof.
  unfold in64, wrap64, minInt64, maxInt64.
  pose proof (Z.mod_pos_bound (z - - 2 ^ 63) (2 ^ 64) ltac:(lia)). lia.
Qed.

Lemma timeSub_range t u : in64 (timeSub t u).
Proof. unfold in64, timeSub, minInt64, maxInt64. lia. Qed.

Lemma timeSub_exact t u : in64 (t - u) -> timeSub t u = t - u.
Proof. unfold in64, timeSub. lia. Qed.

(** [time.Duration(n) * time.Second] of an [int32] never overflows. *)
Lemma seconds_in64 n : in32 n -> in64 (n * Second).
Proof. unfold in32, in64, minInt64, maxInt64, minInt32, maxInt32, Second. lia. Qed.

End GoInt.

(** ** Strings *)

(** [strings.Join]. *)
Fixpoint join (sep : string) (l : list string) : string :=
  match l with
  | [] => ""
  | [s] => s
  | s :: l => s +:+ sep +:+ join sep l
  end.

(** The [%q] verb on a string whose characters need no escape. *)
Definition quoted (s : string) : string :=
  let q := String (Ascii.ascii_of_nat 34) "" in q +:+ s +:+ q.

(** [slices.Sort] on strings: byte-wise lexicographic order. *)
Definition sortStrings (l : list string) : list string := merge_sort String.le l.

Lemma sortStrings_perm l : sortStrings l ≡ₚ l.
Proof. apply merge_sort_Permutation. Qed.

(** Sorting forgets the order of its input. *)
Lemma sortStrings_canonical l1 l2 : l1 ≡ₚ l2 → sortStrings l1 = sortStrings l2.
Proof.
  intros H. eapply (StronglySorted_unique String.le).
  - apply (StronglySorted_merge_sort String.le).
  - apply (StronglySorted_merge_sort String.le).
  - by rewrite !sortStrings_perm.
Qed.

(** Boolean equality of strings as the source's [==]. *)
Definition seq_b (a b : string) : bool := bool_decide (a = b).
Infix "=s" := seq_b (at level 70) : stdpp_scope.

Lemma seq_b_true a b : (a =s b) = true ↔ a = b.
Proof. unfold seq_b. apply bool_decide_eq_true. Qed.
Lemma seq_b_false a b : (a =s b) = false ↔ a ≠ b.
Proof. unfold seq_b. apply bool_decide_eq_false. Qed.
Lemma seq_b_refl a : (a =s a) = true.
Proof. by apply seq_b_true. Qed.
#[export] Hint Rewrite seq_b_refl : bootc_simpl.

(** ** Lists *)

Lemma forall_filter_split {A} (f : A → bool) (l : list A) :
  l ≡ₚ List.filter f l ++ List.filter (λ x, negb (f x)) l.
Proof.
  induction l as [|x l IH]; [done|]. simpl. destruct (f x); simpl.
  - by rewrite <- IH.
  - rewrite IH at 1. apply Permutation_middle.
Qed.

Lemma NoDup_filter_b {A} (f : A → bool) (l : list A) : NoDup l → NoDup (List.filter f l).
Proof.
  intros Hl%NoDup_ListNoDup. apply NoDup_ListNoDup. by apply List.NoDup_filter.
Qed.

Lemma elem_of_filter_b {A} (f : A → bool) (l : list A) x :
  x ∈ List.filter f l ↔ f x = true ∧ x ∈ l.
Proof. rewrite !list_elem_of_In, List.filter_In. naive_solver. Qed.

Lemma filter_none {A} (f : A → bool) (l : list A) :
  (∀ x, x ∈ l → f x = false) → List.filter f l = [].
Proof.
  induction l as [|x l IH]; intros Hf; simpl; [done|].
  rewrite (Hf x) by set_solver. apply IH. set_solver.
Qed.

Lemma filter_b_perm {A} (f : A → bool) (l l' : list A) :
  l ≡ₚ l' → List.filter f l ≡ₚ List.filter f l'.
Proof.
  induction 1; simpl; repeat split_match; try done; [by constructor|constructor|by etransitivity].
Qed.

(** Number of elements satisfying a boolean test. *)
Definition count {A} (f : A → bool) (l : list A) : nat := length (List.filter f l).

Lemma count_nil {A} (f : A → bool) : count f [] = 0.
Proof. done. Qed.
Lemma count_cons {A} (f : A → bool) x l :
  count f (x :: l) = (if f x then 1 else 0) + count f l.
Proof. unfold count; simpl. by destruct (f x). Qed.
Lemma count_app {A} (f : A → bool) l1 l2 : count f (l1 ++ l2) = count f l1 + count f l2.
Proof. unfold count. by rewrite List.filter_app, length_app. Qed.
Lemma count_perm {A} (f : A → bool) l1 l2 : l1 ≡ₚ l2 → count f l1 = count f l2.
Proof.
  induction 1; rewrite ?count_nil, ?count_cons; [done| | |congruence].
  - by f_equal.
  - destruct (f x), (f y); lia.
Qed.
Lemma count_0 {A} (f : A → bool) l : (∀ x, x ∈ l → f x = false) → count f l = 0.
Proof.
  induction l as [|x l IH]; intros H; [done|]. rewrite count_cons, (H x) by set_solver.
  apply IH. set_solver.
Qed.
Lemma count_le_length {A} (f : A → bool) l : count f l ≤ length l.
Proof. unfold count. apply List.filter_length_le. Qed.
#[export] Hint Rewrite @count_nil @count_cons @count_app : bootc_simpl.

Lemma count_ext {A} (f g : A → bool) l : (∀ x, x ∈ l → f x = g x) → count f l = count g l.
Proof.
  intros H. unfold count. f_equal. apply List.filter_ext_in. intros x Hx. by apply H, list_elem_of_In.
Qed.

(** ** Sums *)

Lemma sum_le {A} (f g : A → nat) l : (∀ x, x ∈ l → f x ≤ g x) → sum_list_with f l ≤ sum_list_with g l.
Proof.
  induction l as [|y l IH]; intros Hle; simpl; [done|].
  assert (f y ≤ g y) by (apply Hle; set_solver).
  assert (sum_list_with f l ≤ sum_list_with g l) by (apply IH; set_solver). lia.
Qed.

Lemma sum_lt {A} (f g : A → nat) l :
  (∀ x, x ∈ l → f x ≤ g x) → (∃ x, x ∈ l ∧ f x < g x) → sum_list_with f l < sum_list_with g l.
Proof.
  induction l as [|y l IH]; intros Hle (x & Hx & Hlt); [by apply elem_of_nil in Hx|]. simpl.
  assert (f y ≤ g y) as Hy by (apply Hle; set_solver).
  assert (∀ z, z ∈ l → f z ≤ g z) as Hl by (intros; apply Hle; set_solver).
  apply elem_of_cons in Hx as [->|Hx]; [pose proof (sum_le f g l Hl); lia|].
  specialize (IH Hl (ex_intro _ x (conj Hx Hlt))). lia.
Qed.

Lemma sum_0 {A} (f : A → nat) l x : sum_list_with f l = 0 → x ∈ l → f x = 0.
Proof.
  induction l as [|y l IH]; simpl; intros Hs Hx; [by apply elem_of_nil in Hx|].
  apply elem_of_cons in Hx as [->|Hx]; [lia|]. apply IH; [lia|done].
Qed.

Lemma sum_bound {A} (f : A → nat) l n : (∀ x, x ∈ l → f x ≤ n) → sum_list_with f l ≤ n * length l.
Proof.
  induction l as [|y l IH]; intros Hle; simpl; [lia|].
  assert (f y ≤ n) by (apply Hle; set_solver).
  assert (sum_list_with f l ≤ n * length l) by (apply IH; set_solver). lia.
Qed.

Lemma sum_pos {A} (f : A → nat) l : sum_list_with f l ≠ 0 → ∃ x, x ∈ l ∧ f x ≠ 0.
Proof.
  induction l as [|y l IH]; simpl; intros Hs; [lia|]. destruct (decide (f y = 0)) as [Hy|Hy].
  - destruct IH as (x & ? & ?); [lia|]. exists x. set_solver.
  - exists y. set_solver.
Qed.
