(* ===== verification/Effects.v ===== *)
(** * Effects: programs that talk to their environment

    The controller and the daemon are sequences of calls to the API server, the
    clock, the registry and the host, with ordinary computation in between.  A
    [prog] is such a sequence: a finite tree whose nodes are requests and whose
    branches are the answers.  Nothing is assumed about the answers, so a
    property of every path of the tree holds for every behaviour of the
    environment: failing calls, stale reads and concurrent writers included.

    [wp p h Φ] says that, starting after the history [h] of requests and
    answers, every run of [p] ends with a history and a result that satisfy
    [Φ].  [run] executes a program against a concrete environment.  [go] adds
    the mutable state of a Go function and its error result. *)

From S2P Require Import Prelude.

Section Prog.
Context {R : Set} {resp : R → Set}.

(** A program: return, or ask the environment and continue with the answer. *)
Inductive prog (A : Type) : Type :=
| Ret (a : A)
| Vis (r : R) (k : resp r → prog A).

(** One request together with its answer. *)
Record ev : Set := Ev { ev_req : R; ev_ans : resp ev_req }.

Definition trace : Set := list ev.
End Prog.
Arguments prog {R} resp A.
Arguments Ret {R resp A} a.
Arguments Vis {R resp A} r k.
Arguments ev {R} resp.
Arguments Ev {R resp} ev_req ev_ans.
Arguments trace {R} resp.

Section Logic.
Context {R : Set} {resp : R → Set}.

Fixpoint pbind {A B : Type} (p : prog resp A) (k : A → prog resp B) : prog resp B :=
  match p with
  | Ret a => k a
  | Vis r c => Vis r (λ x, pbind (c x) k)
  end.

(** Every path of [p], continuing the history [h], ends in [Φ]. *)
Fixpoint wp {A : Type} (p : prog resp A) (h : trace resp) (Φ : trace resp → A → Prop) : Prop :=
  match p with
  | Ret a => Φ h a
  | Vis r k => ∀ x, wp (k x) (h ++ [Ev r x]) Φ
  end.

Lemma wp_bind {A B} (p : prog resp A) (k : A → prog resp B) h Φ :
  wp (pbind p k) h Φ ↔ wp p h (λ h' a, wp (k a) h' Φ).
Proof.
  revert h. induction p as [a|r c IH]; intros h; simpl; [done|].
  split; intros H x; by apply IH.
Qed.

Lemma wp_mono {A} (p : prog resp A) h (Φ Ψ : trace resp → A → Prop) :
  (∀ h' a, Φ h' a → Ψ h' a) → wp p h Φ → wp p h Ψ.
Proof.
  intros H. revert h. induction p as [a|r c IH]; intros h; simpl; [apply H|].
  intros Hp x. by apply IH.
Qed.

Lemma wp_and {A} (p : prog resp A) h (Φ Ψ : trace resp → A → Prop) :
  wp p h Φ → wp p h Ψ → wp p h (λ h' a, Φ h' a ∧ Ψ h' a).
Proof.
  revert h. induction p as [a|r c IH]; intros h; simpl; [done|].
  intros H1 H2 x. by apply IH.
Qed.

(** The history only grows. *)
Lemma wp_history {A} (p : prog resp A) h :
  wp p h (λ h' _, ∃ t, h' = h ++ t).
Proof.
  revert h. induction p as [a|r c IH]; intros h; simpl.
  - exists []. by rewrite app_nil_r.
  - intros x. eapply wp_mono; [|apply IH]. simpl. intros h' _ [t ->].
    exists (Ev r x :: t). by rewrite <- app_assoc.
Qed.

(** A program's behaviour does not depend on what happened before it. *)
Lemma wp_shift {A} (p : prog resp A) h (Φ : trace resp → A → Prop) :
  wp p [] (λ t a, Φ (h ++ t) a) ↔ wp p h Φ.
Proof.
  assert (∀ h0, wp p h0 (λ t a, Φ (h ++ t) a) ↔ wp p (h ++ h0) Φ) as Hgen.
  { induction p as [a|r c IH]; intros h0; simpl; [done|].
    split; intros H x; specialize (H x).
    - apply IH in H. by rewrite app_assoc in H.
    - apply IH. by rewrite app_assoc. }
  specialize (Hgen []). by rewrite app_nil_r in Hgen.
Qed.

(** A premise of the postcondition may be assumed from the start. *)
Lemma wp_impl {A} (p : prog resp A) h (X : Prop) (Φ : trace resp → A → Prop) :
  (X → wp p h Φ) → wp p h (λ h' a, X → Φ h' a).
Proof.
  revert h. induction p as [a|r c IH]; intros h; simpl; [done|].
  intros H x. apply IH. intros HX. by apply H.
Qed.

(** One path of a program: the requests with their answers, and the result. *)
Inductive runs {A : Type} : prog resp A → trace resp → A → Prop :=
| runs_ret a : runs (Ret a) [] a
| runs_vis r k x t a : runs (k x) t a → runs (Vis r k) (Ev r x :: t) a.

Lemma wp_runs {A} (p : prog resp A) t a Φ : wp p [] Φ → runs p t a → Φ t a.
Proof.
  assert (∀ h, wp p h Φ → runs p t a → Φ (h ++ t) a) as Hgen; [|apply (Hgen [])].
  intros h Hwp Hr. revert h Hwp. induction Hr as [a|r k x t a _ IH]; intros h Hwp; simpl in Hwp.
  - by rewrite app_nil_r.
  - specialize (IH _ (Hwp x)). by rewrite <- app_assoc in IH.
Qed.

(** ** Execution against a concrete environment *)

Definition handler (W : Type) : Type := ∀ r : R, W → W * resp r.

Fixpoint run {W A : Type} (env : handler W) (p : prog resp A) (w : W)
    : W * trace resp * A :=
  match p with
  | Ret a => (w, [], a)
  | Vis r k =>
      let '(w1, x) := env r w in
      let '(w2, t, a) := run env (k x) w1 in
      (w2, Ev r x :: t, a)
  end.

(** Every concrete run is one of the paths that [wp] quantifies over. *)
Lemma wp_run {W A} (env : handler W) (p : prog resp A) w w' t a Φ :
  wp p [] Φ → run env p w = (w', t, a) → Φ t a.
Proof.
  assert (∀ h w, wp p h Φ → ∀ w' t a, run env p w = (w', t, a) → Φ (h ++ t) a) as Hgen.
  { clear w w' t a. induction p as [a0|r c IH]; intros h w; simpl.
    - intros HΦ w' t a [= <- <- <-]. by rewrite app_nil_r.
    - intros Hwp w' t a. destruct (env r w) as [w1 x] eqn:Ee.
      destruct (run env (c x) w1) as [[w2 t2] a2] eqn:Er. intros [= <- <- <-].
      specialize (IH _ (h ++ [Ev r x]) w1 (Hwp x) _ _ _ Er).
      by rewrite <- app_assoc in IH. }
  intros H1 H2. apply (Hgen [] w H1 _ _ _ H2).
Qed.

Lemma run_runs {W A} (env : handler W) (p : prog resp A) w :
  runs p (run env p w).1.2 (run env p w).2.
Proof.
  revert w. induction p as [a|r k IH]; intros w; simpl; [constructor|].
  destruct (env r w) as [w1 x]. specialize (IH x w1). destruct (run env (k x) w1) as [[w2 t] a].
  by constructor.
Qed.

(** ** Go functions: mutable state and an error result *)

Definition go (S : Type) (A : Set) : Type := S → prog resp (S * result A).

Section Go.
Context {S : Type}.

Definition ret {A : Set} (a : A) : go S A := λ s, Ret (s, Ok a).
Definition throw {A : Set} (e : error) : go S A := λ s, Ret (s, Err e).

(** [v, err := m(); if err != nil { return err }; f(v)]. *)
Definition gbind {A B : Set} (m : go S A) (f : A → go S B) : go S B :=
  λ s, pbind (m s) (λ sr,
    match sr.2 with Ok a => f a sr.1 | Err e => Ret (sr.1, Err e) end).

(** A request that cannot fail. *)
Definition call (r : R) : go S (resp r) := λ s, Vis r (λ x, Ret (s, Ok x)).

Definition gets {A : Set} (f : S → A) : go S A := λ s, Ret (s, Ok (f s)).
Definition modify (f : S → S) : go S unit := λ s, Ret (f s, Ok tt).

(** Run [m] and hand its error to the caller instead of propagating it. *)
Definition try {A : Set} (m : go S A) : go S (result A) :=
  λ s, pbind (m s) (λ sr, Ret (sr.1, Ok sr.2)).

(** Turn an answer that carries an error into a Go error return. *)
Definition lift {A : Set} (r : result A) : go S A :=
  match r with Ok a => ret a | Err e => throw e end.

(** [if err != nil { return fmt.Errorf("pre: %w", err) }]. *)
Definition wrapf {A : Set} (pre : string) (m : go S A) : go S A :=
  λ s, pbind (m s) (λ sr,
    Ret (sr.1, match sr.2 with Ok a => Ok a | Err e => Err (ErrWrap pre e) end)).

(** [for _, x := range l { if err := f(x); err != nil { return err } }]. *)
Fixpoint forEach {X : Type} (l : list X) (f : X → go S unit) : go S unit :=
  match l with
  | [] => ret tt
  | x :: l => gbind (f x) (λ _, forEach l f)
  end.

Definition wpg {A : Set} (m : go S A) (s : S) (h : trace resp)
    (Φ : trace resp → S → result A → Prop) : Prop :=
  wp (m s) h (λ h' sr, Φ h' sr.1 sr.2).
End Go.

(** Run [m] on a part [T] of the state. *)
Definition zoom {S T : Type} {A : Set} (get : S → T) (put : T → S → S)
    (m : go T A) : go S A :=
  λ s, pbind (m (get s)) (λ tr, Ret (put tr.1 s, tr.2)).
End Logic.
Arguments go {R} resp S A.
Arguments handler {R} resp W.

Declare Scope go_scope.
Delimit Scope go_scope with go.
Notation "x <- m ;; k" := (gbind m (λ x, k))
  (at level 100, m at next level, right associativity) : go_scope.
Notation "m ;;; k" := (gbind m (λ _ : unit, k))
  (at level 100, right associativity) : go_scope.

Section GoRules.
Context {R : Set} {resp : R → Set} {S : Type}.
Implicit Types (s : S) (h : trace resp).

Lemma wpg_mono {A : Set} (m : go resp S A) s h (Φ Ψ : trace resp → S → result A → Prop) :
  (∀ h' s' r, Φ h' s' r → Ψ h' s' r) → wpg m s h Φ → wpg m s h Ψ.
Proof. intros H. apply wp_mono. intros h' sr. apply H. Qed.

Lemma wpg_and {A : Set} (m : go resp S A) s h (Φ Ψ : trace resp → S → result A → Prop) :
  wpg m s h Φ → wpg m s h Ψ → wpg m s h (λ h' s' r, Φ h' s' r ∧ Ψ h' s' r).
Proof. apply wp_and. Qed.

Lemma wpg_history {A : Set} (m : go resp S A) s h : wpg m s h (λ h' _ _, ∃ t, h' = h ++ t).
Proof. apply wp_history. Qed.

Lemma wpg_ret {A : Set} (a : A) s h Φ : Φ h s (Ok a) → wpg (ret a : go resp S A) s h Φ.
Proof. done. Qed.

Lemma wpg_throw {A : Set} e s h Φ : Φ h s (Err e) → wpg (throw e : go resp S A) s h Φ.
Proof. done. Qed.

Lemma wpg_bind {A B : Set} (m : go resp S A) (f : A → go resp S B) s h Φ :
  wpg m s h (λ h' s' r,
    match r with Ok a => wpg (f a) s' h' Φ | Err e => Φ h' s' (Err e) end) →
  wpg (gbind m f) s h Φ.
Proof.
  unfold wpg, gbind. intros H. apply wp_bind. eapply wp_mono; [|exact H].
  simpl. intros h' [s' [a|e]]; done.
Qed.

Lemma wpg_call (r : R) s h (Φ : trace resp → S → result (resp r) → Prop) :
  (∀ x, Φ (h ++ [Ev r x]) s (Ok x)) → wpg (call r) s h Φ.
Proof. done. Qed.

Lemma wpg_gets {A : Set} (f : S → A) s h Φ : Φ h s (Ok (f s)) → wpg (gets f : go resp S A) s h Φ.
Proof. done. Qed.

Lemma wpg_modify (f : S → S) s h Φ : Φ h (f s) (Ok tt) → wpg (modify f : go resp S unit) s h Φ.
Proof. done. Qed.

Lemma wpg_try {A : Set} (m : go resp S A) s h Φ :
  wpg m s h (λ h' s' r, Φ h' s' (Ok r)) → wpg (try m) s h Φ.
Proof. unfold wpg, try. intros H. by apply wp_bind. Qed.

Lemma wpg_lift {A : Set} (r : result A) s h Φ : Φ h s r → wpg (lift r : go resp S A) s h Φ.
Proof. by destruct r. Qed.

Lemma wpg_wrapf {A : Set} pre (m : go resp S A) s h Φ :
  wpg m s h (λ h' s' r,
    Φ h' s' match r with Ok a => Ok a | Err e => Err (ErrWrap pre e) end) →
  wpg (wrapf pre m) s h Φ.
Proof. unfold wpg, wrapf. intros H. by apply wp_bind. Qed.

Lemma wpg_zoom {T : Type} {A : Set} (get : S → T) (put : T → S → S) (m : go resp T A) s h Φ :
  wpg m (get s) h (λ h' t r, Φ h' (put t s) r) → wpg (zoom get put m) s h Φ.
Proof. unfold wpg, zoom. intros H. by apply wp_bind. Qed.

(** Loop rule: [I done] holds after the elements [done] were processed; an
    error leaves the loop in [Φ]. *)
Lemma wpg_forEach {X : Type} (I : list X → trace resp → S → Prop)
    (l : list X) (f : X → go resp S unit) s h Φ :
  (∀ done x rest s h, l = done ++ x :: rest → I done h s →
     wpg (f x) s h (λ h' s' r,
       match r with Ok _ => I (done ++ [x]) h' s' | Err e => Φ h' s' (Err e) end)) →
  I [] h s →
  (∀ h s, I l h s → Φ h s (Ok tt)) →
  wpg (forEach l f) s h Φ.
Proof.
  intros Hstep Hinit Hend.
  assert (∀ rest done s h, l = done ++ rest → I done h s →
    wpg (forEach rest f) s h Φ) as Hgen.
  { induction rest as [|x rest IH]; intros done s0 h0 -> HI; simpl.
    - apply wpg_ret. apply Hend. by rewrite app_nil_r.
    - apply wpg_bind. eapply wpg_mono; [|by eapply Hstep].
      simpl. intros h' s' [_|e] H; [|done].
      eapply IH; [|done]. by rewrite <- app_assoc. }
  by apply (Hgen l []).
Qed.

(** The common case: one invariant of the whole loop. *)
Lemma wpg_forEach_inv {X : Type} (I : trace resp → S → Prop)
    (l : list X) (f : X → go resp S unit) s h Φ :
  (∀ x s h, x ∈ l → I h s →
     wpg (f x) s h (λ h' s' r,
       match r with Ok _ => I h' s' | Err e => Φ h' s' (Err e) end)) →
  I h s →
  (∀ h s, I h s → Φ h s (Ok tt)) →
  wpg (forEach l f) s h Φ.
Proof.
  intros Hstep Hinit Hend.
  apply (wpg_forEach (λ _, I)); [|done|done].
  intros done x rest s0 h0 -> HI. apply Hstep; [set_solver|done].
Qed.

Lemma wpg_run {W : Type} {A : Set} (env : handler resp W) (m : go resp S A) s w w' t s' r Φ :
  wpg m s [] Φ → run env (m s) w = (w', t, (s', r)) → Φ t s' r.
Proof. intros H1 H2. apply (wp_run env _ _ _ _ _ _ H1 H2). Qed.
End GoRules.

(** ** Safety of every request

    [guarded P h]: each request of [h] was allowed by what had happened before. *)
Section Guarded.
Context {R : Set} {resp : R → Set}.
Implicit Types (P : trace resp → R → Prop) (h t : trace resp).

Definition guarded P h : Prop :=
  ∀ h1 e h2, h = h1 ++ e :: h2 → P h1 (ev_req e).

Lemma guarded_nil P : guarded P [].
Proof. intros h1 e h2 H. by destruct h1. Qed.

Lemma guarded_snoc P h e : guarded P h → P h (ev_req e) → guarded P (h ++ [e]).
Proof.
  intros Hh He h1 e' h2 Heq. destruct h2 as [|e2 h2 _] using rev_ind.
  - apply app_inj_tail in Heq as [-> ->]. done.
  - rewrite app_comm_cons, app_assoc in Heq. apply app_inj_tail in Heq as [-> ->].
    by eapply Hh.
Qed.

(** What is allowed stays allowed. *)
Definition lasting P : Prop := ∀ h t r, P h r → P (h ++ t) r.

Lemma guarded_app P h t :
  lasting P → guarded P h → (∀ e, e ∈ t → P h (ev_req e)) → guarded P (h ++ t).
Proof.
  intros HP Hh. revert h Hh. induction t as [|e t IH]; intros h Hh Ht; [by rewrite app_nil_r|].
  change (e :: t) with ([e] ++ t). rewrite app_assoc. apply IH.
  - apply guarded_snoc; [done|]. apply Ht. set_solver.
  - intros e' He'. apply HP, Ht. set_solver.
Qed.

(** A part of a run that keeps its own protocol [Q] keeps [P] as well. *)
Lemma guarded_prefix P Q h t :
  guarded P h → guarded Q t → (∀ t1 r, Q t1 r → P (h ++ t1) r) → guarded P (h ++ t).
Proof.
  intros Hh Ht HQ h1 e h2 Heq.
  apply app_eq_inv in Heq as [(k & -> & Hk)|(k & -> & ->)].
  - destruct k as [|e' k]; simpl in Hk.
    + specialize (HQ [] (ev_req e)). rewrite !app_nil_r in HQ. apply HQ. by apply (Ht [] e h2).
    + injection Hk as <- ->. by eapply Hh.
  - apply HQ. by eapply Ht.
Qed.

Lemma wpg_impl {S : Type} {A : Set} (m : go resp S A) s h (X : Prop)
    (Φ : trace resp → S → result A → Prop) :
  (X → wpg m s h Φ) → wpg m s h (λ h' s' r, X → Φ h' s' r).
Proof. apply wp_impl. Qed.

(** A claim about the runs whose events all satisfy [P] may assume it of the
    events so far. *)
Lemma wpg_forall {S : Type} {A : Set} (P : ev resp → Prop) (m : go resp S A) s h
    (Ψ : trace resp → S → result A → Prop) :
  (Forall P h → wpg m s h (λ h' s' r, Forall P h' → Ψ h' s' r)) →
  wpg m s h (λ h' s' r, Forall P h' → Ψ h' s' r).
Proof.
  intros H. apply wpg_impl in H. eapply wpg_mono; [|apply wpg_and; [exact H|apply wpg_history]].
  intros h' s' r [HΨ [t ->]] Hc. apply HΨ; [|done]. by apply Forall_app in Hc as [].
Qed.

(** Continue a run with a function whose runs were studied on their own. *)
Lemma wpg_after {S : Type} {A : Set} (m : go resp S A) s h
    (Ψ Φ : trace resp → S → result A → Prop) :
  wpg m s [] Ψ → (∀ t s' r, Ψ t s' r → Φ (h ++ t) s' r) → wpg m s h Φ.
Proof.
  intros Hm HΦ. apply wp_shift. eapply wp_mono; [|exact Hm]. intros t [s' r] H. by apply HΦ.
Qed.
End Guarded.

(** ** Programs in the middle of a run *)
Section Middle.
Context {R : Set} {resp : R → Set}.
Implicit Types (Q : ev resp → Prop) (P : trace resp → R → Prop) (h : trace resp).

(** When every request has an answer in [Q], every program can be run to its end. *)
Lemma wp_finish {A} Q (p : prog resp A) h Φ :
  (∀ r, ∃ x, Q (Ev r x)) → Forall Q h → wp p h Φ → ∃ t a, Forall Q (h ++ t) ∧ Φ (h ++ t) a.
Proof.
  intros HQ. revert h. induction p as [a|r k IH]; intros h Hh Hp; simpl in Hp.
  - exists [], a. by rewrite app_nil_r.
  - destruct (HQ r) as [x Hx]. destruct (IH x (h ++ [Ev r x])) as (t & a & Ht & HΦ); [|done|].
    { by apply Forall_app; split; [|apply Forall_singleton]. }
    exists (Ev r x :: t), a. by rewrite <- app_assoc in Ht, HΦ.
Qed.

(** A program that keeps the protocol [P] to its end keeps it with its next request. *)
Lemma guarded_request {A} Q P r (k : resp r → prog resp A) h :
  (∀ r, ∃ x, Q (Ev r x)) → Forall Q h →
  wp (Vis r k) h (λ h' _, Forall Q h' → guarded P h') → P h r.
Proof.
  intros HQ Hh Hp. destruct (HQ r) as [x Hx]. specialize (Hp x). cbn [wp] in Hp.
  destruct (wp_finish Q _ _ _ HQ ltac:(apply Forall_app; split; [exact Hh|by apply Forall_singleton]) Hp)
    as (t & a & Ht & HΦ). specialize (HΦ Ht). rewrite <- app_assoc in HΦ. by apply (HΦ h (Ev r x) t).
Qed.
End Middle.

(** One step of symbolic execution. *)
Ltac go_step :=
  lazymatch goal with
  | |- wpg (gbind _ _) _ _ _ => apply wpg_bind
  | |- wpg (ret _) _ _ _ => apply wpg_ret
  | |- wpg (throw _) _ _ _ => apply wpg_throw
  | |- wpg (call _) _ _ _ => apply wpg_call; intros ?
  | |- wpg (gets _) _ _ _ => apply wpg_gets
  | |- wpg (modify _) _ _ _ => apply wpg_modify
  | |- wpg (try _) _ _ _ => apply wpg_try
  | |- wpg (lift _) _ _ _ => apply wpg_lift
  | |- wpg (wrapf _ _) _ _ _ => apply wpg_wrapf
  | |- wpg (zoom _ _ _) _ _ _ => apply wpg_zoom
  end; cbv beta; cbn [fst snd].

(** Keep stepping, splitting every [match] and [if] on the way. *)
Ltac go_steps := repeat (go_step || split_match).
