(* ===== verification/Types.v ===== *)
(** * Types: the API objects

    The custom resources of [api/v1alpha1] with their constants, and the parts
    of the Kubernetes objects (Node, Secret, owner references, conditions,
    unstructured NodeClaims) that the operator reads or writes.  Fields of the
    Kubernetes objects that no code of the operator touches are left out. *)

From S2P Require Import Prelude.

(** ** Constants of api/v1alpha1/constants.go *)

Definition FinalizerPoolCleanup : string := "bootc.dev/pool-cleanup".
Definition LabelManaged : string := "bootc.dev/managed".
Definition AnnotationInRebootSlot : string := "bootc.dev/in-reboot-slot".
Definition AnnotationWasCordoned : string := "bootc.dev/was-cordoned".
Definition AnnotationLastObservedState : string := "bootc.dev/last-observed-state".
Definition AnnotationOwnsKarpenterDoNotRepair : string :=
  "bootc.dev/owns-karpenter-do-not-repair".
Definition AnnotationOwnsKarpenterDoNotDisrupt : string :=
  "bootc.dev/owns-karpenter-do-not-disrupt".
Definition AnnotationOwnsKarpenterNodeClaimDoNotRepair : string :=
  "bootc.dev/owns-karpenter-nodeclaim-do-not-repair".
Definition AnnotationOwnsKarpenterNodeClaimDoNotDisrupt : string :=
  "bootc.dev/owns-karpenter-nodeclaim-do-not-disrupt".
Definition TaintKeyOsNotReady : string := "bootc.dev/os-not-ready".
Definition AnnotationOwnsOsNotReadyTaint : string := "bootc.dev/owns-os-not-ready-taint".

(** ** Kubernetes objects *)

Definition ConditionTrue : string := "True".
Definition ConditionFalse : string := "False".
Definition ConditionUnknown : string := "Unknown".
Definition TaintEffectNoSchedule : string := "NoSchedule".
Definition NodeReady : string := "Ready".
Definition DockerConfigJsonKey : string := ".dockerconfigjson".
Definition SecretTypeDockerConfigJson : string := "kubernetes.io/dockerconfigjson".

Record OwnerReference : Set := mkOwnerReference {
  ref_apiVersion : string;
  ref_kind : string;
  ref_name : string;
  ref_uid : string;
  ref_controller : bool
}.

Record ObjectMeta : Set := mkObjectMeta {
  om_name : string;
  om_namespace : string;
  om_uid : string;
  om_generation : Z;
  om_labels : gomap;
  om_annotations : gomap;
  om_ownerReferences : list OwnerReference;
  om_finalizers : list string;
  om_deletionTimestamp : option Z
}.

(** [metav1.ObjectMeta{Name: name}]. *)
Definition newMeta (name : string) : ObjectMeta :=
  mkObjectMeta name "" "" 0 None None [] [] None.

Definition setAnnotations (a : gomap) (m : ObjectMeta) : ObjectMeta :=
  mkObjectMeta (om_name m) (om_namespace m) (om_uid m) (om_generation m)
    (om_labels m) a (om_ownerReferences m) (om_finalizers m) (om_deletionTimestamp m).

Definition setLabels (l : gomap) (m : ObjectMeta) : ObjectMeta :=
  mkObjectMeta (om_name m) (om_namespace m) (om_uid m) (om_generation m)
    l (om_annotations m) (om_ownerReferences m) (om_finalizers m) (om_deletionTimestamp m).

Definition setNamespace (ns : string) (m : ObjectMeta) : ObjectMeta :=
  mkObjectMeta (om_name m) ns (om_uid m) (om_generation m) (om_labels m)
    (om_annotations m) (om_ownerReferences m) (om_finalizers m) (om_deletionTimestamp m).

Definition setOwnerReferences (o : list OwnerReference) (m : ObjectMeta) : ObjectMeta :=
  mkObjectMeta (om_name m) (om_namespace m) (om_uid m) (om_generation m) (om_labels m)
    (om_annotations m) o (om_finalizers m) (om_deletionTimestamp m).

Definition setFinalizers (f : list string) (m : ObjectMeta) : ObjectMeta :=
  mkObjectMeta (om_name m) (om_namespace m) (om_uid m) (om_generation m) (om_labels m)
    (om_annotations m) (om_ownerReferences m) f (om_deletionTimestamp m).

(** [metav1.Condition]. *)
Record Condition : Set := mkCondition {
  c_type : string;
  c_status : string;
  c_reason : string;
  c_message : string;
  c_lastTransitionTime : option Z;   (* [None]: the zero time *)
  c_observedGeneration : Z
}.

Record Taint : Set := mkTaint {
  taint_key : string;
  taint_value : string;
  taint_effect : string
}.

Record NodeCondition : Set := mkNodeCondition {
  nc_type : string;
  nc_status : string
}.

(** [corev1.Node]. *)
Record Node : Set := mkNode {
  node_meta : ObjectMeta;
  node_unschedulable : bool;
  node_taints : list Taint;
  node_conditions : list NodeCondition
}.

Definition node_name (n : Node) : string := om_name (node_meta n).
Definition node_annotations (n : Node) : gomap := om_annotations (node_meta n).

Definition setNodeMeta (m : ObjectMeta) (n : Node) : Node :=
  mkNode m (node_unschedulable n) (node_taints n) (node_conditions n).
Definition setNodeAnnotations (a : gomap) (n : Node) : Node :=
  setNodeMeta (setAnnotations a (node_meta n)) n.
Definition setNodeLabels (l : gomap) (n : Node) : Node :=
  setNodeMeta (setLabels l (node_meta n)) n.
Definition setUnschedulable (b : bool) (n : Node) : Node :=
  mkNode (node_meta n) b (node_taints n) (node_conditions n).
Definition setTaints (t : list Taint) (n : Node) : Node :=
  mkNode (node_meta n) (node_unschedulable n) t (node_conditions n).

(** [corev1.Secret]. *)
Record Secret : Set := mkSecret {
  secret_meta : ObjectMeta;
  secret_type : string;
  secret_data : gomap
}.

(** A JSON value, the content of an unstructured object. *)
Inductive json : Set :=
| JNull
| JBool (b : bool)
| JNumber (z : Z)
| JString (s : string)
| JArray (l : list json)
| JObject (fields : list (string * json)).

(** [metav1.LabelSelector]. *)
Record LabelSelectorRequirement : Set := mkRequirement {
  req_key : string; req_operator : string; req_values : list string }.
Record LabelSelector : Set := mkLabelSelector {
  matchLabels : gomap; matchExpressions : list LabelSelectorRequirement }.

(** [labels.Selector], an interface used through its [Matches] method. *)
Definition Selector : Set := gomap → bool.

(** [intstr.IntOrString]. *)
Inductive IntOrString : Set := IntVal (z : Z) | StrVal (s : string).

(** [reference.Named], an interface used through [String] and, when it is a
    [reference.Digested], the string of its digest. *)
Record Named : Set := mkNamed {
  named_String : string;
  named_digest : option string
}.

(** ** BootcNode (api/v1alpha1/bootcnode_types.go) *)

Definition NodeIdle : string := "Idle".
Definition NodeDegraded : string := "Degraded".
Definition NodeReasonIdle : string := "Idle".
Definition NodeReasonStaging : string := "Staging".
Definition NodeReasonStaged : string := "Staged".
Definition NodeReasonRebooting : string := "Rebooting".
Definition NodeReasonError : string := "Error".
Definition NodeReasonHealthy : string := "Healthy".

(** [DesiredImageState] is a string type; the two declared values. *)
Definition DesiredImageStateStaged : string := "Staged".
Definition DesiredImageStateBooted : string := "Booted".

Record ImageInfo : Set := mkImageInfo {
  Image : string;
  ImageDigest : string;
  Version : string;
  Timestamp : option Z;
  Architecture : string;
  SoftRebootCapable : bool;
  Incompatible : bool
}.

Record PullSecretRef : Set := mkPullSecretRef {
  psr_name : string;
  psr_namespace : string
}.

(** [RebootPolicy] is a string type; the empty string is "unset". *)
Definition RebootPolicyRebootOnly : string := "RebootOnly".
Definition RebootPolicyAllowSoftReboot : string := "AllowSoftReboot".

Record BootcNodeSpec : Set := mkBootcNodeSpec {
  DesiredImage : string;
  DesiredImageState : string;
  bns_PullSecretRef : option PullSecretRef;
  PullSecretHash : string;
  bns_RebootPolicy : string
}.

Record BootcNodeStatus : Set := mkBootcNodeStatus {
  bns_ObservedGeneration : Z;
  Booted : option ImageInfo;
  Staged : option ImageInfo;
  Rollback : option ImageInfo;
  bns_Conditions : list Condition
}.

Record BootcNode : Set := mkBootcNode {
  bn_meta : ObjectMeta;
  bn_spec : BootcNodeSpec;
  bn_status : BootcNodeStatus
}.

Definition bn_name (b : BootcNode) : string := om_name (bn_meta b).
Definition bn_annotations (b : BootcNode) : gomap := om_annotations (bn_meta b).
Definition setBNMeta (m : ObjectMeta) (b : BootcNode) : BootcNode :=
  mkBootcNode m (bn_spec b) (bn_status b).
Definition setBNAnnotations (a : gomap) (b : BootcNode) : BootcNode :=
  setBNMeta (setAnnotations a (bn_meta b)) b.
Definition setBNSpec (sp : BootcNodeSpec) (b : BootcNode) : BootcNode :=
  mkBootcNode (bn_meta b) sp (bn_status b).
Definition setBNStatus (st : BootcNodeStatus) (b : BootcNode) : BootcNode :=
  mkBootcNode (bn_meta b) (bn_spec b) st.
Definition setDesiredImageState (s : string) (b : BootcNode) : BootcNode :=
  let sp := bn_spec b in
  setBNSpec (mkBootcNodeSpec (DesiredImage sp) s (bns_PullSecretRef sp)
    (PullSecretHash sp) (bns_RebootPolicy sp)) b.
Definition setBNConditions (c : list Condition) (b : BootcNode) : BootcNode :=
  let st := bn_status b in
  setBNStatus (mkBootcNodeStatus (bns_ObservedGeneration st) (Booted st) (Staged st)
    (Rollback st) c) b.

(** ** BootcNodePool (api/v1alpha1/bootcnodepool_types.go) *)

Definition PoolUpToDate : string := "UpToDate".
Definition PoolDegraded : string := "Degraded".
Definition PoolAllUpdated : string := "AllUpdated".
Definition PoolRolloutInProgress : string := "RolloutInProgress".
Definition PoolPaused : string := "Paused".
Definition PoolNodeConflict : string := "NodeConflict".
Definition PoolNodeDegraded : string := "NodeDegraded".
Definition PoolRolloutHalted : string := "RolloutHalted".
Definition PoolInvalidSpec : string := "InvalidSpec".
Definition PoolTagResolutionError : string := "TagResolutionError".
Definition PoolSecretError : string := "SecretError".
Definition PoolHealthy : string := "Healthy".

Record RolloutSpec : Set := mkRolloutSpec {
  MaxUnavailable : option IntOrString;
  Paused : bool;
  DrainTimeoutSeconds : option Z;    (* *int32 *)
  RebootTimeoutSeconds : option Z    (* *int32 *)
}.

Record DisruptionSpec : Set := mkDisruptionSpec { RebootPolicy : string }.

Record BootcNodePoolSpec : Set := mkBootcNodePoolSpec {
  NodeSelector : option LabelSelector;
  ImageRef : string;                 (* spec.image.ref *)
  Rollout : option RolloutSpec;
  Disruption : option DisruptionSpec;
  bnp_PullSecretRef : option PullSecretRef
}.

Record BootcNodePoolStatus : Set := mkBootcNodePoolStatus {
  ObservedGeneration : Z;
  TargetDigest : string;
  NextTagResolutionTime : option Z;
  DeployedDigest : string;
  UpdateAvailable : bool;
  NodeCount : Z;                     (* int32 *)
  UpdatedCount : Z;                  (* int32 *)
  UpdatingCount : Z;                 (* int32 *)
  DegradedCount : Z;                 (* int32 *)
  Conditions : list Condition
}.

Record BootcNodePool : Set := mkBootcNodePool {
  pool_meta : ObjectMeta;
  pool_spec : BootcNodePoolSpec;
  pool_status : BootcNodePoolStatus
}.

Definition pool_name (p : BootcNodePool) : string := om_name (pool_meta p).
Definition pool_conditions (p : BootcNodePool) : list Condition := Conditions (pool_status p).
Definition setPoolMeta (m : ObjectMeta) (p : BootcNodePool) : BootcNodePool :=
  mkBootcNodePool m (pool_spec p) (pool_status p).
Definition setPoolStatus (st : BootcNodePoolStatus) (p : BootcNodePool) : BootcNodePool :=
  mkBootcNodePool (pool_meta p) (pool_spec p) st.
Definition setConditions (c : list Condition) (p : BootcNodePool) : BootcNodePool :=
  let st := pool_status p in
  setPoolStatus (mkBootcNodePoolStatus (ObservedGeneration st) (TargetDigest st)
    (NextTagResolutionTime st) (DeployedDigest st) (UpdateAvailable st) (NodeCount st)
    (UpdatedCount st) (UpdatingCount st) (DegradedCount st) c) p.
Definition setTargetDigest (d : string) (p : BootcNodePool) : BootcNodePool :=
  let st := pool_status p in
  setPoolStatus (mkBootcNodePoolStatus (ObservedGeneration st) d
    (NextTagResolutionTime st) (DeployedDigest st) (UpdateAvailable st) (NodeCount st)
    (UpdatedCount st) (UpdatingCount st) (DegradedCount st) (Conditions st)) p.
Definition setNextTagResolutionTime (t : option Z) (p : BootcNodePool) : BootcNodePool :=
  let st := pool_status p in
  setPoolStatus (mkBootcNodePoolStatus (ObservedGeneration st) (TargetDigest st)
    t (DeployedDigest st) (UpdateAvailable st) (NodeCount st)
    (UpdatedCount st) (UpdatingCount st) (DegradedCount st) (Conditions st)) p.

(** ** Karpenter NodeClaim (internal/karpenter/nodeclaim.go)

    The wrapper embeds an unstructured object: metadata plus the raw content.
    The type meta is kept, since [NewNodeClaimFromUnstructured] validates it. *)
Record NodeClaim : Set := mkNodeClaim {
  nc_apiVersion : string;
  nc_kind : string;
  nc_meta : ObjectMeta;
  nc_Object : json
}.

Definition nc_annotations (c : NodeClaim) : gomap := om_annotations (nc_meta c).
Definition setNCAnnotations (a : gomap) (c : NodeClaim) : NodeClaim :=
  mkNodeClaim (nc_apiVersion c) (nc_kind c) (setAnnotations a (nc_meta c)) (nc_Object c).

(** ** Decidable equality ([reflect.DeepEqual] on the status structs) *)

#[export] Instance OwnerReference_eq_dec : EqDecision OwnerReference.
Proof. solve_decision. Defined.
#[export] Instance ObjectMeta_eq_dec : EqDecision ObjectMeta.
Proof. solve_decision. Defined.
#[export] Instance Condition_eq_dec : EqDecision Condition.
Proof. solve_decision. Defined.
#[export] Instance Taint_eq_dec : EqDecision Taint.
Proof. solve_decision. Defined.
#[export] Instance NodeCondition_eq_dec : EqDecision NodeCondition.
Proof. solve_decision. Defined.
#[export] Instance Node_eq_dec : EqDecision Node.
Proof. solve_decision. Defined.
#[export] Instance ImageInfo_eq_dec : EqDecision ImageInfo.
Proof. solve_decision. Defined.
#[export] Instance PullSecretRef_eq_dec : EqDecision PullSecretRef.
Proof. solve_decision. Defined.
#[export] Instance BootcNodeSpec_eq_dec : EqDecision BootcNodeSpec.
Proof. solve_decision. Defined.
#[export] Instance BootcNodeStatus_eq_dec : EqDecision BootcNodeStatus.
Proof. solve_decision. Defined.
#[export] Instance BootcNode_eq_dec : EqDecision BootcNode.
Proof. solve_decision. Defined.
#[export] Instance BootcNodePoolStatus_eq_dec : EqDecision BootcNodePoolStatus.
Proof. solve_decision. Defined.
