(* ===== verification/Library.v ===== *)
(** * Library: the third-party code the operator calls

    The sources under [src/] call apimachinery, controller-runtime and the
    distribution reference parser.  Their code is not part of the repository:
    [Lib] has one field per function the operator uses, and [LibLaws] states
    the documented behaviour that the theorems rely on.  The definitions of the
    other files take a [Lib]; the theorems that need it take [LibLaws].
    [LibModel] instantiates both. *)

From Stdlib Require Import Ascii.
From S2P Require Import Prelude Types.

Class Lib : Type := {
  (** github.com/distribution/reference *)
  ParseNamed : string → result Named;
  TrimNamed : Named → Named;
  (** k8s.io/apimachinery/pkg/util/intstr *)
  GetScaledValueFromIntOrPercent : IntOrString → Z → bool → result Z;
  (** k8s.io/apimachinery/pkg/api/meta; [SetStatusCondition] reads the clock,
      its first argument here. *)
  FindStatusCondition : list Condition → string → option Condition;
  SetStatusCondition : Z → list Condition → Condition → list Condition;
  IsStatusConditionTrue : list Condition → string → bool;
  IsStatusConditionFalse : list Condition → string → bool;
  (** k8s.io/apimachinery/pkg/apis/meta/v1 *)
  HasAnnotation : ObjectMeta → string → bool;
  SetMetaDataAnnotation : ObjectMeta → string → string → ObjectMeta;
  IsControlledBy : ObjectMeta → ObjectMeta → bool;
  GetControllerOf : ObjectMeta → option OwnerReference;
  LabelSelectorAsSelector : option LabelSelector → result Selector;
  (** k8s.io/apimachinery/pkg/apis/meta/v1/unstructured *)
  NestedString : json → list string → result (option string);
  NestedSlice : json → list string → result (option (list json));
  (** k8s.io/apimachinery/pkg/util/validation: the list of problems *)
  IsDNS1123Label : string → list string;
  (** sigs.k8s.io/controller-runtime/pkg/controller/controllerutil *)
  ContainsFinalizer : ObjectMeta → string → bool;
  AddFinalizer : ObjectMeta → string → ObjectMeta;
  RemoveFinalizer : ObjectMeta → string → ObjectMeta;
  (** owner kind, owner, controlled object *)
  SetControllerReference : string → ObjectMeta → ObjectMeta → result ObjectMeta
}.

(** The condition [SetStatusCondition] stores: the new one, keeping the old
    transition time unless the status changed. *)
Definition mergedCondition (now : Z) (old : option Condition) (c : Condition) : Condition :=
  let fresh := default now (c_lastTransitionTime c) in
  let ltt :=
    match old with
    | Some o => if c_status o =s c_status c then c_lastTransitionTime o else Some fresh
    | None => Some fresh
    end in
  mkCondition (c_type c) (c_status c) (c_reason c) (c_message c) ltt
    (c_observedGeneration c).

(** A digest as the reference grammar accepts it: the digest of some reference
    that parses. *)
Definition valid_digest `{Lib} (d : string) : Prop :=
  ∃ s n, ParseNamed s = Ok n ∧ named_digest n = Some d.

(** A character of an RFC 1123 label. *)
Definition label_char (a : ascii) : bool :=
  let n := N_of_ascii a in
  ((97 <=? n)%N && (n <=? 122)%N) || ((48 <=? n)%N && (n <=? 57)%N) || (n =? 45)%N.

(** Follow the fields of nested JSON objects. *)
Fixpoint json_field (fields : list (string * json)) (k : string) : option json :=
  match fields with
  | [] => None
  | (k', v) :: fields => if k =s k' then Some v else json_field fields k
  end.

Fixpoint json_path (j : json) (path : list string) : option json :=
  match path with
  | [] => Some j
  | k :: path =>
      match j with
      | JObject fields => json_field fields k ≫= λ v, json_path v path
      | _ => None
      end
  end.

Class LibLaws (L : Lib) : Prop := {
  (** "name [":" tag] ["@" digest]": trimming a reference leaves its name, and
      appending a digest gives a canonical reference with that digest. *)
  parse_trim_digest s n d :
    ParseNamed s = Ok n → valid_digest d →
    ∃ n', ParseNamed (named_String (TrimNamed n) +:+ "@" +:+ d) = Ok n' ∧
          named_digest n' = Some d;
  (** only canonical references are accepted: the reference prints as its input *)
  parse_canonical s n : ParseNamed s = Ok n → named_String n = s;
  (** An int is taken as it is; "n%" is scaled to the total and rounded up
      when asked to; any other string is an error. *)
  scaled_int z total up : GetScaledValueFromIntOrPercent (IntVal z) total up = Ok z;
  find_in cs t c : FindStatusCondition cs t = Some c → c ∈ cs ∧ c_type c = t;
  find_nil t : FindStatusCondition [] t = None;
  find_set_eq now cs c :
    FindStatusCondition (SetStatusCondition now cs c) (c_type c) =
      Some (mergedCondition now (FindStatusCondition cs (c_type c)) c);
  find_set_ne now cs c t :
    t ≠ c_type c →
    FindStatusCondition (SetStatusCondition now cs c) t = FindStatusCondition cs t;
  (** the condition of the type is updated or one is added, the others stay *)
  set_in now cs c c' :
    c' ∈ SetStatusCondition now cs c →
    c' ∈ cs ∨ c' = mergedCondition now (FindStatusCondition cs (c_type c)) c;
  set_types now cs c :
    NoDup (c_type <$> cs) → NoDup (c_type <$> SetStatusCondition now cs c);
  is_true_spec cs t :
    IsStatusConditionTrue cs t = true ↔
      ∃ c, FindStatusCondition cs t = Some c ∧ c_status c = ConditionTrue;
  is_false_spec cs t :
    IsStatusConditionFalse cs t = true ↔
      ∃ c, FindStatusCondition cs t = Some c ∧ c_status c = ConditionFalse;
  has_annotation_spec m k : HasAnnotation m k = GoMap.has (om_annotations m) k;
  set_annotation_spec m k v :
    SetMetaDataAnnotation m k v = setAnnotations (GoMap.set (om_annotations m) k v) m;
  controller_of_spec m :
    GetControllerOf m = List.find ref_controller (om_ownerReferences m);
  controlled_by_spec m owner :
    IsControlledBy m owner = true ↔
      ∃ r, GetControllerOf m = Some r ∧ ref_uid r = om_uid owner;
  (** on an object without owners, the only case the code meets *)
  set_controller_spec kind owner m :
    om_ownerReferences m = [] →
    ∃ r, SetControllerReference kind owner m = Ok (setOwnerReferences [r] m) ∧
         ref_controller r = true ∧ ref_uid r = om_uid owner ∧
         ref_name r = om_name owner ∧ ref_kind r = kind;
  (** a label without problems consists of lower case letters, digits and '-' *)
  dns_label_chars s :
    IsDNS1123Label s = [] → forallb label_char (String.list_ascii_of_string s) = true;
  contains_finalizer_spec m f : ContainsFinalizer m f = true ↔ f ∈ om_finalizers m;
  add_finalizer_spec m f : f ∈ om_finalizers (AddFinalizer m f);
  remove_finalizer_spec m f :
    RemoveFinalizer m f =
      setFinalizers (List.filter (λ g, negb (g =s f)) (om_finalizers m)) m;
  (** A value that is found with the right type is returned; a missing one is
      "not found"; one of another type is an error. *)
  nested_string_spec j p s : json_path j p = Some (JString s) → NestedString j p = Ok (Some s);
  nested_string_absent j k fields :
    j = JObject fields → json_field fields k = None → ∀ p, NestedString j (k :: p) = Ok None;
  nested_slice_spec j p l : json_path j p = Some (JArray l) → NestedSlice j p = Ok (Some l);
  nested_slice_absent j k fields :
    j = JObject fields → json_field fields k = None → ∀ p, NestedSlice j (k :: p) = Ok None
}.

Section LibFacts.
Context {L : Lib} {HL : LibLaws L}.

Lemma find_set now cs c t :
  FindStatusCondition (SetStatusCondition now cs c) t =
    if decide (t = c_type c)
    then Some (mergedCondition now (FindStatusCondition cs t) c)
    else FindStatusCondition cs t.
Proof.
  case_decide as E; [subst; apply find_set_eq|by apply find_set_ne].
Qed.

Lemma is_true_find cs t c :
  FindStatusCondition cs t = Some c →
  IsStatusConditionTrue cs t = (c_status c =s ConditionTrue).
Proof.
  intros H. apply eq_true_iff_eq. rewrite is_true_spec, seq_b_true, H. naive_solver.
Qed.

Lemma is_true_none cs t :
  FindStatusCondition cs t = None → IsStatusConditionTrue cs t = false.
Proof.
  intros H. apply not_true_iff_false. rewrite is_true_spec, H. naive_solver.
Qed.

Lemma is_false_find cs t c :
  FindStatusCondition cs t = Some c →
  IsStatusConditionFalse cs t = (c_status c =s ConditionFalse).
Proof.
  intros H. apply eq_true_iff_eq. rewrite is_false_spec, seq_b_true, H. naive_solver.
Qed.

Lemma is_false_none cs t :
  FindStatusCondition cs t = None → IsStatusConditionFalse cs t = false.
Proof.
  intros H. apply not_true_iff_false. rewrite is_false_spec, H. naive_solver.
Qed.
End LibFacts.

#[export] Hint Rewrite @find_set_eq using apply _ : bootc_simpl.
