(* ===== verification/LibModel.v ===== *)
(** * LibModel: a concrete library

    An executable [Lib] that satisfies [LibLaws], so that every theorem about
    "any library with the documented behaviour" has an instance and every
    witness can be evaluated.  It is not the real code of those packages: its
    reference parser only separates name, tag and digest. *)

From Stdlib Require Import Ascii.
From S2P Require Import Prelude Types Library.

Module LibModel.

(** Split a string at the first occurrence of a character. *)
Fixpoint cut (c : ascii) (s : string) : option (string * string) :=
  match s with
  | EmptyString => None
  | String a s =>
      if bool_decide (a = c) then Some ("", s)
      else match cut c s with
           | Some (l, r) => Some (String a l, r)
           | None => None
           end
  end.

Abbreviation at_sign := ("@"%char).

Definition parse_named (s : string) : result Named :=
  match cut at_sign s with
  | None => if s =s "" then Err (ErrString "invalid reference format")
            else Ok (mkNamed s None)
  | Some (n, d) =>
      if (n =s "") || (d =s "") then Err (ErrString "invalid reference format")
      else Ok (mkNamed s (Some d))
  end.

Definition trim_named (n : Named) : Named :=
  match cut at_sign (named_String n) with
  | Some (p, _) => mkNamed p None
  | None =>
      match cut ":"%char (named_String n) with
      | Some (p, _) => mkNamed (if p =s "" then named_String n else p) None
      | None => n
      end
  end.

Fixpoint read_digits (s : string) (acc : Z) : option (Z * string) :=
  match s with
  | EmptyString => Some (acc, "")
  | String a s' =>
      let n := Z.of_N (Ascii.N_of_ascii a) in
      if (48 <=? n)%Z && (n <=? 57)%Z then read_digits s' (10 * acc + (n - 48))%Z
      else Some (acc, s)
  end.

Definition scaled (v : IntOrString) (total : Z) (up : bool) : result Z :=
  match v with
  | IntVal z => Ok z
  | StrVal s =>
      match read_digits s 0 with
      | Some (n, "%") =>
          Ok (if up then (n * total + 99) / 100 else n * total / 100)%Z
      | _ => Err (ErrString "invalid value for IntOrString")
      end
  end.

Definition find_condition (cs : list Condition) (t : string) : option Condition :=
  List.find (λ c, c_type c =s t) cs.

Fixpoint set_condition (now : Z) (cs : list Condition) (c : Condition) : list Condition :=
  match cs with
  | [] => [mergedCondition now None c]
  | o :: cs => if c_type o =s c_type c then mergedCondition now (Some o) c :: cs
               else o :: set_condition now cs c
  end.

Definition condition_is (st : string) (cs : list Condition) (t : string) : bool :=
  match find_condition cs t with Some c => c_status c =s st | None => false end.

Definition controller_of (m : ObjectMeta) : option OwnerReference :=
  List.find ref_controller (om_ownerReferences m).

(** Only [matchLabels] selectors; any expression is "invalid". *)
Definition as_selector (s : option LabelSelector) : result Selector :=
  match s with
  | None => Ok (λ _, false)
  | Some sel =>
      match matchExpressions sel with
      | [] => Ok (λ labels,
                forallb (λ kv, bool_decide (GoMap.lookup labels kv.1 = Some kv.2))
                  (map_to_list (default ∅ (matchLabels sel))))
      | _ => Err (ErrString "invalid label selector operator")
      end
  end.

Definition nested_string (j : json) (p : list string) : result (option string) :=
  match json_path j p with
  | Some (JString s) => Ok (Some s)
  | Some _ => Err (ErrString "accessor error: not a string")
  | None => Ok None
  end.

Definition nested_slice (j : json) (p : list string) : result (option (list json)) :=
  match json_path j p with
  | Some (JArray l) => Ok (Some l)
  | Some _ => Err (ErrString "accessor error: not a slice")
  | None => Ok None
  end.

Definition dns1123 (s : string) : list string :=
  (if (63 <? String.length s)%nat then ["must be no more than 63 characters"] else []) ++
  (let bytes := String.list_ascii_of_string s in
   let alnum a := label_char a && negb (bool_decide (a = "-"%char)) in
   let first_ok := match bytes with a :: _ => alnum a | [] => false end in
   let last_ok := match last bytes with Some a => alnum a | None => false end in
   if forallb label_char bytes && first_ok && last_ok then []
   else ["a lowercase RFC 1123 label must consist of lower case alphanumeric characters or '-', and must start and end with an alphanumeric character"]).

#[export] Instance lib : Lib := {|
  ParseNamed := parse_named;
  TrimNamed := trim_named;
  GetScaledValueFromIntOrPercent := scaled;
  FindStatusCondition := find_condition;
  SetStatusCondition := set_condition;
  IsStatusConditionTrue := condition_is ConditionTrue;
  IsStatusConditionFalse := condition_is ConditionFalse;
  HasAnnotation m k := GoMap.has (om_annotations m) k;
  SetMetaDataAnnotation m k v := setAnnotations (GoMap.set (om_annotations m) k v) m;
  IsControlledBy m o :=
    match controller_of m with Some r => ref_uid r =s om_uid o | None => false end;
  GetControllerOf := controller_of;
  LabelSelectorAsSelector := as_selector;
  NestedString := nested_string;
  NestedSlice := nested_slice;
  IsDNS1123Label := dns1123;
  ContainsFinalizer m f := existsb (λ g, g =s f) (om_finalizers m);
  AddFinalizer m f :=
    if existsb (λ g, g =s f) (om_finalizers m) then m
    else setFinalizers (om_finalizers m ++ [f]) m;
  RemoveFinalizer m f :=
    setFinalizers (List.filter (λ g, negb (g =s f)) (om_finalizers m)) m;
  SetControllerReference kind owner m :=
    match controller_of m with
    | Some _ => Err (ErrString "already owned by another controller")
    | None =>
        Ok (setOwnerReferences
              (om_ownerReferences m ++
                 [mkOwnerReference "node.bootc.dev/v1alpha1" kind (om_name owner) (om_uid owner) true]) m)
    end
|}.

(** ** The laws hold *)

Lemma cut_eq c s l r : cut c s = Some (l, r) → s = l +:+ String c r.
Proof.
  revert l. induction s as [|a s IH]; intros l; simpl; [done|].
  case_bool_decide as Ha; [intros [= <- <-]; by subst|].
  destruct (cut c s) as [[l' r']|]; [|done]. intros [= <- <-].
  by rewrite (IH l' eq_refl).
Qed.

Lemma cut_no_sep c s l r r' : cut c s = Some (l, r) → cut c (l +:+ String c r') = Some (l, r').
Proof.
  revert l. induction s as [|a s IH]; intros l; simpl; [done|].
  case_bool_decide as Ha.
  - intros [= <- <-]. simpl. by rewrite bool_decide_true by done.
  - destruct (cut c s) as [[l' r2]|]; [|done]. intros [= <- <-].
    simpl. rewrite bool_decide_false by done. by rewrite (IH l' eq_refl).
Qed.

Lemma cut_none c s r : cut c s = None → cut c (s +:+ String c r) = Some (s, r).
Proof.
  induction s as [|a s IH]; simpl.
  - by rewrite bool_decide_true by done.
  - case_bool_decide; [done|]. destruct (cut c s) as [[]|]; [done|].
    intros _. by rewrite IH.
Qed.

Lemma cut_prefix_none c c' s l r : cut c s = None → cut c' s = Some (l, r) → cut c l = None.
Proof.
  revert l. induction s as [|a s IH]; intros l; simpl; [done|].
  case_bool_decide as Ha; [done|]. destruct (cut c s) as [[]|] eqn:Ec; [done|].
  intros _. case_bool_decide; [by intros [= <- <-]|].
  destruct (cut c' s) as [[l' r']|]; [|done]. intros [= <- <-].
  simpl. rewrite bool_decide_false by done. by rewrite (IH l').
Qed.

Lemma parse_named_ok s n :
  parse_named s = Ok n →
  named_String n = s ∧ s ≠ "" ∧
  (∀ d, named_digest n = Some d → d ≠ "") ∧
  (∀ l r, cut at_sign s = Some (l, r) → l ≠ "").
Proof.
  unfold parse_named. destruct (cut at_sign s) as [[l r]|] eqn:Ec.
  - destruct (l =s "") eqn:El; [done|]. destruct (r =s "") eqn:Er; [done|]. simpl.
    rewrite seq_b_false in El, Er. intros [= <-]; simpl. split_and!; [done| |naive_solver|naive_solver].
    by intros ->.
  - destruct (s =s "") eqn:Es; [done|]. rewrite seq_b_false in Es. intros [= <-]. naive_solver.
Qed.

(** The trimmed name is non-empty and has no ["@"]. *)
Lemma trim_named_clean s n :
  parse_named s = Ok n →
  named_String (trim_named n) ≠ "" ∧ cut at_sign (named_String (trim_named n)) = None.
Proof.
  intros H. apply parse_named_ok in H as (Hs & Hne & _ & Hl). unfold trim_named. rewrite Hs.
  destruct (cut at_sign s) as [[l r]|] eqn:Ec; simpl.
  - split; [by eapply Hl|]. clear -Ec. revert l Ec.
    induction s as [|a s IH]; intros l; simpl; [done|].
    case_bool_decide; [by intros [= <- <-]|].
    destruct (cut at_sign s) as [[l' r']|]; [|done]. intros [= <- <-]. simpl.
    rewrite bool_decide_false by done. by rewrite (IH l').
  - destruct (cut ":"%char s) as [[p q]|] eqn:Ed; simpl; [|by rewrite Hs].
    destruct (p =s "") eqn:Ep; [by rewrite ?Hs|]. rewrite seq_b_false in Ep.
    split; [done|]. by eapply cut_prefix_none.
Qed.

Lemma parse_trim s n d :
  parse_named s = Ok n → d ≠ "" →
  parse_named (named_String (trim_named n) +:+ "@" +:+ d) =
    Ok (mkNamed (named_String (trim_named n) +:+ "@" +:+ d) (Some d)).
Proof.
  intros H Hd. destruct (trim_named_clean _ _ H) as [Hne Hc].
  unfold parse_named. change ("@" +:+ d) with (String at_sign d).
  rewrite (cut_none at_sign _ d) by done.
  apply seq_b_false in Hne, Hd. by rewrite Hne, Hd.
Qed.

Lemma find_condition_in cs t c :
  find_condition cs t = Some c → c ∈ cs ∧ c_type c = t.
Proof.
  intros [Hin Ht]%List.find_some. split; [by apply list_elem_of_In|by apply seq_b_true].
Qed.

Lemma set_condition_in now cs c c' :
  c' ∈ set_condition now cs c → c' ∈ cs ∨ c' = mergedCondition now (find_condition cs (c_type c)) c.
Proof.
  unfold find_condition. induction cs as [|o cs IH]; simpl; [set_solver|].
  destruct (c_type o =s c_type c); set_solver.
Qed.

Lemma set_condition_types now cs c :
  NoDup (c_type <$> cs) → NoDup (c_type <$> set_condition now cs c).
Proof.
  induction cs as [|o cs IH]; simpl; [intros _; apply NoDup_singleton|].
  intros [Hn Hd]%NoDup_cons. destruct (c_type o =s c_type c) eqn:E; simpl.
  - apply seq_b_true in E. apply NoDup_cons. rewrite <- E. done.
  - apply seq_b_false in E. apply NoDup_cons. split.
    + intros (c' & Hc & [?| ->]%set_condition_in)%list_elem_of_fmap; [|done].
      destruct Hn. rewrite Hc. by apply list_elem_of_fmap_2.
    + by apply IH.
Qed.

Lemma find_set_condition now cs c t :
  find_condition (set_condition now cs c) t =
    if decide (t = c_type c)
    then Some (mergedCondition now (find_condition cs t) c)
    else find_condition cs t.
Proof.
  induction cs as [|o cs IH]; simpl.
  - case_decide as E; [subst; by rewrite seq_b_refl|].
    rewrite (proj2 (seq_b_false _ _)); [done|congruence].
  - destruct (c_type o =s c_type c) eqn:Eo; simpl.
    + apply seq_b_true in Eo. rewrite Eo. case_decide as E.
      * subst. by rewrite seq_b_refl.
      * by rewrite (proj2 (seq_b_false _ _)) by congruence.
    + destruct (c_type o =s t) eqn:Et.
      * apply seq_b_true in Et. apply seq_b_false in Eo. by rewrite decide_False by congruence.
      * apply IH.
Qed.

Lemma condition_is_spec st cs t :
  condition_is st cs t = true ↔ ∃ c, find_condition cs t = Some c ∧ c_status c = st.
Proof.
  unfold condition_is. destruct (find_condition cs t); [|naive_solver].
  rewrite seq_b_true. naive_solver.
Qed.

Lemma existsb_elem (l : list string) f : existsb (λ g, g =s f) l = true ↔ f ∈ l.
Proof.
  rewrite List.existsb_exists. setoid_rewrite seq_b_true. rewrite list_elem_of_In. naive_solver.
Qed.

#[export] Instance lib_laws : LibLaws lib.
Proof.
  split; simpl.
  - intros s n d Hn (s' & n' & Hn' & Hd). eexists. split; [apply (parse_trim _ _ _ Hn)|done].
    apply parse_named_ok in Hn' as (_ & _ & Hne & _). by apply Hne.
  - intros s n. unfold parse_named. repeat split_match; try done; by intros [= <-].
  - done.
  - apply find_condition_in.
  - done.
  - intros. rewrite find_set_condition. by rewrite decide_True.
  - intros. rewrite find_set_condition. by rewrite decide_False.
  - intros now cs c c' Hin. by apply set_condition_in.
  - intros now cs c Hd. by apply set_condition_types.
  - intros. apply condition_is_spec.
  - intros. apply condition_is_spec.
  - done.
  - done.
  - done.
  - intros m o. destruct (controller_of m); [rewrite seq_b_true|]; naive_solver.
  - intros kind owner m Hm. unfold controller_of. rewrite Hm. eexists. split; [done|]. done.
  - intros s. unfold dns1123. destruct (63 <? String.length s); [done|]. simpl.
    by destruct (forallb label_char (String.list_ascii_of_string s)).
  - intros. apply existsb_elem.
  - intros m f. destruct (existsb _ _) eqn:E; [by apply existsb_elem|]. simpl. set_solver.
  - done.
  - intros j p s H. unfold nested_string. by rewrite H.
  - intros j k fields -> H p. unfold nested_string. simpl. by rewrite H.
  - intros j p l H. unfold nested_slice. by rewrite H.
  - intros j k fields -> H p. unfold nested_slice. simpl. by rewrite H.
Qed.

Example parse_digest_ref :
  named_digest <$> (match parse_named "quay.io/a/os@sha256:x" with Ok n => Some n | Err _ => None end)
  = Some (Some "sha256:x").
Proof. reflexivity. Qed.

Example percent_rounds_up : scaled (StrVal "25%") 10 true = Ok 3%Z.
Proof. reflexivity. Qed.

End LibModel.
