(* ===== verification/Strings.v ===== *)
(** * Strings: the parts of Go's [strings] package the operator uses

    [strings.Split] on one character, [strings.TrimSpace], [strings.CutPrefix]
    and [strings.HasPrefix], on byte strings; white space is Unicode's, in its
    UTF-8 encodings. *)

From Stdlib Require Import Ascii.
From S2P Require Import Prelude.

Abbreviation bytes_of := String.list_ascii_of_string.
Abbreviation string_of := String.string_of_list_ascii.

(** [strings.Split(s, c)] for a single character. *)
Fixpoint Split (c : ascii) (s : string) : list string :=
  match s with
  | "" => [""]
  | String a s =>
      if bool_decide (a = c) then "" :: Split c s
      else match Split c s with
           | p :: ps => String a p :: ps
           | [] => [String a ""]
           end
  end.

(** [strings.CutPrefix]; [None] is "not found". *)
Fixpoint CutPrefix (p s : string) : option string :=
  match p, s with
  | "", _ => Some s
  | String a p, String b s => if bool_decide (a = b) then CutPrefix p s else None
  | _, "" => None
  end.

(** [strings.HasPrefix]. *)
Definition HasPrefix (s p : string) : bool :=
  match CutPrefix p s with Some _ => true | None => false end.

(** The encodings of the runes of [unicode.IsSpace]. *)
Definition spaces : list (list ascii) :=
  List.map (List.map ascii_of_N)
  [[9]; [10]; [11]; [12]; [13]; [32]; [194; 133]; [194; 160]; [225; 154; 128];
   [226; 128; 128]; [226; 128; 129]; [226; 128; 130]; [226; 128; 131]; [226; 128; 132]; [226; 128; 133];
   [226; 128; 134]; [226; 128; 135]; [226; 128; 136]; [226; 128; 137]; [226; 128; 138];
   [226; 128; 168]; [226; 128; 169]; [226; 128; 175]; [226; 129; 159]; [227; 128; 128]]%N.

(** The length of the first of the words [ws] that [l] starts with, or 0. *)
Fixpoint wordWidth (ws : list (list ascii)) (l : list ascii) : nat :=
  match ws with
  | [] => 0
  | w :: ws => if bool_decide (take (length w) l = w) then length w else wordWidth ws l
  end.

(** Drop words of [ws] from the front as long as there is one; [skip] bytes of the
    current word are still to be dropped. *)
Fixpoint trimWords (ws : list (list ascii)) (l : list ascii) (skip : nat) : list ascii :=
  match l with
  | [] => []
  | _ :: l' =>
      match skip with
      | S k => trimWords ws l' k
      | 0 => match wordWidth ws l with
             | 0 => l
             | S k => trimWords ws l' k
             end
      end
  end.

(** [strings.TrimSpace]; a rune is a suffix exactly when its reversal is a prefix
    of the reversal. *)
Definition TrimSpace (s : string) : string :=
  let left := trimWords spaces (bytes_of s) 0 in
  string_of (rev (trimWords (List.map (@rev ascii) spaces) (rev left) 0)).

Example trim_example : TrimSpace ((String "009" " a b") +:+ string_of (List.map ascii_of_N [226; 128; 138; 10]%N)) = "a b".
Proof. reflexivity. Qed.

Example split_example : Split ","%char "a,,b" = ["a"; ""; "b"] ∧ Split ","%char "" = [""].
Proof. done. Qed.

(** ** Lemmas *)

Lemma Split_nonempty c s : Split c s ≠ [].
Proof. destruct s as [|a s]; simpl; [done|]. case_bool_decide; [done|]. by destruct (Split c s). Qed.

(** A piece without the separator is split off. *)
Lemma Split_app c p s :
  c ∉ bytes_of p → Split c (p +:+ String c s) = p :: Split c s.
Proof.
  induction p as [|a p IH]; simpl; intros Hc.
  - by rewrite bool_decide_true.
  - rewrite bool_decide_false by set_solver. rewrite IH by set_solver. done.
Qed.

Lemma Split_single c p : c ∉ bytes_of p → Split c p = [p].
Proof.
  induction p as [|a p IH]; simpl; intros Hc; [done|].
  rewrite bool_decide_false by set_solver. by rewrite IH by set_solver.
Qed.

(** Joining and splitting are inverse, unless there is nothing to join. *)
Lemma Split_join c l :
  l ≠ [] → Forall (λ p, c ∉ bytes_of p) l → Split c (join (String c "") l) = l.
Proof.
  induction l as [|p l IH]; [done|]. intros _ [Hp Hl]%Forall_cons.
  destruct l as [|q l]; [by apply Split_single|].
  change (join (String c "") (p :: q :: l)) with (p +:+ String c (join (String c "") (q :: l))).
  rewrite Split_app by done. by rewrite IH.
Qed.

(** Pieces do not contain the separator. *)
Lemma Split_pieces c s p : p ∈ Split c s → c ∉ bytes_of p.
Proof.
  revert p. induction s as [|a s IH]; simpl; intros p.
  - intros ->%list_elem_of_singleton. apply not_elem_of_nil.
  - case_bool_decide as Ha.
    + intros [->|Hp]%elem_of_cons; [apply not_elem_of_nil|by apply IH].
    + destruct (Split c s) as [|q qs]; [intros ->%list_elem_of_singleton; set_solver|].
      intros [->|Hp]%elem_of_cons; [|apply IH; set_solver]. simpl.
      pose proof (IH q ltac:(set_solver)). set_solver.
Qed.

Lemma CutPrefix_spec p s r : CutPrefix p s = Some r ↔ s = p +:+ r.
Proof.
  revert s. induction p as [|a p IH]; intros s; simpl.
  { split; [by intros [= ->]|by intros ->]. }
  destruct s as [|b s]; [done|].
  case_bool_decide as Ha; [subst; rewrite IH; split; [by intros ->|by intros [= ->]]|].
  split; [done|]. by intros [= <- _].
Qed.

(** Nothing is trimmed from a text that does not start with a word. *)
Lemma wordWidth_none ws l :
  (∀ w a, w ∈ ws → head w = Some a → head l ≠ Some a) → Forall (λ w, w ≠ []) ws → wordWidth ws l = 0.
Proof.
  induction ws as [|w ws IH]; simpl; [done|]. intros Hh [Hw Hws]%Forall_cons.
  rewrite bool_decide_false; [apply IH; [|done]; set_solver|].
  destruct w as [|a w]; [done|]. destruct l as [|b l]; simpl; [done|]. intros [= -> _].
  by destruct (Hh (a :: w) a ltac:(set_solver) eq_refl).
Qed.

Lemma trimWords_none ws l : wordWidth ws l = 0 → trimWords ws l 0 = l.
Proof. destruct l as [|a l]; [done|]. simpl. by intros ->. Qed.

(** The first and the last bytes of the encodings. *)
Definition spaceEdge (a : ascii) : bool :=
  existsb (λ w, bool_decide (head w = Some a) || bool_decide (last w = Some a)) spaces.

Lemma rev_reverse {A} (l : list A) : rev l = reverse l.
Proof. apply rev_alt. Qed.

(** A text is not trimmed at an end that is no edge of white space. *)
Lemma trim_edge l :
  (∀ a, head l = Some a → spaceEdge a = false) →
  trimWords spaces l 0 = l ∧ trimWords (List.map (@rev ascii) spaces) l 0 = l.
Proof.
  intros Hl.
  assert (∀ w a, w ∈ spaces → (head w = Some a ∨ last w = Some a) → head l ≠ Some a) as Hedge.
  { intros w a Hw Hh Hla. assert (spaceEdge a = true); [|by rewrite (Hl a Hla) in *].
    apply existsb_exists. exists w. split; [by apply list_elem_of_In|].
    destruct Hh as [->| ->]; [rewrite bool_decide_true|rewrite orb_comm, bool_decide_true]; done. }
  split; apply trimWords_none, wordWidth_none.
  - intros w a Hw Hh. by eapply Hedge; [|left].
  - by apply (bool_decide_unpack _).
  - intros w' a (w & <- & Hw)%list_elem_of_In%in_map_iff Hh. apply list_elem_of_In in Hw. eapply Hedge; [done|right].
    by rewrite <- Hh, rev_reverse, head_reverse.
  - by apply (bool_decide_unpack _).
Qed.

Lemma trimSpace_id s :
  (∀ a, a ∈ bytes_of s → spaceEdge a = false) → TrimSpace s = s.
Proof.
  intros Hs. unfold TrimSpace.
  destruct (trim_edge (bytes_of s)) as [-> _]. { intros a Ha. apply Hs. destruct (bytes_of s); set_solver. }
  destruct (trim_edge (rev (bytes_of s))) as [_ ->].
  - intros a Ha. apply Hs. rewrite rev_reverse, head_reverse in Ha. by apply last_Some_elem_of in Ha.
  - rewrite rev_involutive. apply String.string_of_list_ascii_of_string.
Qed.

(** A line end is trimmed, and nothing else of a text without white space at its
    ends. *)
Lemma trimSpace_line s :
  (∀ a, head (bytes_of s) = Some a ∨ last (bytes_of s) = Some a → spaceEdge a = false) → s ≠ "" →
  TrimSpace (s +:+ String (ascii_of_nat 10) "") = s.
Proof.
  intros Hs Hne. unfold TrimSpace. set (l := bytes_of s) in *.
  assert (bytes_of (s +:+ String (ascii_of_nat 10) "") = l ++ [ascii_of_nat 10]) as ->.
  { subst l. clear. induction s as [|a s IH]; [done|]. simpl. by rewrite IH. }
  assert (l ≠ []) as Hl by (subst l; by destruct s).
  destruct (trim_edge (l ++ [ascii_of_nat 10])) as [-> _].
  { intros a Ha. apply Hs. left. by destruct l. }
  rewrite rev_app_distr. change (rev [ascii_of_nat 10] ++ rev l) with (ascii_of_nat 10 :: rev l).
  change (trimWords (List.map (@rev ascii) spaces) (ascii_of_nat 10 :: rev l) 0)
    with (trimWords (List.map (@rev ascii) spaces) (rev l) 0).
  destruct (trim_edge (rev l)) as [_ ->].
  { intros a Ha. apply Hs. right. by rewrite rev_reverse, head_reverse in Ha. }
  rewrite rev_involutive. apply String.string_of_list_ascii_of_string.
Qed.
