(* ===== verification/Client.v ===== *)
(** * Client: what the pool controller asks of its environment

    One request per call the controller makes outside its own memory: the
    controller-runtime client (get, list, create, patch, update, delete), the
    clock, the tag resolver, the event recorder and the drain goroutines.  The
    answers are not constrained here.  [merge_patch_bn] and its siblings state
    the documented effect of a successful merge patch, for the theorems that
    need it. *)

From S2P Require Import Prelude Effects Types Library.

(** The object an event is about: kind, namespace, name. *)
Record ObjectRef : Set := mkObjectRef {
  or_kind : string; or_namespace : string; or_name : string }.

Inductive req : Set :=
(* clock *)
| Now
(* BootcNodePool *)
| GetPool (name : string)
| ListPools
| UpdatePool (p : BootcNodePool)
| UpdatePoolStatus (p : BootcNodePool)
(* Node *)
| GetNode (name : string)
| ListNodes (sel : Selector)
| PatchNode (base new : Node)
(* BootcNode *)
| GetBootcNode (name : string)
| ListBootcNodes
| CreateBootcNode (b : BootcNode)
| PatchBootcNode (base new : BootcNode)
| DeleteBootcNode (b : BootcNode)
(* Secret, NodeClaim *)
| GetSecret (namespace name : string)
| GetNodeClaim (name : string)
| PatchNodeClaim (base new : NodeClaim)
(* registry *)
| ResolveTag (ref : string) (auth : option string)
(* event recorder *)
| Eventf (regarding : ObjectRef) (related : option ObjectRef)
    (eventType reason action note : string)
(* drain goroutines, by node name: start one, poll its result channel without
   blocking, ask whether its context was cancelled, cancel it *)
| StartDrain (node : string) (pool : string) (timeout : Z)
| PollDrain (node : string)
| DrainCtxErr (node : string)
| CancelDrain (node : string).

Definition resp (r : req) : Set :=
  match r with
  | Now => Z
  | GetPool _ => result BootcNodePool
  | ListPools => result (list BootcNodePool)
  | UpdatePool _ => result BootcNodePool
  | UpdatePoolStatus _ => result BootcNodePool
  | GetNode _ => result Node
  | ListNodes _ => result (list Node)
  | PatchNode _ _ => result Node
  | GetBootcNode _ => result BootcNode
  | ListBootcNodes => result (list BootcNode)
  | CreateBootcNode _ => result BootcNode
  | PatchBootcNode _ _ => result BootcNode
  | DeleteBootcNode _ => result unit
  | GetSecret _ _ => result Secret
  | GetNodeClaim _ => result NodeClaim
  | PatchNodeClaim _ _ => result NodeClaim
  | ResolveTag _ _ => result string
  | Eventf _ _ _ _ _ _ => unit
  | StartDrain _ _ _ => unit
  | PollDrain _ => option (option error)
  | DrainCtxErr _ => bool
  | CancelDrain _ => unit
  end.

Abbreviation event := (ev resp).
Abbreviation history := (trace resp).
Abbreviation ctl := (go resp).

(** Iteration over a Go map visits the keys in an unspecified order, a fresh one
    at every [range]: [mapOrder site] is the order at one site. *)
Class MapOrder : Type := {
  mapOrder : nat → list string → list string;
  mapOrder_perm site l : mapOrder site l ≡ₚ l
}.

Definition rangeKeys `{MapOrder} {V : Type} (site : nat) (m : gmap string V) : list string :=
  mapOrder site (map_to_list m).*1.

Lemma rangeKeys_perm `{MapOrder} {V : Type} site (m : gmap string V) :
  rangeKeys site m ≡ₚ (map_to_list m).*1.
Proof. apply mapOrder_perm. Qed.

Lemma elem_of_rangeKeys `{MapOrder} {V : Type} site (m : gmap string V) k :
  k ∈ rangeKeys site m ↔ is_Some (m !! k).
Proof.
  rewrite rangeKeys_perm, list_elem_of_fmap. split.
  - intros [[k' v] [-> Hin]]. apply elem_of_map_to_list in Hin. eauto.
  - intros [v Hv]. exists (k, v). split; [done|]. by apply elem_of_map_to_list.
Qed.

Lemma NoDup_rangeKeys `{MapOrder} {V : Type} site (m : gmap string V) :
  NoDup (rangeKeys site m).
Proof. rewrite rangeKeys_perm. apply NoDup_fst_map_to_list. Qed.

(** The order used by the concrete examples: the keys as they come. *)
Definition idOrder : MapOrder := {| mapOrder _ l := l; mapOrder_perm _ l := Permutation_refl l |}.

(** ** Documented effect of patches

    A merge patch sends the difference between [base] and [new]; the answer is
    the stored object, which has the new value of everything that differs.
    Fields the patch does not mention may have been changed by another writer. *)

Definition patched_map (base new got : gomap) : Prop :=
  ∀ k, GoMap.lookup base k ≠ GoMap.lookup new k → GoMap.lookup got k = GoMap.lookup new k.

Definition patched {A : Set} (base new got : A) : Prop := base ≠ new → got = new.

Definition merge_patch_bn (base new got : BootcNode) : Prop :=
  bn_name got = bn_name base ∧
  patched_map (bn_annotations base) (bn_annotations new) (bn_annotations got) ∧
  patched (DesiredImage (bn_spec base)) (DesiredImage (bn_spec new)) (DesiredImage (bn_spec got)) ∧
  patched (DesiredImageState (bn_spec base)) (DesiredImageState (bn_spec new))
    (DesiredImageState (bn_spec got)).

(** The Node patches carry an optimistic lock (the base's resource version): the
    server rejects them unless the base is still the stored object, so a
    successful one stores exactly [new]. *)
Definition locked_patch_node (base new got : Node) : Prop :=
  node_name got = node_name base ∧
  GoMap.ext_eq (node_annotations got) (node_annotations new) ∧
  GoMap.ext_eq (om_labels (node_meta got)) (om_labels (node_meta new)) ∧
  om_ownerReferences (node_meta got) = om_ownerReferences (node_meta new) ∧
  node_unschedulable got = node_unschedulable new ∧
  node_taints got = node_taints new.

Definition merge_patch_claim (base new got : NodeClaim) : Prop :=
  om_name (nc_meta got) = om_name (nc_meta base) ∧
  patched_map (nc_annotations base) (nc_annotations new) (nc_annotations got).

(** An answer that agrees with that contract; a created object is stored as it was
    sent. *)
Definition honest (e : event) : Prop :=
  let '(Ev r x) := e in
  match r return resp r → Prop with
  | PatchBootcNode base new => λ x, ∀ got, x = Ok got → merge_patch_bn base new got
  | PatchNode base new => λ x, ∀ got, x = Ok got → locked_patch_node base new got
  | PatchNodeClaim base new => λ x, ∀ got, x = Ok got → merge_patch_claim base new got
  | CreateBootcNode b => λ x, ∀ got, x = Ok got → bn_name got = bn_name b ∧ bn_spec got = bn_spec b
  | _ => λ _, True
  end x.

Abbreviation honest_history h := (Forall honest h).

(** The answer to a BootcNode patch when nobody else writes the object (not even
    the daemon, its status): what was sent (an empty map may come back as a nil one). *)
Definition quiet (e : event) : Prop :=
  honest e ∧
  let '(Ev r x) := e in
  match r return resp r → Prop with
  | PatchBootcNode base new => λ x, ∀ got, x = Ok got →
      GoMap.ext_eq (bn_annotations got) (bn_annotations new) ∧ bn_spec got = bn_spec new ∧
      bn_status got = bn_status new
  | _ => λ _, True
  end x.

Abbreviation quiet_history h := (Forall quiet h).

(** A request whose answer may be an error. *)
Definition callE {S : Type} {A : Set} (r : req) (f : resp r → result A) : ctl S A :=
  gbind (call r) (λ x, lift (f x)).

Section CallE.
Context {S : Type}.

Lemma wpg_callE {A : Set} (r : req) (f : resp r → result A) (s : S) h Φ :
  (∀ x, Φ (h ++ [Ev r x]) s (f x)) → wpg (callE r f) s h Φ.
Proof. intros H. unfold callE. go_step. go_step. go_step. apply H. Qed.
End CallE.

(** ** Observing a history *)

(** The requests of a history, without the answers. *)
Definition requests (h : history) : list req := ev_req <$> h.

Lemma requests_app h1 h2 : requests (h1 ++ h2) = requests h1 ++ requests h2.
Proof. apply fmap_app. Qed.

Definition ok_of {A : Set} (r : result A) : option A :=
  match r with Ok a => Some a | Err _ => None end.

(** The object in the answer of a successful call. *)
Definition gotClaim (e : event) : option NodeClaim :=
  let '(Ev r x) := e in
  match r return resp r → option NodeClaim with
  | GetNodeClaim _ | PatchNodeClaim _ _ => ok_of
  | _ => λ _, None
  end x.

Definition gotBootcNode (e : event) : option BootcNode :=
  let '(Ev r x) := e in
  match r return resp r → option BootcNode with
  | GetBootcNode _ | CreateBootcNode _ | PatchBootcNode _ _ => ok_of
  | _ => λ _, None
  end x.

Definition gotNode (e : event) : option Node :=
  let '(Ev r x) := e in
  match r return resp r → option Node with
  | GetNode _ | PatchNode _ _ => ok_of
  | _ => λ _, None
  end x.

Definition is_write (r : req) : bool :=
  match r with
  | UpdatePool _ | UpdatePoolStatus _ | PatchNode _ _ | CreateBootcNode _
  | PatchBootcNode _ _ | DeleteBootcNode _ | PatchNodeClaim _ _ => true
  | _ => false
  end.

#[export] Hint Rewrite requests_app : bootc_simpl.
