(* ===== verification/Samples.v ===== *)
(** * Samples: concrete objects for the witnesses

    Builders in the spirit of [test/util/builders.go], and the fixture images. *)

From S2P Require Import Prelude Types.

Module Samples.

Definition ImageRepo : string := "quay.io/example/myos".
Definition DigestA : string := "sha256:aaaa".
Definition DigestB : string := "sha256:bbbb".
Definition DigestC : string := "sha256:cccc".
Definition RefA : string := ImageRepo +:+ "@" +:+ DigestA.
Definition RefB : string := ImageRepo +:+ "@" +:+ DigestB.
Definition RefC : string := ImageRepo +:+ "@" +:+ DigestC.

Definition image (ref digest : string) : ImageInfo :=
  mkImageInfo ref digest "" None "amd64" false false.

Definition imageA := image RefA DigestA.
Definition imageB := image RefB DigestB.

Definition idle (status reason : string) (since : Z) : Condition :=
  mkCondition NodeIdle status reason "" (Some since) 0.

Definition isDegraded : Condition :=
  mkCondition NodeDegraded ConditionTrue NodeReasonError "boom" (Some 0%Z) 0.

Definition slotAnnotations : gomap :=
  GoMap.set (GoMap.set None AnnotationInRebootSlot "") AnnotationWasCordoned "false".

(** A BootcNode of pool uid "pool-uid" that should run [desired]. *)
Definition bootcNode (name desired state : string) (booted staged : option ImageInfo)
    (conds : list Condition) (ann : gomap) : BootcNode :=
  mkBootcNode
    (mkObjectMeta name "" (name +:+ "-uid") 1 None ann
       [mkOwnerReference "node.bootc.dev/v1alpha1" "BootcNodePool" "workers" "pool-uid" true]
       [] None)
    (mkBootcNodeSpec desired state None "" RebootPolicyRebootOnly)
    (mkBootcNodeStatus 1 booted staged None conds).

Definition upToDateNode (name : string) (ann : gomap) : BootcNode :=
  bootcNode name RefB DesiredImageStateStaged (Some imageB) None
    [idle ConditionTrue NodeReasonIdle 0] ann.

Definition stagedNode (name : string) (ann : gomap) : BootcNode :=
  bootcNode name RefB DesiredImageStateStaged (Some imageA) (Some imageB)
    [idle ConditionFalse NodeReasonStaged 0] ann.

Definition rebootingNode (name : string) (since : Z) (ann : gomap) : BootcNode :=
  bootcNode name RefB DesiredImageStateBooted (Some imageA) (Some imageB)
    [idle ConditionFalse NodeReasonRebooting since] ann.

Definition degradedNode (name : string) (ann : gomap) : BootcNode :=
  bootcNode name RefB DesiredImageStateBooted (Some imageB) None
    [idle ConditionTrue NodeReasonIdle 0; isDegraded] ann.

(** A schedulable, Ready worker. *)
Definition node (name : string) (ann : gomap) : Node :=
  mkNode (mkObjectMeta name "" (name +:+ "-node") 1
            (GoMap.set None "node-role.kubernetes.io/worker" "") ann [] [] None)
    false [] [mkNodeCondition NodeReady ConditionTrue].

Definition workerSelector : LabelSelector :=
  mkLabelSelector (GoMap.set None "node-role.kubernetes.io/worker" "") [].

Definition status0 : BootcNodePoolStatus :=
  mkBootcNodePoolStatus 0 DigestB None "" false 0 0 0 0 [].

(** Pool "workers" that rolls out image B. *)
Definition pool (ro : option RolloutSpec) : BootcNodePool :=
  mkBootcNodePool
    (mkObjectMeta "workers" "" "pool-uid" 1 None None [] [FinalizerPoolCleanup] None)
    (mkBootcNodePoolSpec (Some workerSelector) RefB ro None None)
    status0.

Definition store (l : list BootcNode) : gmap string BootcNode :=
  list_to_map ((λ b, (bn_name b, b)) <$> l).

End Samples.
