(* ===== verification/Sim.v ===== *)
(** * Sim: a quiet cluster

    An executable environment for the witnesses: an API server that stores what
    it is sent, with the controller as its only writer, a clock that stands
    still, and drains whose outcome is part of the world.  [sim_quiet] shows that
    its answers satisfy the patch contract of [Client], so the theorems that
    assume the contract apply to every run against it. *)

From S2P Require Import Prelude Effects Types Library LibModel Client Samples.

Record World : Set := mkWorld {
  w_now : Z;
  w_pools : gmap string BootcNodePool;
  w_nodes : gmap string Node;
  w_bns : gmap string BootcNode;
  w_claims : gmap string NodeClaim;
  w_secrets : gmap string Secret;       (* key: namespace/name *)
  w_tags : gmap string string;          (* what the registry resolves *)
  w_drains : gmap string (option error) (* finished drains and their results *)
}.

Definition notFound {A : Set} (what : string) : result A :=
  Err (ErrApi KNotFound (what +:+ " not found")).

Definition found {A : Set} (what : string) (o : option A) : result A :=
  match o with Some a => Ok a | None => notFound what end.

Definition w_setPool (p : BootcNodePool) (w : World) : World :=
  mkWorld (w_now w) (<[pool_name p := p]> (w_pools w)) (w_nodes w) (w_bns w) (w_claims w)
    (w_secrets w) (w_tags w) (w_drains w).
Definition w_setNode (n : Node) (w : World) : World :=
  mkWorld (w_now w) (w_pools w) (<[node_name n := n]> (w_nodes w)) (w_bns w) (w_claims w)
    (w_secrets w) (w_tags w) (w_drains w).
Definition w_setBNs (b : gmap string BootcNode) (w : World) : World :=
  mkWorld (w_now w) (w_pools w) (w_nodes w) b (w_claims w) (w_secrets w) (w_tags w) (w_drains w).
Definition w_setClaim (c : NodeClaim) (w : World) : World :=
  mkWorld (w_now w) (w_pools w) (w_nodes w) (w_bns w) (<[om_name (nc_meta c) := c]> (w_claims w))
    (w_secrets w) (w_tags w) (w_drains w).
Definition w_dropDrain (n : string) (w : World) : World :=
  mkWorld (w_now w) (w_pools w) (w_nodes w) (w_bns w) (w_claims w)
    (w_secrets w) (w_tags w) (delete n (w_drains w)).

(** Store an update of an existing object that keeps its name. *)
Definition storing {A : Set} (known same : bool) (new : A) (put : World → World) (w : World)
    : World * result A :=
  if known && same then (put w, Ok new) else (w, notFound "object").

Definition sim : handler resp World := λ r w,
  match r return World * resp r with
  | Now => (w, w_now w)
  | GetPool n => (w, found "pool" (w_pools w !! n))
  | ListPools => (w, Ok (map_to_list (w_pools w)).*2)
  | UpdatePool p | UpdatePoolStatus p => (w_setPool p w, Ok p)
  | GetNode n => (w, found "node" (w_nodes w !! n))
  | ListNodes sel =>
      (w, Ok (List.filter (λ n, sel (om_labels (node_meta n))) (map_to_list (w_nodes w)).*2))
  | PatchNode base new =>
      storing (bool_decide (is_Some (w_nodes w !! node_name base))) (node_name new =s node_name base)
        new (w_setNode new) w
  | GetBootcNode n => (w, found "bootcnode" (w_bns w !! n))
  | ListBootcNodes => (w, Ok (map_to_list (w_bns w)).*2)
  | CreateBootcNode b =>
      match w_bns w !! bn_name b with
      | Some _ => (w, Err (ErrApi KAlreadyExists "already exists"))
      | None => (w_setBNs (<[bn_name b := b]> (w_bns w)) w, Ok b)
      end
  | PatchBootcNode base new =>
      storing (bool_decide (is_Some (w_bns w !! bn_name base))) (bn_name new =s bn_name base)
        new (w_setBNs (<[bn_name new := new]> (w_bns w))) w
  | DeleteBootcNode b => (w_setBNs (delete (bn_name b) (w_bns w)) w, Ok tt)
  | GetSecret ns n => (w, found "secret" (w_secrets w !! (ns +:+ "/" +:+ n)))
  | GetNodeClaim n => (w, found "nodeclaim" (w_claims w !! n))
  | PatchNodeClaim base new =>
      storing (bool_decide (is_Some (w_claims w !! om_name (nc_meta base))))
        (om_name (nc_meta new) =s om_name (nc_meta base)) new (w_setClaim new) w
  | ResolveTag ref _ => (w, found "tag" (w_tags w !! ref))
  | Eventf _ _ _ _ _ _ => (w, tt)
  | StartDrain _ _ _ => (w, tt)
  | PollDrain n =>
      match w_drains w !! n with
      | Some res => (w_dropDrain n w, Some res)
      | None => (w, None)
      end
  | DrainCtxErr _ => (w, false)
  | CancelDrain _ => (w, tt)
  end.

Lemma storing_ok {A : Set} known same (new : A) put w got :
  (storing known same new put w).2 = Ok got → same = true ∧ got = new.
Proof. unfold storing. destruct known, same; simpl; naive_solver. Qed.

Lemma sim_quiet r w : quiet (Ev r (sim r w).2).
Proof.
  split; destruct r; simpl; try done; intros got Hgot;
    try (apply storing_ok in Hgot as [Hn%seq_b_true ->]; try done; by split_and!).
  destruct (w_bns w !! bn_name b); simpl in Hgot; [done|]. by injection Hgot as <-.
Qed.

(** Every run against the simulated cluster is quiet. *)
Lemma run_quiet {A} (p : prog resp A) w : quiet_history (run sim p w).1.2.
Proof.
  revert w. induction p as [a|r k IH]; intros w; simpl; [constructor|].
  pose proof (sim_quiet r w) as Hq. destruct (sim r w) as [w1 x]. simpl in Hq.
  specialize (IH x w1). destruct (run sim (k x) w1) as [[w2 t] a]. simpl in *. by constructor.
Qed.

(** A theorem about a program, applied to its run against the simulated cluster. *)
Lemma wpg_sim {S : Type} {A : Set} (m : ctl S A) s w Φ :
  wpg m s [] Φ →
  let o := run sim (m s) w in quiet_history o.1.2 ∧ Φ o.1.2 o.2.1 o.2.2.
Proof.
  intros H o. split; [apply run_quiet|]. unfold o.
  destruct (run sim (m s) w) as [[w' t] [s' r]] eqn:E.
  by apply (wpg_run sim m s w w' t s' r Φ H).
Qed.
