(* ===== verification/Image.v ===== *)
(** * Image: matching a boot entry against a digest (internal/image/digest.go) *)

From S2P Require Import Prelude Types Library LibModel.

Section Image.
Context {L : Lib}.

(** [InfoMatchesDigest]. *)
Definition InfoMatchesDigest (info : option ImageInfo) (digest : string) : bool :=
  match info with
  | None => false
  | Some info =>
      if ImageDigest info =s digest then true
      else match ParseNamed (Image info) with
           | Err _ => false
           | Ok ref =>
               match named_digest ref with
               | None => false
               | Some d => d =s digest
               end
           end
  end.

(** The declarative reading: the content digest or the pullspec digest. *)
Definition carries_digest (info : ImageInfo) (digest : string) : Prop :=
  ImageDigest info = digest ∨
  ∃ ref, ParseNamed (Image info) = Ok ref ∧ named_digest ref = Some digest.

Lemma InfoMatchesDigest_spec info digest :
  InfoMatchesDigest info digest = true ↔
    ∃ i, info = Some i ∧ carries_digest i digest.
Proof.
  unfold InfoMatchesDigest, carries_digest. destruct info as [i|]; [|naive_solver].
  destruct (ImageDigest i =s digest) eqn:E1; [apply seq_b_true in E1|apply seq_b_false in E1].
  { split; [|done]. intros _. eexists. split; [done|]. by left. }
  destruct (ParseNamed (Image i)) as [ref|e] eqn:Ep.
  - destruct (named_digest ref) as [d|] eqn:Ed.
    + rewrite seq_b_true. split.
      * intros ->. eexists. split; [done|]. right. eauto.
      * intros (? & ? & [?|(? & ? & ?)]); simplify_eq; congruence.
    + split; [done|]. intros (? & ? & [?|(? & ? & ?)]); simplify_eq; congruence.
  - split; [done|]. intros (? & ? & [?|(? & ? & ?)]); simplify_eq; congruence.
Qed.
End Image.
