(* ===== verification/Karpenter.v ===== *)
(** * Karpenter: coordination with Karpenter NodeClaims

    [internal/karpenter/nodeclaim.go] (field access on unstructured NodeClaims)
    and [internal/controller/karpenter.go] (lookup of a node's claim, detection
    of an active disruption, and the ownership-tracked annotations). *)

From S2P Require Import Prelude Effects Types Library LibModel Client.

(** ** internal/karpenter/nodeclaim.go *)

Definition Group : string := "karpenter.sh".
Definition NodeClaimAPIVersion : string := Group +:+ "/v1".
Definition NodeClaimKind : string := "NodeClaim".
Definition DoNotRepairAnnotationKey : string := "karpenter.sh/do-not-repair".
Definition DoNotDisruptAnnotationKey : string := "karpenter.sh/do-not-disrupt".
Definition RebootingTaintKey : string := "karpenter.sh/rebooting".
Definition RebootingTaintEffect : string := TaintEffectNoSchedule.
Definition DisruptedTaintKey : string := "karpenter.sh/disrupted".
Definition DisruptedTaintEffect : string := TaintEffectNoSchedule.
Definition ConditionRebooting : string := "Rebooting".
Definition ConditionDisruptionReason : string := "DisruptionReason".
Definition ConditionInstanceTerminating : string := "InstanceTerminating".

(** An [interface{}] argument that may hold a NodeClaim: the typed wrapper, an
    unstructured object (possibly a nil pointer), or something else. *)
Inductive claimObject : Set :=
| TypedClaim (c : NodeClaim)
| UnstructuredObj (u : option NodeClaim)
| OtherObject (goType : string).

Section NodeClaims.
Context {L : Lib}.

(** [NewNodeClaimFromUnstructured]. *)
Definition NewNodeClaimFromUnstructured (obj : option NodeClaim) : result NodeClaim :=
  match obj with
  | None => Err (ErrString "NodeClaim object is nil")
  | Some c =>
      if negb (nc_apiVersion c =s NodeClaimAPIVersion)
      then Err (ErrString ("unexpected NodeClaim apiVersion " +:+ quoted (nc_apiVersion c) +:+
                           ", want " +:+ quoted NodeClaimAPIVersion))
      else if negb (nc_kind c =s NodeClaimKind)
      then Err (ErrString ("unexpected NodeClaim kind " +:+ quoted (nc_kind c) +:+
                           ", want " +:+ quoted NodeClaimKind))
      else Ok c
  end.

(** [NewNodeClaim]: an empty object, then [SetAPIVersion] and [SetKind]. *)
Definition NewNodeClaim : NodeClaim :=
  mkNodeClaim NodeClaimAPIVersion NodeClaimKind (newMeta "") (JObject []).

(** [NodeClaim.NodeName]. *)
Definition NodeName (c : NodeClaim) : result string :=
  match NestedString (nc_Object c) ["status"; "nodeName"] with
  | Err e => Err e
  | Ok None => Err ErrNodeNameNotFound
  | Ok (Some n) => Ok n
  end.

(** [NodeNameFromObject]: node name and claim name, with the error beside
    them (the claim name is returned even when the node name is missing). *)
Definition NodeNameFromObject (obj : claimObject) : string * string * option error :=
  let claim :=
    match obj with
    | TypedClaim c => Ok c
    | UnstructuredObj u => NewNodeClaimFromUnstructured u
    | OtherObject t => Err (ErrString ("unexpected NodeClaim object type " +:+ t))
    end in
  match claim with
  | Err e => ("", "", Some e)
  | Ok c =>
      match NodeName c with
      | Err e => ("", om_name (nc_meta c), Some e)
      | Ok n => (n, om_name (nc_meta c), None)
      end
  end.

(** The body of the loop of [ConditionIsTrue] on one item. *)
Definition condition_item_true (conditionType : string) (item : json) : bool :=
  match item with
  | JObject fields =>
      match json_field fields "status", json_field fields "type" with
      | Some (JString s), Some (JString t) => (s =s "True") && (t =s conditionType)
      | _, _ => false
      end
  | _ => false
  end.

(** [NodeClaim.ConditionIsTrue]. *)
Definition ConditionIsTrue (c : NodeClaim) (conditionType : string) : result bool :=
  match NestedSlice (nc_Object c) ["status"; "conditions"] with
  | Err e => Err e
  | Ok conditions => Ok (existsb (condition_item_true conditionType) (default [] conditions))
  end.

(** What the constructor builds passes the validation. *)
Lemma NewNodeClaim_wraps : NewNodeClaimFromUnstructured (Some NewNodeClaim) = Ok NewNodeClaim.
Proof. reflexivity. Qed.
End NodeClaims.

(** ** internal/controller/karpenter.go *)

Definition karpenterRequeueInterval : Z := (30 * GoInt.Second)%Z.

Inductive karpenterNodeClaimResult : Set :=
| karpenterClaimFound
| karpenterClaimAbsent
| karpenterClaimCRDMissing
| karpenterClaimNoRef.

(** An owner reference to a Karpenter NodeClaim. *)
Definition isNodeClaimRef (r : OwnerReference) : bool :=
  (ref_apiVersion r =s NodeClaimAPIVersion) && (ref_kind r =s NodeClaimKind).

(** [isNodeOwnedByKarpenterNodeClaim]. *)
Definition isNodeOwnedByKarpenterNodeClaim (node : Node) : bool :=
  existsb isNodeClaimRef (om_ownerReferences (node_meta node)).

Record karpenterDisruptionStatus : Set := mkKDS {
  kds_active : bool;
  kds_claimMissing : bool;
  kds_prefetchedClaim : option NodeClaim
}.

(** A taint with which Karpenter announces a lifecycle operation. *)
Definition disruptionTaint (t : Taint) : bool :=
  ((taint_key t =s RebootingTaintKey) && (taint_effect t =s RebootingTaintEffect)) ||
  ((taint_key t =s DisruptedTaintKey) && (taint_effect t =s DisruptedTaintEffect)).

(** [annotationsEqual]. *)
Definition annotationsEqual (a b : gomap) : bool :=
  if negb (GoMap.len a =? GoMap.len b) then false
  else (GoMap.len a =? 0) || GoMap.maps_Equal a b.

(** [ensureOwnedAnnotation]: the owner's and the target's metadata after the
    call, and whether the target was changed. *)
Definition ensureOwnedAnnotation (owner target : ObjectMeta)
    (ownerKey targetKey value : string) : ObjectMeta * ObjectMeta * bool :=
  if GoMap.index (om_annotations target) targetKey =s value
  then (owner, target, false)
  else
    let owner' :=
      if GoMap.has (om_annotations owner) ownerKey then owner
      else setAnnotations (GoMap.set (om_annotations owner) ownerKey "true") owner in
    (owner',
     setAnnotations (GoMap.set (om_annotations target) targetKey value) target,
     true).

(** [removeOwnedAnnotation]: the target's metadata after the call, and whether
    it was changed. *)
Definition removeOwnedAnnotation (owner target : ObjectMeta)
    (ownerKey targetKey : string) : ObjectMeta * bool :=
  if negb (GoMap.has (om_annotations owner) ownerKey) then (target, false)
  else if negb (GoMap.has (om_annotations target) targetKey) then (target, false)
  else (setAnnotations (GoMap.remove (om_annotations target) targetKey) target, true).

Section Controller.
Context {L : Lib} {S : Type}.
Local Open Scope go_scope.

(** [getKarpenterNodeClaim]; the fifth outcome, karpenterClaimError, is the
    error return. *)
Definition getKarpenterNodeClaim (node : Node)
    : ctl S (option NodeClaim * karpenterNodeClaimResult) :=
  match List.find isNodeClaimRef (om_ownerReferences (node_meta node)) with
  | None => ret (None, karpenterClaimNoRef)
  | Some ref =>
      r <- call (GetNodeClaim (ref_name ref)) ;;
      match r with
      | Ok claim => ret (Some claim, karpenterClaimFound)
      | Err e =>
          if IsNoMatchError e then ret (None, karpenterClaimCRDMissing)
          else if IsNotFound e then ret (None, karpenterClaimAbsent)
          else throw e
      end
  end.

(** The loop over the NodeClaim's lifecycle conditions. *)
Fixpoint anyConditionTrue (claim : NodeClaim) (types : list string) : result bool :=
  match types with
  | [] => Ok false
  | t :: types =>
      match ConditionIsTrue claim t with
      | Err e => Err e
      | Ok true => Ok true
      | Ok false => anyConditionTrue claim types
      end
  end.

Definition lifecycleConditions : list string :=
  [ConditionRebooting; ConditionDisruptionReason; ConditionInstanceTerminating].

(** [isKarpenterDisruptionActive]. *)
Definition isKarpenterDisruptionActive (node : Node) : ctl S karpenterDisruptionStatus :=
  match om_deletionTimestamp (node_meta node) with
  | Some _ => ret (mkKDS true false None)
  | None =>
      if existsb disruptionTaint (node_taints node) then ret (mkKDS true false None)
      else
        cr <- getKarpenterNodeClaim node ;;
        match cr with
        | (_, karpenterClaimNoRef) | (_, karpenterClaimCRDMissing) =>
            ret (mkKDS false false None)
        | (_, karpenterClaimAbsent) => ret (mkKDS true true None)
        | (None, karpenterClaimFound) => throw (ErrPanic "nil NodeClaim")
        | (Some claim, karpenterClaimFound) =>
            match om_deletionTimestamp (nc_meta claim) with
            | Some _ => ret (mkKDS true false None)
            | None =>
                active <- lift (anyConditionTrue claim lifecycleConditions) ;;
                if (active : bool) then ret (mkKDS true false None)
                else ret (mkKDS false false (Some claim))
            end
        end
  end.
End Controller.

(** ** Annotation comparison *)

Lemma annotationsEqual_ext a b : annotationsEqual a b = true ↔ GoMap.ext_eq a b.
Proof.
  unfold annotationsEqual. rewrite <- GoMap.maps_Equal_spec.
  destruct (GoMap.len a =? GoMap.len b) eqn:El; simpl.
  - destruct (GoMap.len a =? 0) eqn:E0; simpl; [|done].
    split; [|done]. intros _. apply GoMap.maps_Equal_spec.
    apply Nat.eqb_eq in El, E0. rewrite E0 in El. rewrite GoMap.len_default in E0.
    symmetry in El. rewrite GoMap.len_default in El.
    apply map_size_empty_inv in E0, El. rewrite GoMap.ext_eq_default.
    by rewrite E0, El.
  - unfold GoMap.maps_Equal. by rewrite El.
Qed.

(** ** The ownership protocol *)

Section Ownership.
Implicit Types (owner target : ObjectMeta).

(** What [ensureOwnedAnnotation] establishes, whatever was there before. *)
Lemma ensureOwnedAnnotation_post owner target ok tk v owner' target' b :
  ensureOwnedAnnotation owner target ok tk v = (owner', target', b) →
  GoMap.index (om_annotations target') tk = v ∧
  (b = false → owner' = owner ∧ target' = target) ∧
  (b = true → GoMap.has (om_annotations owner') ok = true) ∧
  (∀ k, k ≠ tk → GoMap.lookup (om_annotations target') k = GoMap.lookup (om_annotations target) k) ∧
  (∀ k, k ≠ ok → GoMap.lookup (om_annotations owner') k = GoMap.lookup (om_annotations owner) k).
Proof.
  unfold ensureOwnedAnnotation.
  destruct (GoMap.index (om_annotations target) tk =s v) eqn:Ev.
  - apply seq_b_true in Ev. intros [= <- <- <-]. naive_solver.
  - intros [= <- <- <-]. split_and!.
    + simpl. unfold GoMap.index. by rewrite GoMap.lookup_set_eq.
    + done.
    + intros _. destruct (GoMap.has (om_annotations owner) ok) eqn:Eh; [done|]. simpl.
      apply GoMap.has_true. rewrite GoMap.lookup_set_eq. eauto.
    + intros k Hk. simpl. by apply GoMap.lookup_set_ne.
    + intros k Hk. destruct (GoMap.has (om_annotations owner) ok) eqn:Eh; [done|]. simpl.
      by apply GoMap.lookup_set_ne.
Qed.

Lemma removeOwnedAnnotation_post owner target ok tk target' b :
  removeOwnedAnnotation owner target ok tk = (target', b) →
  (b = false → target' = target) ∧
  (GoMap.has (om_annotations owner) ok = true →
     GoMap.lookup (om_annotations target') tk = None) ∧
  (GoMap.has (om_annotations owner) ok = false → target' = target) ∧
  (∀ k, k ≠ tk → GoMap.lookup (om_annotations target') k = GoMap.lookup (om_annotations target) k).
Proof.
  unfold removeOwnedAnnotation.
  destruct (GoMap.has (om_annotations owner) ok) eqn:Eo; simpl; [|by intros [= <- <-]].
  destruct (GoMap.has (om_annotations target) tk) eqn:Et; simpl.
  - intros [= <- <-]. split_and!; [done| |done|].
    + intros _. apply GoMap.lookup_remove_eq.
    + intros k Hk. by apply GoMap.lookup_remove_ne.
  - intros [= <- <-]. split_and!; [done| |done|done].
    intros _. by apply GoMap.has_false.
Qed.
End Ownership.

(** ** Disruption detection *)

Section Disruption.
Context {L : Lib} {S : Type}.
Implicit Types (s : S) (h : history).

(** What the controller knows after a lookup: the state is untouched and the
    answer matches the owner references. *)
Lemma wpg_getKarpenterNodeClaim node s h (Φ : history → S → result _ → Prop) :
  (List.find isNodeClaimRef (om_ownerReferences (node_meta node)) = None →
     Φ h s (Ok (None, karpenterClaimNoRef))) →
  (∀ ref x, List.find isNodeClaimRef (om_ownerReferences (node_meta node)) = Some ref →
     let h' := h ++ [Ev (GetNodeClaim (ref_name ref)) x] in
     match x with
     | Ok claim => Φ h' s (Ok (Some claim, karpenterClaimFound))
     | Err e =>
         if IsNoMatchError e then Φ h' s (Ok (None, karpenterClaimCRDMissing))
         else if IsNotFound e then Φ h' s (Ok (None, karpenterClaimAbsent))
         else Φ h' s (Err e)
     end) →
  wpg (getKarpenterNodeClaim node) s h Φ.
Proof.
  intros H1 H2. unfold getKarpenterNodeClaim.
  destruct (List.find _ _) as [ref|] eqn:E; [|go_step; by apply H1].
  go_step. go_step. specialize (H2 ref x eq_refl). simpl in H2.
  destruct x as [c|e]; [by go_step|]. repeat (split_match; [by go_step|]). by go_step.
Qed.

(** A node that Karpenter is not working on: not being deleted, without a
    lifecycle taint, and its claim (if it has one) neither being deleted nor
    in a lifecycle condition. *)
Definition undisrupted (node : Node) (claim : option NodeClaim) : Prop :=
  om_deletionTimestamp (node_meta node) = None ∧
  existsb disruptionTaint (node_taints node) = false ∧
  match claim with
  | None => True
  | Some c =>
      om_deletionTimestamp (nc_meta c) = None ∧
      ∀ t, t ∈ lifecycleConditions → ConditionIsTrue c t = Ok false
  end.

Lemma anyConditionTrue_false claim types :
  anyConditionTrue claim types = Ok false →
  ∀ t, t ∈ types → ConditionIsTrue claim t = Ok false.
Proof.
  induction types as [|t types IH]; simpl; [set_solver|].
  destruct (ConditionIsTrue claim t) as [[]|] eqn:E; [done| |done].
  intros H t'. rewrite elem_of_cons. intros [->|Hin]; [done|]. by apply IH.
Qed.

(** The requests [isKarpenterDisruptionActive] may add: at most one read of
    the NodeClaim. *)
Definition claim_reads (h h' : history) : Prop :=
  h' = h ∨ ∃ n x, h' = h ++ [Ev (GetNodeClaim n) x].

(** Karpenter is not working on [node], as far as the history [h] shows: the
    node itself is undisrupted and, when it belongs to a NodeClaim, that claim
    was read and is undisrupted too (or the NodeClaim API does not exist). *)
Definition checked (h : history) (node : Node) : Prop :=
  undisrupted node None ∧
  ∀ ref, List.find isNodeClaimRef (om_ownerReferences (node_meta node)) = Some ref →
    ∃ x, Ev (GetNodeClaim (ref_name ref)) x ∈ h ∧
         match x with Ok c => undisrupted node (Some c) | Err e => IsNoMatchError e = true end.

Lemma checked_app h t node : checked h node → checked (h ++ t) node.
Proof.
  intros [H1 H2]. split; [done|]. intros ref Hr. destruct (H2 ref Hr) as (x & ? & ?).
  exists x. set_solver.
Qed.

Lemma wpg_isKarpenterDisruptionActive node s h (Φ : history → S → result _ → Prop) :
  (∀ h' kds, claim_reads h h' →
     (kds_active kds = false → checked h' node) →
     (kds_claimMissing kds = true → kds_active kds = true) →
     Φ h' s (Ok kds)) →
  (∀ h' e, claim_reads h h' → Φ h' s (Err e)) →
  wpg (isKarpenterDisruptionActive node) s h Φ.
Proof.
  intros Hok Herr. unfold isKarpenterDisruptionActive.
  destruct (om_deletionTimestamp (node_meta node)) as [d|] eqn:Ed.
  { go_step. apply Hok; [by left|done|done]. }
  destruct (existsb disruptionTaint _) eqn:Et.
  { go_step. apply Hok; [by left|done|done]. }
  go_step. apply wpg_getKarpenterNodeClaim.
  { intros Hno. go_step. apply Hok; [by left| |done]. intros _. split; [done|]. congruence. }
  intros ref x Href h'. assert (claim_reads h h') as Hr by (right; unfold h'; eauto).
  assert (Ev (GetNodeClaim (ref_name ref)) x ∈ h') as Hin by (unfold h'; set_solver).
  assert (match x with Ok c => undisrupted node (Some c)
                        | Err e => IsNoMatchError e = true end → checked h' node) as Hck.
  { intros Hx. split; [done|]. rewrite Href. intros ref' [= <-]. eauto. }
  clearbody h'. destruct x as [c|e].
  - destruct (om_deletionTimestamp (nc_meta c)) eqn:Edc.
    { go_step. by apply Hok. }
    go_step. go_step. destruct (anyConditionTrue c lifecycleConditions) as [[]|e] eqn:Ea.
    + go_step. by apply Hok.
    + go_step. apply Hok; [done| |done]. intros _. apply Hck. split; [done|]. split; [done|].
      split; [done|]. by apply anyConditionTrue_false.
    + by apply Herr.
  - destruct (IsNoMatchError e) eqn:En; [go_step; apply Hok; [done| |done]; intros _; by apply Hck|].
    destruct (IsNotFound e); [go_step; by apply Hok|]. by apply Herr.
Qed.
End Disruption.
