(* ===== verification/Classify.v ===== *)
(** * Classify: the rollout state of one reconcile pass

    The pure part of [internal/controller/rollout.go]: classification of the
    BootcNodes, the buckets of [rolloutState], reboot timeouts, unhealthy slots,
    [maxUnavailable] and the order of the candidates.

    The Go buckets hold pointers to the BootcNodes of the [ownedBootcNodes] map,
    and later steps write through them.  Here [owned] is the store and a bucket
    is a list of its keys. *)

From S2P Require Import Prelude Effects Types Library LibModel Client Samples Image.

(** ** Data *)

Definition unhealthySlotHaltThreshold : nat := 2.

Record rolloutState : Set := mkRolloutState {
  upToDate : list string;
  pending : list string;
  staging : list string;
  staged : list string;
  rebooting : list string;
  degraded : list string;
  unclassified : list string;
  rebootTimedOutNodes : list string;
  occupiedSlots : Z;
  requeueAfter : Z
}.

Definition emptyRolloutState : rolloutState := mkRolloutState [] [] [] [] [] [] [] [] 0 0.

(** [rolloutState.nodeCount]. *)
Definition nodeCount (rs : rolloutState) : nat :=
  length (upToDate rs) + length (pending rs) + length (staging rs) + length (staged rs) +
  length (rebooting rs) + length (degraded rs) + length (unclassified rs).

(** [earlierRequeue] (events.go). *)
Definition earlierRequeue (current candidate : Z) : Z :=
  if (candidate <=? 0)%Z then current
  else if ((current <=? 0) || (candidate <? current))%Z then candidate
  else current.

Definition setRequeue (d : Z) (rs : rolloutState) : rolloutState :=
  mkRolloutState (upToDate rs) (pending rs) (staging rs) (staged rs) (rebooting rs)
    (degraded rs) (unclassified rs) (rebootTimedOutNodes rs) (occupiedSlots rs) d.

Definition setOccupied (n : Z) (rs : rolloutState) : rolloutState :=
  mkRolloutState (upToDate rs) (pending rs) (staging rs) (staged rs) (rebooting rs)
    (degraded rs) (unclassified rs) (rebootTimedOutNodes rs) n (requeueAfter rs).

(** [rolloutState.setRequeueAfter]. *)
Definition setRequeueAfter (d : Z) (rs : rolloutState) : rolloutState :=
  setRequeue (earlierRequeue (requeueAfter rs) d) rs.

Inductive nodeState : Set :=
| nodeStateUpToDate
| nodeStatePending
| nodeStateStaging
| nodeStateStaged
| nodeStateRebooting
| nodeStateDegraded.

#[export] Instance nodeState_eq_dec : EqDecision nodeState.
Proof. solve_decision. Defined.

(** [nodeState.String]; the Go type is an int, but only these values occur. *)
Definition nodeState_String (s : nodeState) : string :=
  match s with
  | nodeStateUpToDate => "UpToDate"
  | nodeStatePending => "Pending"
  | nodeStateStaging => "Staging"
  | nodeStateStaged => "Staged"
  | nodeStateRebooting => "Rebooting"
  | nodeStateDegraded => "Degraded"
  end.

(** The instant of a [time.Time] field; the zero value is year 1. *)
Definition zeroTime : Z := (-62135596800 * GoInt.Second)%Z.
Definition instant (t : option Z) : Z := default zeroTime t.

Section Classification.
Context {L : Lib}.

(** [parseImageRef] (bootcnodepool_controller.go). *)
Definition parseImageRef (ref : string) : result Named := ParseNamed ref.

(** [classifyNode]. *)
Definition classifyNode (bn : BootcNode) : result nodeState :=
  let conds := bns_Conditions (bn_status bn) in
  if IsStatusConditionTrue conds NodeDegraded then Ok nodeStateDegraded
  else match Booted (bn_status bn) with
  | None => Ok nodeStatePending
  | Some booted =>
      match parseImageRef (DesiredImage (bn_spec bn)) with
      | Err e => Err (ErrWrap ("unparseable desiredImage " +:+
                               quoted (DesiredImage (bn_spec bn))) e)
      | Ok ref =>
          match named_digest ref with
          | None => Err (ErrString ("non-digested desiredImage " +:+
                                    quoted (DesiredImage (bn_spec bn))))
          | Some digest =>
              if InfoMatchesDigest (Some booted) digest then Ok nodeStateUpToDate
              else if IsStatusConditionFalse conds NodeIdle then
                match FindStatusCondition conds NodeIdle with
                | None => Err (ErrPanic "nil condition")
                | Some idle =>
                    if c_reason idle =s NodeReasonStaging then Ok nodeStateStaging
                    else if c_reason idle =s NodeReasonStaged then Ok nodeStateStaged
                    else if c_reason idle =s NodeReasonRebooting then Ok nodeStateRebooting
                    else Ok nodeStatePending
                end
              else Ok nodeStatePending
          end
      end
  end.

(** One iteration of the loop of [buildRolloutState]. *)
Definition classifyInto (rs : rolloutState) (k : string) (bn : BootcNode) : rolloutState :=
  let occ := if HasAnnotation (bn_meta bn) AnnotationInRebootSlot
             then (occupiedSlots rs + 1)%Z else occupiedSlots rs in
  let '(mkRolloutState up pe sg sd rb dg un to _ rq) := rs in
  match classifyNode bn with
  | Err _ => mkRolloutState up pe sg sd rb dg (un ++ [k]) to occ rq
  | Ok nodeStateUpToDate => mkRolloutState (up ++ [k]) pe sg sd rb dg un to occ rq
  | Ok nodeStatePending => mkRolloutState up (pe ++ [k]) sg sd rb dg un to occ rq
  | Ok nodeStateStaging => mkRolloutState up pe (sg ++ [k]) sd rb dg un to occ rq
  | Ok nodeStateStaged => mkRolloutState up pe sg (sd ++ [k]) rb dg un to occ rq
  | Ok nodeStateRebooting => mkRolloutState up pe sg sd (rb ++ [k]) dg un to occ rq
  | Ok nodeStateDegraded => mkRolloutState up pe sg sd rb (dg ++ [k]) un to occ rq
  end.

Definition classifyKeys (owned : gmap string BootcNode) : list string → rolloutState → rolloutState :=
  fold_left (λ rs k, match owned !! k with Some bn => classifyInto rs k bn | None => rs end).

(** [buildRolloutState]. *)
Definition buildRolloutState `{MapOrder} (owned : gmap string BootcNode) : rolloutState :=
  classifyKeys owned (rangeKeys 1 owned) emptyRolloutState.

(** [resolveRebootTimeout]. *)
Definition resolveRebootTimeout (pool : BootcNodePool) : Z :=
  match Rollout (pool_spec pool) with
  | None => 0%Z
  | Some ro =>
      match RebootTimeoutSeconds ro with
      | None => 0%Z
      | Some n => GoInt.wrap64 (n * GoInt.Second)
      end
  end.

(** [rebootTimedOut]. *)
Definition rebootTimedOut (bn : BootcNode) (timeout now : Z) : bool :=
  if (timeout <=? 0)%Z then false
  else match FindStatusCondition (bns_Conditions (bn_status bn)) NodeIdle with
       | None => false
       | Some idle =>
           if negb (c_reason idle =s NodeReasonRebooting) then false
           else (timeout <? GoInt.timeSub now (instant (c_lastTransitionTime idle)))%Z
       end.

(** The time left before a rebooting node times out, when it is positive. *)
Definition timeLeft (bn : BootcNode) (timeout now : Z) : option Z :=
  match FindStatusCondition (bns_Conditions (bn_status bn)) NodeIdle with
  | None => None
  | Some idle =>
      let lft := GoInt.wrap64 (timeout - GoInt.timeSub now (instant (c_lastTransitionTime idle))) in
      if (0 <? lft)%Z then Some lft else None
  end.

(** The loop of [applyRebootTimeouts]: nodes that timed out, nodes that
    remain, and the requeue so far. *)
Fixpoint timeoutLoop (owned : gmap string BootcNode) (timeout now : Z)
    (l : list string) (requeue : Z) : list string * list string * Z :=
  match l with
  | [] => ([], [], requeue)
  | k :: l =>
      match owned !! k with
      | None => timeoutLoop owned timeout now l requeue
      | Some bn =>
          if rebootTimedOut bn timeout now then
            let '(out, rem, rq) := timeoutLoop owned timeout now l requeue in
            (k :: out, rem, rq)
          else
            let requeue' :=
              match timeLeft bn timeout now with
              | None => requeue
              | Some lft =>
                  if ((requeue =? 0) || (lft <? requeue))%Z then lft else requeue
              end in
            let '(out, rem, rq) := timeoutLoop owned timeout now l requeue' in
            (out, k :: rem, rq)
      end
  end.

(** [applyRebootTimeouts]: the new rollout state and the requeue delay. *)
Definition applyRebootTimeouts (owned : gmap string BootcNode) (rs : rolloutState)
    (timeout now : Z) : rolloutState * Z :=
  if (timeout <=? 0)%Z then (rs, 0%Z)
  else
    let '(out, rem, rq) := timeoutLoop owned timeout now (rebooting rs) 0 in
    (mkRolloutState (upToDate rs) (pending rs) (staging rs) (staged rs) rem
       (degraded rs ++ out) (unclassified rs) (rebootTimedOutNodes rs ++ out)
       (occupiedSlots rs) (requeueAfter rs), rq).

(** Does the BootcNode behind a pointer hold a reboot slot? *)
Definition slotted (owned : gmap string BootcNode) (k : string) : bool :=
  match owned !! k with
  | Some bn => HasAnnotation (bn_meta bn) AnnotationInRebootSlot
  | None => false
  end.

Definition nameOf (owned : gmap string BootcNode) (k : string) : string :=
  default "" (bn_name <$> owned !! k).

Record unhealthySlot : Set := mkUnhealthySlot { us_name : string; us_reason : string }.

(** A degraded node counts as unhealthy when it booted the target digest, or
    never reported a booted image. *)
Definition degradedOnTarget (owned : gmap string BootcNode) (targetDigest : string) (k : string) : bool :=
  match owned !! k with
  | None => false
  | Some bn =>
      match Booted (bn_status bn) with
      | None => true
      | Some i => InfoMatchesDigest (Some i) targetDigest
      end
  end.

(** [findUnhealthySlots]. *)
Definition findUnhealthySlots (owned : gmap string BootcNode) (rs : rolloutState)
    (targetDigest : string) : list unhealthySlot :=
  let mk reason k := mkUnhealthySlot (nameOf owned k) reason in
  (mk "Degraded" <$> List.filter (λ k, slotted owned k && degradedOnTarget owned targetDigest k)
                       (degraded rs)) ++
  (mk "NotReady" <$> List.filter (slotted owned) (upToDate rs)) ++
  (mk "RebootTimeout" <$> List.filter (slotted owned) (rebootTimedOutNodes rs)).

(** [newInvalidSpecError]/[isInvalidSpecError] (bootcnodepool_controller.go). *)
Definition isInvalidSpecError (e : error) : bool :=
  match rootCause e with ErrInvalidSpec _ => true | _ => false end.

Definition intOrString_String (v : IntOrString) : string :=
  match v with IntVal z => pretty z | StrVal s => s end.

(** [resolveMaxUnavailable]. *)
Definition resolveMaxUnavailable (pool : BootcNodePool) (nodeCount : Z) : result Z :=
  match Rollout (pool_spec pool) with
  | None => Ok 1%Z
  | Some ro =>
      if Paused ro then Ok 0%Z
      else match MaxUnavailable ro with
           | None => Ok 1%Z
           | Some v =>
               match GetScaledValueFromIntOrPercent v nodeCount true with
               | Ok z => Ok z
               | Err e => Err (ErrInvalidSpec ("invalid maxUnavailable " +:+
                            quoted (intOrString_String v) +:+ ": " +:+ Error e))
               end
           end
  end.

(** [partitionSlottedNodes]. *)
Definition partitionSlottedNodes (owned : gmap string BootcNode) (l : list string)
    : list string * list string :=
  let byName a b := String.le (nameOf owned a) (nameOf owned b) in
  (merge_sort byName (List.filter (slotted owned) l),
   merge_sort byName (List.filter (λ k, negb (slotted owned k)) l)).

(** [nodeNames]. *)
Definition nodeNames (owned : gmap string BootcNode) (l : list string) : list string :=
  nameOf owned <$> l.
End Classification.

(** ** Requeue delays

    [earlierRequeue] is the minimum of the positive delays, zero or less meaning
    "none": a commutative monoid up to that reading, so the order in which the
    reconcile pass collects its delays does not matter. *)

Section Requeue.
Local Open Scope Z_scope.

(** The delay [d] asks for, as an option. *)
Definition delay (d : Z) : option Z := if d <=? 0 then None else Some d.

Definition soonest (a b : option Z) : option Z :=
  match a, b with
  | None, x | x, None => x
  | Some x, Some y => Some (Z.min x y)
  end.

Lemma delay_earlierRequeue a b : delay (earlierRequeue a b) = soonest (delay a) (delay b).
Proof.
  unfold delay, earlierRequeue, soonest.
  destruct (Z.leb_spec b 0), (Z.leb_spec a 0), (Z.ltb_spec b a); simpl;
    repeat match goal with |- context [?x <=? ?y] => destruct (Z.leb_spec x y) end;
    try done; try lia; f_equal; lia.
Qed.

Lemma soonest_comm a b : soonest a b = soonest b a.
Proof. destruct a, b; simpl; try done. f_equal. lia. Qed.

Lemma soonest_assoc a b c : soonest a (soonest b c) = soonest (soonest a b) c.
Proof. destruct a, b, c; simpl; try done. f_equal. lia. Qed.
End Requeue.

(** ** Classification facts *)

Section ClassifyFacts.
Context {L : Lib}.
Implicit Types (owned : gmap string BootcNode) (l : list string).

(** The node behind a key is classified as [st]. *)
Definition inState owned (st : nodeState) (k : string) : bool :=
  match owned !! k with
  | Some bn => match classifyNode bn with Ok s => bool_decide (s = st) | Err _ => false end
  | None => false
  end.

Definition inError owned (k : string) : bool :=
  match owned !! k with
  | Some bn => negb (is_ok (classifyNode bn))
  | None => false
  end.

(** The bucket of a state. *)
Definition bucket (rs : rolloutState) (st : nodeState) : list string :=
  match st with
  | nodeStateUpToDate => upToDate rs
  | nodeStatePending => pending rs
  | nodeStateStaging => staging rs
  | nodeStateStaged => staged rs
  | nodeStateRebooting => rebooting rs
  | nodeStateDegraded => degraded rs
  end.

Lemma classifyKeys_bucket owned l rs st :
  bucket (classifyKeys owned l rs) st = bucket rs st ++ List.filter (inState owned st) l.
Proof.
  revert rs. induction l as [|k l IH]; intros rs; [by rewrite app_nil_r|].
  unfold classifyKeys in *. simpl. rewrite IH. unfold inState at 2.
  destruct (owned !! k) as [bn|]; [|done]. destruct rs. unfold classifyInto.
  destruct (classifyNode bn) as [[]|]; destruct st; simpl;
    by rewrite <- ?app_assoc.
Qed.

Lemma classifyKeys_unclassified owned l rs :
  unclassified (classifyKeys owned l rs) = unclassified rs ++ List.filter (inError owned) l.
Proof.
  revert rs. induction l as [|k l IH]; intros rs; [by rewrite app_nil_r|].
  unfold classifyKeys in *. simpl. rewrite IH. unfold inError at 2.
  destruct (owned !! k) as [bn|]; [|done]. destruct rs. unfold classifyInto.
  destruct (classifyNode bn) as [[]|]; simpl; by rewrite <- ?app_assoc.
Qed.

Lemma classifyKeys_rest owned l rs :
  occupiedSlots (classifyKeys owned l rs) =
    (occupiedSlots rs + Z.of_nat (count (slotted owned) l))%Z ∧
  rebootTimedOutNodes (classifyKeys owned l rs) = rebootTimedOutNodes rs ∧
  requeueAfter (classifyKeys owned l rs) = requeueAfter rs.
Proof.
  revert rs. induction l as [|k l IH]; intros rs.
  { rewrite count_nil. simpl. split; [lia|done]. }
  unfold classifyKeys in *. simpl. rewrite count_cons. unfold slotted at 1.
  destruct (IH (match owned !! k with Some bn => classifyInto rs k bn | None => rs end))
    as (-> & -> & ->).
  destruct (owned !! k) as [bn|]; [|simpl; split; [lia|done]].
  destruct rs. unfold classifyInto.
  destruct (HasAnnotation (bn_meta bn) AnnotationInRebootSlot);
    destruct (classifyNode bn) as [[]|]; simpl; split; (lia || done).
Qed.

Definition all_states : list nodeState :=
  [nodeStateUpToDate; nodeStatePending; nodeStateStaging; nodeStateStaged;
   nodeStateRebooting; nodeStateDegraded].

(** Keys of all buckets, in declaration order. *)
Definition allKeys (rs : rolloutState) : list string :=
  concat (bucket rs <$> all_states) ++ unclassified rs.

Lemma nodeCount_allKeys rs : nodeCount rs = length (allKeys rs).
Proof.
  unfold nodeCount, allKeys. simpl. rewrite !length_app. simpl. lia.
Qed.

(** Every known key ends up in exactly one bucket. *)
Lemma classifyKeys_perm owned l rs :
  (∀ k, k ∈ l → is_Some (owned !! k)) →
  allKeys (classifyKeys owned l rs) ≡ₚ allKeys rs ++ l.
Proof.
  revert rs. induction l as [|k l IH]; intros rs Hl; [by rewrite app_nil_r|].
  unfold classifyKeys in *. simpl. rewrite IH by set_solver.
  destruct (Hl k) as [bn Hbn]; [set_solver|]. rewrite Hbn.
  rewrite <- Permutation_middle. apply (Permutation_app_tail (l' := k :: allKeys rs) l).
  destruct rs. unfold classifyInto, allKeys.
  destruct (classifyNode bn) as [[]|]; simpl; rewrite ?app_nil_r, <- ?app_assoc; simpl;
    symmetry; repeat first [reflexivity
                           | etransitivity; [apply Permutation_middle|apply Permutation_app_head]].
  by rewrite <- Permutation_cons_append.
Qed.
End ClassifyFacts.

(** ** Reboot timeouts *)

Section Timeouts.
Context {L : Lib}.
Implicit Types (owned : gmap string BootcNode) (l : list string) (timeout now : Z).
Local Open Scope Z_scope.

(** The node behind a key has exceeded the reboot timeout. *)
Definition timedOut owned timeout now (k : string) : bool :=
  match owned !! k with Some bn => rebootTimedOut bn timeout now | None => false end.

Definition leftOf owned timeout now (k : string) : option Z :=
  match owned !! k with Some bn => timeLeft bn timeout now | None => None end.

Lemma leftOf_pos owned timeout now k t : leftOf owned timeout now k = Some t → 0 < t.
Proof.
  unfold leftOf, timeLeft. destruct (owned !! k); [|done].
  destruct (FindStatusCondition _ _); [|done].
  destruct (Z.ltb_spec 0 (GoInt.wrap64 (timeout -
    GoInt.timeSub now (instant (c_lastTransitionTime c))))); [|done]. by intros [= <-].
Qed.

(** The requeue delay is the soonest of the positive remaining times. *)
Definition soonest_left owned timeout now (l : list string) (rq0 rq : Z) : Prop :=
  (rq = rq0 ∨ ∃ k, k ∈ l ∧ leftOf owned timeout now k = Some rq) ∧
  (∀ k t, k ∈ l → leftOf owned timeout now k = Some t → 0 < rq <= t) ∧
  (0 < rq0 → 0 < rq <= rq0).

Lemma timeoutLoop_spec owned timeout now l rq0 :
  0 <= rq0 →
  (∀ k, k ∈ l → is_Some (owned !! k)) →
  let '(out, rem, rq) := timeoutLoop owned timeout now l rq0 in
  out = List.filter (timedOut owned timeout now) l ∧
  rem = List.filter (λ k, negb (timedOut owned timeout now k)) l ∧
  soonest_left owned timeout now rem rq0 rq.
Proof.
  revert rq0. induction l as [|k l IH]; intros rq0 Hrq Hl; simpl.
  { split_and!; [done..|]. unfold soonest_left. split; [by left|]. split; [set_solver|lia]. }
  destruct (Hl k) as [bn Hbn]; [set_solver|]. rewrite Hbn.
  assert (timedOut owned timeout now k = rebootTimedOut bn timeout now) as Ht
    by (unfold timedOut; by rewrite Hbn).
  assert (leftOf owned timeout now k = timeLeft bn timeout now) as Hlf
    by (unfold leftOf; by rewrite Hbn).
  rewrite Ht. destruct (rebootTimedOut bn timeout now); simpl.
  - specialize (IH rq0 Hrq ltac:(set_solver)).
    destruct (timeoutLoop _ _ _ _ _) as [[out rem] rq].
    destruct IH as (-> & -> & IH). done.
  - set (rq1 := match timeLeft bn timeout now with None => rq0 | Some _ => _ end).
    assert (0 <= rq1 ∧ (rq1 = rq0 ∨ leftOf owned timeout now k = Some rq1) ∧
            (∀ t, leftOf owned timeout now k = Some t → 0 < rq1 <= t) ∧
            (0 < rq0 → 0 < rq1 <= rq0)) as (H1 & H2 & H3 & H4).
    { unfold rq1. rewrite <- Hlf. destruct (leftOf owned timeout now k) as [t|] eqn:Et.
      - pose proof (leftOf_pos _ _ _ _ _ Et).
        destruct (Z.eqb_spec rq0 0), (Z.ltb_spec t rq0); simpl;
          (split_and!; [lia|naive_solver|intros ? [= <-]; lia|lia]).
      - split_and!; [done|by left|done|lia]. }
    clearbody rq1. specialize (IH rq1 H1 ltac:(set_solver)).
    destruct (timeoutLoop _ _ _ _ _) as [[out rem] rq].
    destruct IH as (-> & -> & IHa & IHb & IHc). split_and!; [done..|].
    set (rem := List.filter _ _) in *. split_and!.
    + destruct IHa as [->|(k' & ? & ?)]; [|right; set_solver].
      destruct H2 as [->|?]; [by left|]. right. exists k. set_solver.
    + intros k' t. rewrite elem_of_cons. intros [->|Hin] Hk'; [|by eapply IHb].
      specialize (H3 _ Hk'). specialize (IHc ltac:(lia)). lia.
    + intros Hpos. specialize (H4 Hpos). specialize (IHc ltac:(lia)). lia.
Qed.
End Timeouts.

(** ** Facts about a freshly built rollout state *)

Section BuildFacts.
Context {L : Lib} `{MapOrder}.
Implicit Types (owned : gmap string BootcNode).

Lemma build_bucket owned st :
  bucket (buildRolloutState owned) st = List.filter (inState owned st) (rangeKeys 1 owned).
Proof. unfold buildRolloutState. rewrite classifyKeys_bucket. by destruct st. Qed.

Lemma elem_of_bucket owned st k :
  k ∈ bucket (buildRolloutState owned) st ↔
    ∃ bn, owned !! k = Some bn ∧ classifyNode bn = Ok st.
Proof.
  rewrite build_bucket, list_elem_of_In, List.filter_In, <- list_elem_of_In, elem_of_rangeKeys.
  unfold inState. split.
  - intros [[bn Hbn] Hst]. rewrite Hbn in Hst. exists bn. split; [done|].
    destruct (classifyNode bn) as [s|]; [|done]. by apply bool_decide_eq_true in Hst as ->.
  - intros (bn & Hbn & Hst). rewrite Hbn, Hst. split; [eauto|]. by apply bool_decide_eq_true.
Qed.

Lemma build_allKeys owned : allKeys (buildRolloutState owned) ≡ₚ (map_to_list owned).*1.
Proof.
  unfold buildRolloutState. rewrite classifyKeys_perm; [by rewrite rangeKeys_perm|].
  intros k. by rewrite elem_of_rangeKeys.
Qed.

Lemma build_NoDup owned : NoDup (allKeys (buildRolloutState owned)).
Proof. rewrite build_allKeys. apply NoDup_fst_map_to_list. Qed.

Lemma build_nodeCount owned : nodeCount (buildRolloutState owned) = size owned.
Proof.
  by rewrite nodeCount_allKeys, build_allKeys, length_fmap, length_map_to_list.
Qed.

(** Number of BootcNodes that hold a reboot slot. *)
Definition slots owned : nat := count (slotted owned) (map_to_list owned).*1.

Lemma build_occupied owned : occupiedSlots (buildRolloutState owned) = Z.of_nat (slots owned).
Proof.
  unfold buildRolloutState, slots. destruct (classifyKeys_rest owned (rangeKeys 1 owned) emptyRolloutState)
    as (-> & _ & _).
  simpl. by rewrite (count_perm _ _ _ (rangeKeys_perm 1 owned)).
Qed.

Lemma build_timedOut owned : rebootTimedOutNodes (buildRolloutState owned) = [].
Proof. by destruct (classifyKeys_rest owned (rangeKeys 1 owned) emptyRolloutState) as (_ & ? & _). Qed.
End BuildFacts.

(** ** The table of effective states

    The architecture document's table, as a relation independent of the order of
    the tests in [classifyNode]. *)

Section Table.
Context {L : Lib}.
Implicit Types (bn : BootcNode).

Definition daemonDegraded bn : Prop :=
  ∃ c, FindStatusCondition (bns_Conditions (bn_status bn)) NodeDegraded = Some c ∧
       c_status c = ConditionTrue.

(** The digest the node should run. *)
Definition desiredDigest bn (d : string) : Prop :=
  ∃ ref, ParseNamed (DesiredImage (bn_spec bn)) = Ok ref ∧ named_digest ref = Some d.

(** The daemon reports [Idle=False] with this reason. *)
Definition busyWith bn (reason : string) : Prop :=
  ∃ c, FindStatusCondition (bns_Conditions (bn_status bn)) NodeIdle = Some c ∧
       c_status c = ConditionFalse ∧ c_reason c = reason.

(** A node that is healthy and runs something else than it should. *)
Definition outdated bn : Prop :=
  ¬ daemonDegraded bn ∧
  ∃ d i, desiredDigest bn d ∧ Booted (bn_status bn) = Some i ∧ ¬ carries_digest i d.

Inductive effective bn : nodeState → Prop :=
| eff_degraded : daemonDegraded bn → effective bn nodeStateDegraded
| eff_unreported :
    ¬ daemonDegraded bn → Booted (bn_status bn) = None → effective bn nodeStatePending
| eff_upToDate d i :
    ¬ daemonDegraded bn → desiredDigest bn d → Booted (bn_status bn) = Some i →
    carries_digest i d → effective bn nodeStateUpToDate
| eff_staging : outdated bn → busyWith bn NodeReasonStaging → effective bn nodeStateStaging
| eff_staged : outdated bn → busyWith bn NodeReasonStaged → effective bn nodeStateStaged
| eff_rebooting : outdated bn → busyWith bn NodeReasonRebooting → effective bn nodeStateRebooting
| eff_waiting :
    outdated bn →
    (∀ r, r ∈ [NodeReasonStaging; NodeReasonStaged; NodeReasonRebooting] → ¬ busyWith bn r) →
    effective bn nodeStatePending.

Context {HL : LibLaws L}.

Lemma daemonDegraded_spec bn :
  IsStatusConditionTrue (bns_Conditions (bn_status bn)) NodeDegraded = true ↔ daemonDegraded bn.
Proof. apply is_true_spec. Qed.

Lemma match_booted i d : InfoMatchesDigest (Some i) d = true ↔ carries_digest i d.
Proof.
  rewrite InfoMatchesDigest_spec. split; [|eauto].
  intros (? & [= <-] & ?). done.
Qed.

Lemma classify_sound bn st : classifyNode bn = Ok st → effective bn st.
Proof.
  unfold classifyNode, parseImageRef.
  destruct (IsStatusConditionTrue _ _) eqn:Ed.
  { intros [= <-]. apply eff_degraded. by apply daemonDegraded_spec. }
  assert (¬ daemonDegraded bn) as Hd by (intros ?%daemonDegraded_spec; congruence).
  destruct (Booted (bn_status bn)) as [i|] eqn:Eb.
  2:{ intros [= <-]. by apply eff_unreported. }
  destruct (ParseNamed _) as [ref|] eqn:Ep; [|done].
  destruct (named_digest ref) as [d|] eqn:En; [|done].
  assert (desiredDigest bn d) as Hdd by (exists ref; done).
  destruct (InfoMatchesDigest (Some i) d) eqn:Em.
  { intros [= <-]. apply match_booted in Em. by eapply eff_upToDate. }
  assert (outdated bn) as Ho.
  { split; [done|]. exists d, i. split_and!; [done..|]. intros ?%match_booted. congruence. }
  destruct (IsStatusConditionFalse _ _) eqn:Ef.
  2:{ intros [= <-]. apply eff_waiting; [done|]. intros r _ (c & Hc & Hs & _).
      rewrite (is_false_find _ _ _ Hc), Hs in Ef. done. }
  apply is_false_spec in Ef as (c & Hc & Hs). rewrite Hc.
  assert (∀ r, busyWith bn r ↔ c_reason c = r) as Hr.
  { intros r. unfold busyWith. rewrite Hc. split; [intros (? & ? & ? & ?); congruence|eauto]. }
  destruct (c_reason c =s NodeReasonStaging) eqn:E1.
  { apply seq_b_true in E1. intros [= <-]. apply eff_staging; [done|by apply Hr]. }
  destruct (c_reason c =s NodeReasonStaged) eqn:E2.
  { apply seq_b_true in E2. intros [= <-]. apply eff_staged; [done|by apply Hr]. }
  destruct (c_reason c =s NodeReasonRebooting) eqn:E3.
  { apply seq_b_true in E3. intros [= <-]. apply eff_rebooting; [done|by apply Hr]. }
  apply seq_b_false in E1, E2, E3. intros [= <-]. apply eff_waiting; [done|].
  intros r Hin. rewrite Hr. set_solver.
Qed.

(** The table assigns at most one state. *)
Lemma effective_functional bn st1 st2 : effective bn st1 → effective bn st2 → st1 = st2.
Proof.
  assert (∀ d1 d2, desiredDigest bn d1 → desiredDigest bn d2 → d1 = d2) as Hdig.
  { intros d1 d2 (r1 & ? & ?) (r2 & ? & ?). congruence. }
  assert (∀ r1 r2, busyWith bn r1 → busyWith bn r2 → r1 = r2) as Hbusy.
  { intros r1 r2 (c1 & ? & ? & ?) (c2 & ? & ? & ?). congruence. }
  intros H1 H2. destruct H1, H2; try done;
    repeat match goal with
      | H : outdated bn |- _ => destruct H as (? & ? & ? & ? & ? & ?)
      | H1 : desiredDigest bn ?a, H2 : desiredDigest bn ?b |- _ =>
          assert (a = b) as -> by eauto; clear H1
      | H1 : busyWith bn ?a, H2 : busyWith bn ?b |- _ =>
          let E := fresh in assert (a = b) as E by eauto; by compute in E
      | H : ∀ r, r ∈ _ → ¬ busyWith bn r, H1 : busyWith bn _ |- _ =>
          exfalso; eapply H; [|exact H1]; set_solver
      end; congruence.
Qed.

Lemma classify_fails bn :
  is_ok (classifyNode bn) = false ↔
    ¬ daemonDegraded bn ∧ is_Some (Booted (bn_status bn)) ∧ ∀ d, ¬ desiredDigest bn d.
Proof.
  unfold classifyNode, parseImageRef. destruct (IsStatusConditionTrue _ _) eqn:Ed.
  { apply daemonDegraded_spec in Ed. split; [done|]. intros (? & _). done. }
  assert (¬ daemonDegraded bn) as Hd by (intros ?%daemonDegraded_spec; congruence).
  destruct (Booted (bn_status bn)) as [i|] eqn:Eb.
  2:{ split; [done|]. intros (_ & [? ?] & _). congruence. }
  destruct (ParseNamed _) as [ref|] eqn:Ep.
  - destruct (named_digest ref) as [d|] eqn:En.
    + assert (desiredDigest bn d) as Hdd by (exists ref; done).
      split; [|intros (_ & _ & H); exfalso; by eapply H].
      destruct (InfoMatchesDigest _ _); [done|].
      destruct (IsStatusConditionFalse _ _) eqn:Ef; [|done].
      apply is_false_spec in Ef as (c & -> & _). by repeat split_match.
    + split; [|done]. intros _. split_and!; [done|eauto|]. intros d (r & ? & ?). congruence.
  - split; [|done]. intros _. split_and!; [done|eauto|]. intros d (r & ? & ?). congruence.
Qed.

Lemma effective_classifies bn st : effective bn st → is_ok (classifyNode bn) = true.
Proof.
  intros He. apply not_false_iff_true. rewrite classify_fails.
  intros (Hd & [i Hi] & Hdig).
  destruct He; try done; try congruence;
    repeat match goal with
      | H : outdated bn |- _ => destruct H as (? & ? & ? & ? & ? & ?)
      end; by eapply Hdig.
Qed.

Lemma classify_iff bn st : classifyNode bn = Ok st ↔ effective bn st.
Proof.
  split; [apply classify_sound|]. intros He. pose proof (effective_classifies _ _ He) as Hok.
  destruct (classifyNode bn) as [st'|] eqn:Ec; [|done].
  f_equal. eapply effective_functional; [|done]. by apply classify_sound.
Qed.

(** C27. [classifyNode] implements the table of effective states: it answers
    [st] exactly when the table gives [st]; it fails exactly when the node is
    not degraded, has reported a booted image, and its desired image is not a
    digest reference; and the nil dereference of the source is unreachable. *)
Theorem classifyNode_table bn :
  (∀ st, classifyNode bn = Ok st ↔ effective bn st) ∧
  (is_ok (classifyNode bn) = false ↔
     ¬ daemonDegraded bn ∧ is_Some (Booted (bn_status bn)) ∧ ∀ d, ¬ desiredDigest bn d) ∧
  (∀ msg, classifyNode bn ≠ Err (ErrPanic msg)).
Proof.
  split_and!.
  - apply classify_iff.
  - apply classify_fails.
  - intros msg. unfold classifyNode. repeat (split_match; try done).
    match goal with H : IsStatusConditionFalse _ _ = true |- _ =>
      apply is_false_spec in H as (c & ? & _) end. congruence.
Qed.
End Table.

(** ** Properties of the rollout state *)

Section Properties.
Context {L : Lib} `{MapOrder}.
Implicit Types (owned : gmap string BootcNode).

(** C28. [buildRolloutState] sorts every owned BootcNode into exactly one
    bucket, whatever order the map is iterated in: the buckets together are a
    permutation of the map's keys without repetition, a bucket holds exactly
    the nodes classified into it, [nodeCount] is the size of the map, and
    [occupiedSlots] is the number of nodes with the slot annotation. *)
Theorem buildRolloutState_partition owned :
  let rs := buildRolloutState owned in
  allKeys rs ≡ₚ (map_to_list owned).*1 ∧
  NoDup (allKeys rs) ∧
  (∀ st k, k ∈ bucket rs st ↔ ∃ bn, owned !! k = Some bn ∧ classifyNode bn = Ok st) ∧
  nodeCount rs = size owned ∧
  occupiedSlots rs = Z.of_nat (slots owned).
Proof.
  simpl. split_and!.
  - apply build_allKeys.
  - apply build_NoDup.
  - intros. apply elem_of_bucket.
  - apply build_nodeCount.
  - apply build_occupied.
Qed.

(** The node behind key [k] reported at [since] that it is about to reboot. *)
Definition rebootingSince owned (k : string) (since : Z) : Prop :=
  ∃ bn c, owned !! k = Some bn ∧
    FindStatusCondition (bns_Conditions (bn_status bn)) NodeIdle = Some c ∧
    c_reason c = NodeReasonRebooting ∧ instant (c_lastTransitionTime c) = since.

Lemma rebootingSince_fun owned k t1 t2 :
  rebootingSince owned k t1 → rebootingSince owned k t2 → t1 = t2.
Proof. intros (b1 & c1 & ? & ? & _ & <-) (b2 & c2 & ? & ? & _ & <-). congruence. Qed.

(** The tests of the loop against the clock: saturation of [Time.Sub] is harmless
    for a timeout below the largest Duration, and the subtraction does not wrap
    when the deadline is less than that ahead. *)
Lemma timedOut_since owned timeout now k since :
  (0 < timeout < GoInt.maxInt64)%Z → rebootingSince owned k since →
  timedOut owned timeout now k = true ↔ (since + timeout < now)%Z.
Proof.
  intros Ht (bn & c & Hk & Hc & Hr & <-). unfold timedOut, rebootTimedOut.
  rewrite Hk, (proj2 (Z.leb_gt _ _)), Hc, Hr by lia. cbn [negb].
  rewrite (proj2 (seq_b_true _ _) eq_refl). cbn [negb]. rewrite Z.ltb_lt.
  unfold GoInt.timeSub, GoInt.minInt64, GoInt.maxInt64 in *. lia.
Qed.

Lemma leftOf_since owned timeout now k since t :
  (0 < timeout < GoInt.maxInt64)%Z → rebootingSince owned k since →
  (since + timeout <= now + GoInt.maxInt64)%Z →
  leftOf owned timeout now k = Some t ↔ (0 < t ∧ since + timeout = now + t)%Z.
Proof.
  intros Ht (bn & c & Hk & Hc & Hr & <-) Hfar. unfold leftOf, timeLeft. rewrite Hk, Hc.
  set (d := GoInt.timeSub now _). set (since := instant _) in *.
  assert (GoInt.in64 (timeout - d)) as Hin.
  { unfold d, GoInt.in64, GoInt.timeSub, GoInt.minInt64, GoInt.maxInt64 in *. lia. }
  rewrite (GoInt.wrap64_id _ Hin). clear Hin.
  destruct (Z.ltb_spec 0 (timeout - d)) as [Hp|Hp]; (split; [intros [= <-] || intros [=]|intros [??]]);
    try f_equal; unfold d, GoInt.timeSub, GoInt.minInt64, GoInt.maxInt64 in *; lia.
Qed.

(** C29. [applyRebootTimeouts] on a rollout state whose rebooting nodes all
    report since when they reboot: a timeout that is not positive changes
    nothing. A positive one moves to the degraded bucket and to the list of
    timed-out nodes exactly the nodes whose deadline, [since + timeout], lies
    strictly before [now]; the others stay, every other bucket and the node count
    are left alone. The requeue delay is the time to the next deadline: some
    remaining node is due after exactly that delay and none earlier, except nodes
    due at this very instant, for which no delay is asked; it is 0 when no
    deadline lies ahead. Assumed: the timeout is below the largest Duration and
    no deadline is more than the largest Duration ahead (292 years). *)
Theorem applyRebootTimeouts_correct owned rs timeout now :
  (timeout < GoInt.maxInt64)%Z →
  (∀ k, k ∈ rebooting rs → ∃ since, rebootingSince owned k since ∧
     (since + timeout <= now + GoInt.maxInt64)%Z) →
  let '(rs', rq) := applyRebootTimeouts owned rs timeout now in
  ((timeout <= 0)%Z → rs' = rs ∧ rq = 0%Z) ∧
  ((0 < timeout)%Z → ∃ out,
     degraded rs' = degraded rs ++ out ∧ rebootTimedOutNodes rs' = rebootTimedOutNodes rs ++ out ∧
     out ++ rebooting rs' ≡ₚ rebooting rs ∧
     (∀ k, k ∈ out → ∃ since, rebootingSince owned k since ∧ (since + timeout < now)%Z) ∧
     (∀ k, k ∈ rebooting rs' → ∃ since, rebootingSince owned k since ∧ (now <= since + timeout)%Z) ∧
     upToDate rs' = upToDate rs ∧ pending rs' = pending rs ∧ staging rs' = staging rs ∧
     staged rs' = staged rs ∧ unclassified rs' = unclassified rs ∧
     occupiedSlots rs' = occupiedSlots rs ∧ requeueAfter rs' = requeueAfter rs ∧
     nodeCount rs' = nodeCount rs ∧ (0 <= rq)%Z ∧
     ((0 < rq)%Z → ∃ k since, k ∈ rebooting rs' ∧ rebootingSince owned k since ∧
        (since + timeout = now + rq)%Z) ∧
     (∀ k since, k ∈ rebooting rs' → rebootingSince owned k since → (now < since + timeout)%Z →
        (0 < rq ∧ now + rq <= since + timeout)%Z)).
Proof.
  intros Hmax Hsince. unfold applyRebootTimeouts.
  destruct (Z.leb_spec timeout 0) as [Hle|Ht]; [split; [done|lia]|].
  assert (∀ k, k ∈ rebooting rs → is_Some (owned !! k)) as Hl.
  { intros k Hk. destruct (Hsince k Hk) as (since & (bn & _ & ? & _) & _). eauto. }
  pose proof (timeoutLoop_spec owned timeout now (rebooting rs) 0 ltac:(done) Hl) as Hs.
  destruct (timeoutLoop _ _ _ _ _) as [[out rem] rq]. destruct Hs as (Hout & Hrem & Ha & Hb & _).
  split; [lia|]. intros _. exists out. simpl.
  assert (out ++ rem ≡ₚ rebooting rs) as Hp by (rewrite Hout, Hrem; symmetry; apply forall_filter_split).
  assert (∀ k, k ∈ rem → k ∈ rebooting rs ∧ timedOut owned timeout now k = false) as Hin.
  { intros k. rewrite Hrem, elem_of_filter_b, negb_true_iff. tauto. }
  assert (∀ k since t, k ∈ rem → rebootingSince owned k since →
    leftOf owned timeout now k = Some t ↔ (0 < t ∧ since + timeout = now + t)%Z) as Hleft.
  { intros k since t Hk Hs. destruct (Hin k Hk) as [Hk' _]. destruct (Hsince k Hk') as (since' & Hs' & Hfar).
    rewrite (rebootingSince_fun _ _ _ _ Hs Hs'). apply leftOf_since; [lia|done..]. }
  split_and!; try done.
  - intros k. rewrite Hout, elem_of_filter_b. intros [Hto Hk]. destruct (Hsince k Hk) as (since & Hs & _).
    exists since. split; [done|]. by apply (timedOut_since owned timeout now k).
  - intros k Hk. destruct (Hin k Hk) as [Hk' Hto]. destruct (Hsince k Hk') as (since & Hs & _).
    exists since. split; [done|]. apply Z.nlt_ge. intros Hlt.
    apply (timedOut_since owned timeout now k) in Hlt; [congruence|lia|done].
  - apply Permutation_length in Hp. rewrite length_app in Hp. unfold nodeCount. simpl. rewrite length_app. lia.
  - destruct Ha as [->|(k & _ & Hk)]; [done|]. apply leftOf_pos in Hk. lia.
  - intros Hpos. destruct Ha as [->|(k & Hk & Hlk)]; [lia|].
    destruct (Hsince k) as (since & Hs & _); [by apply Hin|]. exists k, since. split_and!; [done..|].
    by apply (Hleft k since rq) in Hlk as [_ ?].
  - intros k since Hk Hs Hlt. assert (leftOf owned timeout now k = Some (since + timeout - now)%Z) as Hlf
      by (apply (Hleft k since); [done|done|lia]).
    specialize (Hb _ _ Hk Hlf). lia.
Qed.
End Properties.

Section HaltProperties.
Context {L : Lib} {HL : LibLaws L} `{MapOrder}.
Implicit Types (owned : gmap string BootcNode).

(** The store of a pass right after the specs were synced: every key is its
    node's name and every node should run the target digest. *)
Definition synced owned (target : string) : Prop :=
  ∀ k bn, owned !! k = Some bn → bn_name bn = k ∧ desiredDigest bn target.

Lemma rebooting_not_on_target owned target k :
  synced owned target → inState owned nodeStateRebooting k = true →
  degradedOnTarget owned target k = false.
Proof.
  intros Hs. unfold inState, degradedOnTarget. destruct (owned !! k) as [bn|] eqn:Hk; [|done].
  destruct (classifyNode bn) as [st|] eqn:Ec; [|done].
  intros ->%bool_decide_eq_true. apply classify_sound in Ec. inversion Ec as [| | | | |Ho _|].
  destruct Ho as (_ & d & i & Hd & Hb & Hnc). rewrite Hb.
  destruct (Hs _ _ Hk) as [_ Hd']. destruct Hd as (r & ? & ?), Hd' as (r' & ? & ?).
  assert (d = target) as -> by congruence.
  apply not_true_iff_false. intros ?%match_booted. done.
Qed.

Lemma bucket_disjoint owned st1 st2 k :
  k ∈ bucket (buildRolloutState owned) st1 → k ∈ bucket (buildRolloutState owned) st2 → st1 = st2.
Proof. rewrite !elem_of_bucket. intros (b1 & ? & ?) (b2 & ? & ?). congruence. Qed.

Lemma bucket_NoDup owned st : NoDup (bucket (buildRolloutState owned) st).
Proof. rewrite build_bucket. apply NoDup_filter_b, NoDup_rangeKeys. Qed.

(** The timeouts applied to a fresh state. *)
Lemma timeouts_shape owned timeout now :
  let rs := buildRolloutState owned in
  let rs' := (applyRebootTimeouts owned rs timeout now).1 in
  ∃ out, degraded rs' = degraded rs ++ out ∧ rebootTimedOutNodes rs' = out ∧
         upToDate rs' = upToDate rs ∧ staged rs' = staged rs ∧
         occupiedSlots rs' = occupiedSlots rs ∧ nodeCount rs' = nodeCount rs ∧
         NoDup out ∧ ∀ k, k ∈ out → k ∈ rebooting rs.
Proof.
  simpl. pose proof (build_timedOut owned) as Hto. set (rs := buildRolloutState owned) in *.
  destruct (Z.leb_spec timeout 0) as [Ht|Ht].
  { exists []. unfold applyRebootTimeouts. rewrite (proj2 (Z.leb_le _ _) Ht). simpl.
    rewrite app_nil_r, Hto. split_and!; try done; [constructor|set_solver]. }
  assert (∀ k, k ∈ rebooting rs → is_Some (owned !! k)) as Hdom.
  { intros k. change (rebooting rs) with (bucket rs nodeStateRebooting).
    unfold rs. rewrite elem_of_bucket. intros (bn & ? & _). eauto. }
  unfold applyRebootTimeouts. rewrite (proj2 (Z.leb_gt _ _)) by done.
  pose proof (timeoutLoop_spec owned timeout now (rebooting rs) 0 ltac:(done) Hdom) as Hs.
  destruct (timeoutLoop _ _ _ _ _) as [[out rem] rq]. destruct Hs as (-> & -> & _).
  exists (List.filter (timedOut owned timeout now) (rebooting rs)). simpl.
  split_and!; try done.
  - by rewrite Hto.
  - pose proof (forall_filter_split (timedOut owned timeout now) (rebooting rs)) as Hp.
    apply Permutation_length in Hp. rewrite length_app in Hp.
    unfold nodeCount. simpl. rewrite length_app. lia.
  - apply NoDup_filter_b. apply (bucket_NoDup owned nodeStateRebooting).
  - intros k. rewrite elem_of_filter_b. naive_solver.
Qed.

Lemma timeouts_members owned timeout now k :
  k ∈ rebootTimedOutNodes (applyRebootTimeouts owned (buildRolloutState owned) timeout now).1 ↔
    k ∈ rebooting (buildRolloutState owned) ∧ timedOut owned timeout now k = true.
Proof.
  pose proof (build_timedOut owned) as Hto. set (rs := buildRolloutState owned) in *.
  unfold applyRebootTimeouts. destruct (Z.leb_spec timeout 0) as [Ht|Ht].
  { simpl. rewrite Hto, elem_of_nil. split; [done|]. intros [_ H']. revert H'.
    unfold timedOut, rebootTimedOut. rewrite (proj2 (Z.leb_le _ _)) by done. by destruct (owned !! k). }
  assert (∀ k, k ∈ rebooting rs → is_Some (owned !! k)) as Hdom.
  { intros k'. change (rebooting rs) with (bucket rs nodeStateRebooting).
    unfold rs. rewrite elem_of_bucket. intros (bn & ? & _). eauto. }
  pose proof (timeoutLoop_spec owned timeout now (rebooting rs) 0 ltac:(done) Hdom) as Hs.
  destruct (timeoutLoop _ _ _ _ _) as [[out rem] rq]. destruct Hs as (-> & _). simpl.
  rewrite Hto. simpl. rewrite elem_of_filter_b. tauto.
Qed.

Lemma nameOf_key owned target k : synced owned target → is_Some (owned !! k) → nameOf owned k = k.
Proof. intros Hs [bn Hk]. unfold nameOf. rewrite Hk. by destruct (Hs _ _ Hk). Qed.

(** The halt threshold counts nodes, not symptoms: in the state of a pass
    whose specs were synced to the target digest, after the reboot timeouts
    were applied, no node is reported twice by [findUnhealthySlots], although a
    timed-out node sits in two of the lists it reads. *)
Theorem unhealthySlots_distinct owned target timeout now :
  synced owned target →
  let rs' := (applyRebootTimeouts owned (buildRolloutState owned) timeout now).1 in
  NoDup (us_name <$> findUnhealthySlots owned rs' target).
Proof.
  intros Hs rs'. destruct (timeouts_shape owned timeout now)
    as (out & Hdg & Hto & Hup & _ & _ & _ & Hnd & Hsub). fold rs' in Hdg, Hto, Hup.
  unfold findUnhealthySlots. rewrite Hdg, Hto, Hup, List.filter_app.
  rewrite (filter_none _ out).
  2:{ intros k Hk. rewrite (rebooting_not_on_target owned target k Hs), andb_false_r; [done|].
      apply Hsub in Hk. change (rebooting (buildRolloutState owned)) with
        (bucket (buildRolloutState owned) nodeStateRebooting) in Hk.
      rewrite build_bucket, elem_of_filter_b in Hk. by destruct Hk. }
  rewrite app_nil_r, !fmap_app, <- !list_fmap_compose.
  set (rs := buildRolloutState owned) in *.
  assert (∀ reason (l : list string), (∀ k, k ∈ l → is_Some (owned !! k)) →
            (us_name ∘ (λ k, mkUnhealthySlot (nameOf owned k) reason)) <$> l = (l : list string)) as Hnames.
  { intros reason l Hl. rewrite <- (list_fmap_id l) at 2. apply list_fmap_ext.
    intros i k Hk. simpl. eapply nameOf_key; [done|]. apply Hl. by eapply list_elem_of_lookup_2. }
  assert (∀ st k, k ∈ bucket rs st → is_Some (owned !! k)) as Hdom.
  { intros st k. unfold rs. rewrite elem_of_bucket. intros (bn & ? & _). eauto. }
  rewrite !Hnames.
  2:{ intros k. rewrite elem_of_filter_b. intros [_ Hk]. apply (Hdom nodeStateRebooting). by apply Hsub. }
  2:{ intros k. rewrite elem_of_filter_b. intros [_ Hk]. by apply (Hdom nodeStateUpToDate). }
  2:{ intros k. rewrite elem_of_filter_b. intros [_ Hk]. by apply (Hdom nodeStateDegraded). }
  apply NoDup_app. split_and!.
  - apply NoDup_filter_b, (bucket_NoDup owned nodeStateDegraded).
  - intros k. rewrite elem_of_app, !elem_of_filter_b. intros [_ Hk] [[_ Hk']|[_ Hk']].
    + by pose proof (bucket_disjoint owned nodeStateDegraded nodeStateUpToDate k Hk Hk').
    + by pose proof (bucket_disjoint owned nodeStateDegraded nodeStateRebooting k Hk (Hsub _ Hk')).
  - apply NoDup_app. split_and!.
    + apply NoDup_filter_b, (bucket_NoDup owned nodeStateUpToDate).
    + intros k. rewrite !elem_of_filter_b. intros [_ Hk] [_ Hk'].
      by pose proof (bucket_disjoint owned nodeStateUpToDate nodeStateRebooting k Hk (Hsub _ Hk')).
    + by apply NoDup_filter_b.
Qed.
End HaltProperties.

Section Candidates.
Context {L : Lib}.
Implicit Types (owned : gmap string BootcNode) (l : list string).

Definition byName owned (a b : string) : Prop := String.le (nameOf owned a) (nameOf owned b).

#[local] Instance byName_dec owned : RelDecision (byName owned).
Proof. unfold byName. intros a b. apply _. Defined.
#[local] Instance byName_total owned : Total (byName owned).
Proof. unfold byName. intros a b. apply (total String.le). Qed.
#[local] Instance byName_trans owned : Transitive (byName owned).
Proof. unfold byName. intros a b c. apply transitivity. Qed.

Lemma partition_unfold owned l :
  partitionSlottedNodes owned l =
    (merge_sort (byName owned) (List.filter (slotted owned) l),
     merge_sort (byName owned) (List.filter (λ k, negb (slotted owned k)) l)).
Proof. reflexivity. Qed.

Lemma partition_members owned l k :
  (k ∈ (partitionSlottedNodes owned l).1 ↔ slotted owned k = true ∧ k ∈ l) ∧
  (k ∈ (partitionSlottedNodes owned l).2 ↔ slotted owned k = false ∧ k ∈ l).
Proof.
  rewrite partition_unfold. simpl. rewrite !merge_sort_Permutation, !elem_of_filter_b.
  rewrite negb_true_iff. done.
Qed.

Lemma partition_NoDup owned l :
  NoDup l → NoDup (partitionSlottedNodes owned l).1 ∧ NoDup (partitionSlottedNodes owned l).2.
Proof.
  intros Hl. rewrite partition_unfold. simpl. rewrite !merge_sort_Permutation.
  split; by apply NoDup_filter_b.
Qed.

Lemma sort_names owned l1 l2 :
  l1 ≡ₚ l2 → nameOf owned <$> merge_sort (byName owned) l1 = nameOf owned <$> merge_sort (byName owned) l2.
Proof.
  intros Hp. apply (StronglySorted_unique String.le).
  - assert (StronglySorted (byName owned) (merge_sort (byName owned) l1)) as Hs
      by apply (StronglySorted_merge_sort (byName owned)).
    induction Hs as [|? ? ? ? Hf]; simpl; constructor; [done|].
    apply Forall_fmap. done.
  - assert (StronglySorted (byName owned) (merge_sort (byName owned) l2)) as Hs
      by apply (StronglySorted_merge_sort (byName owned)).
    induction Hs as [|? ? ? ? Hf]; simpl; constructor; [done|].
    apply Forall_fmap. done.
  - by rewrite !merge_sort_Permutation, Hp.
Qed.

(** [partitionSlottedNodes] loses and invents no candidate, separates them
    by the slot annotation, and lists each group by name; the result does not
    depend on the order in which the staged bucket was filled, so the nodes
    that get the free slots are the same for every map iteration order. *)
Theorem partition_deterministic owned l l' :
  l ≡ₚ l' →
  let '(sl, un) := partitionSlottedNodes owned l in
  let '(sl', un') := partitionSlottedNodes owned l' in
  sl ++ un ≡ₚ l ∧
  (∀ k, k ∈ sl → slotted owned k = true) ∧ (∀ k, k ∈ un → slotted owned k = false) ∧
  StronglySorted (byName owned) sl ∧ StronglySorted (byName owned) un ∧
  nodeNames owned sl = nodeNames owned sl' ∧ nodeNames owned un = nodeNames owned un'.
Proof.
  intros Hp. pose proof (partition_members owned l) as Hm.
  rewrite partition_unfold in *. rewrite partition_unfold. split_and!.
  - rewrite !merge_sort_Permutation. symmetry. apply forall_filter_split.
  - intros k Hk. by apply Hm in Hk as [? _].
  - intros k Hk. by apply Hm in Hk as [? _].
  - apply (StronglySorted_merge_sort (byName owned)).
  - apply (StronglySorted_merge_sort (byName owned)).
  - by apply sort_names, filter_b_perm.
  - by apply sort_names, filter_b_perm.
Qed.
End Candidates.

(** ** The deadline itself

    At the exact deadline of a rebooting node (elapsed time equal to the
    timeout) the node is not timed out, and [applyRebootTimeouts] schedules no
    requeue for it either: a pass that runs at that instant leaves the timeout to
    the next unrelated event. *)
Theorem reboot_deadline_gap {L : Lib} {HL : LibLaws L} (name : string) (bn : BootcNode)
    (idle : Condition) (since timeout : Z) :
  FindStatusCondition (bns_Conditions (bn_status bn)) NodeIdle = Some idle →
  c_lastTransitionTime idle = Some since →
  (0 < timeout)%Z → GoInt.in64 timeout →
  let now := (since + timeout)%Z in
  let rs := mkRolloutState [] [] [] [] [name] [] [] [] 1 0 in
  applyRebootTimeouts {[ name := bn ]} rs timeout now =
    (mkRolloutState [] [] [] [] [name] [] [] [] 1 0, 0%Z).
Proof.
  intros Hf Hl Ht H64 now rs. unfold applyRebootTimeouts.
  rewrite (proj2 (Z.leb_gt _ _)) by done. cbn [rebooting rs timeoutLoop].
  assert (GoInt.timeSub now (instant (c_lastTransitionTime idle)) = timeout) as Hsub.
  { rewrite Hl. unfold now. simpl. rewrite GoInt.timeSub_exact; [lia|].
    unfold GoInt.in64 in *. lia. }
  rewrite lookup_singleton_eq. unfold rebootTimedOut, timeLeft. rewrite Hf.
  rewrite (proj2 (Z.leb_gt _ _)) by done. rewrite Hsub.
  replace (timeout - timeout)%Z with 0%Z by lia.
  rewrite (GoInt.wrap64_id 0) by (unfold GoInt.in64, GoInt.minInt64, GoInt.maxInt64; lia).
  rewrite Z.ltb_irrefl. by destruct (negb _).
Qed.

(** ** Witnesses *)

Module ClassifyWitness.
Import Samples LibModel.

Definition owned : gmap string BootcNode :=
  store [stagedNode "w1" None; rebootingNode "w2" 0 slotAnnotations;
         rebootingNode "w3" 500 slotAnnotations; upToDateNode "w4" None].

#[local] Existing Instance idOrder.

Lemma classifyNode_table_witness :
  classifyNode (stagedNode "w1" None) = Ok nodeStateStaged ∧
  effective (stagedNode "w1" None) nodeStateStaged.
Proof.
  split; [vm_compute; reflexivity|].
  apply (proj1 (classifyNode_table (stagedNode "w1" None))). vm_compute. reflexivity.
Defined.

Lemma applyRebootTimeouts_witness :
  let '(rs', rq) := applyRebootTimeouts owned (buildRolloutState owned) 1000 1200 in
  degraded rs' = ["w2"] ∧ rq = 300%Z ∧ nodeCount rs' = 4 ∧
  ∃ k since, k ∈ rebooting rs' ∧ rebootingSince owned k since ∧ (since + 1000 = 1200 + rq)%Z.
Proof.
  pose proof (applyRebootTimeouts_correct owned (buildRolloutState owned) 1000 1200) as H.
  assert (1000 < GoInt.maxInt64)%Z as H1 by reflexivity.
  assert (∀ k, k ∈ rebooting (buildRolloutState owned) → ∃ since, rebootingSince owned k since ∧
    (since + 1000 <= 1200 + GoInt.maxInt64)%Z) as H2.
  { replace (rebooting (buildRolloutState owned)) with ["w3"; "w2"] by (vm_compute; reflexivity).
    intros k. rewrite !elem_of_cons, elem_of_nil. intros [->|[->|[]]]; swap 1 2.
    - exists 0%Z. split; [|by vm_compute].
      exists (rebootingNode "w2" 0 slotAnnotations), (idle ConditionFalse NodeReasonRebooting 0).
      split_and!; vm_compute; reflexivity.
    - exists 500%Z. split; [|by vm_compute].
      exists (rebootingNode "w3" 500 slotAnnotations), (idle ConditionFalse NodeReasonRebooting 500).
      split_and!; vm_compute; reflexivity. }
  specialize (H H1 H2). destruct (applyRebootTimeouts _ _ _ _) as [rs' rq] eqn:E.
  destruct H as [_ H], (H eq_refl) as (out & _ & _ & _ & _ & _ & _ & _ & _ & _ & _ & _ & _ & _ & _ & Hnext & _).
  vm_compute in E. injection E as <- <-. split_and!; [reflexivity..|]. apply Hnext. reflexivity.
Defined.

Lemma synced_owned : synced owned DigestB.
Proof.
  intros k bn H%elem_of_list_to_map_2. revert H. unfold owned, store. simpl.
  rewrite !elem_of_cons, elem_of_nil.
  intros [[= -> ->]|[[= -> ->]|[[= -> ->]|[[= -> ->]|[]]]]]; (split; [reflexivity|]);
    eexists; split; vm_compute; reflexivity.
Defined.

Lemma unhealthySlots_distinct_witness :
  let rs' := (applyRebootTimeouts owned (buildRolloutState owned) 1000 1200).1 in
  us_name <$> findUnhealthySlots owned rs' DigestB = ["w2"] ∧
  NoDup (us_name <$> findUnhealthySlots owned rs' DigestB).
Proof.
  split; [vm_compute; reflexivity|].
  apply (unhealthySlots_distinct owned DigestB 1000 1200). exact synced_owned.
Defined.

Lemma partition_deterministic_witness :
  let st := store [stagedNode "b" None; stagedNode "a" None; stagedNode "c" slotAnnotations] in
  nodeNames st (partitionSlottedNodes st ["b"; "a"; "c"]).2 = ["a"; "b"] ∧
  nodeNames st (partitionSlottedNodes st ["b"; "a"; "c"]).2 =
  nodeNames st (partitionSlottedNodes st ["c"; "b"; "a"]).2.
Proof.
  split; [vm_compute; reflexivity|].
  set (st := store _).
  pose proof (partition_deterministic st ["b"; "a"; "c"] ["c"; "b"; "a"]) as H.
  assert (["b"; "a"; "c"] ≡ₚ ["c"; "b"; "a"]) as Hp
    by (symmetry; apply (Permutation_cons_append ["b"; "a"] "c")).
  specialize (H Hp).
  destruct (partitionSlottedNodes st ["b"; "a"; "c"]) as [sl un].
  destruct (partitionSlottedNodes st ["c"; "b"; "a"]) as [sl' un'].
  apply H.
Defined.

Lemma reboot_deadline_gap_witness :
  applyRebootTimeouts {[ "w2" := rebootingNode "w2" 100 None ]}
    (mkRolloutState [] [] [] [] ["w2"] [] [] [] 1 0) 1000 1100 =
    (mkRolloutState [] [] [] [] ["w2"] [] [] [] 1 0, 0%Z).
Proof.
  apply (reboot_deadline_gap "w2" (rebootingNode "w2" 100 None)
           (idle ConditionFalse NodeReasonRebooting 100) 100 1000);
    try reflexivity. unfold GoInt.in64, GoInt.minInt64, GoInt.maxInt64; lia.
Defined.
End ClassifyWitness.
