(* ===== verification/PoolStatus.v ===== *)
(** * PoolStatus: conditions and counters of a pool

    [internal/controller/status.go] and the Degraded-condition helpers at the end
    of [bootcnodepool_controller.go]. *)

From S2P Require Import Prelude Effects Types Library LibModel Client Samples Image Classify.

(** ** The Degraded condition *)

(** [poolDegradedPrecedence]; indexing a Go map with an absent key gives 0. *)
Definition poolDegradedPrecedence (reason : string) : Z :=
  if reason =s PoolHealthy then 0
  else if reason =s PoolNodeDegraded then 1
  else if reason =s PoolSecretError then 2
  else if reason =s PoolNodeConflict then 3
  else if reason =s PoolRolloutHalted then 4
  else if reason =s PoolInvalidSpec then 5
  else if reason =s PoolTagResolutionError then 6
  else 0.

Section Degraded.
Context {L : Lib}.

(** [setPoolDegraded]; [now] is the clock read by [SetStatusCondition]. *)
Definition setPoolDegraded (now : Z) (reason message : string) (pool : BootcNodePool)
    : BootcNodePool :=
  let set :=
    setConditions
      (SetStatusCondition now (pool_conditions pool)
         (mkCondition PoolDegraded ConditionTrue reason message None 0)) pool in
  match FindStatusCondition (pool_conditions pool) PoolDegraded with
  | Some current =>
      if (c_status current =s ConditionTrue) &&
         (poolDegradedPrecedence reason <? poolDegradedPrecedence (c_reason current))%Z
      then pool else set
  | None => set
  end.

(** [clearPoolDegradedReason]. *)
Definition clearPoolDegradedReason (now : Z) (reason : string) (pool : BootcNodePool)
    : BootcNodePool :=
  match FindStatusCondition (pool_conditions pool) PoolDegraded with
  | None => pool
  | Some current =>
      if negb (c_status current =s ConditionTrue) || negb (c_reason current =s reason)
      then pool
      else setConditions
             (SetStatusCondition now (pool_conditions pool)
                (mkCondition PoolDegraded ConditionFalse PoolHealthy "" None 0)) pool
  end.
End Degraded.

(** ** Counters and the UpToDate condition *)

(** [clampCount]: saturates to [0, math.MaxInt32]. *)
Definition clampCount (n : Z) : Z :=
  if (n <? 0)%Z then 0%Z
  else if (GoInt.maxInt32 <? n)%Z then GoInt.maxInt32
  else n.

(** [rolloutBreakdown]. *)
Definition rolloutBreakdown (rs : rolloutState) : string :=
  let n (l : list string) := pretty (length l) in
  n (upToDate rs) +:+ "/" +:+ pretty (nodeCount rs) +:+ " updated; " +:+
  join ", "
    [n (pending rs) +:+ " pending"; n (staging rs) +:+ " staging";
     n (staged rs) +:+ " staged"; n (rebooting rs) +:+ " rebooting";
     n (degraded rs) +:+ " degraded"].

Section Sync.
Context {L : Lib}.

Definition poolPaused (pool : BootcNodePool) : bool :=
  match Rollout (pool_spec pool) with Some ro => Paused ro | None => false end.

(** [syncUpToDateCondition]. *)
Definition syncUpToDateCondition (now : Z) (pool : BootcNodePool) (rs : rolloutState)
    : BootcNodePool :=
  let st := pool_status pool in
  let set status reason message :=
    setConditions
      (SetStatusCondition now (pool_conditions pool)
         (mkCondition PoolUpToDate status reason message None 0)) pool in
  let behind := negb (NodeCount st =? UpdatedCount st)%Z in
  if poolPaused pool && behind then set ConditionFalse PoolPaused (rolloutBreakdown rs)
  else if behind then set ConditionFalse PoolRolloutInProgress (rolloutBreakdown rs)
  else set ConditionTrue PoolAllUpdated "".

(** [syncPoolStatus]; the nil checks of the source concern pointers that are
    never nil at its call site. *)
Definition syncPoolStatus (now : Z) (pool : BootcNodePool) (rs : rolloutState)
    : BootcNodePool :=
  let st := pool_status pool in
  let len (l : list string) := Z.of_nat (length l) in
  let nodes := clampCount (Z.of_nat (nodeCount rs)) in
  let updated := clampCount (len (upToDate rs)) in
  let deployed := if (nodes =? updated)%Z then TargetDigest st else DeployedDigest st in
  let st' :=
    mkBootcNodePoolStatus (om_generation (pool_meta pool)) (TargetDigest st)
      (NextTagResolutionTime st) deployed (negb (TargetDigest st =s deployed))
      nodes updated
      (clampCount (len (pending rs) + len (staging rs) + len (staged rs) + len (rebooting rs))%Z)
      (clampCount (len (degraded rs)))
      (Conditions st) in
  syncUpToDateCondition now (setPoolStatus st' pool) rs.
End Sync.

(** ** Reports touch the conditions only *)

(** Equal up to the conditions. *)
Definition reconditioned (p p' : BootcNodePool) : Prop := setConditions [] p = setConditions [] p'.

#[global] Instance reconditioned_equiv : Equivalence reconditioned.
Proof. unfold reconditioned. split; [intros ?|intros ???|intros ?????]; congruence. Qed.

Lemma reconditioned_set c p : reconditioned p (setConditions c p).
Proof. done. Qed.

Lemma reconditioned_meta p p' : reconditioned p p' → pool_meta p' = pool_meta p.
Proof. intros H. symmetry. exact (f_equal pool_meta H). Qed.
Lemma reconditioned_spec p p' : reconditioned p p' → pool_spec p' = pool_spec p.
Proof. intros H. symmetry. exact (f_equal pool_spec H). Qed.
Lemma reconditioned_target p p' :
  reconditioned p p' → TargetDigest (pool_status p') = TargetDigest (pool_status p).
Proof. intros H. symmetry. exact (f_equal (λ q, TargetDigest (pool_status q)) H). Qed.

Lemma setPoolDegraded_reconditioned `{Lib} now reason message p :
  reconditioned p (setPoolDegraded now reason message p).
Proof. unfold setPoolDegraded. repeat split_match; done. Qed.

Lemma clearPoolDegradedReason_reconditioned `{Lib} now reason p :
  reconditioned p (clearPoolDegradedReason now reason p).
Proof. unfold clearPoolDegradedReason. repeat split_match; done. Qed.

(** ** Facts *)

Section DegradedFacts.
Context {L : Lib} {HL : LibLaws L}.

(** The pool's Degraded condition, when it is True. *)
Definition degradedReason (pool : BootcNodePool) : option string :=
  match FindStatusCondition (pool_conditions pool) PoolDegraded with
  | Some c => if c_status c =s ConditionTrue then Some (c_reason c) else None
  | None => None
  end.

Definition precedenceOf (r : option string) : Z :=
  match r with None => (-1)%Z | Some r => poolDegradedPrecedence r end.

Lemma precedence_range r : (0 <= poolDegradedPrecedence r <= 6)%Z.
Proof. unfold poolDegradedPrecedence. repeat split_match; lia. Qed.

Lemma degradedReason_set now reason message pool :
  degradedReason (setPoolDegraded now reason message pool) =
    if (poolDegradedPrecedence reason <? precedenceOf (degradedReason pool))%Z
    then degradedReason pool else Some reason.
Proof.
  unfold degradedReason, setPoolDegraded.
  assert (degradedReason (setConditions (SetStatusCondition now (pool_conditions pool)
    (mkCondition PoolDegraded ConditionTrue reason message None 0)) pool) = Some reason) as Hset.
  { unfold degradedReason, pool_conditions. simpl.
    rewrite (find_set_eq now _ (mkCondition PoolDegraded _ _ _ _ _)). done. }
  pose proof (precedence_range reason).
  destruct (FindStatusCondition (pool_conditions pool) PoolDegraded) as [c|] eqn:Ef.
  - destruct (c_status c =s ConditionTrue) eqn:Es; simpl.
    + destruct (Z.ltb_spec (poolDegradedPrecedence reason) (poolDegradedPrecedence (c_reason c)));
        [by rewrite Ef, Es|done].
    + unfold degradedReason in Hset. rewrite Hset. destruct (Z.ltb_spec (poolDegradedPrecedence reason) (-1)); [lia|done].
  - simpl. unfold degradedReason in Hset. rewrite Hset.
    destruct (Z.ltb_spec (poolDegradedPrecedence reason) (-1)); [lia|done].
Qed.

Lemma degradedReason_clear now reason pool :
  degradedReason (clearPoolDegradedReason now reason pool) =
    if decide (degradedReason pool = Some reason) then None else degradedReason pool.
Proof.
  assert (degradedReason pool =
    match FindStatusCondition (pool_conditions pool) PoolDegraded with
    | Some c => if c_status c =s ConditionTrue then Some (c_reason c) else None
    | None => None end) as Hd by done.
  unfold clearPoolDegradedReason.
  destruct (FindStatusCondition (pool_conditions pool) PoolDegraded) as [c|] eqn:Ef.
  2:{ rewrite Hd. by rewrite decide_False. }
  destruct (c_status c =s ConditionTrue) eqn:Es; simpl.
  2:{ rewrite Hd. by rewrite decide_False. }
  destruct (c_reason c =s reason) eqn:Er; simpl; rewrite Hd.
  - apply seq_b_true in Er as ->. rewrite decide_True by done.
    unfold degradedReason, pool_conditions. simpl.
    by rewrite (find_set_eq now _ (mkCondition PoolDegraded _ _ _ _ _)).
  - apply seq_b_false in Er. by rewrite decide_False by congruence.
Qed.

(** The helpers leave every other condition type alone. *)
Lemma find_setPoolDegraded_ne now reason message pool t :
  t ≠ PoolDegraded →
  FindStatusCondition (pool_conditions (setPoolDegraded now reason message pool)) t =
  FindStatusCondition (pool_conditions pool) t.
Proof.
  intros Ht. unfold setPoolDegraded, pool_conditions.
  repeat split_match; try done; simpl; by rewrite find_set_ne.
Qed.

Lemma setPoolDegraded_frame now reason message pool :
  pool_meta (setPoolDegraded now reason message pool) = pool_meta pool ∧
  pool_spec (setPoolDegraded now reason message pool) = pool_spec pool ∧
  TargetDigest (pool_status (setPoolDegraded now reason message pool)) =
    TargetDigest (pool_status pool).
Proof. unfold setPoolDegraded. by repeat split_match. Qed.

Lemma clearPoolDegradedReason_frame now reason pool :
  pool_meta (clearPoolDegradedReason now reason pool) = pool_meta pool ∧
  pool_spec (clearPoolDegradedReason now reason pool) = pool_spec pool ∧
  TargetDigest (pool_status (clearPoolDegradedReason now reason pool)) =
    TargetDigest (pool_status pool).
Proof. unfold clearPoolDegradedReason. by repeat split_match. Qed.

(** Several checks of one pass reporting their reason. *)
Definition reportAll (reports : list (Z * string * string)) (pool : BootcNodePool) : BootcNodePool :=
  fold_left (λ p r, setPoolDegraded r.1.1 r.1.2 r.2 p) reports pool.

Lemma precedence_reportAll reports pool :
  precedenceOf (degradedReason (reportAll reports pool)) =
    fold_left Z.max ((λ r, poolDegradedPrecedence r.1.2) <$> reports)
      (precedenceOf (degradedReason pool)).
Proof.
  revert pool. induction reports as [|r reports IH]; intros pool; simpl; [done|].
  unfold reportAll in *. simpl. rewrite IH. f_equal. rewrite degradedReason_set.
  destruct (Z.ltb_spec (poolDegradedPrecedence r.1.2) (precedenceOf (degradedReason pool)));
    simpl; lia.
Qed.
End DegradedFacts.

(** ** Precedence of the degraded reasons *)

Section Precedence.
Context {L : Lib} {HL : LibLaws L}.

(** The reasons the API declares for a degraded pool. *)
Definition degradedReasons : list string :=
  [PoolNodeDegraded; PoolSecretError; PoolNodeConflict; PoolRolloutHalted;
   PoolInvalidSpec; PoolTagResolutionError].

Definition knownReason (r : option string) : Prop :=
  match r with None => True | Some r => r ∈ degradedReasons end.

Lemma precedence_inj r1 r2 :
  knownReason r1 → knownReason r2 → precedenceOf r1 = precedenceOf r2 → r1 = r2.
Proof.
  destruct r1 as [r1|], r2 as [r2|]; unfold knownReason, degradedReasons;
    rewrite ?elem_of_cons, ?elem_of_nil; intros H1 H2 Heq; try done.
  - repeat match goal with H : _ ∨ _ |- _ => destruct H as [->|H] end;
      first [done | by vm_compute in Heq].
  - pose proof (precedence_range r1). simpl in Heq. lia.
  - pose proof (precedence_range r2). simpl in Heq. lia.
Qed.

Lemma known_reportAll reports pool :
  knownReason (degradedReason pool) → Forall (λ r, r.1.2 ∈ degradedReasons) reports →
  knownReason (degradedReason (reportAll reports pool)).
Proof.
  intros Hp Hr. revert pool Hp. induction Hr as [|r reports Hr _ IH]; intros pool Hp; [done|].
  unfold reportAll in *. simpl. apply IH. rewrite degradedReason_set. by split_match.
Qed.

Lemma fold_max_perm l l' z : l ≡ₚ l' → fold_left Z.max l z = fold_left Z.max l' z.
Proof.
  intros Hp. revert z. induction Hp; intros z; simpl; [done|done| |congruence].
  f_equal. lia.
Qed.

(** C40. When several checks of a pass report a degraded reason, the pool ends
    up with the reason of highest precedence, no matter in which order the
    checks ran: the final reason depends only on the set of reports and on the
    reason the pool already had. *)
Theorem degraded_reports_commute reports reports' pool :
  reports ≡ₚ reports' →
  knownReason (degradedReason pool) →
  Forall (λ r, r.1.2 ∈ degradedReasons) reports →
  degradedReason (reportAll reports pool) = degradedReason (reportAll reports' pool) ∧
  precedenceOf (degradedReason (reportAll reports pool)) =
    fold_left Z.max ((λ r, poolDegradedPrecedence r.1.2) <$> reports)
      (precedenceOf (degradedReason pool)).
Proof.
  intros Hp Hk Hr. split; [|apply precedence_reportAll].
  apply precedence_inj; [by apply known_reportAll| |].
  - apply known_reportAll; [done|]. by rewrite <- Hp.
  - rewrite !precedence_reportAll. apply fold_max_perm. by rewrite Hp.
Qed.

(** A check clears only what it reported: [clearPoolDegradedReason] turns a
    Degraded=True condition off exactly when its reason matches and otherwise
    leaves it standing; once a reason was cleared, the next report of any other
    reason, even one of lower precedence, takes effect. *)
Theorem clear_only_own now now' reason reason' message pool :
  degradedReason (clearPoolDegradedReason now reason pool) =
    (if decide (degradedReason pool = Some reason) then None else degradedReason pool) ∧
  (degradedReason pool = Some reason →
   degradedReason (setPoolDegraded now' reason' message
                     (clearPoolDegradedReason now reason pool)) = Some reason').
Proof.
  split; [apply degradedReason_clear|]. intros Hd.
  rewrite degradedReason_set, degradedReason_clear. rewrite decide_True by done.
  change (precedenceOf None) with (-1)%Z.
  pose proof (precedence_range reason'). destruct (Z.ltb_spec (poolDegradedPrecedence reason') (-1));
    [lia|done].
Qed.

(** A pool that is Degraded/TagResolutionError hides every other problem:
    as long as that condition stands, reporting any other declared reason (an
    invalid spec or a halted rollout, say) leaves the pool unchanged. *)
Theorem tag_error_masks now reason message pool :
  degradedReason pool = Some PoolTagResolutionError →
  reason ∈ degradedReasons → reason ≠ PoolTagResolutionError →
  setPoolDegraded now reason message pool = pool.
Proof.
  unfold degradedReason, setPoolDegraded. intros Hd Hin Hne.
  destruct (FindStatusCondition _ _) as [c|]; [|done].
  destruct (c_status c =s ConditionTrue); [|done]. injection Hd as ->. simpl.
  assert (poolDegradedPrecedence reason < 6)%Z as Hlt.
  { revert Hin Hne. unfold degradedReasons. rewrite !elem_of_cons, elem_of_nil.
    intros H Hne. repeat match goal with H : _ ∨ _ |- _ => destruct H as [->|H] end;
      first [done | by vm_compute]. }
  change (poolDegradedPrecedence PoolTagResolutionError) with 6%Z.
  by rewrite (proj2 (Z.ltb_lt _ _) Hlt).
Qed.
End Precedence.

(** ** Aggregated status *)

Section Aggregation.
Context {L : Lib} {HL : LibLaws L}.
Local Open Scope Z_scope.

Lemma clampCount_range n : 0 <= clampCount n <= GoInt.maxInt32.
Proof.
  unfold clampCount. destruct (Z.ltb_spec n 0), (Z.ltb_spec GoInt.maxInt32 n);
    unfold GoInt.maxInt32 in *; lia.
Qed.

Lemma clampCount_id n : 0 <= n <= GoInt.maxInt32 → clampCount n = n.
Proof.
  intros. unfold clampCount. destruct (Z.ltb_spec n 0), (Z.ltb_spec GoInt.maxInt32 n); lia.
Qed.

Lemma syncUpToDate_frame now pool rs :
  let pool' := syncUpToDateCondition now pool rs in
  pool_meta pool' = pool_meta pool ∧ pool_spec pool' = pool_spec pool ∧
  TargetDigest (pool_status pool') = TargetDigest (pool_status pool) ∧
  DeployedDigest (pool_status pool') = DeployedDigest (pool_status pool) ∧
  UpdateAvailable (pool_status pool') = UpdateAvailable (pool_status pool) ∧
  NodeCount (pool_status pool') = NodeCount (pool_status pool) ∧
  UpdatedCount (pool_status pool') = UpdatedCount (pool_status pool) ∧
  UpdatingCount (pool_status pool') = UpdatingCount (pool_status pool) ∧
  DegradedCount (pool_status pool') = DegradedCount (pool_status pool).
Proof. simpl. unfold syncUpToDateCondition. by repeat split_match. Qed.

(** The pool's spec asks for a pause. *)
Definition asksPause (pool : BootcNodePool) : Prop :=
  ∃ ro, Rollout (pool_spec pool) = Some ro ∧ Paused ro = true.

Lemma poolPaused_spec pool : poolPaused pool = true ↔ asksPause pool.
Proof.
  unfold poolPaused, asksPause. destruct (Rollout (pool_spec pool)) as [ro|].
  - split; [eauto|]. by intros (? & [= <-] & ?).
  - split; [done|]. by intros (? & ? & _).
Qed.

(** What the UpToDate condition says about a pool that is complete or not. *)
Definition upToDateVerdict (complete paused : Prop) (c : Condition) : Prop :=
  (complete → c_status c = ConditionTrue ∧ c_reason c = PoolAllUpdated) ∧
  (¬ complete → paused → c_status c = ConditionFalse ∧ c_reason c = PoolPaused) ∧
  (¬ complete → ¬ paused → c_status c = ConditionFalse ∧ c_reason c = PoolRolloutInProgress).

Lemma syncUpToDate_condition now pool rs :
  ∃ c, FindStatusCondition (pool_conditions (syncUpToDateCondition now pool rs)) PoolUpToDate = Some c ∧
    upToDateVerdict (NodeCount (pool_status pool) = UpdatedCount (pool_status pool)) (asksPause pool) c.
Proof.
  unfold syncUpToDateCondition, pool_conditions, upToDateVerdict. setoid_rewrite <- poolPaused_spec.
  destruct (Z.eqb_spec (NodeCount (pool_status pool)) (UpdatedCount (pool_status pool))) as [He|Hn];
    rewrite ?andb_false_r, ?andb_true_r; simpl.
  - rewrite (find_set_eq now _ (mkCondition PoolUpToDate _ _ _ _ _)). eexists. by split.
  - destruct (poolPaused pool) eqn:Ep; simpl;
      rewrite (find_set_eq now _ (mkCondition PoolUpToDate _ _ _ _ _)); eexists; by split.
Qed.

Lemma clampCount_nat n : clampCount (Z.of_nat n) = Z.min GoInt.maxInt32 (Z.of_nat n).
Proof.
  unfold clampCount. destruct (Z.ltb_spec (Z.of_nat n) 0), (Z.ltb_spec GoInt.maxInt32 (Z.of_nat n)); lia.
Qed.

Lemma syncPoolStatus_counters now pool rs :
  let st' := pool_status (syncPoolStatus now pool rs) in
  NodeCount st' = clampCount (Z.of_nat (nodeCount rs)) ∧
  UpdatedCount st' = clampCount (Z.of_nat (length (upToDate rs))) ∧
  UpdatingCount st' =
    clampCount (Z.of_nat (length (pending rs) + length (staging rs) + length (staged rs) +
                          length (rebooting rs))) ∧
  DegradedCount st' = clampCount (Z.of_nat (length (degraded rs))) ∧
  ObservedGeneration st' = om_generation (pool_meta pool).
Proof.
  simpl. unfold syncPoolStatus. set (p1 := setPoolStatus _ pool).
  destruct (syncUpToDate_frame now p1 rs) as (_ & _ & _ & _ & _ & -> & -> & -> & ->).
  split_and!; try done; [unfold p1; simpl; f_equal; lia|].
  unfold syncUpToDateCondition. by repeat split_match.
Qed.

(** C39. [syncPoolStatus] reports the rollout state faithfully. Each counter is
    the number of nodes it stands for, saturated at the largest int32: nodeCount
    counts the nodes of every bucket, the unclassified ones included,
    updatedCount those that are up to date, updatingCount those that are
    pending, staging, staged or rebooting, and degradedCount the degraded ones.
    For a pool whose node count fits an int32 the UpToDate condition is
    True/AllUpdated exactly when every node is up to date and otherwise False,
    with reason Paused or RolloutInProgress as the spec asks for a pause or not;
    deployedDigest moves to the target exactly when every node is up to date;
    updateAvailable is the difference of the two digests. *)
Theorem syncPoolStatus_correct now pool rs :
  let pool' := syncPoolStatus now pool rs in
  let st' := pool_status pool' in
  let size (l : list string) := Z.of_nat (length l) in
  let total := size (upToDate rs) + size (pending rs) + size (staging rs) + size (staged rs) +
               size (rebooting rs) + size (degraded rs) + size (unclassified rs) in
  NodeCount st' = Z.min 2147483647 total ∧
  UpdatedCount st' = Z.min 2147483647 (size (upToDate rs)) ∧
  UpdatingCount st' =
    Z.min 2147483647 (size (pending rs) + size (staging rs) + size (staged rs) + size (rebooting rs)) ∧
  DegradedCount st' = Z.min 2147483647 (size (degraded rs)) ∧
  ObservedGeneration st' = om_generation (pool_meta pool) ∧
  TargetDigest st' = TargetDigest (pool_status pool) ∧
  (UpdateAvailable st' = true ↔ TargetDigest st' ≠ DeployedDigest st') ∧
  (total <= 2147483647 →
   (∃ c, FindStatusCondition (pool_conditions pool') PoolUpToDate = Some c ∧
      upToDateVerdict (total = size (upToDate rs)) (asksPause pool) c) ∧
   DeployedDigest st' =
     (if decide (total = size (upToDate rs))
      then TargetDigest (pool_status pool) else DeployedDigest (pool_status pool))).
Proof.
  intros pool' st' size total.
  assert (total = Z.of_nat (nodeCount rs)) as Ht by (unfold total, size, nodeCount; lia).
  destruct (syncPoolStatus_counters now pool rs) as (En & Eu & Ep & Ed & Eg).
  rewrite !clampCount_nat in En, Eu, Ep, Ed. unfold GoInt.maxInt32 in *.
  assert (UpdatingCount st' = Z.min 2147483647
    (size (pending rs) + size (staging rs) + size (staged rs) + size (rebooting rs))) as Hu.
  { unfold st', pool', size. rewrite Ep, !Nat2Z.inj_add. done. }
  clear Ep. unfold st', pool' in *. rewrite En, Eu, Ed, Eg, Hu, Ht. clear En Eu Ed Eg Hu.
  unfold syncPoolStatus. set (p1 := setPoolStatus _ pool).
  destruct (syncUpToDate_frame now p1 rs) as (_ & _ & Etd & Edd & Eua & _).
  destruct (syncUpToDate_condition now p1 rs) as (c & Hc & Hv).
  rewrite Etd, Edd, Eua. clear Etd Edd Eua. split_and!; try done.
  { unfold p1. cbn. rewrite negb_true_iff, seq_b_false. done. }
  intros Hmax. assert (length (upToDate rs) <= nodeCount rs)%nat by (unfold nodeCount; lia).
  assert (∀ n, (n <= nodeCount rs)%nat → clampCount (Z.of_nat n) = Z.of_nat n) as Hcl.
  { intros n Hn. rewrite clampCount_nat. unfold GoInt.maxInt32. lia. }
  split.
  - exists c. split; [exact Hc|]. unfold upToDateVerdict in *. unfold p1 in Hv.
    cbn [pool_status setPoolStatus NodeCount UpdatedCount] in Hv. rewrite !Hcl in Hv by done. exact Hv.
  - unfold p1, size. cbn [pool_status setPoolStatus DeployedDigest]. rewrite !Hcl by done. case_decide as Hd.
    + by rewrite (proj2 (Z.eqb_eq _ _)).
    + by rewrite (proj2 (Z.eqb_neq _ _)).
Qed.
End Aggregation.

(** ** Witnesses *)

Module PoolStatusWitness.
Import Samples LibModel.
#[local] Existing Instance idOrder.

Definition tagErrorPool : BootcNodePool :=
  setPoolDegraded 5 PoolTagResolutionError "no route" (pool None).

Lemma degraded_reports_commute_witness :
  degradedReason (reportAll [(1%Z, PoolNodeDegraded, "a"); (2%Z, PoolRolloutHalted, "b")] (pool None)) =
  degradedReason (reportAll [(2%Z, PoolRolloutHalted, "b"); (1%Z, PoolNodeDegraded, "a")] (pool None)).
Proof.
  apply (degraded_reports_commute [(1%Z, PoolNodeDegraded, "a"); (2%Z, PoolRolloutHalted, "b")]
           [(2%Z, PoolRolloutHalted, "b"); (1%Z, PoolNodeDegraded, "a")] (pool None)).
  - apply perm_swap.
  - vm_compute. exact I.
  - repeat constructor; simpl; unfold degradedReasons; set_solver.
Defined.

Lemma clear_only_own_witness :
  degradedReason (setPoolDegraded 8 PoolNodeDegraded "x"
    (clearPoolDegradedReason 7 PoolTagResolutionError tagErrorPool)) = Some PoolNodeDegraded.
Proof.
  apply (clear_only_own 7 8 PoolTagResolutionError PoolNodeDegraded "x" tagErrorPool).
  vm_compute. reflexivity.
Defined.

Lemma tag_error_masks_witness :
  setPoolDegraded 9 PoolInvalidSpec "bad ref" tagErrorPool = tagErrorPool.
Proof.
  apply (tag_error_masks 9 PoolInvalidSpec "bad ref" tagErrorPool).
  - vm_compute. reflexivity.
  - unfold degradedReasons. set_solver.
  - discriminate.
Defined.

Lemma syncPoolStatus_witness :
  let rs := buildRolloutState (store [upToDateNode "w1" None; stagedNode "w2" None]) in
  NodeCount (pool_status (syncPoolStatus 3 (pool None) rs)) = 2%Z ∧
  UpdatingCount (pool_status (syncPoolStatus 3 (pool None) rs)) = 1%Z ∧
  DegradedCount (pool_status (syncPoolStatus 3 (pool None) rs)) = 0%Z ∧
  DeployedDigest (pool_status (syncPoolStatus 3 (pool None) rs)) = "".
Proof.
  set (rs := buildRolloutState _).
  pose proof (syncPoolStatus_correct 3 (pool None) rs) as H.
  destruct H as (Hn & _ & Hu & Hdg & _ & _ & _ & H).
  split_and!; [rewrite Hn; reflexivity|rewrite Hu; reflexivity|rewrite Hdg; reflexivity|].
  destruct H as [_ Hd]; [vm_compute; discriminate|]. rewrite Hd. vm_compute. reflexivity.
Defined.
End PoolStatusWitness.
