(* ===== verification/Utf8.v ===== *)
(** * Utf8: the parts of Go's UTF-8 support that event notes rely on

    [strings.ToValidUTF8], [utf8.RuneStart] and [capNote] of
    [internal/controller/events.go], on byte lists.  A text is valid when it is a
    concatenation of encoded runes. *)

From Stdlib Require Import Ascii.
From S2P Require Import Prelude.

Module Utf8.
Local Open Scope N_scope.

Abbreviation bytes := (list ascii).

Definition between (lo hi : N) (a : ascii) : bool :=
  (lo <=? N_of_ascii a) && (N_of_ascii a <=? hi).

(** A continuation byte, [10xxxxxx]. *)
Definition cont : ascii → bool := between 128 191.

(** [utf8.RuneStart]. *)
Definition RuneStart (a : ascii) : bool := negb (cont a).

(** The well-formed encodings of a single rune: shortest form, no surrogates,
    nothing above U+10FFFF. *)
Definition rune_ok (r : bytes) : bool :=
  match r with
  | [a] => between 0 127 a
  | [a; b] => between 194 223 a && cont b
  | [a; b; c] =>
      cont c &&
      ((between 224 224 a && between 160 191 b) ||
       (between 225 236 a && cont b) ||
       (between 237 237 a && between 128 159 b) ||
       (between 238 239 a && cont b))
  | [a; b; c; d] =>
      cont c && cont d &&
      ((between 240 240 a && between 144 191 b) ||
       (between 241 243 a && cont b) ||
       (between 244 244 a && between 128 143 b))
  | _ => false
  end.

Inductive utf8 : bytes → Prop :=
| utf8_nil : utf8 []
| utf8_rune r s : rune_ok r = true → utf8 s → utf8 (r ++ s).

Local Open Scope nat_scope.

(** [utf8.DecodeRune], of which only the width is used: the length of the rune
    at the start of the text, [None] when there is none (width 1 in Go). *)
Definition runeWidth (s : bytes) : option nat :=
  if rune_ok (take 1 s) then Some 1
  else if rune_ok (take 2 s) then Some 2
  else if rune_ok (take 3 s) then Some 3
  else if rune_ok (take 4 s) then Some 4
  else None.

Definition replacement : bytes := ascii_of_N <$> [239; 191; 189]%N.

(** [strings.ToValidUTF8]: [skip] bytes still belong to the current rune,
    [invalid] says that the previous byte was already replaced. *)
Fixpoint toValid (s : bytes) (skip : nat) (invalid : bool) : bytes :=
  match s with
  | [] => []
  | a :: s' =>
      match skip with
      | S skip => a :: toValid s' skip false
      | 0 =>
          match runeWidth s with
          | Some w => a :: toValid s' (w - 1) false
          | None => (if invalid then [] else replacement) ++ toValid s' 0 true
          end
      end
  end.

Definition ToValidUTF8 (s : bytes) : bytes := toValid s 0 false.

(** The loop of [capNote]: step back to the start of a rune. *)
Fixpoint backUp (note : bytes) (limit : nat) : nat :=
  match limit with
  | 0 => 0
  | S l => match note !! limit with
           | Some a => if RuneStart a then limit else backUp note l
           | None => limit
           end
  end.

Definition eventNoteLimit : nat := 1024.
Definition eventNoteSuffix : string := "...".

(** [capNote] on bytes. *)
Definition capBytes (note : bytes) : bytes :=
  let note := ToValidUTF8 note in
  if length note <=? eventNoteLimit then note
  else
    let limit := backUp note (eventNoteLimit - String.length eventNoteSuffix) in
    take limit note ++ String.list_ascii_of_string eventNoteSuffix.

(** ** Facts *)

Lemma utf8_app s1 s2 : utf8 s1 → utf8 s2 → utf8 (s1 ++ s2).
Proof.
  induction 1 as [|r s Hr _ IH]; intros H2; [done|]. rewrite <- app_assoc. constructor; auto.
Qed.

Lemma replacement_utf8 : utf8 replacement.
Proof. rewrite <- (app_nil_r replacement). by constructor; [|constructor]. Qed.

Lemma suffix_utf8 : utf8 (String.list_ascii_of_string eventNoteSuffix).
Proof. simpl. do 3 (apply (utf8_rune [_]); [done|]). constructor. Qed.

Lemma runeWidth_ok s w :
  runeWidth s = Some w → 0 < w ∧ w ≤ length s ∧ rune_ok (take w s) = true.
Proof.
  unfold runeWidth. intros H.
  repeat match type of H with
  | context [rune_ok ?r] => destruct (rune_ok r) eqn:?
  end; simplify_eq; split_and!; try done; try lia;
  destruct s as [|a [|b [|c [|d s]]]]; simpl in *; try congruence; lia.
Qed.

Lemma toValid_skip s n b : n ≤ length s → 0 < n →
  toValid s n b = take n s ++ toValid (drop n s) 0 false.
Proof.
  revert s b. induction n as [|n IH]; intros s b Hn H0; [lia|].
  destruct s as [|a s]; simpl in *; [lia|]. f_equal.
  destruct n as [|n]; [by destruct s|]. apply IH; lia.
Qed.

Lemma toValid_rune s w b :
  runeWidth s = Some w → toValid s 0 b = take w s ++ toValid (drop w s) 0 false.
Proof.
  intros Hw. destruct (runeWidth_ok _ _ Hw) as (H0 & Hl & _).
  destruct s as [|a s]; [simpl in Hl; lia|]. cbn [toValid]. rewrite Hw.
  destruct w as [|[|w]]; [lia|by destruct s|]. simpl in Hl.
  simpl. f_equal. apply toValid_skip; simpl; lia.
Qed.

(** Induction on the length of a text. *)
Lemma bytes_ind (P : bytes → Prop) :
  (∀ s, (∀ s', length s' < length s → P s') → P s) → ∀ s, P s.
Proof.
  intros H s. remember (length s) as n eqn:E. revert s E.
  induction n as [n IH] using lt_wf_ind. intros s ->. apply H. intros s' Hl. by eapply IH.
Qed.

Lemma toValid_utf8 s : ∀ b, utf8 (toValid s 0 b).
Proof.
  induction s as [s IH] using bytes_ind. intros b.
  destruct (runeWidth s) as [w|] eqn:Ew.
  - rewrite (toValid_rune _ w) by done. destruct (runeWidth_ok _ _ Ew) as (H0 & Hl & Hr).
    constructor; [done|]. apply IH. rewrite length_drop. lia.
  - destruct s as [|a s]; [constructor|]. cbn [toValid]. rewrite Ew.
    apply utf8_app; [destruct b; [constructor|apply replacement_utf8]|]. apply IH. simpl. lia.
Qed.

Lemma rune_ok_length r : rune_ok r = true → 0 < length r ≤ 4.
Proof. destruct r as [|a [|b [|c [|d [|e r]]]]]; simpl; try done; lia. Qed.

(** Only the first byte of a rune starts one. *)
Lemma rune_ok_conts a r : rune_ok (a :: r) = true → forallb cont r = true.
Proof.
  destruct r as [|b [|c [|d [|e r]]]]; cbn [rune_ok forallb]; intros H; try done;
    rewrite ?andb_true_iff, ?orb_true_iff in *; unfold cont, between in *;
    rewrite ?andb_true_iff, ?N.leb_le in *; lia.
Qed.

Lemma rune_ok_tail r i a :
  rune_ok r = true → r !! i = Some a → 0 < i → cont a = true.
Proof.
  intros Hr Hi H0. destruct i as [|i]; [lia|]. destruct r as [|x r]; [done|].
  apply rune_ok_conts in Hr. rewrite forallb_forall in Hr. apply Hr.
  apply list_elem_of_In. by eapply list_elem_of_lookup_2.
Qed.

(** Cutting a valid text at the start of a rune leaves a valid text. *)
Lemma utf8_take s i a :
  utf8 s → s !! i = Some a → RuneStart a = true → utf8 (take i s).
Proof.
  intros Hs. revert i. induction Hs as [|r s Hr Hs IH]; intros i Hi Ha; [done|].
  destruct (decide (i < length r)) as [Hl|Hl].
  - destruct i as [|i]; [constructor|]. rewrite lookup_app_l in Hi by done.
    unfold RuneStart in Ha. rewrite (rune_ok_tail r (S i) a) in Ha by (done || lia). done.
  - rewrite take_app_ge by lia. constructor; [done|].
    rewrite lookup_app_r in Hi by lia. by apply IH.
Qed.

Lemma backUp_le note l : backUp note l ≤ l.
Proof.
  induction l as [|l IH]; [done|]. unfold backUp; fold backUp.
  destruct (note !! S l) as [a|]; [|done]. destruct (RuneStart a); lia.
Qed.

Lemma backUp_utf8 note l : utf8 note → l < length note → utf8 (take (backUp note l) note).
Proof.
  intros Hn. induction l as [|l IH]; intros Hl; [constructor|]. unfold backUp; fold backUp.
  destruct (note !! S l) as [a|] eqn:Ea.
  - destruct (RuneStart a) eqn:Er; [by eapply utf8_take|]. apply IH. lia.
  - apply lookup_ge_None in Ea. lia.
Qed.

(** The first byte of a rune determines its length. *)
Definition lead (a : ascii) : nat :=
  if between 0 127 a then 1 else if between 194 223 a then 2
  else if between 224 239 a then 3 else 4.

Lemma rune_ok_lead a r : rune_ok (a :: r) = true → S (length r) = lead a.
Proof.
  unfold lead. destruct r as [|b [|c [|d [|e r]]]]; cbn [rune_ok length]; intros H; try done;
    rewrite ?andb_true_iff, ?orb_true_iff in H; unfold between in *;
    repeat match goal with |- context [(?x <=? ?y)%N] => destruct (N.leb_spec x y) end;
    simpl; try done; exfalso; rewrite ?andb_true_iff, ?N.leb_le in H; lia.
Qed.

Lemma runeWidth_rune r s : rune_ok r = true → runeWidth (r ++ s) = Some (length r).
Proof.
  intros Hr. pose proof (rune_ok_length _ Hr) as Hl.
  assert (∀ w, rune_ok (take (S w) (r ++ s)) = true → S w ≤ length (r ++ s) → S w = length r) as Hw.
  { intros w Hk Hle. destruct r as [|a r]; [simpl in Hl; lia|]. simpl in Hk.
    pose proof (rune_ok_lead _ _ Hr). pose proof (rune_ok_lead _ _ Hk) as H2.
    rewrite length_take in H2. simpl in *. lia. }
  assert (rune_ok (take (length r) (r ++ s)) = true) as Hok by (by rewrite take_app_length).
  destruct (runeWidth (r ++ s)) as [w|] eqn:Ew.
  - destruct (runeWidth_ok _ _ Ew) as (H0 & Hle & Hk). destruct w as [|w]; [lia|].
    f_equal. by apply Hw.
  - unfold runeWidth in Ew. repeat (case_match; [done|]).
    destruct (length r) as [|[|[|[|[|n]]]]]; (congruence || lia).
Qed.

Lemma toValid_id s : utf8 s → ∀ b, toValid s 0 b = s.
Proof.
  induction 1 as [|r s Hr Hs IH]; intros b; [done|].
  rewrite (toValid_rune _ (length r)) by (by apply runeWidth_rune).
  by rewrite take_app_length, drop_app_length, IH.
Qed.
End Utf8.
