(* ===== verification/Slots.v ===== *)
(** * Slots: assigning and freeing reboot slots

    [assignRebootSlot] and [freeRebootSlot] of [rollout.go], and the node
    clean-up they share with pool membership: [restoreNodeState],
    [restoreNodeClaimState], the startup taint and the managed label of
    [bootcnodepool_controller.go].

    The functions receive pointers to a BootcNode and a Node and overwrite both;
    the state of the model is the pair of the two objects. *)

From S2P Require Import Prelude Effects Types Library LibModel Client Samples Sim Karpenter.

(** ** Node predicates *)

(** [nodeReadyStatus]. *)
Definition nodeReadyStatus (node : Node) : string :=
  match List.find (λ c, nc_type c =s NodeReady) (node_conditions node) with
  | Some c => nc_status c
  | None => ConditionUnknown
  end.

Definition isOsNotReadyTaint (t : Taint) : bool :=
  (taint_key t =s TaintKeyOsNotReady) && (taint_effect t =s TaintEffectNoSchedule).

(** [nodeHasOsNotReadyTaint]. *)
Definition nodeHasOsNotReadyTaint (node : Node) : bool :=
  existsb isOsNotReadyTaint (node_taints node).

(** [hasKarpenterRebootTaint]. *)
Definition hasKarpenterRebootTaint (node : Node) : bool :=
  existsb (λ t, (taint_key t =s RebootingTaintKey) && (taint_effect t =s RebootingTaintEffect))
    (node_taints node).

(** [removeOsNotReadyTaint]: the node without the taint, and whether it had it. *)
Definition removeOsNotReadyTaint (node : Node) : Node * bool :=
  let kept := List.filter (λ t, negb (isOsNotReadyTaint t)) (node_taints node) in
  (setTaints kept node, negb (length kept =? length (node_taints node))).

Section Slots.
Context {L : Lib}.
Local Open Scope go_scope.

Abbreviation pair := (BootcNode * Node)%type.

Definition setBN (b : BootcNode) (s : pair) : pair := (b, s.2).
Definition setNode (n : Node) (s : pair) : pair := (s.1, n).

(** [r.Patch(ctx, modified, client.MergeFrom(bn)); *bn = *modified]. *)
Definition patchBN (base new : BootcNode) : ctl pair unit :=
  got <- callE (PatchBootcNode base new) id ;;
  modify (setBN got).

(** [r.Patch(ctx, modified, client.StrategicMergeFrom(node, lock)); *node = *modified]. *)
Definition patchNode (base new : Node) : ctl pair unit :=
  got <- callE (PatchNode base new) id ;;
  modify (setNode got).

(** ** assignRebootSlot *)

(** The NodeClaim lookup at the start of [assignRebootSlot]. *)
Definition slotClaim (node : Node) (prefetched : option NodeClaim) : ctl pair (option NodeClaim) :=
  if isNodeOwnedByKarpenterNodeClaim node then
    match prefetched with
    | Some c => ret (Some c)
    | None =>
        cr <- wrapf "getting NodeClaim" (getKarpenterNodeClaim node) ;;
        match cr with
        | (_, karpenterClaimAbsent) =>
            throw (ErrString ("NodeClaim for node " +:+ node_name node +:+
                              " disappeared unexpectedly"))
        | (c, _) => ret c
        end
    end
  else ret None.

(** The slot and cordon annotations of the BootcNode. *)
Definition slotMeta (bn : BootcNode) (node : Node) : ObjectMeta :=
  let m := SetMetaDataAnnotation (bn_meta bn) AnnotationInRebootSlot "" in
  if HasAnnotation (bn_meta bn) AnnotationInRebootSlot then m
  else SetMetaDataAnnotation m AnnotationWasCordoned
         (if node_unschedulable node then "true" else "false").

(** The desired BootcNode, Node and NodeClaim: the modified copies the source
    builds before it patches anything. *)
Definition slotPlan (bn : BootcNode) (node : Node) (claim : option NodeClaim)
    : BootcNode * Node * option NodeClaim :=
  let m0 := slotMeta bn node in
  let cordoned := setUnschedulable true node in
  if isNodeOwnedByKarpenterNodeClaim node then
    let '(m1, n1, _) := ensureOwnedAnnotation m0 (node_meta node)
      AnnotationOwnsKarpenterDoNotRepair DoNotRepairAnnotationKey "true" in
    let '(m2, n2, _) := ensureOwnedAnnotation m1 n1
      AnnotationOwnsKarpenterDoNotDisrupt DoNotDisruptAnnotationKey "true" in
    match claim with
    | None => (setBNMeta m2 bn, setNodeMeta n2 cordoned, None)
    | Some c =>
        let '(m3, c1, _) := ensureOwnedAnnotation m2 (nc_meta c)
          AnnotationOwnsKarpenterNodeClaimDoNotRepair DoNotRepairAnnotationKey "true" in
        let '(m4, c2, _) := ensureOwnedAnnotation m3 c1
          AnnotationOwnsKarpenterNodeClaimDoNotDisrupt DoNotDisruptAnnotationKey "true" in
        (setBNMeta m4 bn, setNodeMeta n2 cordoned, Some (setNCAnnotations (om_annotations c2) c))
    end
  else (setBNMeta m0 bn, cordoned, claim).

(** The NodeClaim patch of [assignRebootSlot]. *)
Definition patchClaimIfChanged (base new : option NodeClaim) : ctl pair unit :=
  match base, new with
  | Some c, Some c' =>
      if annotationsEqual (nc_annotations c) (nc_annotations c') then ret tt
      else _ <- wrapf "patching Karpenter NodeClaim" (callE (PatchNodeClaim c c') id) ;; ret tt
  | _, _ => ret tt
  end.

(** [assignRebootSlot]. *)
Definition assignRebootSlot (prefetchedClaim : option NodeClaim) : ctl pair unit :=
  bn <- gets fst ;;
  node <- gets snd ;;
  claim <- slotClaim node prefetchedClaim ;;
  let '(modifiedBN, modifiedNode, modifiedClaim) := slotPlan bn node claim in
  (if annotationsEqual (bn_annotations bn) (bn_annotations modifiedBN) then ret tt
   else wrapf "annotating BootcNode" (patchBN bn modifiedBN)) ;;;
  patchClaimIfChanged claim modifiedClaim ;;;
  (if node_unschedulable node && annotationsEqual (node_annotations node) (node_annotations modifiedNode)
   then ret tt
   else wrapf "patching node" (patchNode node modifiedNode)).

(** ** restoreNodeState *)

(** The end of [restoreNodeClaimState]: drop the owned annotations of a claim. *)
Definition removeClaimAnnotations (bn : BootcNode) (c : NodeClaim) : ctl pair unit :=
  let '(m1, ch1) := removeOwnedAnnotation (bn_meta bn) (nc_meta c)
    AnnotationOwnsKarpenterNodeClaimDoNotRepair DoNotRepairAnnotationKey in
  let '(m2, ch2) := removeOwnedAnnotation (bn_meta bn) m1
    AnnotationOwnsKarpenterNodeClaimDoNotDisrupt DoNotDisruptAnnotationKey in
  if ch1 || ch2 then
    _ <- wrapf "restoring Karpenter NodeClaim annotations"
           (callE (PatchNodeClaim c (setNCAnnotations (om_annotations m2) c)) id) ;;
    ret tt
  else ret tt.

(** [restoreNodeClaimState]. *)
Definition restoreNodeClaimState (prefetchedClaim : option NodeClaim) : ctl pair unit :=
  bn <- gets fst ;;
  node <- gets snd ;;
  let ownsRepair := HasAnnotation (bn_meta bn) AnnotationOwnsKarpenterNodeClaimDoNotRepair in
  let ownsDisrupt := HasAnnotation (bn_meta bn) AnnotationOwnsKarpenterNodeClaimDoNotDisrupt in
  if negb ownsRepair && negb ownsDisrupt then ret tt
  else
    claim <- match prefetchedClaim with
             | Some c => ret (Some c)
             | None => cr <- wrapf "getting Karpenter NodeClaim" (getKarpenterNodeClaim node) ;;
                       ret cr.1
             end ;;
    match claim with
    | None => ret tt
    | Some c => removeClaimAnnotations bn c
    end.

(** The node [restoreNodeState] wants, and whether it differs. *)
Definition restoredNode (bn : BootcNode) (node : Node) : Node * bool :=
  let '(m1, ch1) := removeOwnedAnnotation (bn_meta bn) (node_meta node)
    AnnotationOwnsKarpenterDoNotRepair DoNotRepairAnnotationKey in
  let '(m2, ch2) := removeOwnedAnnotation (bn_meta bn) m1
    AnnotationOwnsKarpenterDoNotDisrupt DoNotDisruptAnnotationKey in
  let n2 := setNodeMeta m2 node in
  let uncordon :=
    bool_decide (GoMap.lookup (bn_annotations bn) AnnotationWasCordoned = Some "false") in
  let n3 := if uncordon then setUnschedulable false n2 else n2 in
  let '(n4, ch4) :=
    if HasAnnotation (bn_meta bn) AnnotationOwnsOsNotReadyTaint
    then removeOsNotReadyTaint n3 else (n3, false) in
  (n4, ch1 || ch2 || uncordon || ch4).

(** [restoreNodeState]. *)
Definition restoreNodeState (prefetchedClaim : option NodeClaim) : ctl pair unit :=
  bn <- gets fst ;;
  node <- gets snd ;;
  let '(modified, changed) := restoredNode bn node in
  (if (changed : bool) then wrapf "restoring node state" (patchNode node modified) else ret tt) ;;;
  wrapf "could not restore Karpenter NodeClaim state" (restoreNodeClaimState prefetchedClaim).

(** The annotations [freeRebootSlot] removes. *)
Definition slotKeys : list string :=
  [AnnotationOwnsKarpenterDoNotRepair; AnnotationOwnsKarpenterDoNotDisrupt;
   AnnotationOwnsKarpenterNodeClaimDoNotRepair; AnnotationOwnsKarpenterNodeClaimDoNotDisrupt;
   AnnotationOwnsOsNotReadyTaint; AnnotationWasCordoned; AnnotationInRebootSlot].

Definition clearSlotKeys (bn : BootcNode) : BootcNode :=
  setBNAnnotations (fold_left GoMap.remove slotKeys (bn_annotations bn)) bn.

(** [freeRebootSlot]. *)
Definition freeRebootSlot (prefetchedClaim : option NodeClaim) : ctl pair unit :=
  restoreNodeState prefetchedClaim ;;;
  bn <- gets fst ;;
  wrapf "removing reboot slot annotations" (patchBN bn (clearSlotKeys bn)).

(** [removeOsNotReadyTaintAndAnnotation]. *)
Definition removeOsNotReadyTaintAndAnnotation : ctl pair unit :=
  bn <- gets fst ;;
  node <- gets snd ;;
  let '(modified, removed) := removeOsNotReadyTaint node in
  (if (removed : bool)
   then wrapf "removing os-not-ready taint from node" (patchNode node modified)
   else ret tt) ;;;
  (if GoMap.has (bn_annotations bn) AnnotationOwnsOsNotReadyTaint
   then wrapf "clearing os-not-ready taint ownership annotation"
          (patchBN bn (setBNAnnotations
             (GoMap.remove (bn_annotations bn) AnnotationOwnsOsNotReadyTaint) bn))
   else ret tt).

(** [ensureManagedLabel], on the Node alone. *)
Definition ensureManagedLabel (managed : bool) : ctl Node unit :=
  node <- gets id ;;
  let labels := om_labels (node_meta node) in
  let hasLabel := GoMap.has labels LabelManaged in
  if eqb managed hasLabel then ret tt
  else
    let labels' := if managed then GoMap.set labels LabelManaged "" else GoMap.remove labels LabelManaged in
    got <- callE (PatchNode node (setNodeLabels labels' node)) id ;;
    modify (λ _, got).
End Slots.

(** ** The plan of a slot assignment *)

Section Plan.
Context {L : Lib} {HL : LibLaws L}.

(** Ownership key on the BootcNode and the Karpenter annotation it covers. *)
Definition nodePairs : list (string * string) :=
  [(AnnotationOwnsKarpenterDoNotRepair, DoNotRepairAnnotationKey);
   (AnnotationOwnsKarpenterDoNotDisrupt, DoNotDisruptAnnotationKey)].
Definition claimPairs : list (string * string) :=
  [(AnnotationOwnsKarpenterNodeClaimDoNotRepair, DoNotRepairAnnotationKey);
   (AnnotationOwnsKarpenterNodeClaimDoNotDisrupt, DoNotDisruptAnnotationKey)].

(** Every covered annotation that differs between [old] and [new] is recorded
    as owned in [own]; nothing else differs. *)
Definition covered (pairs : list (string * string)) (own old new : gomap) : Prop :=
  ∀ k, GoMap.lookup old k ≠ GoMap.lookup new k →
       ∃ ok, (ok, k) ∈ pairs ∧ GoMap.has own ok = true.

Lemma covered_refl pairs own a : covered pairs own a a.
Proof. intros k H. done. Qed.

(** Two applications of [ensureOwnedAnnotation] for a pair of keys. *)
Definition ensureBoth (pairs : list (string * string)) (owner target : ObjectMeta)
    : ObjectMeta * ObjectMeta :=
  fold_left (λ ot p, (ensureOwnedAnnotation ot.1 ot.2 p.1 p.2 "true").1) pairs (owner, target).

Lemma ensure_frame owner target ok tk v :
  let '(owner', target', _) := ensureOwnedAnnotation owner target ok tk v in
  owner' = setAnnotations (om_annotations owner') owner ∧
  target' = setAnnotations (om_annotations target') target ∧
  (∀ k w, GoMap.lookup (om_annotations owner) k = Some w →
          GoMap.lookup (om_annotations owner') k = Some w).
Proof.
  unfold ensureOwnedAnnotation.
  destruct (_ =s v); [by destruct owner, target|].
  split_and!; [by destruct (GoMap.has _ _), owner|done|].
  intros k w Hk. destruct (GoMap.has (om_annotations owner) ok) eqn:Eh; [done|]. simpl.
  apply GoMap.has_false in Eh. rewrite GoMap.lookup_set_ne; [done|]. congruence.
Qed.

Lemma ensureBoth_frame pairs owner target :
  let '(owner', target') := ensureBoth pairs owner target in
  owner' = setAnnotations (om_annotations owner') owner ∧
  target' = setAnnotations (om_annotations target') target ∧
  (∀ k w, GoMap.lookup (om_annotations owner) k = Some w →
          GoMap.lookup (om_annotations owner') k = Some w).
Proof.
  unfold ensureBoth. revert owner target.
  induction pairs as [|[ok tk] pairs IH]; intros owner target; simpl; [by destruct owner, target|].
  pose proof (ensure_frame owner target ok tk "true") as Hf.
  destruct (ensureOwnedAnnotation _ _ _ _ _) as [[o1 t1] b]. simpl.
  specialize (IH o1 t1). destruct (fold_left _ _ _) as [o2 t2].
  destruct IH as (-> & -> & IH), Hf as (-> & -> & Hf). split_and!; [done..|]. eauto.
Qed.

(** Owner keys are only added, target keys are set to "true", and whatever
    changed on the target is recorded. *)
Lemma ensureBoth_spec pairs owner target :
  NoDup pairs.*1 → NoDup pairs.*2 →
  let '(owner', target') := ensureBoth pairs owner target in
  covered pairs (om_annotations owner') (om_annotations target) (om_annotations target') ∧
  (∀ ok tk, (ok, tk) ∈ pairs → GoMap.index (om_annotations target') tk = "true") ∧
  (∀ k, k ∉ pairs.*1 → GoMap.lookup (om_annotations owner') k = GoMap.lookup (om_annotations owner) k) ∧
  (∀ ok tk, (ok, tk) ∈ pairs → GoMap.index (om_annotations target) tk = "true" →
     GoMap.lookup (om_annotations owner') ok = GoMap.lookup (om_annotations owner) ok).
Proof.
  unfold ensureBoth. revert owner target.
  induction pairs as [|[ok tk] pairs IH]; intros owner target Hn1 Hn2.
  { simpl. split_and!; [apply covered_refl|set_solver|done|set_solver]. }
  simpl in Hn1, Hn2. apply NoDup_cons in Hn1 as [Hok Hn1], Hn2 as [Htk Hn2]. simpl.
  destruct (ensureOwnedAnnotation owner target ok tk "true") as [[o1 t1] b] eqn:E1.
  pose proof (ensureOwnedAnnotation_post _ _ _ _ _ _ _ _ E1) as (Hi & Hb0 & Hb1 & Ht & Ho).
  pose proof (ensureBoth_frame pairs o1 t1) as Hframe.
  specialize (IH o1 t1 Hn1 Hn2). simpl. unfold ensureBoth in *.
  destruct (fold_left _ _ _) as [o2 t2]. destruct IH as (IHc & IHi & IHo & IHk).
  destruct Hframe as (_ & _ & Hgrow).
  assert (GoMap.lookup (om_annotations t2) tk = GoMap.lookup (om_annotations t1) tk) as Htk2.
  { destruct (decide (GoMap.lookup (om_annotations t1) tk = GoMap.lookup (om_annotations t2) tk))
      as [->|Hne]; [done|]. destruct (IHc _ Hne) as (ok' & Hin & _).
    exfalso. apply Htk. apply list_elem_of_fmap. by exists (ok', tk). }
  split_and!.
  - intros k Hk. destruct (decide (k = tk)) as [->|Hkt].
    + exists ok. split; [set_solver|]. rewrite Htk2 in Hk.
      destruct b; [|destruct (Hb0 eq_refl) as [_ ->]; done].
      specialize (Hb1 eq_refl). apply GoMap.has_true in Hb1 as [w Hw].
      apply GoMap.has_true. eauto.
    + rewrite <- (Ht k Hkt) in Hk. destruct (IHc _ Hk) as (ok' & ? & ?). exists ok'. set_solver.
  - intros ok' tk'. rewrite elem_of_cons. intros [[= -> ->]|Hin]; [|by eapply IHi].
    unfold GoMap.index in *. by rewrite Htk2.
  - intros k Hk. rewrite IHo by set_solver. apply Ho. set_solver.
  - intros ok' tk'. rewrite elem_of_cons. intros [[= -> ->]|Hin] Htrue.
    + rewrite IHo by done. unfold ensureOwnedAnnotation in E1.
      rewrite (proj2 (seq_b_true _ _) Htrue) in E1. by injection E1 as <- <- <-.
    + assert (ok' ∈ pairs.*1) by (apply list_elem_of_fmap; by exists (ok', tk')).
      assert (tk' ∈ pairs.*2) by (apply list_elem_of_fmap; by exists (ok', tk')).
      rewrite (IHk _ _ Hin).
      * apply Ho. set_solver.
      * unfold GoMap.index. rewrite Ht by set_solver. done.
Qed.

Lemma pairs_NoDup : NoDup nodePairs.*1 ∧ NoDup nodePairs.*2 ∧ NoDup claimPairs.*1 ∧ NoDup claimPairs.*2.
Proof. by split_and!; apply (bool_decide_unpack _). Qed.

(** [slotPlan] in terms of [ensureBoth]. *)
Lemma slotPlan_eq bn node claim :
  slotPlan bn node claim =
    if isNodeOwnedByKarpenterNodeClaim node then
      let '(m2, n2) := ensureBoth nodePairs (slotMeta bn node) (node_meta node) in
      match claim with
      | None => (setBNMeta m2 bn, setNodeMeta n2 (setUnschedulable true node), None)
      | Some c =>
          let '(m4, c2) := ensureBoth claimPairs m2 (nc_meta c) in
          (setBNMeta m4 bn, setNodeMeta n2 (setUnschedulable true node),
           Some (setNCAnnotations (om_annotations c2) c))
      end
    else (setBNMeta (slotMeta bn node) bn, setUnschedulable true node, claim).
Proof.
  unfold slotPlan, ensureBoth. destruct (isNodeOwnedByKarpenterNodeClaim node); [|done].
  cbn -[ensureOwnedAnnotation]. destruct (ensureOwnedAnnotation _ _ _ _ _) as [[m1 n1] ?].
  cbn -[ensureOwnedAnnotation]. destruct (ensureOwnedAnnotation _ _ _ _ _) as [[m2 n2] ?].
  cbn -[ensureOwnedAnnotation]. destruct claim as [c|]; [|done].
  destruct (ensureOwnedAnnotation _ _ _ _ _) as [[m3 c3] ?].
  cbn -[ensureOwnedAnnotation]. by destruct (ensureOwnedAnnotation _ _ _ _ _) as [[m4 c4] ?].
Qed.
End Plan.

Section PlanSpec.
Context {L : Lib} {HL : LibLaws L}.

Definition isSlotted (bn : BootcNode) : bool := HasAnnotation (bn_meta bn) AnnotationInRebootSlot.

Definition cordonRecord (node : Node) : string :=
  if node_unschedulable node then "true" else "false".

Lemma isSlotted_spec bn :
  isSlotted bn = GoMap.has (bn_annotations bn) AnnotationInRebootSlot.
Proof. apply has_annotation_spec. Qed.

Lemma slotMeta_frame bn node :
  slotMeta bn node = setAnnotations (om_annotations (slotMeta bn node)) (bn_meta bn).
Proof.
  unfold slotMeta. destruct (HasAnnotation _ _); rewrite !set_annotation_spec; by destruct (bn_meta bn).
Qed.

Lemma slotMeta_lookup bn node k :
  GoMap.lookup (om_annotations (slotMeta bn node)) k =
    if decide (k = AnnotationInRebootSlot) then Some ""
    else if decide (k = AnnotationWasCordoned ∧ isSlotted bn = false)
         then Some (cordonRecord node)
         else GoMap.lookup (bn_annotations bn) k.
Proof.
  unfold slotMeta, isSlotted. destruct (HasAnnotation _ _) eqn:Eh; rewrite !set_annotation_spec; simpl;
    rewrite ?GoMap.lookup_set.
  - rewrite (decide_False (P := k = AnnotationWasCordoned ∧ _)) by naive_solver.
    repeat case_decide; naive_solver.
  - repeat case_decide; subst; try done; naive_solver.
Qed.

(** Everything the properties need to know about [slotPlan]. *)
Record plan_ok (bn : BootcNode) (node : Node) (claim : option NodeClaim)
    (b' : BootcNode) (n' : Node) (c' : option NodeClaim) : Prop := {
  plan_bn : b' = setBNAnnotations (bn_annotations b') bn;
  plan_slot : GoMap.lookup (bn_annotations b') AnnotationInRebootSlot = Some "";
  plan_cordon :
    GoMap.lookup (bn_annotations b') AnnotationWasCordoned =
      if isSlotted bn then GoMap.lookup (bn_annotations bn) AnnotationWasCordoned
      else Some (cordonRecord node);
  plan_other k : k ∉ slotKeys →
    GoMap.lookup (bn_annotations b') k = GoMap.lookup (bn_annotations bn) k;
  plan_taint :
    GoMap.lookup (bn_annotations b') AnnotationOwnsOsNotReadyTaint =
    GoMap.lookup (bn_annotations bn) AnnotationOwnsOsNotReadyTaint;
  plan_node : n' = setNodeAnnotations (node_annotations n') (setUnschedulable true node);
  plan_node_cover :
    covered nodePairs (bn_annotations b') (node_annotations node) (node_annotations n');
  plan_fence : isNodeOwnedByKarpenterNodeClaim node = true →
    ∀ ok tk, (ok, tk) ∈ nodePairs → GoMap.index (node_annotations n') tk = "true";
  plan_unowned ok tk : (ok, tk) ∈ nodePairs →
    GoMap.index (node_annotations node) tk = "true" ∨ isNodeOwnedByKarpenterNodeClaim node = false →
    GoMap.lookup (bn_annotations b') ok = GoMap.lookup (bn_annotations bn) ok;
  plan_claim :
    match claim, c' with
    | None, None => True
    | Some c, Some c' =>
        om_name (nc_meta c') = om_name (nc_meta c) ∧
        covered claimPairs (bn_annotations b') (nc_annotations c) (nc_annotations c') ∧
        (isNodeOwnedByKarpenterNodeClaim node = true →
         ∀ ok tk, (ok, tk) ∈ claimPairs → GoMap.index (nc_annotations c') tk = "true")
    | _, _ => False
    end
}.

Lemma slotKeys_pairs k :
  k ∉ slotKeys → k ∉ nodePairs.*1 ∧ k ∉ claimPairs.*1 ∧
                 k ≠ AnnotationInRebootSlot ∧ k ≠ AnnotationWasCordoned.
Proof. unfold slotKeys, nodePairs, claimPairs. simpl. set_solver. Qed.

Lemma slotMeta_other bn node k :
  k ≠ AnnotationInRebootSlot → k ≠ AnnotationWasCordoned →
  GoMap.lookup (om_annotations (slotMeta bn node)) k = GoMap.lookup (bn_annotations bn) k.
Proof.
  intros H1 H2. rewrite slotMeta_lookup. rewrite decide_False by done.
  by rewrite decide_False by naive_solver.
Qed.

Lemma slotMeta_slot bn node :
  GoMap.lookup (om_annotations (slotMeta bn node)) AnnotationInRebootSlot = Some "".
Proof. rewrite slotMeta_lookup. by rewrite decide_True. Qed.

Lemma slotMeta_cordon bn node :
  GoMap.lookup (om_annotations (slotMeta bn node)) AnnotationWasCordoned =
    if isSlotted bn then GoMap.lookup (bn_annotations bn) AnnotationWasCordoned
    else Some (cordonRecord node).
Proof.
  rewrite slotMeta_lookup. rewrite decide_False by done.
  destruct (isSlotted bn); [by rewrite decide_False by naive_solver|by rewrite decide_True].
Qed.

Lemma pairs_not_slot ok tk :
  (ok, tk) ∈ nodePairs ++ claimPairs →
  ok ≠ AnnotationInRebootSlot ∧ ok ≠ AnnotationWasCordoned.
Proof.
  intros Hin. cut (Forall (λ p, p.1 ≠ AnnotationInRebootSlot ∧ p.1 ≠ AnnotationWasCordoned)
                      (nodePairs ++ claimPairs)).
  { intros Hf. rewrite Forall_forall in Hf. by apply (Hf (ok, tk)). }
  by apply (bool_decide_unpack _).
Qed.

Lemma pairs_slotKeys ok tk : (ok, tk) ∈ nodePairs → ok ∈ slotKeys.
Proof.
  intros Hin. cut (Forall (λ p, p.1 ∈ slotKeys) nodePairs).
  { intros Hf. rewrite Forall_forall in Hf. by apply (Hf (ok, tk)). }
  by apply (bool_decide_unpack _).
Qed.

Lemma pairs_disjoint ok tk : (ok, tk) ∈ nodePairs → ok ∉ claimPairs.*1.
Proof.
  intros Hin. cut (Forall (λ p, p.1 ∉ claimPairs.*1) nodePairs).
  { intros Hf. rewrite Forall_forall in Hf. by apply (Hf (ok, tk)). }
  by apply (bool_decide_unpack _).
Qed.

(** The node half of the plan, for any final BootcNode metadata [m] that agrees
    with the metadata [m2] after the Node's annotations were handled. *)
Lemma plan_ok_intro bn node claim m2 n2 m c' :
  isNodeOwnedByKarpenterNodeClaim node = true →
  ensureBoth nodePairs (slotMeta bn node) (node_meta node) = (m2, n2) →
  m = setAnnotations (om_annotations m) m2 →
  (∀ k, k ∉ claimPairs.*1 →
     GoMap.lookup (om_annotations m) k = GoMap.lookup (om_annotations m2) k) →
  match claim, c' with
  | None, None => True
  | Some c, Some c' =>
      om_name (nc_meta c') = om_name (nc_meta c) ∧
      covered claimPairs (om_annotations m) (nc_annotations c) (nc_annotations c') ∧
      ∀ ok tk, (ok, tk) ∈ claimPairs → GoMap.index (nc_annotations c') tk = "true"
  | _, _ => False
  end →
  plan_ok bn node claim (setBNMeta m bn) (setNodeMeta n2 (setUnschedulable true node)) c'.
Proof.
  intros Ek E Hm Hsame Hclaim. destruct pairs_NoDup as (N1 & N2 & _ & _).
  pose proof (ensureBoth_frame nodePairs (slotMeta bn node) (node_meta node)) as F1.
  pose proof (ensureBoth_spec nodePairs (slotMeta bn node) (node_meta node) N1 N2) as S1.
  rewrite E in F1, S1. destruct F1 as (F1a & F1b & F1g), S1 as (S1a & S1b & S1c & S1d).
  assert (∀ k, k ∉ nodePairs.*1 → k ∉ claimPairs.*1 →
    GoMap.lookup (om_annotations m) k = GoMap.lookup (om_annotations (slotMeta bn node)) k) as Hk.
  { intros k H1 H2. rewrite Hsame by done. by apply S1c. }
  split; unfold bn_annotations, node_annotations in *; simpl.
  - unfold setBNAnnotations. simpl. f_equal. rewrite Hm, F1a, (slotMeta_frame bn node). done.
  - rewrite Hk; [apply slotMeta_slot|by apply (bool_decide_unpack _)..].
  - rewrite Hk; [apply slotMeta_cordon|by apply (bool_decide_unpack _)..].
  - intros k (? & ? & ? & ?)%slotKeys_pairs. rewrite Hk by done. by apply slotMeta_other.
  - rewrite Hk by (by apply (bool_decide_unpack _)). by apply slotMeta_other.
  - unfold setNodeAnnotations. simpl. rewrite F1b at 1. by destruct node as [[] ? ? ?].
  - intros k Hne. destruct (S1a k Hne) as (ok & Hin & Hhas). exists ok. split; [done|].
    unfold GoMap.has in *. rewrite Hsame by (by eapply pairs_disjoint). done.
  - intros _. apply S1b.
  - intros ok tk Hin [Ht|?]; [|congruence]. rewrite Hsame by (by eapply pairs_disjoint).
    rewrite (S1d _ _ Hin Ht). destruct (pairs_not_slot ok tk) as [? ?]; [set_solver|].
    by apply slotMeta_other.
  - destruct claim, c'; try done. naive_solver.
Qed.

Lemma slotPlan_ok bn node claim :
  let '(b', n', c') := slotPlan bn node claim in plan_ok bn node claim b' n' c'.
Proof.
  rewrite slotPlan_eq. destruct pairs_NoDup as (_ & _ & N3 & N4).
  destruct (isNodeOwnedByKarpenterNodeClaim node) eqn:Ek.
  - destruct (ensureBoth nodePairs _ _) as [m2 n2] eqn:E1. destruct claim as [c|].
    + pose proof (ensureBoth_frame claimPairs m2 (nc_meta c)) as F2.
      pose proof (ensureBoth_spec claimPairs m2 (nc_meta c) N3 N4) as S2.
      destruct (ensureBoth claimPairs m2 (nc_meta c)) as [m4 c2].
      destruct F2 as (F2a & F2b & _), S2 as (S2a & S2b & S2c & _).
      eapply plan_ok_intro; [done..|]. unfold nc_annotations. simpl. done.
    + eapply plan_ok_intro; [done|done|by destruct m2|done|done].
  - split; unfold bn_annotations, setBNAnnotations; simpl.
    + by rewrite <- slotMeta_frame.
    + apply slotMeta_slot.
    + apply slotMeta_cordon.
    + intros k (_ & _ & ? & ?)%slotKeys_pairs. by apply slotMeta_other.
    + by apply slotMeta_other.
    + by destruct node as [[] ? ? ?].
    + apply covered_refl.
    + intros ?. congruence.
    + intros ok tk Hin _. destruct (pairs_not_slot ok tk) as [? ?]; [set_solver|].
      by apply slotMeta_other.
    + destruct claim; [|done]. split_and!; [done|apply covered_refl|congruence].
Qed.
End PlanSpec.

(** ** Ownership is recorded before the fence goes up *)

Section Fence.
Context {L : Lib} {HL : LibLaws L}.

(** A patch of a Node or NodeClaim changes only Karpenter annotations that
    [own] records as the controller's. *)
Definition fenced_request (own : gomap) (r : req) : Prop :=
  match r with
  | PatchNode base new => covered nodePairs own (node_annotations base) (node_annotations new)
  | PatchNodeClaim base new => covered claimPairs own (nc_annotations base) (nc_annotations new)
  | _ => True
  end.

(** The ownership records that are durable after one call. *)
Definition recorded (own : gomap) (e : event) : gomap :=
  let '(Ev r x) := e in
  match r return resp r → gomap with
  | PatchBootcNode _ new => λ x, if is_ok x then bn_annotations new else own
  | _ => λ _, own
  end x.

Fixpoint fenced (own : gomap) (h : history) : Prop :=
  match h with
  | [] => True
  | e :: h => fenced_request own (ev_req e) ∧ fenced (recorded own e) h
  end.

Lemma fenced_app own h1 h2 :
  fenced own (h1 ++ h2) ↔ fenced own h1 ∧ fenced (fold_left recorded h1 own) h2.
Proof.
  revert own. induction h1 as [|e h1 IH]; intros own; simpl; [naive_solver|].
  rewrite IH. naive_solver.
Qed.

Lemma covered_ext pairs own own' a b :
  GoMap.ext_eq own own' → covered pairs own a b → covered pairs own' a b.
Proof.
  intros He Hc k Hk. destruct (Hc k Hk) as (ok & ? & Hok). exists ok. split; [done|].
  unfold GoMap.has in *. by rewrite <- (He ok).
Qed.

Lemma fenced_ext own own' h : GoMap.ext_eq own own' → fenced own h → fenced own' h.
Proof.
  revert own own'. induction h as [|[r x] h IH]; intros own own' He; simpl; [done|].
  intros [H1 H2]. split.
  - destruct r; simpl in *; try done; by eapply covered_ext.
  - eapply IH; [|exact H2]. destruct r; simpl; try done. by destruct (is_ok x).
Qed.

(** Reads never matter. *)
Lemma fenced_reads own (h : history) :
  Forall (λ e, is_write (ev_req e) = false) h →
  fenced own h ∧ fold_left recorded h own = own.
Proof.
  induction 1 as [|[r x] h Hr _ [IH1 IH2]]; simpl; [done|].
  by destruct r.
Qed.

(** At most one read of a NodeClaim. *)
Definition claim_lookup (t : history) : Prop := t = [] ∨ ∃ n x, t = [Ev (GetNodeClaim n) x].

Lemma claim_lookup_reads t : claim_lookup t → Forall (λ e, is_write (ev_req e) = false) t.
Proof. intros [->|(n & x & ->)]; by repeat constructor. Qed.

(** The NodeClaim lookup only reads, and leaves both objects alone. *)
Lemma wpg_slotClaim node prefetched s h (Φ : history → BootcNode * Node → result _ → Prop) :
  (∀ t r, claim_lookup t →
     (∀ c, r = Ok (Some c) → isNodeOwnedByKarpenterNodeClaim node = true) →
     Φ (h ++ t) s r) →
  wpg (slotClaim node prefetched) s h Φ.
Proof.
  intros H. unfold slotClaim. destruct (isNodeOwnedByKarpenterNodeClaim node) eqn:Ek.
  2:{ go_step. rewrite <- (app_nil_r h). by apply H; [left|]. }
  destruct prefetched as [c|].
  { go_step. rewrite <- (app_nil_r h). by apply H; [left|]. }
  go_step. go_step. apply wpg_getKarpenterNodeClaim.
  - intros _. go_step. rewrite <- (app_nil_r h). by apply H; [left|].
  - intros ref x _ h'. unfold h'.
    assert (claim_lookup [Ev (GetNodeClaim (ref_name ref)) x]) by (right; eauto).
    destruct x as [c|e]; [go_step; by apply H|].
    repeat split_match; try go_step; by apply H.
Qed.

(** What one run of [assignRebootSlot] asks for, in order. *)
Definition assign_trace (bn b' : BootcNode) (node n' : Node) (claim c' : option NodeClaim)
    (t : history) : Prop :=
  ∃ t0 t1 t2 t3, t = t0 ++ t1 ++ t2 ++ t3 ∧
    claim_lookup t0 ∧
    (t1 = [] ∧ (GoMap.ext_eq (bn_annotations bn) (bn_annotations b') ∨ t2 = [] ∧ t3 = []) ∨
     ∃ x, t1 = [Ev (PatchBootcNode bn b') x] ∧ (is_ok x = false → t2 = [] ∧ t3 = [])) ∧
    (t2 = [] ∨ ∃ c c1 x, claim = Some c ∧ c' = Some c1 ∧ t2 = [Ev (PatchNodeClaim c c1) x]) ∧
    (t3 = [] ∨ ∃ x, t3 = [Ev (PatchNode node n') x]).

Lemma assign_trace_fenced bn b' node n' claim c' t :
  plan_ok bn node claim b' n' c' → assign_trace bn b' node n' claim c' t →
  fenced (bn_annotations bn) t.
Proof.
  intros Hp (t0 & t1 & t2 & t3 & -> & Ht0 & H1 & H2 & H3).
  destruct (fenced_reads (bn_annotations bn) t0 (claim_lookup_reads _ Ht0)) as [Hf0 Hr0].
  rewrite fenced_app. split; [done|]. rewrite Hr0, fenced_app.
  assert (fenced (bn_annotations b') (t2 ++ t3)) as H23.
  { rewrite fenced_app. split.
    - destruct H2 as [->|(c & c1 & x & -> & -> & ->)]; [done|]. simpl. split; [|done].
      destruct Hp; simpl in *. naive_solver.
    - destruct H2 as [->|(c & c1 & x & -> & -> & ->)]; simpl;
        (destruct H3 as [->|(y & ->)]; [done|]); simpl; (split; [|done]); by destruct Hp. }
  destruct H1 as [[-> [He|[-> ->]]]|(x & -> & Hx)]; simpl.
  - split; [done|]. eapply fenced_ext; [|exact H23]. by symmetry.
  - done.
  - split; [done|]. destruct (is_ok x); [done|]. by destruct (Hx eq_refl) as [-> ->].
Qed.
End Fence.

Section Assign.
Context {L : Lib} {HL : LibLaws L}.
Abbreviation pair := (BootcNode * Node)%type.
Implicit Types (s : pair) (h t : history).

(** One patch with its error wrapped: what it asks, and the objects after it. *)
Lemma wpg_patchNode pre base new s h (Φ : history → pair → result unit → Prop) :
  (∀ x, Φ (h ++ [Ev (PatchNode base new) x])
          (match x with Ok n => setNode n s | Err _ => s end)
          (match x with Ok _ => Ok tt | Err e => Err (ErrWrap pre e) end)) →
  wpg (wrapf pre (patchNode base new)) s h Φ.
Proof.
  intros H. go_step. unfold patchNode. go_step. apply wpg_callE. intros x.
  specialize (H x). by destruct x.
Qed.

Lemma wpg_patchBN pre base new s h (Φ : history → pair → result unit → Prop) :
  (∀ x, Φ (h ++ [Ev (PatchBootcNode base new) x])
          (match x with Ok b => setBN b s | Err _ => s end)
          (match x with Ok _ => Ok tt | Err e => Err (ErrWrap pre e) end)) →
  wpg (wrapf pre (patchBN base new)) s h Φ.
Proof.
  intros H. go_step. unfold patchBN. go_step. apply wpg_callE. intros x.
  specialize (H x). by destruct x.
Qed.

(** The NodeClaim patch: at most one request, both objects untouched. *)
Lemma wpg_patchClaimIfChanged claim c' s h (Φ : history → pair → result unit → Prop) :
  (∀ t r, (t = [] ∧ r = Ok tt ∨
           ∃ c c1 x, claim = Some c ∧ c' = Some c1 ∧ t = [Ev (PatchNodeClaim c c1) x]) →
     Φ (h ++ t) s r) →
  wpg (patchClaimIfChanged claim c') s h Φ.
Proof.
  intros H. assert (Φ h s (Ok tt)) as H0.
  { rewrite <- (app_nil_r h). apply H. by left. }
  unfold patchClaimIfChanged. destruct claim as [c|], c' as [c1|]; try (by go_step).
  destruct (annotationsEqual _ _); [by go_step|].
  go_step. go_step. apply wpg_callE. intros x.
  destruct x as [cgot|e]; simpl; [go_step|]; apply H; right; eauto 10.
Qed.

(** The object after a patch that is skipped when nothing changes. *)
Definition bn_after (bn b' : BootcNode) (t : history) (got : BootcNode) : Prop :=
  if annotationsEqual (bn_annotations bn) (bn_annotations b') then got = bn
  else Ev (PatchBootcNode bn b') (Ok got) ∈ t.
Definition node_after (node n' : Node) (t : history) (got : Node) : Prop :=
  if node_unschedulable node && annotationsEqual (node_annotations node) (node_annotations n')
  then got = node
  else Ev (PatchNode node n') (Ok got) ∈ t.

(** The last two steps of [assignRebootSlot]. *)
Lemma wpg_assign_tail node n' claim c' bn1 h (Φ : history → pair → result unit → Prop) :
  (∀ t2 t3 s r,
     (t2 = [] ∨ ∃ c c1 x, claim = Some c ∧ c' = Some c1 ∧ t2 = [Ev (PatchNodeClaim c c1) x]) →
     (t3 = [] ∨ ∃ x, t3 = [Ev (PatchNode node n') x]) →
     s.1 = bn1 → (r = Ok tt → node_after node n' t3 s.2) →
     Φ (h ++ t2 ++ t3) s r) →
  wpg (patchClaimIfChanged claim c' ;;;
       if node_unschedulable node && annotationsEqual (node_annotations node) (node_annotations n')
       then ret tt else wrapf "patching node" (patchNode node n'))%go (bn1, node) h Φ.
Proof.
  intros H. go_step. apply wpg_patchClaimIfChanged. intros t2 r Ht2.
  assert (t2 = [] ∨ ∃ c c1 x, claim = Some c ∧ c' = Some c1 ∧ t2 = [Ev (PatchNodeClaim c c1) x])
    as Ht2' by naive_solver.
  destruct r as [[]|e].
  2:{ rewrite <- (app_nil_r t2). apply H; [done|by left|done|done]. }
  unfold node_after in H. destruct (_ && _) eqn:Ec.
  - go_step. rewrite <- (app_nil_r t2). apply H; [done|by left|done|done].
  - apply wpg_patchNode. intros x. rewrite <- app_assoc. apply H; [done|eauto|by destruct x|].
    destruct x as [n1|]; [|done]. set_solver.
Qed.

(** Symbolic execution of [assignRebootSlot]: the requests it makes and, when
    it succeeds, the objects it leaves behind. *)
Lemma wpg_assignRebootSlot prefetched bn node h (Φ : history → pair → result unit → Prop) :
  (∀ claim b' n' c' t s r,
     slotPlan bn node claim = (b', n', c') → plan_ok bn node claim b' n' c' →
     assign_trace bn b' node n' claim c' t →
     (r = Ok tt → bn_after bn b' t s.1 ∧ node_after node n' t s.2) →
     (s.1 = bn ∨ Ev (PatchBootcNode bn b') (Ok s.1) ∈ t) →
     Φ (h ++ t) s r) →
  wpg (assignRebootSlot prefetched) (bn, node) h Φ.
Proof.
  intros H. unfold assignRebootSlot. do 4 go_step. go_step. apply wpg_slotClaim.
  intros t0 r Ht0 _.
  assert (∃ claim, (r = Ok claim ∨ ∃ e, r = Err e)) as [claim Hr]
    by (destruct r as [c|e]; [exists c; by left|exists None; right; by exists e]).
  destruct (slotPlan bn node claim) as [[b' n'] c'] eqn:Ep.
  pose proof (slotPlan_ok bn node claim) as Hp. rewrite Ep in Hp.
  specialize (H claim b' n' c').
  destruct Hr as [->|[e ->]].
  2:{ eapply H; [done|done| |done|by left]. exists t0, [], [], [].
      rewrite !app_nil_r. split_and!; naive_solver. }
  rewrite Ep. go_step.
  unfold bn_after in H.
  destruct (annotationsEqual (bn_annotations bn) (bn_annotations b')) eqn:Ea.
  - go_step. apply wpg_assign_tail. intros t2 t3 s r Ht2 Ht3 Hs Hn. rewrite <- app_assoc.
    eapply H; [done|done| | |by left].
    + exists t0, [], t2, t3. split_and!; try done. left. split; [done|]. left.
      by apply annotationsEqual_ext.
    + intros Hr. split; [done|]. specialize (Hn Hr). unfold node_after in *.
      destruct (_ && _); [done|]. set_solver.
  - apply wpg_patchBN. intros x. destruct x as [b1|e]; cbn [setBN fst snd].
    + apply wpg_assign_tail. intros t2 t3 s r Ht2 Ht3 Hs Hn. rewrite <- !app_assoc.
      eapply H; [done|done| | |right; rewrite Hs; set_solver].
      * exists t0, [Ev (PatchBootcNode bn b') (Ok b1)], t2, t3. split_and!; try done. right. by eexists.
      * intros Hr. split; [rewrite Hs; set_solver|]. specialize (Hn Hr). unfold node_after in *.
        destruct (_ && _); [done|]. set_solver.
    + rewrite <- app_assoc. eapply H; [done|done| |done|by left].
      exists t0, [Ev (PatchBootcNode bn b') (Err e)], [], [].
      rewrite !app_nil_r. split_and!; try done; [|by left|by left]. right. by eexists.
Qed.

(** C18. [assignRebootSlot] never raises a fence it could not take down again:
    in every run, whatever the API server answers and wherever it fails, each
    patch of the Node or the NodeClaim changes only Karpenter annotations whose
    ownership is already recorded on the BootcNode, either from before or by a
    patch that succeeded earlier in the same run. *)
Theorem assignRebootSlot_fenced prefetched bn node :
  wpg (assignRebootSlot prefetched) (bn, node) []
    (λ h _ _, fenced (bn_annotations bn) h).
Proof.
  apply wpg_assignRebootSlot. intros claim b' n' c' t s r _ Hp Ht _ _. simpl.
  by eapply assign_trace_fenced.
Qed.
End Assign.

(** ** Taking the fence down *)

Section Restore.
Context {L : Lib} {HL : LibLaws L}.
Abbreviation pair := (BootcNode * Node)%type.
Implicit Types (s : pair) (h : history).

(** From [old] to [new], exactly the covered annotations recorded in [own] are
    deleted. *)
Definition uncovered (pairs : list (string * string)) (own old new : gomap) : Prop :=
  ∀ k, GoMap.lookup new k =
       if existsb (λ p, (p.2 =s k) && GoMap.has own p.1) pairs then None
       else GoMap.lookup old k.

Lemma remove_lookup owner target ok tk k :
  GoMap.lookup (om_annotations (removeOwnedAnnotation owner target ok tk).1) k =
    if (tk =s k) && GoMap.has (om_annotations owner) ok then None
    else GoMap.lookup (om_annotations target) k.
Proof.
  unfold removeOwnedAnnotation. destruct (GoMap.has (om_annotations owner) ok) eqn:Eo; simpl.
  2:{ by rewrite andb_false_r. }
  rewrite andb_true_r. destruct (tk =s k) eqn:Ek.
  - apply seq_b_true in Ek as ->. destruct (GoMap.has (om_annotations target) k) eqn:Et; simpl.
    + apply GoMap.lookup_remove_eq.
    + by apply GoMap.has_false.
  - apply seq_b_false in Ek. destruct (GoMap.has _ tk); simpl; [|done].
    by apply GoMap.lookup_remove_ne.
Qed.

Lemma remove_frame owner target ok tk :
  let '(target', b) := removeOwnedAnnotation owner target ok tk in
  target' = setAnnotations (om_annotations target') target ∧ (b = false → target' = target).
Proof.
  unfold removeOwnedAnnotation. repeat (destruct (negb _)); by destruct target.
Qed.

Lemma removeOsNotReadyTaint_spec node :
  let '(n', b) := removeOsNotReadyTaint node in
  n' = setTaints (List.filter (λ t, negb (isOsNotReadyTaint t)) (node_taints node)) node ∧
  (b = false → n' = node).
Proof.
  unfold removeOsNotReadyTaint. split; [done|].
  destruct (Nat.eqb_spec (length (List.filter (λ t, negb (isOsNotReadyTaint t)) (node_taints node)))
              (length (node_taints node))) as [E|]; [|done].
  intros _. destruct node as [m u ts cs]. simpl in *. unfold setTaints. simpl. f_equal.
  induction ts as [|t ts IH]; simpl in *; [done|].
  destruct (negb (isOsNotReadyTaint t)); simpl in *.
  - f_equal. apply IH. lia.
  - pose proof (List.filter_length_le (λ t, negb (isOsNotReadyTaint t)) ts). lia.
Qed.

(** The node [restoreNodeState] asks for. *)
Record restored_ok (bn : BootcNode) (node n' : Node) : Prop := {
  rest_frame : n' = setTaints (node_taints n')
                      (setUnschedulable (node_unschedulable n')
                         (setNodeAnnotations (node_annotations n') node));
  rest_annotations :
    uncovered nodePairs (bn_annotations bn) (node_annotations node) (node_annotations n');
  rest_cordon : node_unschedulable n' =
    if decide (GoMap.lookup (bn_annotations bn) AnnotationWasCordoned = Some "false")
    then false else node_unschedulable node;
  rest_taints : node_taints n' =
    if GoMap.has (bn_annotations bn) AnnotationOwnsOsNotReadyTaint
    then List.filter (λ t, negb (isOsNotReadyTaint t)) (node_taints node)
    else node_taints node
}.

Lemma restoredNode_ok bn node :
  let '(n', changed) := restoredNode bn node in
  restored_ok bn node n' ∧ (changed = false → n' = node).
Proof.
  unfold restoredNode. rewrite has_annotation_spec.
  pose proof (remove_frame (bn_meta bn) (node_meta node)
    AnnotationOwnsKarpenterDoNotRepair DoNotRepairAnnotationKey) as F1.
  pose proof (remove_lookup (bn_meta bn) (node_meta node)
    AnnotationOwnsKarpenterDoNotRepair DoNotRepairAnnotationKey) as L1.
  destruct (removeOwnedAnnotation _ (node_meta node) _ _) as [m1 c1]. destruct F1 as [F1 U1].
  pose proof (remove_frame (bn_meta bn) m1
    AnnotationOwnsKarpenterDoNotDisrupt DoNotDisruptAnnotationKey) as F2.
  pose proof (remove_lookup (bn_meta bn) m1
    AnnotationOwnsKarpenterDoNotDisrupt DoNotDisruptAnnotationKey) as L2.
  destruct (removeOwnedAnnotation _ m1 _ _) as [m2 c2]. destruct F2 as [F2 U2]. simpl in L1, L2.
  set (un := bool_decide _). set (n3 := if un then _ else _).
  assert (n3 = setUnschedulable (if un then false else node_unschedulable node)
                 (setNodeAnnotations (om_annotations m2) node)) as H3.
  { unfold n3, setNodeAnnotations. rewrite F2, F1. by destruct un, node as [[] ? ? ?]. }
  assert (uncovered nodePairs (bn_annotations bn) (node_annotations node) (om_annotations m2)) as Hu.
  { intros k. unfold nodePairs, bn_annotations, node_annotations. simpl. rewrite L2, L1.
    repeat (destruct (_ && _)); done. }
  assert ((if un then false else node_unschedulable node) =
    if decide (GoMap.lookup (bn_annotations bn) AnnotationWasCordoned = Some "false")
    then false else node_unschedulable node) as Hc.
  { unfold un. case_bool_decide; by case_decide. }
  clearbody n3. destruct (GoMap.has _ AnnotationOwnsOsNotReadyTaint) eqn:Eo.
  - pose proof (removeOsNotReadyTaint_spec n3) as T. destruct (removeOsNotReadyTaint n3) as [n4 c4].
    destruct T as [-> T]. split.
    + rewrite H3. split; unfold bn_annotations in *; simpl; rewrite ?Eo; done.
    + intros Hch. rewrite !orb_false_iff in Hch. destruct Hch as [[[-> ->] Eu] ->].
      rewrite T by done.
      rewrite H3, Eu, U2, U1 by done. by destruct node as [[] ? ? ?].
  - split.
    + rewrite H3. split; unfold bn_annotations in *; simpl; rewrite ?Eo; done.
    + intros Hch. rewrite !orb_false_iff in Hch. destruct Hch as [[[-> ->] Eu] _].
      rewrite H3, Eu, U2, U1 by done. by destruct node as [[] ? ? ?].
Qed.

(** The NodeClaim [restoreNodeClaimState] asks for. *)
Definition claim_restored (bn : BootcNode) (c c' : NodeClaim) : Prop :=
  c' = setNCAnnotations (nc_annotations c') c ∧
  uncovered claimPairs (bn_annotations bn) (nc_annotations c) (nc_annotations c').

(** Nothing of the controller is left on the claim, or a patch removed it. *)
Definition claim_clean (bn : BootcNode) (c : NodeClaim) (t : history) : Prop :=
  uncovered claimPairs (bn_annotations bn) (nc_annotations c) (nc_annotations c) ∨
  ∃ c' got, claim_restored bn c c' ∧ Ev (PatchNodeClaim c c') (Ok got) ∈ t.

(** A claim the controller holds: handed in, or fetched. *)
Definition claim_known (prefetched : option NodeClaim) (t : history) (c : NodeClaim) : Prop :=
  prefetched = Some c ∨ ∃ n, Ev (GetNodeClaim n) (Ok c) ∈ t.

Definition claim_trace (bn : BootcNode) (t : history) : Prop :=
  ∃ t0 t1, t = t0 ++ t1 ∧
    claim_lookup t0 ∧
    (t1 = [] ∨ ∃ c c' x, claim_restored bn c c' ∧ t1 = [Ev (PatchNodeClaim c c') x]).

(** The claim without its owned annotations, as the two removals compute it. *)
Lemma claim_removals bn c :
  let '(m1, ch1) := removeOwnedAnnotation (bn_meta bn) (nc_meta c)
    AnnotationOwnsKarpenterNodeClaimDoNotRepair DoNotRepairAnnotationKey in
  let '(m2, ch2) := removeOwnedAnnotation (bn_meta bn) m1
    AnnotationOwnsKarpenterNodeClaimDoNotDisrupt DoNotDisruptAnnotationKey in
  claim_restored bn c (setNCAnnotations (om_annotations m2) c) ∧
  (ch1 || ch2 = false →
     uncovered claimPairs (bn_annotations bn) (nc_annotations c) (nc_annotations c)).
Proof.
  pose proof (remove_frame (bn_meta bn) (nc_meta c)
    AnnotationOwnsKarpenterNodeClaimDoNotRepair DoNotRepairAnnotationKey) as F1.
  pose proof (remove_lookup (bn_meta bn) (nc_meta c)
    AnnotationOwnsKarpenterNodeClaimDoNotRepair DoNotRepairAnnotationKey) as L1.
  destruct (removeOwnedAnnotation _ (nc_meta c) _ _) as [m1 c1]. destruct F1 as [_ U1].
  pose proof (remove_frame (bn_meta bn) m1
    AnnotationOwnsKarpenterNodeClaimDoNotDisrupt DoNotDisruptAnnotationKey) as F2.
  pose proof (remove_lookup (bn_meta bn) m1
    AnnotationOwnsKarpenterNodeClaimDoNotDisrupt DoNotDisruptAnnotationKey) as L2.
  destruct (removeOwnedAnnotation _ m1 _ _) as [m2 c2]. destruct F2 as [_ U2]. simpl in L1, L2.
  assert (uncovered claimPairs (bn_annotations bn) (nc_annotations c) (om_annotations m2)) as Hu.
  { intros k. unfold claimPairs, bn_annotations, nc_annotations. simpl. rewrite L2, L1.
    repeat (destruct (_ && _)); done. }
  split; [by split|]. intros [-> ->]%orb_false_iff.
  rewrite U2, U1 in Hu by done. exact Hu.
Qed.

Lemma unowned_uncovered pairs own a :
  (∀ ok tk, (ok, tk) ∈ pairs → GoMap.has own ok = false) → uncovered pairs own a a.
Proof.
  intros H k. destruct (existsb _ _) eqn:E; [|done].
  apply List.existsb_exists in E as ([ok tk] & Hin & Hp). simpl in Hp.
  apply list_elem_of_In, H in Hin. rewrite Hin, andb_false_r in Hp. done.
Qed.

Lemma wpg_removeClaimAnnotations bn c s h (Φ : history → pair → result unit → Prop) :
  (∀ t r, (t = [] ∨ ∃ c c' x, claim_restored bn c c' ∧ t = [Ev (PatchNodeClaim c c') x]) →
     (r = Ok tt → claim_clean bn c t) →
     Φ (h ++ t) s r) →
  wpg (removeClaimAnnotations bn c) s h Φ.
Proof.
  intros H. unfold removeClaimAnnotations. pose proof (claim_removals bn c) as Hr.
  destruct (removeOwnedAnnotation _ (nc_meta c) _ _) as [m1 c1].
  destruct (removeOwnedAnnotation _ m1 _ _) as [m2 c2]. destruct Hr as [Hr Hu].
  destruct (c1 || c2).
  - go_step. go_step. apply wpg_callE. intros x.
    destruct x as [got|err]; simpl; [go_step|]; apply H; try done.
    + right. by eexists _, _, _.
    + intros _. right. eexists _, got. split; [done|]. set_solver.
    + right. by eexists _, _, _.
  - go_step. rewrite <- (app_nil_r h). apply H; [by left|]. intros _. left. by apply Hu.
Qed.

Lemma wpg_restoreNodeClaimState prefetched s h (Φ : history → pair → result unit → Prop) :
  (∀ t r, claim_trace s.1 t →
     (r = Ok tt → ∀ c, claim_known prefetched t c → claim_clean s.1 c t) →
     Φ (h ++ t) s r) →
  wpg (restoreNodeClaimState prefetched) s h Φ.
Proof.
  destruct s as [bn node]. simpl. intros H. unfold restoreNodeClaimState. do 4 go_step.
  rewrite !has_annotation_spec.
  destruct (negb _ && negb _) eqn:Eo.
  { go_step. rewrite <- (app_nil_r h). apply H; [by exists [], []; split_and!; [|left|left]|].
    intros _ c _. left. apply unowned_uncovered. intros ok tk Hin.
    apply andb_true_iff in Eo as [E1%negb_true_iff E2%negb_true_iff].
    unfold claimPairs in Hin. rewrite !elem_of_cons, elem_of_nil in Hin. naive_solver. }
  clear Eo.
  assert (∀ (c : NodeClaim) t0, (t0 = [] ∨ ∃ n x, t0 = [Ev (GetNodeClaim n) x]) →
    (∀ c1, claim_known prefetched t0 c1 → c1 = c) →
    wpg (removeClaimAnnotations bn c) (bn, node) (h ++ t0) Φ) as Hc.
  { intros c t0 Ht0 Hk. apply wpg_removeClaimAnnotations. intros t1 r Ht1 Hok. rewrite <- app_assoc.
    apply H; [by exists t0, t1|]. intros Hr c' Hc'. rewrite (Hk c').
    - destruct (Hok Hr) as [?|(c2 & got & ? & ?)]; [by left|right]. exists c2, got. set_solver.
    - destruct Hc' as [?|(n & Hin)]; [by left|]. right. exists n.
      apply elem_of_app in Hin as [|Hin]; [done|].
      destruct Ht1 as [->|(? & ? & ? & _ & ->)]; [set_solver|].
      by apply list_elem_of_singleton in Hin. }
  destruct prefetched as [c|].
  - go_step. go_step. rewrite <- (app_nil_r h). apply Hc; [by left|].
    intros c1 [?|(n & Hin)]; [congruence|]. set_solver.
  - assert (∀ t0 r, (t0 = [] ∨ ∃ n x, t0 = [Ev (GetNodeClaim n) x]) →
      (∀ c, ¬ claim_known None t0 c) → Φ (h ++ t0) (bn, node) r) as Hnone.
    { intros t0 r Ht0 Hk. apply H; [by exists t0, []; rewrite app_nil_r; split_and!; [..|left]|].
      intros _ c Hc'. by destruct (Hk c). }
    go_step. go_step. go_step. apply wpg_getKarpenterNodeClaim.
    + intros _. go_step. rewrite <- (app_nil_r h). apply Hnone; [by left|].
      intros c [|(n & Hin)]; [done|]. set_solver.
    + intros ref x _ h'. unfold h'. destruct x as [c|e].
      * go_step. apply Hc; [right; eauto|]. intros c1 [|(n & Hin)]; [done|].
        apply list_elem_of_singleton, (f_equal gotClaim) in Hin. by injection Hin.
      * assert (∀ c, ¬ claim_known None [Ev (GetNodeClaim (ref_name ref)) (Err e)] c) as Hk.
        { intros c [|(n & Hin)]; [done|]. apply list_elem_of_singleton, (f_equal gotClaim) in Hin. done. }
        repeat split_match; try go_step; apply Hnone; eauto.
Qed.

(** The Node half of [restoreNodeState]: skipped when the node already is as it
    should be, otherwise one patch. *)
Definition node_restored (bn : BootcNode) (node : Node) (t : history) (got : option Node) : Prop :=
  t = [] ∧ got = Some node ∧ restored_ok bn node node ∨
  ∃ n' x, t = [Ev (PatchNode node n') x] ∧ got = ok_of x ∧ restored_ok bn node n'.

Lemma wpg_restoreNodeState prefetched bn node h (Φ : history → pair → result unit → Prop) :
  (∀ t e, node_restored bn node t None → Φ (h ++ t) (bn, node) (Err e)) →
  (∀ t1 t2 n1 r, node_restored bn node t1 (Some n1) → claim_trace bn t2 →
     (r = Ok tt → ∀ c, claim_known prefetched t2 c → claim_clean bn c t2) →
     Φ (h ++ t1 ++ t2) (bn, n1) r) →
  wpg (restoreNodeState prefetched) (bn, node) h Φ.
Proof.
  intros Herr H. unfold restoreNodeState. do 4 go_step.
  pose proof (restoredNode_ok bn node) as Hr. destruct (restoredNode bn node) as [n' ch].
  destruct Hr as [Hr Hch].
  assert (∀ t1 n1, node_restored bn node t1 (Some n1) →
    wpg (wrapf "could not restore Karpenter NodeClaim state" (restoreNodeClaimState prefetched))
      (bn, n1) (h ++ t1) Φ) as Htail.
  { intros t1 n1 Hn. go_step. apply wpg_restoreNodeClaimState. intros t2 r Ht2 Hok.
    rewrite <- app_assoc. apply (H t1 t2 n1); [done|done|]. by destruct r as [[]|]. }
  go_step. destruct ch.
  - apply wpg_patchNode. intros x. destruct x as [n1|e].
    + apply Htail. right. by exists n', (Ok n1).
    + apply Herr. right. by exists n', (Err e).
  - go_step. rewrite <- (app_nil_r h). apply Htail. left. rewrite Hch in Hr by done. done.
Qed.

Lemma wpg_freeRebootSlot prefetched bn node h (Φ : history → pair → result unit → Prop) :
  (∀ t e, node_restored bn node t None → Φ (h ++ t) (bn, node) (Err e)) →
  (∀ t1 t2 n1 e, node_restored bn node t1 (Some n1) → claim_trace bn t2 →
     Φ (h ++ t1 ++ t2) (bn, n1) (Err e)) →
  (∀ t1 t2 n1 x, node_restored bn node t1 (Some n1) → claim_trace bn t2 →
     (∀ c, claim_known prefetched t2 c → claim_clean bn c t2) →
     Φ (h ++ t1 ++ t2 ++ [Ev (PatchBootcNode bn (clearSlotKeys bn)) x])
       (match x with Ok b => (b, n1) | Err _ => (bn, n1) end)
       (match x with Ok _ => Ok tt | Err e => Err (ErrWrap "removing reboot slot annotations" e) end)) →
  wpg (freeRebootSlot prefetched) (bn, node) h Φ.
Proof.
  intros H1 H2 H3. unfold freeRebootSlot. go_step. apply wpg_restoreNodeState.
  - intros t e Ht. by apply H1.
  - intros t1 t2 n1 r Ht1 Ht2 Hok. destruct r as [[]|e]; [|by apply H2].
    go_step. go_step. apply wpg_patchBN. intros x.
    specialize (H3 t1 t2 n1 x Ht1 Ht2 (Hok eq_refl)).
    rewrite <- !app_assoc. by destruct x.
Qed.

(** Every write of a history satisfies [P]. *)
Definition writes (P : req → Prop) (t : history) : Prop :=
  ∀ e, e ∈ t → is_write (ev_req e) = true → P (ev_req e).

Lemma writes_app P t1 t2 : writes P (t1 ++ t2) ↔ writes P t1 ∧ writes P t2.
Proof. unfold writes. setoid_rewrite elem_of_app. naive_solver. Qed.
Lemma writes_nil P : writes P [].
Proof. intros e He%elem_of_nil. done. Qed.
Lemma writes_one P r x : (is_write r = true → P r) → writes P [Ev r x].
Proof. intros H e ->%list_elem_of_singleton. done. Qed.

(** What freeing a slot may write. *)
Definition free_write (bn : BootcNode) (node : Node) (r : req) : Prop :=
  match r with
  | PatchNode base new => base = node ∧ restored_ok bn node new
  | PatchNodeClaim base new => claim_restored bn base new
  | PatchBootcNode base new => base = bn ∧ new = clearSlotKeys bn
  | _ => False
  end.

Lemma node_restored_writes bn node t got : node_restored bn node t got → writes (free_write bn node) t.
Proof.
  intros [(-> & _)|(n' & x & -> & _ & Hr)]; [apply writes_nil|]. by apply writes_one.
Qed.
Lemma claim_trace_writes bn node t : claim_trace bn t → writes (free_write bn node) t.
Proof.
  intros (t0 & t1 & -> & H0 & H1). apply writes_app. split.
  - destruct H0 as [->|(n & x & ->)]; [apply writes_nil|]. by apply writes_one.
  - destruct H1 as [->|(c & c' & x & Hc & ->)]; [apply writes_nil|]. by apply writes_one.
Qed.
#[local] Hint Resolve node_restored_writes claim_trace_writes writes_nil : bootc.

(** The BootcNode has not been written. *)
Definition bn_untouched (t : history) : Prop :=
  ∀ base new x, Ev (PatchBootcNode base new) x ∉ t.

Lemma bn_untouched_app t1 t2 : bn_untouched t1 → bn_untouched t2 → bn_untouched (t1 ++ t2).
Proof. intros H1 H2 base new x [?|?]%elem_of_app; [by eapply H1|by eapply H2]. Qed.

Lemma node_restored_untouched bn node t got : node_restored bn node t got → bn_untouched t.
Proof.
  intros [(-> & _)|(n' & x & -> & _)] b b' y Hin; [by apply elem_of_nil in Hin|].
  by apply list_elem_of_singleton in Hin.
Qed.
Lemma claim_trace_untouched bn t : claim_trace bn t → bn_untouched t.
Proof.
  intros (t0 & t1 & -> & H0 & H1) b b' y [Hin|Hin]%elem_of_app.
  - destruct H0 as [->|(n & x & ->)]; [by apply elem_of_nil in Hin|].
    by apply list_elem_of_singleton in Hin.
  - destruct H1 as [->|(c & c' & x & _ & ->)]; [by apply elem_of_nil in Hin|].
    by apply list_elem_of_singleton in Hin.
Qed.
#[local] Hint Resolve node_restored_untouched claim_trace_untouched bn_untouched_app : bootc.

(** Everything recorded as owned is off the Node and off the NodeClaim. *)
Definition fence_down (prefetched : option NodeClaim) (bn : BootcNode) (node : Node) (t : history) : Prop :=
  (restored_ok bn node node ∨
   ∃ n' got, restored_ok bn node n' ∧ Ev (PatchNode node n') (Ok got) ∈ t) ∧
  ∀ c, claim_known prefetched t c → claim_clean bn c t.

Lemma claim_known_restored prefetched bn node t1 t2 got c :
  node_restored bn node t1 got → claim_known prefetched (t1 ++ t2) c → claim_known prefetched t2 c.
Proof.
  intros Ht1 [?|(n & [Hin|Hin]%elem_of_app)]; [by left| |right; by exists n].
  destruct Ht1 as [(-> & _)|(n' & x & -> & _)]; [by apply elem_of_nil in Hin|].
  by apply list_elem_of_singleton in Hin.
Qed.

Lemma fence_down_intro prefetched bn node t1 t2 n1 :
  node_restored bn node t1 (Some n1) →
  (∀ c, claim_known prefetched t2 c → claim_clean bn c t2) →
  fence_down prefetched bn node (t1 ++ t2).
Proof.
  intros Ht1 Hc. split.
  - destruct Ht1 as [(-> & _ & ?)|(n' & x & -> & Hx & ?)]; [by left|].
    destruct x as [got|]; [|done]. right. exists n', got. set_solver.
  - intros c Hk. eapply claim_known_restored in Hk; [|done].
    destruct (Hc c Hk) as [?|(c' & got & ? & ?)]; [by left|]. right. exists c', got. set_solver.
Qed.

(** C19. [freeRebootSlot] gives back exactly what the controller took, and
    forgets about it last.  In every run, whatever the API server answers:
    the writes are (1) at most a Node patch that deletes the owned Karpenter
    annotations, uncordons the node only if it was not cordoned before the
    slot, and removes the startup taint only if the controller owns it,
    (2) NodeClaim patches that delete owned annotations only, and (3) the patch
    that clears the ownership records.  The records are cleared by the last
    request, when the Node and every NodeClaim the controller could look at are
    already clean, so a failure on the way leaves enough state to retry; and
    the function succeeds exactly when that last patch does. *)
Theorem freeRebootSlot_safe prefetched bn node :
  wpg (freeRebootSlot prefetched) (bn, node) [] (λ t s r,
    writes (free_write bn node) t ∧
    (bn_untouched t ∧ is_ok r = false ∨
     ∃ t' x, t = t' ++ [Ev (PatchBootcNode bn (clearSlotKeys bn)) x] ∧ bn_untouched t' ∧
             fence_down prefetched bn node t' ∧ is_ok r = is_ok x)).
Proof.
  apply wpg_freeRebootSlot; simpl.
  - intros t e Ht. split; [|left; split]; eauto with bootc.
  - intros t1 t2 n1 e Ht1 Ht2. split; [apply writes_app; split|left; split]; eauto with bootc.
  - intros t1 t2 n1 x Ht1 Ht2 Hc. rewrite app_assoc. split.
    + rewrite !writes_app. split_and!; eauto with bootc. by apply writes_one.
    + right. exists (t1 ++ t2), x. split_and!; eauto using fence_down_intro with bootc.
      by destruct x.
Qed.
End Restore.

(** ** The effect of a slot, and its reversal *)

Section RoundTrip.
Context {L : Lib} {HL : LibLaws L}.
Implicit Types (t : history).

Lemma quiet_bn t base new got :
  quiet_history t → Ev (PatchBootcNode base new) (Ok got) ∈ t →
  GoMap.ext_eq (bn_annotations got) (bn_annotations new) ∧ bn_spec got = bn_spec new.
Proof.
  rewrite Forall_forall. intros H Hin. destruct (H _ Hin) as [_ Hq].
  destruct (Hq _ eq_refl) as (? & ? & _). done.
Qed.

Lemma quiet_node t base new got :
  quiet_history t → Ev (PatchNode base new) (Ok got) ∈ t → locked_patch_node base new got.
Proof. rewrite Forall_forall. intros H Hin. destruct (H _ Hin) as [Hq _]. by apply Hq. Qed.

Lemma bn_after_quiet bn b' t got :
  quiet_history t → b' = setBNAnnotations (bn_annotations b') bn → bn_after bn b' t got →
  GoMap.ext_eq (bn_annotations got) (bn_annotations b') ∧ bn_spec got = bn_spec bn.
Proof.
  intros Hq Hb. unfold bn_after. destruct (annotationsEqual _ _) eqn:Ea.
  - intros ->. by apply annotationsEqual_ext in Ea.
  - intros Hin. destruct (quiet_bn _ _ _ _ Hq Hin) as [? ->]. rewrite Hb. done.
Qed.

Lemma node_after_quiet node n' t got :
  quiet_history t → n' = setNodeAnnotations (node_annotations n') (setUnschedulable true node) →
  node_after node n' t got →
  GoMap.ext_eq (node_annotations got) (node_annotations n') ∧ node_unschedulable got = true ∧
  node_taints got = node_taints node.
Proof.
  intros Hq Hn. unfold node_after. destruct (_ && _) eqn:Ea.
  - intros ->. apply andb_true_iff in Ea as [? ?%annotationsEqual_ext]. done.
  - intros Hin. destruct (quiet_node _ _ _ _ Hq Hin) as (_ & ? & _ & _ & -> & ->). by rewrite Hn.
Qed.

Lemma index_ext a b k : GoMap.ext_eq a b → GoMap.index a k = GoMap.index b k.
Proof. intros H. unfold GoMap.index. by rewrite (H k). Qed.

(** When [assignRebootSlot] succeeds and nobody else writes the two
    objects, the BootcNode holds the slot, the node is cordoned with its taints
    unchanged, a Karpenter node carries both fence annotations, and
    [was-cordoned] records the cordon state from before the slot: it is written
    when the slot is first assigned and never overwritten by a retry (when the
    node is already cordoned by the controller itself). *)
Theorem assignRebootSlot_post prefetched bn node :
  wpg (assignRebootSlot prefetched) (bn, node) [] (λ t s r,
    quiet_history t → r = Ok tt →
    isSlotted s.1 = true ∧
    bn_spec s.1 = bn_spec bn ∧
    node_unschedulable s.2 = true ∧
    node_taints s.2 = node_taints node ∧
    GoMap.lookup (bn_annotations s.1) AnnotationWasCordoned =
      (if isSlotted bn then GoMap.lookup (bn_annotations bn) AnnotationWasCordoned
       else Some (cordonRecord node)) ∧
    (isNodeOwnedByKarpenterNodeClaim node = true →
       GoMap.index (node_annotations s.2) DoNotRepairAnnotationKey = "true" ∧
       GoMap.index (node_annotations s.2) DoNotDisruptAnnotationKey = "true")).
Proof.
  apply wpg_assignRebootSlot. intros claim b' n' c' t s r _ Hp _ Hok _ Hq Hr. simpl in Hq.
  destruct (Hok Hr) as [Hb Hn]. destruct Hp.
  destruct (bn_after_quiet _ _ _ _ Hq plan_bn0 Hb) as [Hbe Hbs].
  destruct (node_after_quiet _ _ _ _ Hq plan_node0 Hn) as (Hne & Hnu & Hnt).
  split_and!; [|done..| |].
  - rewrite isSlotted_spec. apply GoMap.has_true. rewrite (Hbe _), plan_slot0. eauto.
  - by rewrite (Hbe _).
  - intros Hk. rewrite !(index_ext _ _ _ Hne).
    split; [apply (plan_fence0 Hk AnnotationOwnsKarpenterDoNotRepair)
           |apply (plan_fence0 Hk AnnotationOwnsKarpenterDoNotDisrupt)]; unfold nodePairs; set_solver.
Qed.

Lemma lookup_clear keys a k :
  GoMap.lookup (fold_left GoMap.remove keys a) k =
    if decide (k ∈ keys) then None else GoMap.lookup a k.
Proof.
  revert a. induction keys as [|k0 keys IH]; intros a; cbn [fold_left].
  { by rewrite decide_False by set_solver. }
  rewrite IH, GoMap.lookup_remove. repeat case_decide; try done; set_solver.
Qed.

(** A BootcNode without any slot bookkeeping. *)
Definition no_records (bn : BootcNode) : Prop :=
  ∀ k, k ∈ slotKeys → GoMap.lookup (bn_annotations bn) k = None.

(** The annotations the fence overwrites: keys it owns whose value was not
    already "true". *)
Definition overwritten (node : Node) (k : string) : bool :=
  isNodeOwnedByKarpenterNodeClaim node &&
  existsb (λ p, p.2 =s k) nodePairs && negb (GoMap.index (node_annotations node) k =s "true").

(** Which annotations a planned slot owns, starting from no records. *)
Lemma plan_owns bn node claim b' n' c' k :
  no_records bn → plan_ok bn node claim b' n' c' →
  existsb (λ p, (p.2 =s k) && GoMap.has (bn_annotations b') p.1) nodePairs = overwritten node k.
Proof.
  intros Hno Hp. destruct Hp. apply eq_true_iff_eq. unfold overwritten.
  rewrite !andb_true_iff, negb_true_iff, seq_b_false, !List.existsb_exists. split.
  - intros ([ok tk] & Hin & [Hk%seq_b_true Hhas]%andb_true_iff). simpl in Hk, Hhas. subst tk.
    apply list_elem_of_In in Hin as Hin'.
    assert (GoMap.lookup (bn_annotations bn) ok = None) as Hnone.
    { apply Hno. by apply pairs_slotKeys in Hin'. }
    apply GoMap.has_true in Hhas as [w Hw]. split_and!.
    + destruct (isNodeOwnedByKarpenterNodeClaim node) eqn:E; [done|].
      rewrite (plan_unowned0 ok k Hin') in Hw by auto. congruence.
    + exists (ok, k). by rewrite seq_b_refl.
    + intros Ht. rewrite (plan_unowned0 ok k Hin') in Hw by auto. congruence.
  - intros [[Hk ([ok tk] & Hin & Ht%seq_b_true)] Hne]. simpl in Ht. subst tk.
    apply list_elem_of_In in Hin.
    pose proof (plan_fence0 Hk ok k Hin) as Htrue.
    destruct (plan_node_cover0 k) as (ok' & Hin' & Hhas').
    { unfold GoMap.index in *. congruence. }
    exists (ok', k). rewrite <- list_elem_of_In. simpl. by rewrite seq_b_refl, Hhas'.
Qed.

(** What is left of a planned slot once it has been freed. *)
Lemma free_after_plan bn node claim b' n' c' b1 n1 n2 :
  no_records bn → plan_ok bn node claim b' n' c' →
  GoMap.ext_eq (bn_annotations b1) (bn_annotations b') →
  GoMap.ext_eq (node_annotations n1) (node_annotations n') →
  node_unschedulable n1 = true → node_taints n1 = node_taints node →
  restored_ok b1 n1 n2 →
  GoMap.ext_eq (bn_annotations (clearSlotKeys b1)) (bn_annotations bn) ∧
  node_unschedulable n2 = node_unschedulable node ∧ node_taints n2 = node_taints node ∧
  ∀ k, GoMap.lookup (node_annotations n2) k =
         if overwritten node k then None else GoMap.lookup (node_annotations node) k.
Proof.
  intros Hno Hp Hb Hn Hu Ht Hr. assert (∀ k, _) as Hown by (intros k; exact (plan_owns _ _ _ _ _ _ k Hno Hp)).
  destruct Hp, Hr. split_and!.
  - intros k. change (bn_annotations (clearSlotKeys b1))
      with (fold_left GoMap.remove slotKeys (bn_annotations b1)). rewrite lookup_clear.
    destruct (decide (k ∈ slotKeys)) as [Hk|Hk]; [by rewrite (Hno _ Hk)|]. rewrite (Hb k). by apply plan_other0.
  - rewrite rest_cordon0, (Hb _), plan_cordon0, Hu.
    assert (isSlotted bn = false) as ->.
    { rewrite isSlotted_spec. apply GoMap.has_false, Hno. by apply (bool_decide_unpack _). }
    unfold cordonRecord. by destruct (node_unschedulable node).
  - rewrite rest_taints0, Ht. unfold GoMap.has. rewrite (Hb _), plan_taint0, Hno; [done|].
    by apply (bool_decide_unpack _).
  - intros k. rewrite (rest_annotations0 k).
    assert (existsb (λ p, (p.2 =s k) && GoMap.has (bn_annotations b1) p.1) nodePairs =
            overwritten node k) as ->.
    { rewrite <- Hown. simpl. unfold GoMap.has. by rewrite !(Hb _). }
    destruct (overwritten node k) eqn:Eo; [done|]. rewrite (Hn k).
    destruct (decide (GoMap.lookup (node_annotations node) k = GoMap.lookup (node_annotations n') k))
      as [->|Hne]; [done|].
    destruct (plan_node_cover0 k Hne) as (ok & Hin & Hhas). exfalso.
    assert (existsb (λ p, (p.2 =s k) && GoMap.has (bn_annotations b') p.1) nodePairs = true) as Hx.
    { apply List.existsb_exists. exists (ok, k). rewrite <- list_elem_of_In. simpl.
      by rewrite seq_b_refl, Hhas. }
    rewrite Hown in Hx. congruence.
Qed.

(** C17. Assigning a slot and freeing it again is a round trip: on a BootcNode
    without slot bookkeeping, when both calls succeed and nobody else writes
    the objects, the BootcNode's annotations, the node's cordon and taints are
    back to what they were, and so is every annotation of the node, except the
    two Karpenter annotations when their previous value was not "true": the
    fence overwrites it and freeing deletes the key. *)
Theorem slot_roundtrip prefetched prefetched' bn node :
  no_records bn →
  wpg (assignRebootSlot prefetched ;;; freeRebootSlot prefetched')%go (bn, node) [] (λ t s r,
    quiet_history t → r = Ok tt →
    GoMap.ext_eq (bn_annotations s.1) (bn_annotations bn) ∧
    bn_spec s.1 = bn_spec bn ∧
    node_unschedulable s.2 = node_unschedulable node ∧
    node_taints s.2 = node_taints node ∧
    ∀ k, GoMap.lookup (node_annotations s.2) k =
           if overwritten node k then None else GoMap.lookup (node_annotations node) k).
Proof.
  intros Hno. go_step. apply wpg_assignRebootSlot.
  intros claim b' n' c' t [b1 n1] [[]|e] _ Hp _ Hok _; [|done]. simpl in Hok.
  destruct (Hok eq_refl) as [Hb Hn].
  apply wpg_freeRebootSlot; [done|done|]. intros t1 t2 n2 x Hn2 _ _ Hq Hr.
  destruct x as [b2|]; [|done]. cbn [fst snd].
  rewrite !Forall_app in Hq. destruct Hq as ((_ & Hq) & Hq1 & Hq2 & Hq3).
  destruct (bn_after_quiet _ _ _ _ Hq (plan_bn _ _ _ _ _ _ Hp) Hb) as [Hbe Hbs].
  destruct (node_after_quiet _ _ _ _ Hq (plan_node _ _ _ _ _ _ Hp) Hn) as (Hne & Hnu & Hnt).
  destruct (quiet_bn _ b1 (clearSlotKeys b1) b2 Hq3 ltac:(set_solver)) as [Hb2 Hs2].
  assert (∃ m2, restored_ok b1 n1 m2 ∧ GoMap.ext_eq (node_annotations n2) (node_annotations m2) ∧
    node_unschedulable n2 = node_unschedulable m2 ∧ node_taints n2 = node_taints m2)
    as (m2 & Hm & Ha & -> & ->).
  { destruct Hn2 as [(-> & [= ->] & ?)|(m2 & y & -> & Hy & ?)]; [by exists n1|].
    destruct y as [n|]; [|done]. injection Hy as ->. exists m2. split; [done|].
    destruct (quiet_node _ n1 m2 n Hq1 ltac:(set_solver)) as (_ & ? & _ & _ & ? & ?). done. }
  destruct (free_after_plan _ _ _ _ _ _ _ _ _ Hno Hp Hbe Hne Hnu Hnt Hm) as (H1 & H2 & H3 & H4).
  split_and!; [|rewrite Hs2; done|done|done|].
  - intros k. rewrite (Hb2 k). apply H1.
  - intros k. rewrite (Ha k). apply H4.
Qed.
End RoundTrip.

(** ** Witnesses *)

Module SlotsWitness.
Import LibModel.

(** A Karpenter node whose user set [do-not-disrupt] to "false". *)
Definition claimRef : OwnerReference :=
  mkOwnerReference NodeClaimAPIVersion NodeClaimKind "claim-1" "c-uid" false.
Definition node0 : Node :=
  mkNode (mkObjectMeta "worker-1" "" "n-uid" 1 None
            (GoMap.set (GoMap.set None DoNotDisruptAnnotationKey "false") "team" "infra")
            [claimRef] [] None)
    false [] [mkNodeCondition NodeReady ConditionTrue].
Definition claim0 : NodeClaim :=
  mkNodeClaim NodeClaimAPIVersion NodeClaimKind (newMeta "claim-1") (JObject []).
Definition bn0 : BootcNode := Samples.stagedNode "worker-1" None.
Definition world0 : World :=
  mkWorld 0 ∅ {["worker-1" := node0]} {["worker-1" := bn0]} {["claim-1" := claim0]} ∅ ∅ ∅.

(** The full round trip runs to success on a concrete cluster, and the theorem
    tells what is left: the user's "false" is gone, the "team" annotation and the
    open cordon are back. *)
Definition roundtrip0 :=
  run sim ((assignRebootSlot (Some claim0) ;;; freeRebootSlot None)%go (bn0, node0)) world0.

Lemma slot_roundtrip_witness :
  no_records bn0 ∧ length roundtrip0.1.2 = 7 ∧ roundtrip0.2.2 = Ok tt ∧
  GoMap.lookup (node_annotations roundtrip0.2.1.2) DoNotDisruptAnnotationKey = None ∧
  GoMap.lookup (node_annotations roundtrip0.2.1.2) "team" = Some "infra" ∧
  node_unschedulable roundtrip0.2.1.2 = false.
Proof.
  assert (no_records bn0) as Hno by (intros k _; reflexivity).
  assert (roundtrip0.2.2 = Ok tt) as Hr by (vm_compute; reflexivity).
  destruct (wpg_sim _ _ world0 _ (slot_roundtrip (Some claim0) None bn0 node0 Hno)) as [Hq H].
  destruct (H Hq Hr) as (_ & _ & Hu & _ & Hk).
  split; [exact Hno|]. split; [vm_compute; reflexivity|]. split; [exact Hr|].
  split; [|split]; [exact (Hk DoNotDisruptAnnotationKey)|exact (Hk "team")|exact Hu].
Defined.

Definition assign0 := run sim (assignRebootSlot None (bn0, node0)) world0.

Lemma assignRebootSlot_fenced_witness :
  fenced (bn_annotations bn0) assign0.1.2 ∧
  length (filter (λ e, is_write (ev_req e) = true) assign0.1.2) = 3.
Proof.
  split; [|vm_compute; reflexivity].
  exact (proj2 (wpg_sim _ _ world0 _ (assignRebootSlot_fenced None bn0 node0))).
Defined.

Lemma assignRebootSlot_post_witness :
  assign0.2.2 = Ok tt ∧ isSlotted assign0.2.1.1 = true ∧
  GoMap.lookup (bn_annotations assign0.2.1.1) AnnotationWasCordoned = Some "false" ∧
  GoMap.index (node_annotations assign0.2.1.2) DoNotDisruptAnnotationKey = "true".
Proof.
  assert (assign0.2.2 = Ok tt) as Hr by (vm_compute; reflexivity).
  destruct (wpg_sim _ _ world0 _ (assignRebootSlot_post None bn0 node0)) as [Hq H].
  destruct (H Hq Hr) as (Hs & _ & _ & _ & Hc & Hk).
  split; [exact Hr|]. split; [exact Hs|]. split; [exact Hc|]. exact (proj2 (Hk eq_refl)).
Defined.

(** Freeing the slot just assigned. *)
Definition bn1 : BootcNode := assign0.2.1.1.
Definition node1 : Node := assign0.2.1.2.
Definition free0 := run sim (freeRebootSlot (Some claim0) (bn1, node1)) assign0.1.1.

Lemma freeRebootSlot_safe_witness :
  free0.2.2 = Ok tt ∧
  ∃ t' x, free0.1.2 = t' ++ [Ev (PatchBootcNode bn1 (clearSlotKeys bn1)) x] ∧
          fence_down (Some claim0) bn1 node1 t'.
Proof.
  assert (is_ok free0.2.2 = true) as Hr by (vm_compute; reflexivity).
  split; [vm_compute; reflexivity|].
  pose proof (wpg_sim _ _ assign0.1.1 _ (freeRebootSlot_safe (Some claim0) bn1 node1)) as H.
  fold free0 in H. destruct H as [_ [_ [[_ H]|(t' & x & Ht & _ & Hf & _)]]].
  - rewrite Hr in H. discriminate H.
  - exists t', x. split; [exact Ht|exact Hf].
Defined.
End SlotsWitness.
