(* ===== verification/Events.v ===== *)
(** * Events: what the controller announces

    [internal/controller/events.go]: event notes, pool events, node events and
    the size limit on notes.  The drain events are in [Drain]. *)

From S2P Require Import Prelude Effects Types Library LibModel Client Samples Sim Image Classify PoolStatus Utf8.

(** ** The controller's settings *)

(** The exported fields of [BootcNodePoolReconciler] that are plain values. *)
Class Config : Type := {
  EventNamespace : string;
  TagResolutionInterval : Z;
  PullSecretNamespaces : list string
}.

Definition eventReasonImageUpdateAvailable : string := "ImageUpdateAvailable".
Definition eventReasonRolloutStarted : string := "RolloutStarted".
Definition eventReasonRolloutCompleted : string := "RolloutCompleted".
Definition eventReasonDrainFailed : string := "DrainFailed".
Definition eventReasonDrainTakingTooLong : string := "DrainTakingTooLong".
Definition eventActionResolveImage : string := "ResolveImage".
Definition eventActionRollout : string := "Rollout".
Definition eventActionPoolDegraded : string := "PoolDegraded".
Definition eventActionNodeUpdate : string := "NodeUpdate".
Definition eventActionDrain : string := "Drain".
Definition EventTypeNormal : string := "Normal".
Definition EventTypeWarning : string := "Warning".

(** ** Notes *)

(** [shortDigest]. *)
Definition shortDigest (digest : string) : string :=
  let shortLen := String.length "sha256:" + 12 in
  if shortLen <? String.length digest then String.substring 0 shortLen digest else digest.

(** [capNote]. *)
Definition capNote (note : string) : string :=
  String.string_of_list_ascii (Utf8.capBytes (String.list_ascii_of_string note)).

(** The implementations of [EventNote]. *)
Inductive EventNote : Set :=
| poolImageUpdateNote (imageRef newDigest previousDigest : string)
| poolRolloutStartedNote (targetDigest : string)
| poolRolloutCompletedNote (targetDigest : string)
| poolDegradedNote (message : string)
| nodeStagingNote (image : string)
| nodeStagedNote (image : string)
| nodeRebootingNote (image : string)
| nodeIdleNote (image : string)
| drainFailedNote (err : error)
| drainStalledNote (threshold : string).

(** The [Note] methods. *)
Definition Note (n : EventNote) : string :=
  match n with
  | poolImageUpdateNote ref new prev =>
      "Image tag " +:+ ref +:+ " resolved to new digest " +:+ shortDigest new +:+
      " (previously " +:+ shortDigest prev +:+ ")"
  | poolRolloutStartedNote d => "Rollout started toward digest " +:+ shortDigest d
  | poolRolloutCompletedNote d => "Rollout completed at digest " +:+ shortDigest d
  | poolDegradedNote m => capNote m
  | nodeStagingNote i => "Staging image " +:+ i
  | nodeStagedNote i => "Image " +:+ i +:+ " is staged and awaiting reboot"
  | nodeRebootingNote i => "Rebooting into image " +:+ i
  | nodeIdleNote i => "Node is up to date with image " +:+ i
  | drainFailedNote e => capNote ("Failed to drain node: " +:+ Error e +:+ "; the drain will be retried")
  | drainStalledNote t =>
      "Drain has been running for more than " +:+ t +:+ "; it may be blocked by a PodDisruptionBudget"
  end.

(** The object references handed to the recorder. *)
Definition poolRef (p : BootcNodePool) : ObjectRef :=
  mkObjectRef "BootcNodePool" (om_namespace (pool_meta p)) (pool_name p).
Definition bnRef (b : BootcNode) : ObjectRef :=
  mkObjectRef "BootcNode" (om_namespace (bn_meta b)) (bn_name b).

(** [withNamespace]. *)
Definition withNamespace (ns : string) (o : ObjectRef) : ObjectRef :=
  mkObjectRef (or_kind o) ns (or_name o).

Section Recording.
Context {L : Lib} {C : Config}.
Local Open Scope go_scope.

(** [recordEvent]. *)
Definition recordEvent {S : Type} (regarding : ObjectRef) (related : option ObjectRef)
    (eventType reason action : string) (note : EventNote) : ctl S unit :=
  let ns o := if EventNamespace =s "" then o else withNamespace EventNamespace o in
  call (Eventf (ns regarding) (ns <$> related) eventType reason action (Note note)).

(** ** Pool events *)

(** [conditionEnteredReason]. *)
Definition conditionEnteredReason (previous current : option Condition) (status reason : string) : bool :=
  match current with
  | None => false
  | Some c =>
      if negb (c_status c =s status) || negb (c_reason c =s reason) then false
      else match previous with
           | None => true
           | Some p => negb (c_status p =s status) || negb (c_reason p =s reason)
           end
  end.

(** [degradedConditionChanged]. *)
Definition degradedConditionChanged (previous current : option Condition) : bool :=
  match current with
  | None => false
  | Some c =>
      if negb (c_status c =s ConditionTrue) then false
      else match previous with
           | None => true
           | Some p => negb (c_status p =s ConditionTrue) || negb (c_reason p =s c_reason c) ||
                       negb (c_message p =s c_message c)
           end
  end.

(** The condition [recordPoolEvents] calls poolRolloutInProgress. *)
Definition rolloutStarted (pool : BootcNodePool) (previous : BootcNodePoolStatus) : bool :=
  let old := FindStatusCondition (Conditions previous) PoolUpToDate in
  let new := FindStatusCondition (pool_conditions pool) PoolUpToDate in
  let target := TargetDigest (pool_status pool) in
  let targetChanged :=
    negb (TargetDigest previous =s "") && negb (TargetDigest previous =s target) &&
    negb (target =s "") in
  conditionEnteredReason old new ConditionFalse PoolRolloutInProgress ||
  (targetChanged &&
   match new with
   | Some c => (c_status c =s ConditionFalse) && (c_reason c =s PoolRolloutInProgress)
   | None => false
   end).

(** The condition [recordPoolEvents] calls rolloutCompleted. *)
Definition rolloutCompleted (pool : BootcNodePool) (previous : BootcNodePoolStatus) : bool :=
  match FindStatusCondition (Conditions previous) PoolUpToDate,
        FindStatusCondition (pool_conditions pool) PoolUpToDate with
  | Some old, Some new => negb (c_status old =s ConditionTrue) && (c_status new =s ConditionTrue)
  | _, _ => false
  end.

(** [recordPoolEvents]. *)
Definition recordPoolEvents {S : Type} (pool : BootcNodePool) (previous : BootcNodePoolStatus)
    (tagTargetChanged : bool) : ctl S unit :=
  let target := TargetDigest (pool_status pool) in
  (if tagTargetChanged then
     recordEvent (poolRef pool) None EventTypeNormal eventReasonImageUpdateAvailable
       eventActionResolveImage
       (poolImageUpdateNote (ImageRef (pool_spec pool)) target (TargetDigest previous))
   else ret tt) ;;;
  (if rolloutStarted pool previous then
     recordEvent (poolRef pool) None EventTypeNormal eventReasonRolloutStarted eventActionRollout
       (poolRolloutStartedNote target)
   else ret tt) ;;;
  (if rolloutCompleted pool previous then
     recordEvent (poolRef pool) None EventTypeNormal eventReasonRolloutCompleted eventActionRollout
       (poolRolloutCompletedNote target)
   else ret tt) ;;;
  let oldDegraded := FindStatusCondition (Conditions previous) PoolDegraded in
  match FindStatusCondition (pool_conditions pool) PoolDegraded with
  | Some d =>
      if degradedConditionChanged oldDegraded (Some d) then
        recordEvent (poolRef pool) None EventTypeWarning (c_reason d) eventActionPoolDegraded
          (poolDegradedNote (c_message d))
      else ret tt
  | None => ret tt
  end.

(** ** Node events *)

(** [isActiveObservation]: the observation starts with "False:". *)
Definition isActiveObservation (observation : string) : bool :=
  String.prefix (ConditionFalse +:+ ":") observation.

(** [nodeEvent]: observation, event reason and note. *)
Definition nodeEvent (node : BootcNode) (previousObservation : string)
    : string * string * option EventNote :=
  match FindStatusCondition (bns_Conditions (bn_status node)) NodeIdle with
  | None => ("", "", None)
  | Some idle =>
      let image := DesiredImage (bn_spec node) in
      let observation := c_status idle +:+ ":" +:+ c_reason idle +:+ ":" +:+ image in
      if negb (c_status idle =s ConditionFalse) then
        if (c_reason idle =s NodeReasonIdle) && isActiveObservation previousObservation
        then (observation, NodeReasonIdle, Some (nodeIdleNote image))
        else (observation, "", None)
      else if c_reason idle =s NodeReasonStaging
      then (observation, NodeReasonStaging, Some (nodeStagingNote image))
      else if c_reason idle =s NodeReasonStaged
      then (observation, NodeReasonStaged, Some (nodeStagedNote image))
      else if c_reason idle =s NodeReasonRebooting
      then (observation, NodeReasonRebooting, Some (nodeRebootingNote image))
      else (observation, "", None)
  end.

Abbreviation owned_t := (gmap string BootcNode).

Definition observed (bn : BootcNode) : string :=
  GoMap.index (bn_annotations bn) AnnotationLastObservedState.

(** One iteration of [recordNodeEvents]; a failed patch is logged only. *)
Definition recordNodeEvent (pool : BootcNodePool) (k : string) : ctl owned_t unit :=
  entry <- gets (λ owned, owned !! k) ;;
  match entry with
  | None => ret tt
  | Some node =>
      let '(observation, reason, note) := nodeEvent node (observed node) in
      if (observation =s "") || (observed node =s observation) then ret tt
      else
        match note with
        | Some n => recordEvent (bnRef node) (Some (poolRef pool)) EventTypeNormal reason
                      eventActionNodeUpdate n
        | None => ret tt
        end ;;;
        x <- call (PatchBootcNode node
               (setBNAnnotations (GoMap.set (bn_annotations node) AnnotationLastObservedState
                                    observation) node)) ;;
        match x with
        | Ok got => modify (λ owned, <[k := got]> owned)
        | Err _ => ret tt
        end
  end.

(** [recordNodeEvents]. *)
Definition recordNodeEvents `{MapOrder} (pool : BootcNodePool) : ctl owned_t unit :=
  owned <- gets id ;;
  forEach (rangeKeys 2 owned) (recordNodeEvent pool).
End Recording.

(** ** Notes fit *)

Lemma length_bytes s : length (String.list_ascii_of_string s) = String.length s.
Proof. induction s; simpl; auto. Qed.

Lemma string_length_bytes l : String.length (String.string_of_list_ascii l) = length l.
Proof. induction l; simpl; auto. Qed.


(** ** Node transitions are announced once *)

Section NodeEvents.
Context {L : Lib} {C : Config}.
Implicit Types (owned : gmap string BootcNode) (bn : BootcNode) (h t : history).

Definition observationOf bn : string := (nodeEvent bn "").1.1.

Lemma nodeEvent_observation bn p : (nodeEvent bn p).1.1 = observationOf bn.
Proof. unfold observationOf, nodeEvent. repeat split_match; done. Qed.

(** The node's current state has been observed (or it has none yet). *)
Definition settled bn : Prop := observationOf bn = "" ∨ observed bn = observationOf bn.

Lemma settled_dec bn :
  (observationOf bn =s "") || (observed bn =s observationOf bn) = true ↔ settled bn.
Proof. unfold settled. by rewrite orb_true_iff, !seq_b_true. Qed.

(** What the Idle condition and the desired image look like when recorded. *)
Definition stateText bn (c : Condition) : string :=
  c_status c +:+ ":" +:+ c_reason c +:+ ":" +:+ DesiredImage (bn_spec bn).

Lemma settled_step pool k owned h bn (Φ : history → gmap string BootcNode → result unit → Prop) :
  owned !! k = Some bn → settled bn → Φ h owned (Ok tt) → wpg (recordNodeEvent pool k) owned h Φ.
Proof.
  intros Hk Hs HΦ. unfold recordNodeEvent. go_step. go_step. rewrite Hk.
  pose proof (nodeEvent_observation bn (observed bn)) as Ho.
  destruct (nodeEvent bn (observed bn)) as [[o reason] note]. simpl in Ho. subst o.
  rewrite (proj2 (settled_dec bn) Hs). by go_step.
Qed.

Definition is_event (e : event) : bool :=
  match ev_req e with Eventf _ _ _ _ _ _ => true | _ => false end.

Definition patches_ok h : Prop :=
  ∀ base new x, Ev (PatchBootcNode base new) x ∈ h → is_ok x = true.

(** An event whose subject is of the given kind. *)
Definition about (kind : string) (r : req) : Prop :=
  match r with Eventf reg _ _ _ _ _ => or_kind reg = kind | _ => False end.

Lemma wpg_recordEvent {S : Type} reg rel ty reason action n (s : S) h
    (Φ : history → S → result unit → Prop) :
  (∀ e, about (or_kind reg) (ev_req e) → Φ (h ++ [e]) s (Ok tt)) →
  wpg (recordEvent reg rel ty reason action n) s h Φ.
Proof. intros H. unfold recordEvent. apply wpg_call. intros []. apply H. simpl. by destruct (EventNamespace =s ""). Qed.

Lemma prefix_spec a b : String.prefix a b = true ↔ ∃ r, b = a +:+ r.
Proof.
  revert b. induction a as [|c a IH]; intros b; [split; [eauto|by destruct b]|].
  destruct b as [|d b]; [split; [done|by intros [r ?]]|].
  change (String.prefix (String c a) (String d b)) with
    (if Ascii.ascii_dec c d then String.prefix a b else false).
  destruct (Ascii.ascii_dec c d) as [->|Hne].
  - rewrite IH. split; intros [r Hr]; exists r; [by rewrite Hr|by injection Hr].
  - split; [done|]. intros [r Hr]. by injection Hr.
Qed.

(** The marker patch settles the node. *)
Lemma marked_settled bn got :
  GoMap.ext_eq (bn_annotations got)
    (GoMap.set (bn_annotations bn) AnnotationLastObservedState (observationOf bn)) →
  bn_spec got = bn_spec bn → bn_status got = bn_status bn → settled got.
Proof.
  intros Ha Hs Hst. right. unfold observed, GoMap.index. rewrite (Ha _), GoMap.lookup_set_eq. simpl.
  unfold observationOf, nodeEvent. by rewrite Hs, Hst.
Qed.

(** The transitions worth an event, with its reason and text: an Idle condition
    that differs from the state recorded on the node and says staging, staged or
    rebooting, or is no longer False after a recorded state that was. *)
Inductive announced bn : string → string → Prop :=
| an_busy c reason text :
    FindStatusCondition (bns_Conditions (bn_status bn)) NodeIdle = Some c →
    GoMap.lookup (bn_annotations bn) AnnotationLastObservedState ≠ Some (stateText bn c) →
    c_status c = "False" → c_reason c = reason →
    (reason, text) ∈ [("Staging", "Staging image " +:+ DesiredImage (bn_spec bn));
                      ("Staged", "Image " +:+ DesiredImage (bn_spec bn) +:+ " is staged and awaiting reboot");
                      ("Rebooting", "Rebooting into image " +:+ DesiredImage (bn_spec bn))] →
    announced bn reason text
| an_idle c rest :
    FindStatusCondition (bns_Conditions (bn_status bn)) NodeIdle = Some c →
    GoMap.lookup (bn_annotations bn) AnnotationLastObservedState ≠ Some (stateText bn c) →
    c_status c ≠ "False" → c_reason c = "Idle" →
    GoMap.lookup (bn_annotations bn) AnnotationLastObservedState = Some ("False:" +:+ rest) →
    announced bn "Idle" ("Node is up to date with image " +:+ DesiredImage (bn_spec bn)).

(** The event about a BootcNode, related to its pool; both are placed in the
    configured namespace, if there is one. *)
Definition subject (kind : string) (m : ObjectMeta) : ObjectRef :=
  mkObjectRef kind (if decide (EventNamespace = "") then om_namespace m else EventNamespace) (om_name m).

Definition nodeEventf (pool : BootcNodePool) bn (reason text : string) : req :=
  Eventf (subject "BootcNode" (bn_meta bn)) (Some (subject "BootcNodePool" (pool_meta pool)))
    "Normal" reason "NodeUpdate" text.

Lemma announced_functional bn r1 x1 r2 x2 : announced bn r1 x1 → announced bn r2 x2 → r1 = r2 ∧ x1 = x2.
Proof.
  intros [c r x Hc _ Hs Hr Hin|c rest Hc _ Hs _ _] [c' r' x' Hc' _ Hs' Hr' Hin'|c' rest' Hc' _ Hs' _ _];
    simplify_eq; try done.
  rewrite !elem_of_cons, elem_of_nil in Hin, Hin'.
  destruct Hin as [[= E ->]|[[= E ->]|[[= E ->]|[]]]], Hin' as [[= E' ->]|[[= E' ->]|[[= E' ->]|[]]]];
    try done; rewrite E in E'; discriminate.
Qed.

Lemma stateText_nonempty bn c : stateText bn c ≠ "".
Proof. unfold stateText. by destruct (c_status c). Qed.

Lemma unsettled_spec bn :
  ¬ settled bn ↔ ∃ c, FindStatusCondition (bns_Conditions (bn_status bn)) NodeIdle = Some c ∧
    observationOf bn = stateText bn c ∧
    GoMap.lookup (bn_annotations bn) AnnotationLastObservedState ≠ Some (stateText bn c).
Proof.
  unfold settled, observationOf, nodeEvent, observed, GoMap.index.
  destruct (FindStatusCondition _ NodeIdle) as [c|]; [|split; [tauto|by intros (? & ? & _)]].
  match goal with |- context [if negb (c_status c =s ConditionFalse) then ?x else ?y] =>
    assert ((if negb (c_status c =s ConditionFalse) then x else y).1.1 = stateText bn c) as ->
      by (by repeat split_match) end.
  pose proof (stateText_nonempty bn c) as Hne. split.
  - intros Hs. exists c. split_and!; [done..|]. intros Hl. apply Hs. right. by rewrite Hl.
  - intros (c' & [= <-] & _ & Hl) [?|Hd]; [done|]. destruct (GoMap.lookup _ _); simpl in Hd; congruence.
Qed.

Lemma announced_unsettled bn reason text : announced bn reason text → ¬ settled bn.
Proof.
  intros Ha. apply unsettled_spec. unfold observationOf, nodeEvent.
  destruct Ha as [c r x Hc Hl _ _ _|c rest Hc Hl _ _ _]; exists c; rewrite Hc; (split_and!; [done| |done]);
    by repeat split_match.
Qed.

(** [nodeEvent] has a note exactly for these transitions. *)
Lemma nodeEvent_announces bn :
  ¬ settled bn →
  match nodeEvent bn (observed bn) with
  | (_, reason, Some n) => announced bn reason (Note n)
  | (_, _, None) => ∀ reason text, ¬ announced bn reason text
  end.
Proof.
  intros (c & Hc & _ & Hl)%unsettled_spec.
  assert (isActiveObservation (observed bn) = true ↔
    ∃ rest, GoMap.lookup (bn_annotations bn) AnnotationLastObservedState = Some ("False:" +:+ rest)) as Hact.
  { unfold isActiveObservation, observed, GoMap.index. rewrite prefix_spec.
    destruct (GoMap.lookup _ _) as [o|]; simpl.
    - split; intros [r Hr]; exists r; [by rewrite Hr|by injection Hr].
    - split; intros [r Hr]; by destruct r. }
  unfold nodeEvent. rewrite Hc. destruct (c_status c =s ConditionFalse) eqn:Es; cbn [negb].
  - apply seq_b_true in Es.
    destruct (c_reason c =s NodeReasonStaging) eqn:E1; [apply seq_b_true in E1|apply seq_b_false in E1].
    { eapply an_busy; [done..|]. set_solver. }
    destruct (c_reason c =s NodeReasonStaged) eqn:E2; [apply seq_b_true in E2|apply seq_b_false in E2].
    { eapply an_busy; [done..|]. set_solver. }
    destruct (c_reason c =s NodeReasonRebooting) eqn:E3; [apply seq_b_true in E3|apply seq_b_false in E3].
    { eapply an_busy; [done..|]. set_solver. }
    intros reason text [c' r x Hc' _ _ Hr Hin|c' rest Hc' _ Hs _ _]; simplify_eq.
    rewrite !elem_of_cons, elem_of_nil in Hin. destruct Hin as [[= ? ?]|[[= ? ?]|[[= ? ?]|[]]]]; done.
  - apply seq_b_false in Es. destruct (c_reason c =s NodeReasonIdle) eqn:E1; cbn [andb].
    + apply seq_b_true in E1. destruct (isActiveObservation (observed bn)) eqn:Ea.
      * destruct (proj1 Hact eq_refl) as [rest Hrest]. by eapply an_idle.
      * intros reason text [c' r x Hc' _ Hs _ _|c' rest Hc' _ _ _ Hrest]; simplify_eq.
        assert (false = true); [|done]. apply Hact. eauto.
    + apply seq_b_false in E1. intros reason text [c' r x Hc' _ Hs _ _|c' rest Hc' _ _ Hr _]; simplify_eq; done.
Qed.

(** The requests before the marker of an unsettled node. *)
Definition spoken (pool : BootcNodePool) bn t : Prop :=
  (∃ reason text, announced bn reason text ∧ t = [Ev (nodeEventf pool bn reason text) tt]) ∨
  ((∀ reason text, ¬ announced bn reason text) ∧ t = []).

(** One iteration: the event, if there is one, then the marker. *)
Lemma wpg_recordNodeEvent pool k owned h bn (Φ : history → gmap string BootcNode → result unit → Prop) :
  owned !! k = Some bn →
  (settled bn → Φ h owned (Ok tt)) →
  (∀ t0 x, spoken pool bn t0 → (∀ e, e ∈ t0 → about "BootcNode" (ev_req e)) →
     let new := setBNAnnotations
       (GoMap.set (bn_annotations bn) AnnotationLastObservedState (observationOf bn)) bn in
     Φ (h ++ t0 ++ [Ev (PatchBootcNode bn new) x])
       (match x with Ok got => <[k := got]> owned | Err _ => owned end) (Ok tt)) →
  wpg (recordNodeEvent pool k) owned h Φ.
Proof.
  intros Hk Hs HΦ. unfold recordNodeEvent. go_step. go_step. rewrite Hk.
  pose proof (nodeEvent_observation bn (observed bn)) as Ho. pose proof (nodeEvent_announces bn) as Ha.
  destruct (nodeEvent bn (observed bn)) as [[o reason] note]. simpl in Ho. subst o.
  destruct (_ || _) eqn:E; [go_step; apply Hs; by apply settled_dec|].
  assert (¬ settled bn) as Hn by (intros ?%settled_dec; congruence). specialize (Ha Hn).
  go_step. destruct note as [n|].
  - unfold recordEvent. apply (wpg_call (resp := resp) (Eventf _ _ _ _ _ _)). intros []. go_step. go_step.
    rewrite <- app_assoc. match goal with |- context [h ++ [?e] ++ _] => set (ev := e) end.
    assert (spoken pool bn [ev]) as Hsp.
    { left. exists reason, (Note n). split; [done|]. unfold ev, nodeEventf, subject, withNamespace. simpl.
      case_decide as Hd; [by rewrite (proj2 (seq_b_true _ _) Hd)|by rewrite (proj2 (seq_b_false _ _) Hd)]. }
    assert (∀ e, e ∈ [ev] → about "BootcNode" (ev_req e)).
    { intros e ->%list_elem_of_singleton. simpl. by destruct (EventNamespace =s ""). }
    destruct x as [g|e]; go_step; [by apply (HΦ [ev] (Ok g))|by apply (HΦ [ev] (Err e))].
  - go_step. go_step. go_step.
    destruct x as [g|e]; go_step; [apply (HΦ [] (Ok g))|apply (HΦ [] (Err e))]; try by right.
    all: intros ev Hev; by apply elem_of_nil in Hev.
Qed.

Lemma recordNodeEvents_silent `{MapOrder} pool owned :
  (∀ k bn, owned !! k = Some bn → settled bn) →
  wpg (recordNodeEvents pool) owned [] (λ t owned' r, t = [] ∧ owned' = owned ∧ r = Ok tt).
Proof.
  intros Hs. unfold recordNodeEvents. go_step. go_step.
  apply (wpg_forEach_inv (λ h s, h = [] ∧ s = owned)); [|done|by intros h s [-> ->]].
  intros k s h [bn Hbn]%elem_of_rangeKeys [-> ->]. eapply settled_step; eauto.
Qed.

(** The events of a history, each for one of the announced nodes of [keys]. *)
Definition announces pool owned (keys : list string) h : Prop :=
  NoDup keys ∧
  Forall2 (λ k e, ∃ bn reason text, owned !! k = Some bn ∧ announced bn reason text ∧
             ev_req e = nodeEventf pool bn reason text)
    keys (List.filter is_event h).

(** No marker is written before the event it stands for was sent. *)
Definition told pool h : Prop :=
  ∀ t1 base new x t2 reason text, h = t1 ++ Ev (PatchBootcNode base new) x :: t2 →
    announced base reason text → Ev (nodeEventf pool base reason text) tt ∈ t1.

Lemma filter_spoken pool bn t0 new x :
  spoken pool bn t0 → List.filter is_event (t0 ++ [Ev (PatchBootcNode bn new) x]) = t0.
Proof. by intros [(reason & text & _ & ->)|[_ ->]]. Qed.

Lemma told_app pool h bn t0 new x :
  told pool h → spoken pool bn t0 → told pool (h ++ t0 ++ [Ev (PatchBootcNode bn new) x]).
Proof.
  intros Hh Hsp t1 base new' x' t2 reason text Heq Ha.
  rewrite app_assoc in Heq. destruct t2 as [|e t2 _] using rev_ind.
  - apply app_inj_tail in Heq as [<- Hp]. injection Hp as -> _. apply elem_of_app. right.
    destruct Hsp as [(r & tx & Ha' & ->)|[Hno _]]; [|by destruct (Hno _ _ Ha)].
    apply list_elem_of_singleton. destruct (announced_functional _ _ _ _ _ Ha Ha') as [-> ->]. done.
  - rewrite app_comm_cons, app_assoc in Heq. apply app_inj_tail in Heq as [Heq _].
    destruct Hsp as [(r & tx & Ha' & ->)|[Hno ->]].
    + destruct t2 as [|e' t2 _] using rev_ind.
      * apply app_inj_tail in Heq as [_ [=]].
      * rewrite app_comm_cons, app_assoc in Heq. apply app_inj_tail in Heq as [-> _]. by eapply Hh.
    + rewrite app_nil_r in Heq. subst h. by eapply Hh.
Qed.

Lemma announces_step pool owned (done keys : list string) h k bn t0 new x :
  k ∉ done → owned !! k = Some bn → announces pool owned keys h → (∀ k, k ∈ keys → k ∈ done) →
  (∀ k bn reason text, k ∈ done → owned !! k = Some bn → announced bn reason text → k ∈ keys) →
  spoken pool bn t0 →
  ∃ keys', announces pool owned keys' (h ++ t0 ++ [Ev (PatchBootcNode bn new) x]) ∧
    (∀ k', k' ∈ keys' → k' ∈ done ++ [k]) ∧
    ∀ k' bn reason text, k' ∈ done ++ [k] → owned !! k' = Some bn → announced bn reason text → k' ∈ keys'.
Proof.
  intros Hk Hbn [Hnd Hf] Hsub Hall Hsp. unfold announces.
  rewrite List.filter_app, (filter_spoken _ _ _ _ _ Hsp). destruct Hsp as [(r & tx & Ha & ->)|[Hno ->]].
  - exists (keys ++ [k]). split_and!.
    + apply NoDup_app. split_and!; [done|set_solver|apply NoDup_singleton].
    + apply Forall2_app; [done|]. constructor; [|constructor]. by exists bn, r, tx.
    + set_solver.
    + intros k' bn' reason text [?|?]%elem_of_app Hk' Ha'; apply elem_of_app; [left; by eapply Hall|by right].
  - exists keys. rewrite app_nil_r. split_and!; [done|done|set_solver|].
    intros k' bn' reason text [?|Hk0]%elem_of_app Hk' Ha'; [by eapply Hall|].
    apply list_elem_of_singleton in Hk0 as ->. simplify_eq. by destruct (Hno _ _ Ha').
Qed.

(** C30. [recordNodeEvents] announces every transition once. A node whose Idle
    condition, with the desired image, differs from the state recorded on it
    makes a transition; it is worth an event when the node is staging, staged or
    rebooting, or became idle after one of these. The events of a pass are exactly
    one for each such node, about that BootcNode and related to the pool, with the
    reason and text of the transition, and none for any other node; no marker is
    written before its event was sent, so a failed write cannot hide one; and after
    a pass whose marker patches succeeded on objects nobody else writes, the next
    pass makes no request at all. *)
Theorem recordNodeEvents_once `{MapOrder} pool owned :
  wpg (recordNodeEvents pool) owned [] (λ t owned' r,
    r = Ok tt ∧
    (∃ keys, announces pool owned keys t ∧
       ∀ k bn reason text, owned !! k = Some bn → announced bn reason text → k ∈ keys) ∧
    told pool t ∧
    (quiet_history t → patches_ok t →
     wpg (recordNodeEvents pool) owned' [] (λ t' owned'' r',
       t' = [] ∧ owned'' = owned' ∧ r' = Ok tt))).
Proof.
  unfold recordNodeEvents at 1. go_step. go_step.
  pose proof (NoDup_rangeKeys 2 owned) as Hnd. unfold id.
  apply (wpg_forEach (λ done h s,
    (∀ k, k ∉ done → s !! k = owned !! k) ∧ dom s = dom owned ∧
    (∃ keys, announces pool owned keys h ∧ (∀ k, k ∈ keys → k ∈ done) ∧
       ∀ k bn reason text, k ∈ done → owned !! k = Some bn → announced bn reason text → k ∈ keys) ∧
    told pool h ∧
    (quiet_history h → patches_ok h → ∀ k bn, k ∈ done → s !! k = Some bn → settled bn))).
  - intros done k rest s h Hl (Hsame & Hdom & (keys & [Hkd Hf] & Hsub & Hall) & Htold & Hset).
    assert (k ∉ done) as Hkn by (rewrite Hl in Hnd; apply NoDup_app in Hnd as (_ & Hd & _); set_solver).
    assert (k ∈ dom s) as [bn Hbn]%elem_of_dom.
    { rewrite Hdom. apply elem_of_dom, (elem_of_rangeKeys 2). rewrite Hl. set_solver. }
    pose proof Hbn as Hbn0. rewrite Hsame in Hbn0 by done.
    eapply wpg_recordNodeEvent; [done| |].
    + intros Hs. split_and!; [set_solver|done| |done|].
      * exists keys. split_and!; [done|set_solver|].
        intros k' bn' reason text [?|Hk0]%elem_of_app Hk' Ha; [by eapply Hall|].
        apply list_elem_of_singleton in Hk0 as ->. by destruct (announced_unsettled _ _ _ Ha); simplify_eq.
      * intros Hq Hp k' bn' [?|Hk0]%elem_of_app Hk'; [by eapply Hset|].
        apply list_elem_of_singleton in Hk0. congruence.
    + intros t0 x Hsp _ new. split_and!.
      * intros k' Hk'. destruct x; [|set_solver]. rewrite lookup_insert_ne by set_solver. set_solver.
      * destruct x; [|done]. rewrite dom_insert_L. apply elem_of_dom_2 in Hbn. set_solver.
      * by eapply announces_step.
      * by apply told_app.
      * rewrite !Forall_app. intros (Hq & _ & Hqx) Hp k' bn' Hk' Hs.
        assert (patches_ok h) as Hph by (intros ??? Hin; eapply Hp; set_solver).
        specialize (Hp bn new x ltac:(set_solver)). destruct x as [got|]; [|done].
        apply Forall_singleton in Hqx as [_ Hqx]. destruct (Hqx _ eq_refl) as (Ha & Hsp' & Hst).
        destruct (decide (k = k')) as [<-|Hne].
        { rewrite lookup_insert_eq in Hs. injection Hs as <-. by apply (marked_settled bn). }
        rewrite lookup_insert_ne in Hs by done. eapply Hset; [done|done| |done]. set_solver.
  - split_and!; [done|done| |by intros []|set_solver].
    exists []. split_and!; [split; constructor|set_solver|set_solver].
  - intros h s (_ & Hdom & (keys & Hk & _ & Hall) & Htold & Hset). split_and!; [done| |done|].
    + exists keys. split; [done|]. intros k bn reason text Hbn. apply Hall; [|done].
      apply elem_of_rangeKeys. eauto.
    + intros Hq Hp. apply recordNodeEvents_silent. intros k bn Hk'. eapply Hset; eauto.
      apply elem_of_rangeKeys. apply elem_of_dom_2 in Hk'. rewrite Hdom in Hk'. by apply elem_of_dom.
Qed.
End NodeEvents.
