(* ===== verification/Drain.v ===== *)
(** * Drain: draining nodes before they reboot

    The controller's memory between the steps of a pass, and the drain part of
    [internal/controller/rollout.go] and [events.go]: [ensureDrain],
    [collectDrainResults], [recordDrainStalls].

    A drain runs in a goroutine of its own; the controller starts it, later polls
    its result channel without blocking, and cancels its context.  These are
    requests to the environment ([StartDrain], [PollDrain], [DrainCtxErr],
    [CancelDrain]), so a drain may finish at any moment and in any order. *)

From S2P Require Import Prelude Effects Types Library LibModel Client Samples Sim Image Karpenter Classify PoolStatus Slots Utf8 Events.

(** [drainStatus], without the channel, context and cancel function that the
    requests stand for. *)
Record drainStatus : Set := mkDrainStatus {
  startTime : Z;
  isStalled : bool
}.

(** What one reconcile pass works on: the pool, the owned BootcNodes by name, the
    drains of the reconciler and the rollout state. *)
Record CState : Set := mkCState {
  cs_pool : BootcNodePool;
  cs_owned : gmap string BootcNode;
  cs_drains : gmap string drainStatus;
  cs_rs : rolloutState
}.

Definition setPool (p : BootcNodePool) (s : CState) : CState :=
  mkCState p (cs_owned s) (cs_drains s) (cs_rs s).
Definition setOwned (k : string) (b : BootcNode) (s : CState) : CState :=
  mkCState (cs_pool s) (<[k := b]> (cs_owned s)) (cs_drains s) (cs_rs s).
Definition setDrains (d : gmap string drainStatus) (s : CState) : CState :=
  mkCState (cs_pool s) (cs_owned s) d (cs_rs s).
Definition setRS (rs : rolloutState) (s : CState) : CState :=
  mkCState (cs_pool s) (cs_owned s) (cs_drains s) rs.

Definition drainStallThreshold : Z := (5 * GoInt.Minute)%Z.

Section Drains.
Context {L : Lib} {C : Config}.
Local Open Scope go_scope.

(** The timeout [ensureDrain] passes to the drain helper; 0 means none. *)
Definition drainTimeout (pool : BootcNodePool) : Z :=
  match Rollout (pool_spec pool) with
  | None => 0%Z
  | Some ro =>
      match DrainTimeoutSeconds ro with
      | None => 0%Z
      | Some n => GoInt.wrap64 (n * GoInt.Second)
      end
  end.

(** [ensureDrain]. *)
Definition ensureDrain (bn : BootcNode) : ctl CState unit :=
  drains <- gets cs_drains ;;
  match drains !! bn_name bn with
  | Some _ => ret tt
  | None =>
      now <- call Now ;;
      modify (λ s, setDrains (<[bn_name bn := mkDrainStatus now false]> (cs_drains s)) s) ;;;
      pool <- gets cs_pool ;;
      (call (StartDrain (bn_name bn) (pool_name pool) (drainTimeout pool)) : ctl CState unit)
  end.

(** [recordDrainFailedEvent]. *)
Definition recordDrainFailedEvent {S : Type} (pool : BootcNodePool) (node : BootcNode) (e : error)
    : ctl S unit :=
  recordEvent (bnRef node) (Some (poolRef pool)) EventTypeWarning eventReasonDrainFailed
    eventActionDrain (drainFailedNote e).

(** One iteration of the loop of [collectDrainResults]. *)
Definition collectDrainResult (nodeName : string) : ctl CState unit :=
  res <- call (PollDrain nodeName) ;;
  match res with
  | None => ret tt
  | Some drainErr =>
      modify (λ s, setDrains (delete nodeName (cs_drains s)) s) ;;;
      cancelled <- call (DrainCtxErr nodeName) ;;
      _ <- call (CancelDrain nodeName) ;;
      pool <- gets cs_pool ;;
      entry <- gets (λ s, cs_owned s !! nodeName) ;;
      match drainErr, entry with
      | Some e, Some bn => if (cancelled : bool) then ret tt else recordDrainFailedEvent pool bn e
      | Some _, None => ret tt
      | None, None => ret tt
      | None, Some bn =>
          got <- wrapf ("setting desiredImageState on " +:+ nodeName)
                   (callE (PatchBootcNode bn (setDesiredImageState DesiredImageStateBooted bn)) id) ;;
          modify (setOwned nodeName got)
      end
  end.

(** [collectDrainResults]. *)
Definition collectDrainResults `{MapOrder} : ctl CState unit :=
  drains <- gets cs_drains ;;
  forEach (rangeKeys 3 drains) collectDrainResult.

(** The loop of [recordDrainStalls]: marked drains, nodes to report (owned ones
    only), and the next check. *)
Fixpoint stallLoop (owned : gmap string BootcNode) (now : Z) (keys : list string)
    (drains : gmap string drainStatus) (stalled : list BootcNode) (next : Z)
    : gmap string drainStatus * list BootcNode * Z :=
  match keys with
  | [] => (drains, stalled, next)
  | k :: keys =>
      match drains !! k with
      | None => stallLoop owned now keys drains stalled next
      | Some d =>
          if isStalled d then stallLoop owned now keys drains stalled next
          else
            let remaining := GoInt.wrap64 (drainStallThreshold - GoInt.timeSub now (startTime d)) in
            if (0 <? remaining)%Z
            then stallLoop owned now keys drains stalled (earlierRequeue next remaining)
            else stallLoop owned now keys (<[k := mkDrainStatus (startTime d) true]> drains)
                   (match owned !! k with Some b => stalled ++ [b] | None => stalled end) next
      end
  end.

(** [recordDrainStalls]. *)
Definition recordDrainStalls `{MapOrder} : ctl CState Z :=
  now <- call Now ;;
  pool <- gets cs_pool ;;
  owned <- gets cs_owned ;;
  drains <- gets cs_drains ;;
  let '(drains', stalled, next) := stallLoop owned now (rangeKeys 4 drains) drains [] 0 in
  modify (setDrains drains') ;;;
  forEach stalled (λ node,
    recordEvent (bnRef node) (Some (poolRef pool)) EventTypeWarning eventReasonDrainTakingTooLong
      eventActionDrain (drainStalledNote "5m0s")) ;;;
  ret next.
End Drains.
