(* ===== verification/Rollout.v ===== *)
(** * Rollout: the rollout state machine

    [freeCompletedSlot(s)] and [driveRollout] of
    [internal/controller/rollout.go], composed from the slot, drain and
    classification components. *)

From S2P Require Import Prelude Effects Types Library LibModel Client Samples Sim Image Karpenter Classify PoolStatus Slots Utf8 Events Drain.

Section Rollout.
Context {L : Lib} {C : Config}.
Local Open Scope go_scope.

(** Run a function that takes pointers to the BootcNode [k] and to a local Node.
    What it wrote through the BootcNode pointer stays, also when it fails; the
    result is the Node variable after the call. *)
Definition onPair (k : string) (bn : BootcNode) (node : Node)
    (m : ctl (BootcNode * Node) unit) : ctl CState Node :=
  λ s, pbind (m (bn, node)) (λ pr,
    Ret (setOwned k pr.1.1 s,
         match pr.2 with Ok _ => Ok pr.1.2 | Err e => Err e end)).

(** Iterating over a bucket dereferences a pointer into the owned BootcNodes. *)
Definition deref (k : string) : ctl CState BootcNode :=
  entry <- gets (λ s, cs_owned s !! k) ;;
  match entry with
  | Some bn => ret bn
  | None => throw (ErrPanic "nil BootcNode")
  end.

Definition modifyRS (f : rolloutState → rolloutState) : ctl CState unit :=
  modify (λ s, setRS (f (cs_rs s)) s).

(** [setPoolDegraded] on the pool of the pass.  The clock that [SetStatusCondition]
    may read is read first, also where the condition ends up untouched. *)
Definition degradePool (reason message : string) : ctl CState unit :=
  now <- call Now ;;
  modify (λ s, setPool (setPoolDegraded now reason message (cs_pool s)) s).

Definition fetchNode (bn : BootcNode) : ctl CState Node :=
  wrapf ("fetching node " +:+ bn_name bn) (callE (GetNode (bn_name bn)) id).

(** [freeCompletedSlot]. *)
Definition freeCompletedSlot (k : string) : ctl CState unit :=
  bn <- deref k ;;
  let inSlot := HasAnnotation (bn_meta bn) AnnotationInRebootSlot in
  let ownsTaint := HasAnnotation (bn_meta bn) AnnotationOwnsOsNotReadyTaint in
  if negb inSlot && negb ownsTaint then ret tt
  else
    node <- fetchNode bn ;;
    if negb (nodeReadyStatus node =s ConditionTrue) then ret tt
    else if inSlot then
      _ <- wrapf ("freeing reboot slot for " +:+ bn_name bn) (onPair k bn node (freeRebootSlot None)) ;;
      modifyRS (λ rs, setOccupied (occupiedSlots rs - 1) rs)
    else if ownsTaint then
      _ <- wrapf ("removing os-not-ready taint for " +:+ bn_name bn)
             (onPair k bn node removeOsNotReadyTaintAndAnnotation) ;;
      ret tt
    else ret tt.

(** [freeCompletedSlots]. *)
Definition freeCompletedSlots : ctl CState unit :=
  rs <- gets cs_rs ;;
  forEach (upToDate rs) freeCompletedSlot.

Definition requeue (d : Z) : ctl CState unit := modifyRS (setRequeueAfter d).

(** [processCandidate]: was a slot assigned? *)
Definition processCandidate (k : string) : ctl CState bool :=
  bn <- deref k ;;
  node <- fetchNode bn ;;
  kds <- wrapf ("checking Karpenter disruption for " +:+ bn_name bn)
           (isKarpenterDisruptionActive node) ;;
  if kds_claimMissing kds || kds_active kds then
    requeue karpenterRequeueInterval ;;;
    ret false
  else
    node' <- wrapf ("assigning reboot slot to " +:+ bn_name bn)
               (onPair k bn node (assignRebootSlot (kds_prefetchedClaim kds))) ;;
    (if isNodeOwnedByKarpenterNodeClaim node' then requeue karpenterRequeueInterval else ret tt) ;;;
    ret true.

(** The loop over the unslotted candidates; it breaks when [available] slots
    have been assigned. *)
Fixpoint assignLoop (l : list string) (assigned available : Z) : ctl CState unit :=
  match l with
  | [] => ret tt
  | k :: l =>
      if (available <=? assigned)%Z then ret tt
      else
        isSlotted <- processCandidate k ;;
        assignLoop l (if (isSlotted : bool) then assigned + 1 else assigned)%Z available
  end.

(** The periodic requeue for slotted Karpenter nodes. *)
Definition requeueKarpenter (l : list string) : ctl CState unit :=
  fenced <- gets (λ s, existsb (λ k, match cs_owned s !! k with
                     | Some bn => HasAnnotation (bn_meta bn) AnnotationOwnsKarpenterDoNotRepair
                     | None => false end) l) ;;
  if (fenced : bool) then requeue karpenterRequeueInterval else ret tt.

(** One iteration of the loop that starts the drains. *)
Definition drainCandidate (k : string) : ctl CState unit :=
  bn <- deref k ;;
  if negb (HasAnnotation (bn_meta bn) AnnotationInRebootSlot) then ret tt
  else if DesiredImageState (bn_spec bn) =s DesiredImageStateBooted then ret tt
  else
    node <- fetchNode bn ;;
    kds <- wrapf ("checking Karpenter disruption for " +:+ bn_name bn)
             (isKarpenterDisruptionActive node) ;;
    if kds_claimMissing kds || kds_active kds then requeue karpenterRequeueInterval
    else ensureDrain bn.

(** The part of [driveRollout] after the halt check. *)
Definition advance : ctl CState unit :=
  rs <- gets cs_rs ;;
  pool <- gets cs_pool ;;
  maxUnavail <- lift (resolveMaxUnavailable pool (Z.of_nat (nodeCount rs))) ;;
  owned <- gets cs_owned ;;
  let availableSlots := Z.max 0 (maxUnavail - occupiedSlots rs) in
  let '(slotted, unslotted) := partitionSlottedNodes owned (staged rs) in
  forEach slotted (λ k, _ <- processCandidate k ;; ret tt) ;;;
  assignLoop unslotted 0 availableSlots ;;;
  requeueKarpenter (staged rs) ;;;
  forEach (staged rs) drainCandidate.

Definition haltMessage (unhealthy : list unhealthySlot) : string :=
  "Rollout halted: 2+ unhealthy nodes in reboot slots (" +:+
  join ", " (sortStrings ((λ u, us_name u +:+ ": " +:+ us_reason u) <$> unhealthy)) +:+ ")".

(** The classification at the start of [driveRollout]. *)
Definition classifyPass `{MapOrder} : ctl CState unit :=
  owned <- gets cs_owned ;;
  pool <- gets cs_pool ;;
  now <- call Now ;;
  let '(rs, rq) := applyRebootTimeouts owned (buildRolloutState owned) (resolveRebootTimeout pool) now in
  modify (setRS (setRequeue rq rs)) ;;;
  (if negb (length (degraded rs) =? 0) then
     degradePool PoolNodeDegraded
       ("Degraded nodes: " +:+ join ", " (sortStrings (nodeNames owned (degraded rs))))
   else ret tt).

(** [driveRollout]; the rollout state it returns is part of the final state. *)
Definition driveRollout `{MapOrder} : ctl CState rolloutState :=
  wrapf "collecting drain results" collectDrainResults ;;;
  classifyPass ;;;
  wrapf "freeing completed slots" freeCompletedSlots ;;;
  rs <- gets cs_rs ;;
  pool <- gets cs_pool ;;
  owned <- gets cs_owned ;;
  let unhealthy := findUnhealthySlots owned rs (TargetDigest (pool_status pool)) in
  (if unhealthySlotHaltThreshold <=? length unhealthy
   then degradePool PoolRolloutHalted (haltMessage unhealthy)
   else advance) ;;;
  gets cs_rs.
End Rollout.
