(* ===== verification/RolloutSafety.v ===== *)
(** * RolloutSafety: what a rollout pass may do, and when

    [rollout_allowed h r] states when [driveRollout] may make the request [r]
    after the history [h]; the protocol theorem shows that every request of every
    pass is allowed, for every behaviour of the API server, of the drains and of
    other writers. *)

From S2P Require Import Prelude Effects Types Library LibModel Client Samples Sim Image Karpenter Classify PoolStatus Slots Utf8 Events Drain Rollout.

(** ** Symbolic execution of the steps of a pass *)

Section Steps.
Context {L : Lib} {HL : LibLaws L} {C : Config}.
Implicit Types (h t : history) (bn : BootcNode) (node : Node) (s : CState).

Lemma wpg_onPair k bn node m s h (Φ : history → CState → result Node → Prop) :
  wpg m (bn, node) h (λ h' p r,
    Φ h' (setOwned k p.1 s) (match r with Ok _ => Ok p.2 | Err e => Err e end)) →
  wpg (onPair k bn node m) s h Φ.
Proof. unfold wpg, onPair. intros H. by apply wp_bind. Qed.

Lemma wpg_deref k s h (Φ : history → CState → result BootcNode → Prop) :
  (∀ bn, cs_owned s !! k = Some bn → Φ h s (Ok bn)) →
  (cs_owned s !! k = None → ∀ e, Φ h s (Err e)) →
  wpg (deref k) s h Φ.
Proof.
  intros H1 H2. unfold deref. go_step. go_step. destruct (cs_owned s !! k); go_step; auto.
Qed.

Lemma wpg_fetchNode bn s h (Φ : history → CState → result Node → Prop) :
  (∀ node, Φ (h ++ [Ev (GetNode (bn_name bn)) (Ok node)]) s (Ok node)) →
  (∀ e e', Φ (h ++ [Ev (GetNode (bn_name bn)) (Err e)]) s (Err e')) →
  wpg (fetchNode bn) s h Φ.
Proof.
  intros H1 H2. unfold fetchNode. go_step. apply wpg_callE. intros [node|e]; simpl; auto.
Qed.

(** Equal up to the requeue delay. *)
Definition same_rs (rs rs' : rolloutState) : Prop := setRequeue 0 rs = setRequeue 0 rs'.

Lemma same_rs_requeue d rs : same_rs rs (setRequeue d rs).
Proof. done. Qed.

#[global] Instance same_rs_equiv : Equivalence same_rs.
Proof. unfold same_rs. split; [intros ?|intros ???|intros ?????]; congruence. Qed.

(** Equal up to the requeue delay and the BootcNodes. *)
Definition kept s s' : Prop :=
  cs_pool s' = cs_pool s ∧ cs_drains s' = cs_drains s ∧ same_rs (cs_rs s) (cs_rs s').

#[global] Instance kept_preorder : PreOrder kept.
Proof.
  split; [intros s; by split_and!|]. intros s1 s2 s3 (Hp1 & Hd1 & H1) (Hp2 & Hd2 & H2).
  split_and!; [congruence..|]. by etransitivity.
Qed.

Lemma wpg_requeue d s h (Φ : history → CState → result unit → Prop) :
  (∀ s', kept s s' → cs_owned s' = cs_owned s → Φ h s' (Ok tt)) → wpg (requeue d) s h Φ.
Proof. intros H. unfold requeue, modifyRS. go_step. by apply H. Qed.

(** [node] is what a read of the Node [n] returned. *)
Definition read h (n : string) node : Prop := Ev (GetNode n) (Ok node) ∈ h.

(** Reads of a Node and of its NodeClaim. *)
Definition lookups t : Prop :=
  ∀ e, e ∈ t → (∃ n, ev_req e = GetNode n) ∨ (∃ n, ev_req e = GetNodeClaim n).

Lemma claim_reads_split h h' : claim_reads h h' → ∃ t, h' = h ++ t ∧ claim_lookup t.
Proof.
  intros [->|(n & x & ->)]; [exists []; split; [by rewrite app_nil_r|by left]|].
  eexists. split; [done|]. right. eauto.
Qed.

Lemma lookups_cons n x t : claim_lookup t → lookups ([Ev (GetNode n) x] ++ t).
Proof.
  intros Ht e [->%list_elem_of_singleton|Hin]%elem_of_app; [left; by eexists|].
  destruct Ht as [->|(m & y & ->)]; [by apply elem_of_nil in Hin|].
  apply list_elem_of_singleton in Hin as ->. right. by eexists.
Qed.

Lemma lookups_one n x : lookups [Ev (GetNode n) x].
Proof. rewrite <- (app_nil_r [_]). apply lookups_cons. by left. Qed.

(** Read the Node and ask whether Karpenter is working on it. *)
Lemma wpg_fetch_checked {A : Set} bn pre (k : Node → karpenterDisruptionStatus → ctl CState A) s h
    (Φ : history → CState → result A → Prop) :
  (∀ t e, lookups t → Φ (h ++ t) s (Err e)) →
  (∀ t node kds, lookups t → read t (bn_name bn) node →
     (kds_active kds = false → checked (h ++ t) node) →
     wpg (k node kds) s (h ++ t) Φ) →
  wpg (node <- fetchNode bn ;;
       kds <- wrapf pre (isKarpenterDisruptionActive node) ;; k node kds)%go s h Φ.
Proof.
  intros Herr Hk. go_step. apply wpg_fetchNode.
  2:{ intros e e'. apply Herr, lookups_one. }
  intros node. go_step. go_step. apply wpg_isKarpenterDisruptionActive.
  - intros h' kds (t & -> & Ht)%claim_reads_split Hck _. rewrite <- !app_assoc in *.
    apply Hk; [by apply lookups_cons|unfold read; set_solver|done].
  - intros h' e (t & -> & Ht)%claim_reads_split. rewrite <- !app_assoc.
    by apply Herr, lookups_cons.
Qed.

(** [processCandidate]: it only reads and defers, or it tries to assign. *)
Lemma wpg_processCandidate k s h (Φ : history → CState → result bool → Prop) :
  (cs_owned s !! k = None → ∀ e, Φ h s (Err e)) →
  (∀ bn t s' r, cs_owned s !! k = Some bn → lookups t → kept s s' → cs_owned s' = cs_owned s →
     r ≠ Ok true → Φ (h ++ t) s' r) →
  (∀ bn t node claim b' n' c' ta s' b1 r,
     cs_owned s !! k = Some bn → lookups t → read t (bn_name bn) node → checked (h ++ t) node →
     slotPlan bn node claim = (b', n', c') → plan_ok bn node claim b' n' c' →
     assign_trace bn b' node n' claim c' ta →
     (b1 = bn ∨ Ev (PatchBootcNode bn b') (Ok b1) ∈ ta) →
     (is_ok r = true → r = Ok true ∧ bn_after bn b' ta b1) →
     kept s s' → cs_owned s' = <[k := b1]> (cs_owned s) →
     Φ (h ++ t ++ ta) s' r) →
  wpg (processCandidate k) s h Φ.
Proof.
  intros H0 H1 H2. unfold processCandidate. go_step. apply wpg_deref; [|done].
  intros bn Hbn. apply wpg_fetch_checked.
  { intros t e Ht. by eapply H1. }
  intros t node kds Ht Hread Hck. destruct (kds_claimMissing kds || kds_active kds) eqn:Ek.
  { go_step. apply wpg_requeue. intros s' Hkept Ho. go_step. by eapply H1. }
  apply orb_false_iff in Ek as [_ Ek]. specialize (Hck Ek).
  go_step. go_step. apply wpg_onPair, wpg_assignRebootSlot.
  intros claim b' n' c' ta [b1 n1] r Hplan Hp Hta Hok Hb1. simpl in Hok, Hb1.
  rewrite <- app_assoc. specialize (H2 bn t node claim b' n' c' ta).
  destruct r as [[]|e]; simpl.
  2:{ eapply H2; try done. }
  destruct (Hok eq_refl) as [Hba _].
  go_step. destruct (isNodeOwnedByKarpenterNodeClaim n1).
  - apply wpg_requeue. intros s' Hkept Ho. go_step. by eapply H2.
  - go_step. go_step. by eapply H2.
Qed.

(** The requests of a slot release or of a taint removal: writes of the kind
    [P], or NodeClaim reads. *)
Definition writes_or_claims (P : req → Prop) t : Prop :=
  ∀ e, e ∈ t → (is_write (ev_req e) = true ∧ P (ev_req e)) ∨ ∃ n, ev_req e = GetNodeClaim n.

Lemma woc_app P t1 t2 : writes_or_claims P t1 → writes_or_claims P t2 → writes_or_claims P (t1 ++ t2).
Proof. intros H1 H2 e [?|?]%elem_of_app; auto. Qed.
Lemma woc_nil P : writes_or_claims P [].
Proof. intros e He. by apply elem_of_nil in He. Qed.
Lemma woc_one (P : req → Prop) r x : is_write r = true → P r → writes_or_claims P [Ev r x].
Proof. intros Hw HP e ->%list_elem_of_singleton. by left. Qed.

Lemma node_restored_woc bn node t got :
  node_restored bn node t got → writes_or_claims (free_write bn node) t.
Proof. intros [(-> & _)|(n' & x & -> & _ & Hr)]; [apply woc_nil|by apply woc_one]. Qed.

Lemma claim_trace_woc bn node t :
  claim_trace bn t → writes_or_claims (free_write bn node) t.
Proof.
  intros (t0 & t1 & -> & H0 & H1). apply woc_app.
  - destruct H0 as [->|(n & x & ->)]; [apply woc_nil|].
    intros e ->%list_elem_of_singleton. right. by eexists.
  - destruct H1 as [->|(c & c' & x & Hc & ->)]; [apply woc_nil|by apply woc_one].
Qed.
#[local] Hint Resolve node_restored_woc claim_trace_woc woc_app woc_nil : bootc.

(** A slot release: on success the BootcNode is the answer to the clearing
    patch, otherwise it is unchanged. *)
Lemma wpg_freeRebootSlot_sum prefetched bn node h (Φ : history → BootcNode * Node → result unit → Prop) :
  (∀ t p r, writes_or_claims (free_write bn node) t →
     (if is_ok r then Ev (PatchBootcNode bn (clearSlotKeys bn)) (Ok p.1) ∈ t else p.1 = bn) →
     Φ (h ++ t) p r) →
  wpg (freeRebootSlot prefetched) (bn, node) h Φ.
Proof.
  intros H. apply wpg_freeRebootSlot.
  - intros t e Ht. eapply H; [eauto with bootc|done].
  - intros t1 t2 n1 e Ht1 Ht2. eapply H; [eauto with bootc|done].
  - intros t1 t2 n1 x Ht1 Ht2 _. eapply H.
    + apply woc_app; [eauto with bootc|]. apply woc_app; [eauto with bootc|]. by apply woc_one.
    + destruct x as [b1|]; simpl; [|done]. set_solver.
Qed.

(** The BootcNode without the record of the startup taint. *)
Definition clearTaintRecord bn : BootcNode :=
  setBNAnnotations (GoMap.remove (bn_annotations bn) AnnotationOwnsOsNotReadyTaint) bn.

Definition taint_write bn node (r : req) : Prop :=
  match r with
  | PatchNode base new => base = node ∧ new = (removeOsNotReadyTaint node).1
  | PatchBootcNode base new => base = bn ∧ new = clearTaintRecord bn
  | _ => False
  end.

Lemma wpg_removeTaint_sum bn node h (Φ : history → BootcNode * Node → result unit → Prop) :
  (∀ t p r, writes_or_claims (taint_write bn node) t →
     (p.1 = bn ∨ Ev (PatchBootcNode bn (clearTaintRecord bn)) (Ok p.1) ∈ t) →
     Φ (h ++ t) p r) →
  wpg removeOsNotReadyTaintAndAnnotation (bn, node) h Φ.
Proof.
  intros H. unfold removeOsNotReadyTaintAndAnnotation. do 4 go_step.
  destruct (removeOsNotReadyTaint node) as [n' removed] eqn:En.
  assert (∀ t n1, writes_or_claims (taint_write bn node) t →
    wpg (if GoMap.has (bn_annotations bn) AnnotationOwnsOsNotReadyTaint
         then wrapf "clearing os-not-ready taint ownership annotation"
                (patchBN bn (clearTaintRecord bn)) else ret tt) (bn, n1) (h ++ t) Φ) as Htail.
  { intros t n1 Ht. destruct (GoMap.has _ _).
    - apply wpg_patchBN. intros x. rewrite <- app_assoc. apply H.
      + apply woc_app; [done|]. by apply woc_one.
      + destruct x; simpl; [right; set_solver|by left].
    - go_step. apply H; [done|by left]. }
  go_step. destruct removed.
  - apply wpg_patchNode. intros x.
    assert (writes_or_claims (taint_write bn node) [Ev (PatchNode node n') x]) as Hw.
    { apply woc_one; [done|]. unfold taint_write. by rewrite En. }
    destruct x as [n1|e]; [by apply Htail|]. apply H; [done|by left].
  - go_step. rewrite <- (app_nil_r h). apply Htail. apply woc_nil.
Qed.

(** [freeCompletedSlot]: read only, release the slot, or remove the taint. *)
Lemma wpg_freeCompletedSlot k s h (Φ : history → CState → result unit → Prop) :
  (cs_owned s !! k = None → ∀ e, Φ h s (Err e)) →
  (∀ t r, lookups t → Φ (h ++ t) s r) →
  (∀ bn t node tf b1 s' r,
     cs_owned s !! k = Some bn → isSlotted bn = true →
     lookups t → read t (bn_name bn) node → nodeReadyStatus node = ConditionTrue →
     writes_or_claims (free_write bn node) tf →
     (if is_ok r then Ev (PatchBootcNode bn (clearSlotKeys bn)) (Ok b1) ∈ tf else b1 = bn) →
     s' = mkCState (cs_pool s) (<[k := b1]> (cs_owned s)) (cs_drains s)
            (if is_ok r then setOccupied (occupiedSlots (cs_rs s) - 1) (cs_rs s) else cs_rs s) →
     Φ (h ++ t ++ tf) s' r) →
  (∀ bn t node tf b1 r,
     cs_owned s !! k = Some bn → isSlotted bn = false →
     lookups t → read t (bn_name bn) node → nodeReadyStatus node = ConditionTrue →
     writes_or_claims (taint_write bn node) tf →
     (b1 = bn ∨ Ev (PatchBootcNode bn (clearTaintRecord bn)) (Ok b1) ∈ tf) →
     Φ (h ++ t ++ tf) (setOwned k b1 s) r) →
  wpg (freeCompletedSlot k) s h Φ.
Proof.
  intros H0 H1 H2 H3. unfold freeCompletedSlot. go_step. apply wpg_deref; [|done].
  intros bn Hbn. fold (isSlotted bn).
  destruct (negb (isSlotted bn) && _).
  { go_step. rewrite <- (app_nil_r h). apply H1. intros e He. by apply elem_of_nil in He. }
  go_step. apply wpg_fetchNode; [|intros; by apply H1, lookups_one].
  intros node. set (t := [Ev (GetNode (bn_name bn)) (Ok node)]).
  assert (read t (bn_name bn) node) as Hread by (unfold read, t; set_solver).
  assert (lookups t) as Ht by apply lookups_one.
  destruct (negb (nodeReadyStatus node =s ConditionTrue)) eqn:Er; [go_step; by apply H1|].
  apply negb_false_iff, seq_b_true in Er.
  destruct (isSlotted bn) eqn:Es.
  - go_step. go_step. apply wpg_onPair, wpg_freeRebootSlot_sum. intros tf p r Hw Hp.
    rewrite <- app_assoc. destruct r as [[]|e]; simpl in *.
    + unfold modifyRS. go_step. by apply (H2 bn t node tf p.1 _ (Ok tt)).
    + by apply (H2 bn t node tf p.1 _ (Err _)).
  - destruct (HasAnnotation (bn_meta bn) AnnotationOwnsOsNotReadyTaint).
    + go_step. go_step. apply wpg_onPair, wpg_removeTaint_sum. intros tf p r Hw Hp.
      rewrite <- app_assoc. destruct r as [[]|e]; simpl in *; [go_step|]; by apply (H3 bn t node tf p.1).
    + go_step. by apply H1.
Qed.

(** [collectDrainResult]: nothing happened, the result was dropped or reported,
    or the node is approved. *)
Lemma wpg_collectDrainResult n s h (Φ : history → CState → result unit → Prop) :
  Φ (h ++ [Ev (PollDrain n) None]) s (Ok tt) →
  (∀ res c t, let s' := setDrains (delete n (cs_drains s)) s in
     (t = [] ∨ ∃ e, t = [e] ∧ about "BootcNode" (ev_req e)) →
     (∀ bn, res = None → cs_owned s !! n = Some bn → False) →
     Φ (h ++ [Ev (PollDrain n) (Some res); Ev (DrainCtxErr n) c; Ev (CancelDrain n) tt] ++ t) s' (Ok tt)) →
  (∀ bn c x, let s' := setDrains (delete n (cs_drains s)) s in
     cs_owned s !! n = Some bn →
     Φ (h ++ [Ev (PollDrain n) (Some None); Ev (DrainCtxErr n) c; Ev (CancelDrain n) tt;
              Ev (PatchBootcNode bn (setDesiredImageState DesiredImageStateBooted bn)) x])
       (match x with Ok got => setOwned n got s' | Err _ => s' end)
       (match x with Ok _ => Ok tt
        | Err e => Err (ErrWrap ("setting desiredImageState on " +:+ n) e) end)) →
  wpg (collectDrainResult n) s h Φ.
Proof.
  intros H0 H1 H2. unfold collectDrainResult. go_step. go_step.
  destruct x as [res|]; [|by go_step]. go_step. go_step. go_step. go_step. go_step. go_step. destruct x0.
  do 4 go_step. rewrite <- !app_assoc. simpl cs_owned.
  specialize (H1 res x). simpl in H1. destruct res as [e|], (cs_owned s !! n) as [bn|] eqn:En.
  - destruct x; [go_step; by apply (H1 []); [left|]|].
    apply wpg_recordEvent. intros ev Hev. rewrite <- !app_assoc.
    apply (H1 [ev]); [right; eauto|done].
  - go_step. by apply (H1 []); [left|].
  - go_step. go_step. apply wpg_callE. intros y. rewrite <- !app_assoc.
    specialize (H2 bn x y eq_refl). simpl in H2. destruct y; simpl; [go_step|]; apply H2.
  - go_step. by apply (H1 []); [left|].
Qed.
End Steps.

Section Protocol.
Context {L : Lib} {HL : LibLaws L} {C : Config}.
Implicit Types (h t : history) (bn : BootcNode) (node : Node) (s : CState).

(** The patch allows a node to reboot, hands out a slot, takes one back. *)
Definition approves (base new : BootcNode) : Prop :=
  DesiredImageState (bn_spec base) ≠ DesiredImageStateBooted ∧
  DesiredImageState (bn_spec new) = DesiredImageStateBooted.
Definition grants (base new : BootcNode) : Prop := isSlotted base = false ∧ isSlotted new = true.
Definition releases (base new : BootcNode) : Prop := isSlotted base = true ∧ isSlotted new = false.

Definition ready node : Prop := nodeReadyStatus node = ConditionTrue.
Definition cordons (base new : Node) : Prop :=
  node_unschedulable base = false ∧ node_unschedulable new = true.
Definition uncordons (base new : Node) : Prop :=
  node_unschedulable base = true ∧ node_unschedulable new = false.

Definition rollout_allowed h (r : req) : Prop :=
  match r with
  | Now | GetNode _ | GetNodeClaim _ | PatchNodeClaim _ _ | PollDrain _ => True
  | Eventf _ _ _ _ _ _ => about "BootcNode" r
  | PatchBootcNode base new =>
      (approves base new → Ev (PollDrain (bn_name base)) (Some None) ∈ h) ∧
      (releases base new → ∃ node, read h (bn_name base) node ∧ ready node) ∧
      (grants base new → ∃ node, read h (bn_name base) node ∧ checked h node)
  | PatchNode base new =>
      (∃ n, read h n base) ∧ (cordons base new → checked h base) ∧ (uncordons base new → ready base)
  | StartDrain n _ _ => ∃ node, read h n node ∧ checked h node
  | DrainCtxErr n | CancelDrain n => ∃ res, Ev (PollDrain n) (Some res) ∈ h
  | _ => False
  end.

Lemma rollout_allowed_lasting : lasting rollout_allowed.
Proof.
  intros h t r. destruct r; simpl; try done; unfold read.
  - intros ((n & ?) & Hc & ?). split_and!; [exists n; set_solver| |done].
    intros Hcd. by apply checked_app, Hc.
  - intros (Ha & Hr & Hg). split_and!.
    + intros H. specialize (Ha H). set_solver.
    + intros H. destruct (Hr H) as (nd & ? & ?). exists nd. set_solver.
    + intros H. destruct (Hg H) as (nd & ? & ?). exists nd. split; [set_solver|by apply checked_app].
  - intros (nd & ? & ?). exists nd. split; [set_solver|by apply checked_app].
  - intros (res & ?). exists res. set_solver.
  - intros (res & ?). exists res. set_solver.
Qed.

Abbreviation safe := (guarded rollout_allowed).

Lemma safe_app h t :
  safe h → (∀ e, e ∈ t → rollout_allowed h (ev_req e)) → safe (h ++ t).
Proof. apply guarded_app, rollout_allowed_lasting. Qed.

Lemma claim_lookup_allowed h t e : claim_lookup t → e ∈ t → rollout_allowed h (ev_req e).
Proof.
  intros [->|(n & x & ->)] Hin; [by apply elem_of_nil in Hin|].
  by apply list_elem_of_singleton in Hin as ->.
Qed.

(** ** Slot operations *)

Lemma assign_trace_allowed h bn b' node n' claim c' t e :
  plan_ok bn node claim b' n' c' → assign_trace bn b' node n' claim c' t → e ∈ t →
  read h (bn_name bn) node → checked h node → rollout_allowed h (ev_req e).
Proof.
  intros Hp (t0 & t1 & t2 & t3 & -> & Ht0 & H1 & H2 & H3) Hin Hread Hck.
  destruct Hp as [Pbn Pslot _ _ _ Pnode _ _ _ _].
  rewrite !elem_of_app in Hin. destruct Hin as [Hin|[Hin|[Hin|Hin]]].
  - by eapply claim_lookup_allowed.
  - destruct H1 as [[-> _]|(x & -> & _)]; [by apply elem_of_nil in Hin|].
    apply list_elem_of_singleton in Hin as ->. simpl. split_and!.
    + intros [H1 H2']. rewrite Pbn in H2'. done.
    + intros [_ Hno]. rewrite isSlotted_spec in Hno. apply GoMap.has_false in Hno. congruence.
    + eauto.
  - destruct H2 as [->|(c & c1 & x & _ & _ & ->)]; [by apply elem_of_nil in Hin|].
    by apply list_elem_of_singleton in Hin as ->.
  - destruct H3 as [->|(x & ->)]; [by apply elem_of_nil in Hin|].
    apply list_elem_of_singleton in Hin as ->. simpl. split_and!; [by eexists|done|].
    intros [_ Hu]. rewrite Pnode in Hu. done.
Qed.

Lemma clear_not_slotted bn : isSlotted (clearSlotKeys bn) = false.
Proof.
  rewrite isSlotted_spec. apply GoMap.has_false.
  change (bn_annotations (clearSlotKeys bn))
    with (fold_left GoMap.remove slotKeys (bn_annotations bn)).
  rewrite lookup_clear. rewrite decide_True; [done|]. by apply (bool_decide_unpack _).
Qed.

Lemma free_write_allowed h bn node r :
  free_write bn node r → read h (bn_name bn) node → ready node → rollout_allowed h r.
Proof.
  intros Hw Hread Hready. destruct r; simpl in Hw; try done; simpl.
  - destruct Hw as [-> Hr]. split_and!; [by eexists| |done].
    intros [H1 H2]. rewrite (rest_cordon _ _ _ Hr) in H2. case_decide; congruence.
  - destruct Hw as [-> ->]. split_and!.
    + by intros [H1 H2].
    + eauto.
    + intros [_ Hs]. by rewrite clear_not_slotted in Hs.
Qed.


Lemma taint_slotted bn : isSlotted (clearTaintRecord bn) = isSlotted bn.
Proof.
  rewrite !isSlotted_spec. unfold GoMap.has.
  change (bn_annotations (clearTaintRecord bn))
    with (GoMap.remove (bn_annotations bn) AnnotationOwnsOsNotReadyTaint).
  by rewrite GoMap.lookup_remove_ne.
Qed.

Lemma taint_write_allowed h bn node r :
  taint_write bn node r → read h (bn_name bn) node → rollout_allowed h r.
Proof.
  intros Hw Hread. destruct r; try done; simpl.
  - destruct Hw as [-> ->]. split_and!; [by eexists| |]; intros [H1 H2]; simpl in H2; congruence.
  - destruct Hw as [-> ->].
    pose proof (taint_slotted bn) as Hs.
    split_and!; [by intros [H1 H2]|intros [H1 H2]..]; congruence.
Qed.

Lemma woc_allowed (P : req → Prop) h t :
  (∀ r, P r → rollout_allowed h r) → writes_or_claims P t →
  ∀ e, e ∈ t → rollout_allowed h (ev_req e).
Proof. intros HP Ht e He. destruct (Ht e He) as [[_ ?]|[n ->]]; [by apply HP|done]. Qed.

Lemma lookups_allowed h t e : lookups t → e ∈ t → rollout_allowed h (ev_req e).
Proof. intros Ht He. destruct (Ht e He) as [[n ->]|[n ->]]; done. Qed.

Lemma safe_lookups h t : safe h → lookups t → safe (h ++ t).
Proof. intros Hh Ht. apply safe_app; [done|]. intros e. by apply lookups_allowed. Qed.

Lemma read_app h t n node : read t n node → read (h ++ t) n node.
Proof. unfold read. set_solver. Qed.

(** ** The steps of a pass keep the protocol *)

Definition preserves {A : Set} (m : ctl CState A) : Prop :=
  ∀ s h, safe h → wpg m s h (λ h' _ _, safe h').

Lemma preserves_bind {A B : Set} (m : ctl CState A) (f : A → ctl CState B) :
  preserves m → (∀ a, preserves (f a)) → preserves (gbind m f).
Proof.
  intros Hm Hf s h Hh. go_step. eapply wpg_mono; [|by apply Hm].
  intros h' s' [a|e] H'; [by apply Hf|done].
Qed.

Lemma preserves_wrapf {A : Set} pre (m : ctl CState A) : preserves m → preserves (wrapf pre m).
Proof. intros Hm s h Hh. go_step. eapply wpg_mono; [|by apply Hm]. done. Qed.

Lemma preserves_forEach {X : Type} (l : list X) (f : X → ctl CState unit) :
  (∀ x, preserves (f x)) → preserves (forEach l f).
Proof.
  intros Hf s h Hh. apply (wpg_forEach_inv (λ h _, safe h)); [|done|done].
  intros x s' h' _ H'. eapply wpg_mono; [|by apply (Hf x)]. by intros ?? [].
Qed.

Lemma preserves_pure {A : Set} (m : ctl CState A) :
  (∀ s, ∃ s' r, m s = Ret (s', r)) → preserves m.
Proof. intros H s h Hh. destruct (H s) as (s' & r & E). unfold wpg. by rewrite E. Qed.

Lemma preserves_processCandidate k : preserves (processCandidate k).
Proof.
  intros s h Hh. apply wpg_processCandidate; [done| |].
  - intros bn t s' r _ Ht _ _ _. by apply safe_lookups.
  - intros bn t node claim b' n' c' ta s' b1 r _ Ht Hread Hck _ Hp Hta _ _ _ _.
    rewrite app_assoc. apply safe_app; [by apply safe_lookups|]. intros e He.
    eapply assign_trace_allowed; eauto using read_app.
Qed.

Lemma preserves_freeCompletedSlot k : preserves (freeCompletedSlot k).
Proof.
  intros s h Hh. apply wpg_freeCompletedSlot; [done| | |].
  - intros t r Ht. by apply safe_lookups.
  - intros bn t node tf b1 s' r _ _ Ht Hread Hrdy Hw _ _. rewrite app_assoc.
    apply safe_app; [by apply safe_lookups|]. eapply woc_allowed; [|exact Hw].
    intros r' Hr'. eapply free_write_allowed; eauto using read_app.
  - intros bn t node tf b1 r _ _ Ht Hread Hrdy Hw _. rewrite app_assoc.
    apply safe_app; [by apply safe_lookups|]. eapply woc_allowed; [|exact Hw].
    intros r' Hr'. eapply taint_write_allowed; eauto using read_app.
Qed.

Lemma preserves_requeue d : preserves (requeue d).
Proof. apply preserves_pure. intros s. by eexists _, _. Qed.

Lemma preserves_ret {A : Set} (a : A) : preserves (ret a).
Proof. apply preserves_pure. intros s. by eexists _, _. Qed.

Lemma preserves_gets {A : Set} (f : CState → A) : preserves (gets f).
Proof. apply preserves_pure. intros s. by eexists _, _. Qed.

Lemma preserves_lift {A : Set} (r : result A) : preserves (lift r).
Proof. apply preserves_pure. intros s. destruct r; by eexists _, _. Qed.

Lemma preserves_assignLoop l a b : preserves (assignLoop l a b).
Proof.
  revert a. induction l as [|k l IH]; intros a; simpl; [apply preserves_ret|].
  destruct (b <=? a)%Z; [apply preserves_ret|].
  apply preserves_bind; [apply preserves_processCandidate|]. intros r. apply IH.
Qed.

Lemma preserves_drainCandidate k : preserves (drainCandidate k).
Proof.
  intros s h Hh. unfold drainCandidate. go_step. apply wpg_deref; [|done]. intros bn _.
  repeat (split_match; [by go_step|]). apply wpg_fetch_checked.
  { intros t e Ht. by apply safe_lookups. }
  intros t node kds Ht Hread Hck. assert (safe (h ++ t)) as Hh' by (by apply safe_lookups).
  destruct (kds_claimMissing kds || kds_active kds) eqn:Ek; [by apply preserves_requeue|].
  apply orb_false_iff in Ek as [_ Ek]. specialize (Hck Ek).
  unfold ensureDrain. go_step. go_step. destruct (cs_drains s !! bn_name bn); [by go_step|].
  do 6 go_step. apply (wpg_call (resp := resp) (StartDrain _ _ _)). intros y. apply guarded_snoc; [by apply guarded_snoc|]. simpl. exists node.
  split; [|by apply checked_app]. unfold read in *. set_solver.
Qed.

Lemma preserves_degradePool reason message : preserves (degradePool reason message).
Proof. intros s h Hh. unfold degradePool. do 3 go_step. by apply guarded_snoc. Qed.

Lemma preserves_advance : preserves advance.
Proof.
  unfold advance. apply preserves_bind; [apply preserves_gets|]. intros rs.
  apply preserves_bind; [apply preserves_gets|]. intros pool.
  apply preserves_bind; [apply preserves_lift|]. intros mu.
  apply preserves_bind; [apply preserves_gets|]. intros owned.
  destruct (partitionSlottedNodes owned (staged rs)) as [sl un].
  apply preserves_bind; [|intros _].
  { apply preserves_forEach. intros k.
    apply preserves_bind; [apply preserves_processCandidate|intros; apply preserves_ret]. }
  apply preserves_bind; [apply preserves_assignLoop|intros _].
  apply preserves_bind; [|intros _; apply preserves_forEach, preserves_drainCandidate].
  unfold requeueKarpenter. apply preserves_bind; [apply preserves_gets|].
  intros []; [apply preserves_requeue|apply preserves_ret].
Qed.

Lemma preserves_classifyPass `{MapOrder} : preserves classifyPass.
Proof.
  intros s h Hh. unfold classifyPass. do 6 go_step.
  destruct (applyRebootTimeouts _ _ _ _) as [rs rq]. do 2 go_step.
  assert (safe (h ++ [Ev Now x])) by (by apply guarded_snoc).
  split_match; [by apply preserves_degradePool|by go_step].
Qed.

(** Every owned BootcNode is filed under its own name. *)
Definition keyed (owned : gmap string BootcNode) : Prop :=
  ∀ k bn, owned !! k = Some bn → bn_name bn = k.

Lemma collect_one_safe n s h :
  safe h → (∀ bn, cs_owned s !! n = Some bn → bn_name bn = n) →
  wpg (collectDrainResult n) s h (λ h' s' _,
    safe h' ∧ ∀ k, k ≠ n → cs_owned s' !! k = cs_owned s !! k).
Proof.
  intros Hh Hn. set (P := λ x : resp (PollDrain n), Ev (PollDrain n) x : event). apply wpg_collectDrainResult.
  - split; [|done]. by apply guarded_snoc.
  - intros res c t s' Ht _. split; [|done]. rewrite app_assoc. apply safe_app.
    + change (safe (h ++ [P (Some res)] ++ [Ev (DrainCtxErr n) c] ++ [Ev (CancelDrain n) tt])).
      rewrite !app_assoc. repeat apply guarded_snoc; try done; simpl; exists res; set_solver.
    + intros e He. destruct Ht as [->|(e' & -> & Hev)]; [by apply elem_of_nil in He|].
      apply list_elem_of_singleton in He as ->. by destruct (ev_req e').
  - intros bn c x s' Hbn. split.
    + change (safe (h ++ [P (Some None)] ++ [Ev (DrainCtxErr n) c] ++ [Ev (CancelDrain n) tt] ++
        [Ev (PatchBootcNode bn (setDesiredImageState DesiredImageStateBooted bn)) x])).
      rewrite !app_assoc.
      repeat apply guarded_snoc; try done; try (simpl; exists None; set_solver).
      split_and!.
      * intros _. rewrite (Hn bn Hbn). unfold P. set_solver.
      * intros [H1 H2]. unfold isSlotted in *. simpl in H2. congruence.
      * intros [H1 H2]. unfold isSlotted in *. simpl in H2. congruence.
    + intros k Hk. destruct x; [|done]. simpl. by rewrite lookup_insert_ne.
Qed.

Lemma collect_safe `{MapOrder} s :
  keyed (cs_owned s) → wpg collectDrainResults s [] (λ h' _ _, safe h').
Proof.
  intros Hk. unfold collectDrainResults. go_step. go_step.
  apply (wpg_forEach (λ done h s', safe h ∧ ∀ k, k ∉ done → cs_owned s' !! k = cs_owned s !! k)).
  - intros done n rest s' h Hl [Hh Hs].
    assert (n ∉ done) as Hn.
    { pose proof (NoDup_rangeKeys 3 (cs_drains s)) as Hnd. rewrite Hl in Hnd.
      apply NoDup_app in Hnd as (_ & Hd & _). intros Hin. apply (Hd n Hin). set_solver. }
    eapply wpg_mono; [|apply collect_one_safe; [done|]].
    + intros h' s'' [[]|e] [Hh' Hs']; [|done]. split; [done|]. intros k Hk'.
      rewrite Hs' by set_solver. apply Hs. set_solver.
    + intros bn Hbn. rewrite Hs in Hbn by done. by apply Hk.
  - split; [apply guarded_nil|done].
  - by intros h s' [Hh _].
Qed.

Lemma driveRollout_safe `{MapOrder} s :
  keyed (cs_owned s) →
  wpg driveRollout s [] (λ h _ _, guarded rollout_allowed h).
Proof.
  intros Hk. unfold driveRollout. go_step. go_step.
  eapply wpg_mono; [|by apply collect_safe]. intros h s1 [[]|e] Hh; [|done].
  revert s1 h Hh. change (preserves
    (classifyPass ;;; wrapf "freeing completed slots" freeCompletedSlots ;;;
     rs <- gets cs_rs ;; pool <- gets cs_pool ;; owned <- gets cs_owned ;;
     (if unhealthySlotHaltThreshold <=?
          length (findUnhealthySlots owned rs (TargetDigest (pool_status pool)))
      then degradePool PoolRolloutHalted
             (haltMessage (findUnhealthySlots owned rs (TargetDigest (pool_status pool))))
      else advance) ;;; gets cs_rs)%go).
  apply preserves_bind; [apply preserves_classifyPass|intros _].
  apply preserves_bind; [|intros _].
  { apply preserves_wrapf. unfold freeCompletedSlots. apply preserves_bind; [apply preserves_gets|].
    intros rs. apply preserves_forEach, preserves_freeCompletedSlot. }
  do 3 (apply preserves_bind; [apply preserves_gets|intros ?]).
  apply preserves_bind; [|intros _; apply preserves_gets].
  split_match; [apply preserves_degradePool|apply preserves_advance].
Qed.

(** C4. The rollout protocol.  In every pass of [driveRollout], for every
    behaviour of the API server, the drains and other writers, and wherever the
    pass fails: a node is approved for reboot only after its own drain was
    collected with success; a reboot slot is granted, a node cordoned and a
    drain started only after the Node was read in this pass and it and its
    NodeClaim were found free of any Karpenter disruption; a slot is taken back
    and a node uncordoned only after the Node was read as Ready; only finished
    drains are cancelled; events are about BootcNodes; and the pass never creates
    or deletes BootcNodes nor writes the pool. *)
Theorem driveRollout_protocol `{MapOrder} s :
  keyed (cs_owned s) →
  wpg driveRollout s [] (λ h _ _, guarded rollout_allowed h).
Proof. apply driveRollout_safe. Qed.
End Protocol.
