(* ===== verification/RolloutCapacity.v ===== *)
(** * RolloutCapacity: [maxUnavailable] is respected

    Two forms of the budget theorem for [driveRollout].  Against any environment,
    the number of slot grants a pass asks for is bounded by the free capacity the
    pass computed.  When nobody else writes the BootcNodes, the number of nodes
    that hold a slot never grows beyond [maxUnavailable], and a pass in which it
    already is beyond hands out none. *)

From S2P Require Import Prelude Effects Types Library LibModel Client Samples Sim Image Karpenter Classify PoolStatus Slots Utf8 Events Drain Rollout RolloutSafety.

(** ** Counting slots *)

Section Slots.
Context {L : Lib}.
Implicit Types (owned : gmap string BootcNode).

Abbreviation b2n := (λ b : bool, if b then 1 else 0).

Lemma slots_list owned : slots owned = count (λ kv, isSlotted kv.2) (map_to_list owned).
Proof.
  unfold slots, count.
  assert (∀ l, (∀ kv, kv ∈ l → owned !! kv.1 = Some kv.2) →
    length (List.filter (slotted owned) l.*1) = length (List.filter (λ kv, isSlotted kv.2) l)) as H.
  { induction l as [|[k b] l IH]; intros Hl; [done|]. simpl.
    unfold slotted at 1.
    assert (owned !! k = Some b) as -> by (apply (Hl (k, b)); set_solver). fold (isSlotted b).
    destruct (isSlotted b); simpl; [f_equal|]; apply IH; set_solver. }
  apply H. intros [k b]. apply elem_of_map_to_list.
Qed.

Lemma slots_insert owned k bn b :
  owned !! k = Some bn →
  slots (<[k := b]> owned) + b2n (isSlotted bn) = slots owned + b2n (isSlotted b).
Proof.
  intros Hk. rewrite !slots_list.
  assert (delete k owned !! k = None) as Hd by apply lookup_delete_eq.
  rewrite (count_perm _ (map_to_list (<[k:=b]> owned)) ((k, b) :: map_to_list (delete k owned))).
  2:{ rewrite <- insert_delete_eq. by apply map_to_list_insert. }
  rewrite (count_perm _ (map_to_list owned) ((k, bn) :: map_to_list (delete k owned))).
  2:{ rewrite <- (insert_delete_id owned k bn Hk) at 1. by apply map_to_list_insert. }
  rewrite !count_cons. simpl. lia.
Qed.

Lemma slotted_isSlotted owned k bn : owned !! k = Some bn → slotted owned k = isSlotted bn.
Proof. unfold slotted. intros ->. done. Qed.
End Slots.

(** ** Grants in a history *)

Section Grants.
Context {L : Lib} {HL : LibLaws L}.
Implicit Types (h t : history) (bn : BootcNode).

Definition grantReq (r : req) : bool :=
  match r with
  | PatchBootcNode base new => negb (isSlotted base) && isSlotted new
  | _ => false
  end.

(** The slot grants a history asks for, whether or not they succeed. *)
Definition grantsOf h : nat := count (λ e, grantReq (ev_req e)) h.

Definition grantless t : Prop := ∀ e, e ∈ t → grantReq (ev_req e) = false.

Lemma grantsOf_app h t : grantsOf (h ++ t) = grantsOf h + grantsOf t.
Proof. apply count_app. Qed.
Lemma grantless_0 t : grantless t → grantsOf t = 0.
Proof. intros H. by apply count_0. Qed.
Lemma grantless_app t1 t2 : grantless t1 → grantless t2 → grantless (t1 ++ t2).
Proof. intros H1 H2 e [?|?]%elem_of_app; auto. Qed.

Lemma lookups_grantless t : lookups t → grantless t.
Proof. intros Ht e He. by destruct (Ht e He) as [[n ->]|[n ->]]. Qed.

Lemma woc_grantless (P : req → Prop) t :
  (∀ r, P r → grantReq r = false) → writes_or_claims P t → grantless t.
Proof. intros HP Ht e He. destruct (Ht e He) as [[_ ?]|[n ->]]; [by apply HP|done]. Qed.

Lemma free_write_grantless bn node r : free_write bn node r → grantReq r = false.
Proof.
  destruct r; simpl; try done. intros [-> ->]. by rewrite clear_not_slotted, andb_false_r.
Qed.

Lemma taint_write_grantless bn node r : taint_write bn node r → grantReq r = false.
Proof.
  destruct r; simpl; try done. intros [-> ->]. rewrite taint_slotted. by destruct (isSlotted bn).
Qed.

(** One assignment asks for at most one grant, and for none on a slotted node. *)
Lemma assign_grants bn b' node n' claim c' t :
  assign_trace bn b' node n' claim c' t → grantsOf t ≤ if isSlotted bn then 0 else 1.
Proof.
  intros (t0 & t1 & t2 & t3 & -> & Ht0 & H1 & H2 & H3). rewrite !grantsOf_app.
  assert (grantsOf t0 = 0) as ->.
  { apply grantless_0. intros e He. destruct Ht0 as [->|(n & x & ->)]; [by apply elem_of_nil in He|].
    by apply list_elem_of_singleton in He as ->. }
  assert (grantsOf t2 = 0) as -> by (destruct H2 as [->|(c & c1 & x & _ & _ & ->)]; done).
  assert (grantsOf t3 = 0) as -> by (destruct H3 as [->|(x & ->)]; done).
  destruct H1 as [[-> _]|(x & -> & _)]; [unfold grantsOf; rewrite count_nil; lia|].
  unfold grantsOf, count. simpl. destruct (isSlotted bn), (isSlotted b'); simpl; lia.
Qed.

(** Under quiet writers the answer to a patch is slotted like what was sent. *)
Lemma quiet_slotted t base new got :
  quiet_history t → Ev (PatchBootcNode base new) (Ok got) ∈ t → isSlotted got = isSlotted new.
Proof.
  intros Hq Hin. destruct (quiet_bn _ _ _ _ Hq Hin) as [Ha _].
  rewrite !isSlotted_spec. unfold GoMap.has. by rewrite (Ha _).
Qed.
End Grants.

(** ** The budget of a pass *)

Section Budget.
Context {L : Lib} {HL : LibLaws L} {C : Config} `{MapOrder}.
Context (s0 : CState).
Implicit Types (h t : history) (bn : BootcNode) (s : CState).

(** What holds until slots are handed out: no grant was asked for, the pool's
    spec and the set of nodes are the ones of the start, and under quiet writers
    no slot was added. *)
Record before_grants h s : Prop := {
  bg_grants : grantsOf h = 0;
  bg_spec : pool_spec (cs_pool s) = pool_spec (cs_pool s0);
  bg_size : size (cs_owned s) = size (cs_owned s0);
  bg_slots : quiet_history h → slots (cs_owned s) ≤ slots (cs_owned s0)
}.

(** After classification the counter of occupied slots is exact. *)
Record classified h s : Prop := {
  cl_before : before_grants h s;
  cl_count : nodeCount (cs_rs s) = size (cs_owned s0);
  cl_staged : NoDup (staged (cs_rs s));
  cl_exact : quiet_history h → occupiedSlots (cs_rs s) = Z.of_nat (slots (cs_owned s))
}.

Lemma size_insert_known (m : gmap string BootcNode) k bn b :
  m !! k = Some bn → size (<[k := b]> m) = size m.
Proof. intros Hk. by rewrite map_size_insert, Hk. Qed.

Lemma before_grants_reads h t s s' :
  before_grants h s → grantless t → pool_spec (cs_pool s') = pool_spec (cs_pool s) →
  cs_owned s' = cs_owned s → before_grants (h ++ t) s'.
Proof.
  intros [H1 H2 H3 H4] Ht Hp Ho. split; rewrite ?Ho; [|congruence|done|].
  - rewrite grantsOf_app, H1, (grantless_0 _ Ht). done.
  - intros [Hq _]%Forall_app. auto.
Qed.

(** Replacing one BootcNode by a version that is not more slotted. *)
Lemma before_grants_insert h t s s' k bn b1 :
  before_grants h s → grantless t → pool_spec (cs_pool s') = pool_spec (cs_pool s) →
  cs_owned s !! k = Some bn → cs_owned s' = <[k := b1]> (cs_owned s) →
  (quiet_history t → isSlotted b1 = true → isSlotted bn = true) →
  before_grants (h ++ t) s'.
Proof.
  intros [H1 H2 H3 H4] Ht Hp Hk Ho Hs. split; rewrite ?Ho; [|congruence| |].
  - rewrite grantsOf_app, H1, (grantless_0 _ Ht). done.
  - by rewrite (size_insert_known _ _ bn).
  - intros [Hq Hqt]%Forall_app. specialize (H4 Hq). specialize (Hs Hqt).
    pose proof (slots_insert _ _ bn b1 Hk). destruct (isSlotted b1), (isSlotted bn); naive_solver lia.
Qed.

Lemma collect_before n h s :
  before_grants h s →
  wpg (collectDrainResult n) s h (λ h' s' _, before_grants h' s').
Proof.
  intros Hb. apply wpg_collectDrainResult.
  - apply (before_grants_reads _ _ s); try done. intros e ->%list_elem_of_singleton. done.
  - intros res c t s' Ht _. apply (before_grants_reads _ _ s); try done.
    intros e. rewrite elem_of_app, !elem_of_cons, elem_of_nil.
    intros [[->|[->|[->|[]]]]|He]; try done.
    destruct Ht as [->|(e' & -> & Hw)]; [by apply elem_of_nil in He|].
    apply list_elem_of_singleton in He as ->. by destruct (ev_req e').
  - intros bn c x s' Hbn. set (new := setDesiredImageState _ bn).
    assert (isSlotted new = isSlotted bn) as Hnew by done.
    set (t := [_; _; _; _]). assert (grantless t) as Ht.
    { intros e. unfold t. rewrite !elem_of_cons, elem_of_nil.
      intros [->|[->|[->|[->|[]]]]]; try done. cbn -[isSlotted]. fold new.
      rewrite Hnew. by destruct (isSlotted bn). }
    destruct x as [got|]; [|by apply (before_grants_reads _ _ s)].
    eapply before_grants_insert; [done|done|done|done|done|]. intros Hq.
    rewrite (quiet_slotted t bn new got Hq ltac:(unfold t; set_solver)), Hnew. done.
Qed.

Lemma collect_all_before :
  wpg collectDrainResults s0 [] (λ h' s' _, before_grants h' s').
Proof.
  unfold collectDrainResults. go_step. go_step.
  apply (wpg_forEach_inv before_grants); [| |done].
  - intros n s h _ Hb. eapply wpg_mono; [|by apply collect_before]. by intros ?? [].
  - by split.
Qed.

Lemma classify_pass h s :
  before_grants h s → wpg classifyPass s h (λ h' s' _, classified h' s').
Proof.
  intros Hb. unfold classifyPass. do 6 go_step.
  pose proof (timeouts_shape (cs_owned s) (resolveRebootTimeout (cs_pool s)) x) as Hsh. cbv zeta in Hsh.
  destruct (applyRebootTimeouts _ _ _ _) as [rs rq]. simpl in Hsh.
  destruct Hsh as (out & _ & _ & _ & Hst & Hocc & Hcnt & _).
  rewrite build_occupied in Hocc. rewrite build_nodeCount in Hcnt.
  assert (∀ t p, grantless t → pool_spec p = pool_spec (cs_pool s) →
    classified (h ++ t) (setPool p (setRS (setRequeue rq rs) s))) as Hcl.
  { intros t p Ht Hp. split; simpl.
    - by apply (before_grants_reads _ _ s).
    - change (nodeCount (setRequeue rq rs)) with (nodeCount rs). rewrite Hcnt. apply Hb.
    - rewrite Hst. apply (bucket_NoDup (cs_owned s) nodeStateStaged).
    - intros _. done. }
  do 2 go_step. split_match.
  - unfold degradePool. do 3 go_step. rewrite <- app_assoc. apply Hcl.
    + intros e. rewrite elem_of_app, !list_elem_of_singleton. by intros [->| ->].
    + by destruct (setPoolDegraded_frame x0 PoolNodeDegraded
        ("Degraded nodes: " +:+ join ", " (sortStrings (nodeNames (cs_owned s) (degraded rs))))
        (cs_pool s)) as (_ & ? & _).
  - go_step. specialize (Hcl [Ev Now x] (cs_pool s)). destruct s. apply Hcl; [|done].
    by intros e ->%list_elem_of_singleton.
Qed.

Lemma free_classified k h s :
  classified h s → wpg (freeCompletedSlot k) s h (λ h' s' _, classified h' s').
Proof.
  intros Hc. destruct Hc as [Hb Hcnt Hst Hex]. apply wpg_freeCompletedSlot.
  - done.
  - intros t r Ht. split; try done.
    + apply (before_grants_reads _ _ s); try done. by apply lookups_grantless.
    + intros [Hq _]%Forall_app. auto.
  - intros bn t node tf b1 s' r Hbn Hsl Ht _ _ Hw Hr ->. split; simpl; [| | |].
    + eapply before_grants_insert; [done| |done|done|done|].
      * apply grantless_app; [by apply lookups_grantless|].
        eapply woc_grantless; [|exact Hw]. apply free_write_grantless.
      * done.
    + by destruct (is_ok r).
    + by destruct (is_ok r).
    + rewrite !Forall_app. intros (Hq & _ & Hqf). specialize (Hex Hq).
      pose proof (slots_insert _ _ bn b1 Hbn) as Hsi. rewrite Hsl in Hsi.
      destruct (is_ok r); simpl; [|subst b1; rewrite Hsl in Hsi; lia].
      rewrite (quiet_slotted _ _ _ _ Hqf Hr), clear_not_slotted in Hsi. lia.
  - intros bn t node tf b1 r Hbn Hsl Ht _ _ Hw Hb1. split; simpl; try done.
    + eapply before_grants_insert; [done| |done|done|done|].
      * apply grantless_app; [by apply lookups_grantless|].
        eapply woc_grantless; [|exact Hw]. apply taint_write_grantless.
      * intros [_ Hq]%Forall_app Hs1. destruct Hb1 as [->|Hin]; [done|].
        by rewrite (quiet_slotted _ _ _ _ Hq Hin), taint_slotted in Hs1.
    + rewrite !Forall_app. intros (Hq & _ & Hqf). rewrite (Hex Hq). f_equal.
      pose proof (slots_insert _ _ bn b1 Hbn) as Hsi.
      assert (isSlotted b1 = false) as Hb1'.
      { destruct Hb1 as [->|Hin]; [done|]. by rewrite (quiet_slotted _ _ _ _ Hqf Hin), taint_slotted. }
      rewrite Hb1', Hsl in Hsi. lia.
Qed.

(** While slots are handed out: at most [a] grants were asked for since the
    state [s1], which only lacks those slots. *)
Definition handing s1 (a : nat) h s : Prop :=
  cs_pool s = cs_pool s1 ∧ same_rs (cs_rs s1) (cs_rs s) ∧ grantsOf h ≤ a ∧
  (quiet_history h → slots (cs_owned s) ≤ slots (cs_owned s1) + a).

Lemma handing_kept s1 a h t s s' :
  handing s1 a h s → grantless t → cs_pool s' = cs_pool s → same_rs (cs_rs s) (cs_rs s') →
  cs_owned s' = cs_owned s → handing s1 a (h ++ t) s'.
Proof.
  intros (Hp & Hr & Hg & Hs) Ht Hp' Hr' Ho. split_and!.
  - congruence.
  - by etransitivity.
  - rewrite grantsOf_app, (grantless_0 _ Ht). lia.
  - rewrite Ho. intros [Hq _]%Forall_app. auto.
Qed.

Lemma handing_mono s1 a b h s : a ≤ b → handing s1 a h s → handing s1 b h s.
Proof. intros Hab (? & ? & ? & Hs). split_and!; [done|done|lia|]. intros Hq. specialize (Hs Hq). lia. Qed.

(** The grants one candidate may cost: none when it is deferred. *)
Definition candidateCost (slotted : bool) (r : result bool) : nat :=
  match r with Ok false => 0 | _ => if slotted then 0 else 1 end.

(** One candidate costs at most one grant, and none if it already has a slot. *)
Lemma candidate_handing s1 k a h s :
  handing s1 a h s →
  wpg (processCandidate k) s h (λ h' s' r,
    (∀ k', k' ≠ k → cs_owned s' !! k' = cs_owned s !! k') ∧
    handing s1 (a + candidateCost (slotted (cs_owned s) k) r) h' s').
Proof.
  intros Hh. apply wpg_processCandidate.
  - intros _ e. split; [done|]. eapply handing_mono; [|done]. lia.
  - intros bn t s' r Hbn Ht (Hp & _ & Hr) Ho _. split; [by rewrite Ho|].
    eapply handing_mono; [|eapply handing_kept; eauto using lookups_grantless]. lia.
  - intros bn t node claim b' n' c' ta s' b1 r Hbn Ht _ _ _ Hplan Hta Hb1 Hok (Hp & _ & Hr) Ho.
    split; [intros k' Hne; rewrite Ho; by rewrite lookup_insert_ne|].
    assert (candidateCost (slotted (cs_owned s) k) r = if isSlotted bn then 0 else 1) as ->.
    { rewrite (slotted_isSlotted _ _ bn) by done. destruct r as [[]|]; [done| |done].
      by destruct (Hok eq_refl). }
    pose proof (assign_grants _ _ _ _ _ _ _ Hta) as Hga.
    destruct Hh as (Hp1 & Hr1 & Hg1 & Hs1). split_and!; [congruence|by etransitivity| |].
    + rewrite !grantsOf_app, (grantless_0 t) by (by apply lookups_grantless).
      destruct (isSlotted bn); lia.
    + rewrite Ho, !Forall_app. intros (Hq & _ & _). specialize (Hs1 Hq).
      pose proof (slots_insert _ _ bn b1 Hbn) as Hsi. destruct (isSlotted bn), (isSlotted b1); lia.
Qed.

Lemma slotted_handing s1 l h s :
  NoDup l → (∀ k, k ∈ l → slotted (cs_owned s) k = true) → handing s1 0 h s →
  wpg (forEach l (λ k, _ <- processCandidate k ;; ret tt))%go s h (λ h' s' _, handing s1 0 h' s').
Proof.
  intros Hnd Hsl Hh.
  apply (wpg_forEach (λ done h' s', handing s1 0 h' s' ∧
    ∀ k, k ∉ done → cs_owned s' !! k = cs_owned s !! k)); [|done|by intros ?? []].
  intros done k rest s' h' -> [Hh' Hs']. apply NoDup_app in Hnd as (_ & Hd & _).
  assert (k ∉ done) as Hk by (intros Hin; apply (Hd k Hin); set_solver).
  assert (slotted (cs_owned s') k = true) as Hsk.
  { unfold slotted. rewrite Hs' by done. apply Hsl. set_solver. }
  go_step. eapply wpg_mono; [|by apply (candidate_handing s1 k 0)].
  rewrite Hsk. intros h2 s2 [b|e] [Ho Hh2]; [|done].
  - go_step. split; [by destruct b|]. intros k' Hk'. rewrite Ho by set_solver. apply Hs'. set_solver.
Qed.

Lemma assignLoop_handing s1 l (a av : nat) h s :
  a ≤ av → handing s1 a h s →
  wpg (assignLoop l (Z.of_nat a) (Z.of_nat av)) s h (λ h' s' _, handing s1 av h' s').
Proof.
  revert a h s. induction l as [|k l IH]; intros a h s Ha Hh; simpl.
  { go_step. by eapply handing_mono. }
  destruct (Z.leb_spec (Z.of_nat av) (Z.of_nat a)) as [Hle|Hlt]; [go_step; by eapply handing_mono|].
  go_step. eapply wpg_mono; [|by apply (candidate_handing s1 k a)].
  intros h2 s2 [[]|e] [_ Hh2]; simpl.
  - replace (Z.of_nat a + 1)%Z with (Z.of_nat (S a)) by lia. apply IH; [lia|].
    eapply handing_mono; [|done]. simpl. destruct (slotted _ _); lia.
  - apply IH; [done|]. eapply handing_mono; [|done]. simpl. lia.
  - eapply handing_mono; [|done]. simpl. destruct (slotted _ _); lia.
Qed.

Lemma drain_handing s1 k a h s :
  handing s1 a h s → wpg (drainCandidate k) s h (λ h' s' _, handing s1 a h' s').
Proof.
  intros Hh. unfold drainCandidate. go_step. apply wpg_deref; [|done]. intros bn _.
  repeat (split_match; [by go_step|]). apply wpg_fetch_checked.
  { intros t e Ht. eapply handing_kept; eauto using lookups_grantless; done. }
  intros t node kds Ht _ _.
  assert (handing s1 a (h ++ t) s) as Hh'.
  { eapply handing_kept; eauto using lookups_grantless; done. }
  split_match.
  - apply wpg_requeue. intros s' (Hp & _ & Hr) Ho. rewrite <- (app_nil_r (h ++ t)).
    eapply handing_kept; eauto. intros e He. by apply elem_of_nil in He.
  - unfold ensureDrain. go_step. go_step. destruct (cs_drains s !! bn_name bn); [by go_step|].
    do 6 go_step. apply (wpg_call (resp := resp) (StartDrain _ _ _)). intros y.
    rewrite <- (app_assoc (h ++ t)). eapply handing_kept; [exact Hh'| |done|done|done].
    intros e. rewrite elem_of_app, !list_elem_of_singleton. by intros [->| ->].
Qed.

(** The limit the pool asks for; an invalid one allows nothing new. *)
Definition unavailableLimit : Z :=
  match resolveMaxUnavailable (cs_pool s0) (Z.of_nat (size (cs_owned s0))) with
  | Ok mu => mu
  | Err _ => 0%Z
  end.

Record within_budget h s : Prop := {
  wb_trace : grantsOf h = 0 ∨
    ∃ mu, resolveMaxUnavailable (cs_pool s) (Z.of_nat (nodeCount (cs_rs s))) = Ok mu ∧
          (Z.of_nat (grantsOf h) <= mu - occupiedSlots (cs_rs s))%Z;
  wb_slots : quiet_history h →
    (Z.of_nat (slots (cs_owned s)) <= Z.max (Z.of_nat (slots (cs_owned s0))) unavailableLimit)%Z
}.

Lemma before_within h s : before_grants h s → within_budget h s.
Proof.
  intros [Hg _ _ Hs]. split; [by left|]. intros Hq. specialize (Hs Hq). lia.
Qed.

Lemma resolve_spec p p' n :
  pool_spec p = pool_spec p' → resolveMaxUnavailable p n = resolveMaxUnavailable p' n.
Proof. unfold resolveMaxUnavailable. by intros ->. Qed.

Lemma handing_within h1 s1 mu h s :
  classified h1 s1 → (∃ t, h = h1 ++ t) →
  resolveMaxUnavailable (cs_pool s1) (Z.of_nat (nodeCount (cs_rs s1))) = Ok mu →
  handing s1 (Z.to_nat (Z.max 0 (mu - occupiedSlots (cs_rs s1)))) h s →
  within_budget h s.
Proof.
  intros [[_ Hsp _ Hsl] Hcnt _ Hex] [t ->] Hmu (Hp & Hr & Hg & Hs). split.
  - destruct (Z.leb_spec (mu - occupiedSlots (cs_rs s1)) 0); [left; lia|]. right. exists mu.
    assert (nodeCount (cs_rs s) = nodeCount (cs_rs s1)) as ->
      by exact (f_equal nodeCount (symmetry Hr)).
    assert (occupiedSlots (cs_rs s) = occupiedSlots (cs_rs s1)) as ->
      by exact (f_equal occupiedSlots (symmetry Hr)).
    rewrite Hp. split; [done|lia].
  - intros Hq. specialize (Hs Hq). apply Forall_app in Hq as [Hq _].
    specialize (Hex Hq). specialize (Hsl Hq). unfold unavailableLimit.
    rewrite <- (resolve_spec _ _ _ Hsp), <- Hcnt, Hmu. lia.
Qed.

Lemma advance_within h s : classified h s → wpg advance s h (λ h' s' _, within_budget h' s').
Proof.
  intros Hc. pose proof (cl_before _ _ Hc) as Hb. unfold advance. do 6 go_step.
  destruct (resolveMaxUnavailable _ _) as [mu|e] eqn:Emu; [|by apply before_within].
  do 2 go_step. set (av := Z.to_nat (Z.max 0 (mu - occupiedSlots (cs_rs s)))).
  assert (Z.max 0 (mu - occupiedSlots (cs_rs s)) = Z.of_nat av) as -> by (unfold av; lia).
  pose proof (λ k, partition_members (cs_owned s) (staged (cs_rs s)) k) as Hmem.
  pose proof (partition_NoDup (cs_owned s) _ (cl_staged _ _ Hc)) as [Hnd _].
  destruct (partitionSlottedNodes _ _) as [sl un]. simpl in Hmem, Hnd.
  eapply wpg_mono with (Φ := λ h' s' _, handing s av h' s' ∧ ∃ t, h' = h ++ t).
  { intros h' s' _ [Hh Ht]. by eapply handing_within. }
  apply wpg_and; [|apply wpg_history].
  assert (handing s 0 h s) as H0.
  { split_and!; [done|done| |lia]. rewrite (bg_grants _ _ Hb). lia. }
  go_step. eapply wpg_mono; [|apply (slotted_handing s); [done|intros k Hk; by apply (Hmem k)|done]].
  intros h1 s1 [[]|e] H1; [|eapply handing_mono; [|done]; lia].
  go_step. eapply wpg_mono; [|apply (assignLoop_handing s _ 0 av); [lia|done]].
  intros h2 s2 [[]|e] H2; [|done]. go_step. unfold requeueKarpenter. go_step. go_step.
  eapply wpg_mono with (Φ := λ h' s' _, handing s av h' s').
  { intros h3 s3 [[]|e] H3; [|done].
    apply (wpg_forEach_inv (λ h' s', handing s av h' s')); [|done|done].
    intros k s' h' _ H'. eapply wpg_mono; [|by apply drain_handing]. by intros ?? []. }
  destruct (existsb _ _); [|by go_step]. apply wpg_requeue. intros s' (Hp & _ & Hr) Ho.
  rewrite <- (app_nil_r h2). eapply handing_kept; eauto. intros e He. by apply elem_of_nil in He.
Qed.

Lemma driveRollout_within : wpg driveRollout s0 [] (λ h s _, within_budget h s).
Proof.
  unfold driveRollout. go_step. go_step. eapply wpg_mono; [|apply collect_all_before].
  intros h1 s1 [[]|e] H1; [|by apply before_within].
  go_step. eapply wpg_mono; [|by apply classify_pass].
  intros h2 s2 [[]|e] H2; [|apply before_within; by destruct H2].
  go_step. go_step. eapply wpg_mono with (Φ := λ h s _, classified h s).
  2:{ unfold freeCompletedSlots. go_step. go_step.
      apply (wpg_forEach_inv classified); [|done|done].
      intros k s h _ H'. eapply wpg_mono; [|by apply free_classified]. by intros ?? []. }
  intros h3 s3 [[]|e] H3; [|apply before_within; by destruct H3].
  do 6 go_step. go_step. split_match.
  - unfold degradePool. do 3 go_step. go_step. apply before_within.
    destruct H3 as [H3 _ _ _]. apply (before_grants_reads _ _ s3); [done| | |done].
    + by intros e ->%list_elem_of_singleton.
    + apply setPoolDegraded_frame.
  - eapply wpg_mono; [|by apply advance_within]. intros h4 s4 [[]|e] H4; [by go_step|done].
Qed.

(** The rollout budget, against any environment: the slot grants that one
    pass of [driveRollout] asks for (successful or not) never exceed the free
    capacity [maxUnavailable - occupiedSlots] it computed, and there is none
    when [maxUnavailable] is invalid. *)
Theorem driveRollout_grants :
  wpg driveRollout s0 [] (λ h s _,
    grantsOf h = 0 ∨
    ∃ mu, resolveMaxUnavailable (cs_pool s) (Z.of_nat (nodeCount (cs_rs s))) = Ok mu ∧
          (Z.of_nat (grantsOf h) <= mu - occupiedSlots (cs_rs s))%Z).
Proof. eapply wpg_mono; [|apply driveRollout_within]. intros h s r Hw. apply Hw. Qed.

(** C5. The rollout budget, over the cluster: when nobody else writes the
    BootcNodes, the number of nodes in a reboot slot after a pass (also one that
    failed half way) is at most the larger of [maxUnavailable] and the number
    before the pass.  So within the limit it stays, and beyond the limit (which
    was lowered) no slot is added. *)
Theorem driveRollout_budget :
  wpg driveRollout s0 [] (λ h s _,
    quiet_history h →
    (Z.of_nat (slots (cs_owned s)) <= Z.max (Z.of_nat (slots (cs_owned s0))) unavailableLimit)%Z).
Proof. eapply wpg_mono; [|apply driveRollout_within]. intros h s r Hw. apply Hw. Qed.
End Budget.
