(* ===== verification/RolloutHalt.v ===== *)
(** * RolloutHalt: two unhealthy nodes stop the rollout

    The safety brake of [driveRollout]: what it means for a node in a reboot slot
    to be unhealthy, apart from the lists of the code, and that with two such nodes
    a pass neither hands out slots nor starts drains. *)

From S2P Require Import Prelude Effects Types Library LibModel Client Samples Sim Image Karpenter Classify PoolStatus Slots Utf8 Events Drain Rollout RolloutSafety RolloutCapacity.

Section Halt.
Context {L : Lib} {HL : LibLaws L} {C : Config}.
Implicit Types (h t : history) (s : CState) (l : list string).

(** The request hands out a slot or starts a drain. *)
Definition advances (r : req) : bool :=
  match r with StartDrain _ _ _ => true | _ => grantReq r end.

Definition still t : Prop := ∀ e, e ∈ t → advances (ev_req e) = false.

Lemma still_app t1 t2 : still t1 → still t2 → still (t1 ++ t2).
Proof. intros H1 H2 e [?|?]%elem_of_app; auto. Qed.

Lemma still_writes (P : req → Prop) t :
  (∀ r, P r → grantReq r = false) → writes_or_claims P t → still t.
Proof.
  intros HP Ht e He. destruct (Ht e He) as [[Hw Hp]|[n ->]]; [|done].
  specialize (HP _ Hp). by destruct (ev_req e).
Qed.

Lemma still_lookups t : lookups t → still t.
Proof. intros Ht e He. by destruct (Ht e He) as [[n ->]|[n ->]]. Qed.

Lemma still_one e : advances (ev_req e) = false → still [e].
Proof. by intros H e' ->%list_elem_of_singleton. Qed.

Lemma collect_still n s h :
  still h → wpg (collectDrainResult n) s h (λ h' _ _, still h').
Proof.
  intros Hh. apply wpg_collectDrainResult.
  - apply still_app; [done|by apply still_one].
  - intros res c t s' Ht _. apply still_app; [done|]. apply still_app.
    + intros e. rewrite !elem_of_cons, elem_of_nil. by intros [->|[->|[->|[]]]].
    + destruct Ht as [->|(e & -> & Hev)]; [intros e He; by apply elem_of_nil in He|].
      apply still_one. by destruct (ev_req e).
  - intros bn c x s' _. apply still_app; [done|].
    intros e. rewrite !elem_of_cons, elem_of_nil. intros [->|[->|[->|[->|[]]]]]; try done.
    cbn -[isSlotted]. change (isSlotted (setDesiredImageState _ bn)) with (isSlotted bn).
    by destruct (isSlotted bn).
Qed.

Lemma free_still k s h :
  still h → wpg (freeCompletedSlot k) s h (λ h' _ _, still h').
Proof.
  intros Hh. apply wpg_freeCompletedSlot; [done| | |].
  - intros t r Ht. apply still_app; [done|by apply still_lookups].
  - intros bn t node tf b1 s' r _ _ Ht _ _ Hw _ _. repeat apply still_app; [done|by apply still_lookups|].
    eapply still_writes; [|exact Hw]. apply free_write_grantless.
  - intros bn t node tf b1 r _ _ Ht _ _ Hw _. repeat apply still_app; [done|by apply still_lookups|].
    eapply still_writes; [|exact Hw]. apply taint_write_grantless.
Qed.

(** ** The unhealthy slots do not depend on the staged nodes *)

(** The buckets [findUnhealthySlots] looks at. *)
Definition watched (rs : rolloutState) (k : string) : Prop :=
  k ∈ degraded rs ∨ k ∈ upToDate rs ∨ k ∈ rebootTimedOutNodes rs.

Lemma filter_map_ext {A} (f g : string → bool) (u v : string → A) l :
  (∀ k, k ∈ l → f k = g k ∧ u k = v k) → u <$> List.filter f l = v <$> List.filter g l.
Proof.
  induction l as [|k l IH]; intros Hl; simpl; [done|].
  destruct (Hl k) as [-> Hu]; [set_solver|]. destruct (g k); simpl; [f_equal; [done|]|]; apply IH; set_solver.
Qed.

Lemma findUnhealthy_ext owned owned' rs target :
  (∀ k, watched rs k → owned' !! k = owned !! k) →
  findUnhealthySlots owned' rs target = findUnhealthySlots owned rs target.
Proof.
  intros Hk. unfold findUnhealthySlots.
  assert (∀ k, watched rs k → slotted owned' k = slotted owned k ∧ nameOf owned' k = nameOf owned k ∧
    degradedOnTarget owned' target k = degradedOnTarget owned target k) as He.
  { intros k Hw. unfold slotted, nameOf, degradedOnTarget. by rewrite (Hk k Hw). }
  f_equal; [|f_equal]; apply filter_map_ext; intros k Hin;
    (destruct (He k) as (E1 & E2 & E3); [unfold watched; auto|]; by rewrite ?E1, ?E2, ?E3).
Qed.

(** Staged nodes are not watched. *)
Definition separated (rs : rolloutState) : Prop := ∀ k, k ∈ staged rs → ¬ watched rs k.

(** What [advance] leaves alone: the pool, the buckets and every BootcNode that
    is not staged. *)
Definition framed s s' : Prop :=
  cs_pool s' = cs_pool s ∧ same_rs (cs_rs s) (cs_rs s') ∧
  ∀ k, k ∉ staged (cs_rs s) → cs_owned s' !! k = cs_owned s !! k.

Lemma framed_refl s : framed s s.
Proof. by split_and!. Qed.

Lemma framed_kept s s1 s2 :
  framed s s1 → kept s1 s2 → cs_owned s2 = cs_owned s1 → framed s s2.
Proof.
  intros (Hp & Hr & Ho) (Hp' & _ & Hr') Ho'. split_and!; [congruence|by etransitivity|].
  by rewrite Ho'.
Qed.

Lemma candidate_framed s k s1 h :
  k ∈ staged (cs_rs s) → framed s s1 → wpg (processCandidate k) s1 h (λ _ s2 _, framed s s2).
Proof.
  intros Hk Hf. apply wpg_processCandidate; [done| |].
  - intros bn t s' r _ _ Hkept Ho _. by eapply framed_kept.
  - intros bn t node claim b' n' c' ta s' b1 r _ _ _ _ _ _ _ _ _ (Hp & _ & Hr) Ho.
    destruct Hf as (Hp1 & Hr1 & Ho1). split_and!; [congruence|by etransitivity|].
    intros k' Hk'. rewrite Ho, lookup_insert_ne by (intros ->; done). by apply Ho1.
Qed.

Lemma assignLoop_framed s l a b s1 h :
  (∀ k, k ∈ l → k ∈ staged (cs_rs s)) → framed s s1 →
  wpg (assignLoop l a b) s1 h (λ _ s2 _, framed s s2).
Proof.
  revert a s1 h. induction l as [|k l IH]; intros a s1 h Hl Hf; simpl; [by go_step|].
  split_match; [by go_step|]. go_step. eapply wpg_mono; [|apply (candidate_framed s); [set_solver|done]].
  intros h2 s2 [r|e] Hf2; [|done]. apply IH; [set_solver|done].
Qed.

Lemma drain_framed s k s1 h : framed s s1 → wpg (drainCandidate k) s1 h (λ _ s2 _, framed s s2).
Proof.
  intros Hf. unfold drainCandidate. go_step. apply wpg_deref; [|done]. intros bn _.
  repeat (split_match; [by go_step|]). apply wpg_fetch_checked; [done|].
  intros t node kds _ _ _. split_match.
  - apply wpg_requeue. intros s' Hk Ho. by eapply framed_kept.
  - unfold ensureDrain. go_step. go_step. destruct (cs_drains s1 !! bn_name bn); [by go_step|].
    do 6 go_step. apply (wpg_call (resp := resp) (StartDrain _ _ _)). by intros y.
Qed.

Lemma advance_framed s h : wpg advance s h (λ _ s' _, framed s s').
Proof.
  pose proof (framed_refl s) as H0. unfold advance. do 6 go_step.
  destruct (resolveMaxUnavailable _ _) as [mu|e]; [|done]. do 2 go_step.
  pose proof (λ k, partition_members (cs_owned s) (staged (cs_rs s)) k) as Hmem.
  destruct (partitionSlottedNodes _ _) as [sl un]. simpl in Hmem.
  go_step. eapply wpg_mono with (Φ := λ _ s' _, framed s s').
  2:{ apply (wpg_forEach_inv (λ _ s', framed s s')); [|done|done].
      intros k s' h' Hk Hf. go_step. eapply wpg_mono; [|apply (candidate_framed s); [by destruct (proj1 (proj1 (Hmem k)) Hk)|done]].
      intros h2 s2 [b|e] Hf2; [by go_step|done]. }
  intros h1 s1 [[]|e] H1; [|done]. go_step.
  eapply wpg_mono; [|apply (assignLoop_framed s); [intros k Hk; by destruct (proj1 (proj2 (Hmem k)) Hk)|done]].
  intros h2 s2 [[]|e] H2; [|done]. go_step. unfold requeueKarpenter. go_step. go_step.
  eapply wpg_mono with (Φ := λ _ s' _, framed s s').
  { intros h3 s3 [[]|e] H3; [|done].
    apply (wpg_forEach_inv (λ _ s', framed s s')); [|done|done].
    intros k s' h' _ H'. eapply wpg_mono; [|by apply drain_framed]. by intros ?? []. }
  destruct (existsb _ _); [|by go_step]. apply wpg_requeue. intros s' Hk Ho. by eapply framed_kept.
Qed.

(** The unhealthy slots of a state. *)
Definition unhealthyOf s : list unhealthySlot :=
  findUnhealthySlots (cs_owned s) (cs_rs s) (TargetDigest (pool_status (cs_pool s))).

(** Equal buckets, where [findUnhealthySlots] and the candidates look. *)
Definition same_buckets (rs rs' : rolloutState) : Prop :=
  degraded rs' = degraded rs ∧ upToDate rs' = upToDate rs ∧
  rebootTimedOutNodes rs' = rebootTimedOutNodes rs ∧ staged rs' = staged rs.

Lemma same_rs_buckets rs rs' :
  same_rs rs rs' → same_buckets rs rs'.
Proof. intros Hs. by destruct rs, rs'; injection Hs as <- <- <- <- <- <- <- <- <-. Qed.

Lemma framed_unhealthy s s' : separated (cs_rs s) → framed s s' → unhealthyOf s' = unhealthyOf s.
Proof.
  intros Hsep (Hp & Hr & Ho). unfold unhealthyOf. rewrite Hp.
  rewrite <- (findUnhealthy_ext (cs_owned s) (cs_owned s') (cs_rs s)).
  2:{ intros k Hw. apply Ho. intros Hst. by apply (Hsep k). }
  unfold findUnhealthySlots. destruct (same_rs_buckets _ _ Hr) as (-> & -> & -> & _). done.
Qed.

(** Classification separates the staged nodes from the watched ones. *)
Lemma classify_separated `{MapOrder} s h :
  still h → wpg classifyPass s h (λ h' s' _, still h' ∧ separated (cs_rs s')).
Proof.
  intros Hh. unfold classifyPass. do 6 go_step.
  pose proof (timeouts_shape (cs_owned s) (resolveRebootTimeout (cs_pool s)) x) as Hsh. cbv zeta in Hsh.
  destruct (applyRebootTimeouts _ _ _ _) as [rs rq]. simpl in Hsh.
  destruct Hsh as (out & Hd & Hto & Hup & Hst & _ & _ & _ & Hout).
  assert (separated rs) as Hsep.
  { intros k Hk Hw. unfold watched in Hw. rewrite Hd, Hto, Hup, elem_of_app in Hw. rewrite Hst in Hk.
    set (b := bucket (buildRolloutState (cs_owned s))).
    assert (k ∈ b nodeStateDegraded ∨ k ∈ b nodeStateUpToDate ∨ k ∈ b nodeStateRebooting) as Hb.
    { destruct Hw as [[?|?]|[?|?]]; auto. }
    destruct Hb as [Hb|[Hb|Hb]];
      by apply (bucket_disjoint (cs_owned s) nodeStateStaged _ k Hk) in Hb. }
  assert (still (h ++ [Ev Now x])) as Hh' by (apply still_app; [done|by apply still_one]).
  do 2 go_step. split_match.
  - unfold degradePool. do 3 go_step. split; [|done]. apply still_app; [done|by apply still_one].
  - by go_step.
Qed.

Lemma free_separated k s h :
  separated (cs_rs s) → wpg (freeCompletedSlot k) s h (λ _ s' _, separated (cs_rs s')).
Proof.
  intros Hs. apply wpg_freeCompletedSlot; [done|done| |done].
  intros bn t node tf b1 s' r _ _ _ _ _ _ _ ->. by destruct (is_ok r).
Qed.

Lemma degraded_at_least now reason message pool :
  (poolDegradedPrecedence reason <=
   precedenceOf (degradedReason (setPoolDegraded now reason message pool)))%Z.
Proof.
  rewrite degradedReason_set.
  destruct (Z.ltb_spec (poolDegradedPrecedence reason) (precedenceOf (degradedReason pool))); simpl; lia.
Qed.

(** ** When a node in a reboot slot is unhealthy

    The notion behind the brake, read off the API objects and the clock, apart
    from the buckets and lists of the code. *)

(** The instant after which a rebooting node counts as stuck. *)
Definition rebootDeadline (pool : BootcNodePool) (bn : BootcNode) (d : Z) : Prop :=
  ∃ ro n c, Rollout (pool_spec pool) = Some ro ∧ RebootTimeoutSeconds ro = Some n ∧ (0 < n)%Z ∧
    FindStatusCondition (bns_Conditions (bn_status bn)) NodeIdle = Some c ∧
    d = (instant (c_lastTransitionTime c) + n * 1000000000)%Z.

Inductive unhealthy (pool : BootcNodePool) (now : Z) (bn : BootcNode) : Prop :=
| un_unreported : daemonDegraded bn → Booted (bn_status bn) = None → unhealthy pool now bn
| un_degraded i :
    daemonDegraded bn → Booted (bn_status bn) = Some i →
    carries_digest i (TargetDigest (pool_status pool)) → unhealthy pool now bn
| un_notReady : effective bn nodeStateUpToDate → unhealthy pool now bn
| un_stuck d :
    effective bn nodeStateRebooting → rebootDeadline pool bn d → (d < now)%Z → unhealthy pool now bn.

(** [rebootTimeoutSeconds] is an int32. *)
Definition timeoutTyped (pool : BootcNodePool) : Prop :=
  ∀ ro n, Rollout (pool_spec pool) = Some ro → RebootTimeoutSeconds ro = Some n → GoInt.in32 n.

(** [s] is a state after the classification, at [now], of the store [owned]:
    its buckets are those of that classification and only BootcNodes that were
    up to date may have changed since. *)
Record pictures `{MapOrder} (pool : BootcNodePool) (owned : gmap string BootcNode) (now : Z) s : Prop := {
  pc_rs : same_buckets
    (applyRebootTimeouts owned (buildRolloutState owned) (resolveRebootTimeout pool) now).1 (cs_rs s);
  pc_owned k : k ∉ upToDate (cs_rs s) → cs_owned s !! k = owned !! k;
  pc_pool : reconditioned pool (cs_pool s)
}.

(** The keys behind [findUnhealthySlots]. *)
Definition unhealthyKeys s : list string :=
  List.filter (λ k, slotted (cs_owned s) k &&
      degradedOnTarget (cs_owned s) (TargetDigest (pool_status (cs_pool s))) k) (degraded (cs_rs s)) ++
  List.filter (slotted (cs_owned s)) (upToDate (cs_rs s)) ++
  List.filter (slotted (cs_owned s)) (rebootTimedOutNodes (cs_rs s)).

Lemma unhealthyKeys_length s : length (unhealthyKeys s) = length (unhealthyOf s).
Proof.
  unfold unhealthyKeys, unhealthyOf, findUnhealthySlots. by rewrite !length_app, !length_fmap.
Qed.

Lemma timedOut_deadline pool owned now k bn :
  timeoutTyped pool → owned !! k = Some bn → effective bn nodeStateRebooting →
  timedOut owned (resolveRebootTimeout pool) now k = true ↔
    ∃ d, rebootDeadline pool bn d ∧ (d < now)%Z.
Proof.
  intros Hty Hk He. inversion He as [| | | | |_ (c & Hc & _ & Hr)|]; subst.
  assert (rebootingSince owned k (instant (c_lastTransitionTime c))) as Hs by (exists bn, c; done).
  unfold resolveRebootTimeout, rebootDeadline.
  destruct (Rollout (pool_spec pool)) as [ro|] eqn:Ero; [destruct (RebootTimeoutSeconds ro) as [n|] eqn:En|].
  - pose proof (Hty _ _ Ero En) as Hn. rewrite (GoInt.wrap64_id _ (GoInt.seconds_in64 _ Hn)).
    destruct (decide (0 < n)%Z) as [Hp|Hp].
    + assert (0 < n * GoInt.Second < GoInt.maxInt64)%Z as Hr64
        by (unfold GoInt.in32, GoInt.minInt32, GoInt.maxInt32, GoInt.maxInt64, GoInt.Second in *; lia).
      rewrite (timedOut_since _ _ _ _ _ Hr64 Hs). unfold GoInt.Second. split.
      * intros Hlt. eexists. split; [|exact Hlt]. by exists ro, n, c.
      * intros (d & (ro' & n' & c' & [= <-] & Hn' & _ & Hc' & ->) & Hlt). congruence.
    + unfold timedOut, rebootTimedOut. rewrite Hk, (proj2 (Z.leb_le _ _)) by (unfold GoInt.Second; lia).
      split; [done|]. intros (d & (ro' & n' & c' & [= <-] & Hn' & Hp' & _) & _). simplify_eq. lia.
  - unfold timedOut, rebootTimedOut. rewrite Hk. split; [done|].
    intros (d & (ro' & n' & c' & [= <-] & ? & _) & _). congruence.
  - unfold timedOut, rebootTimedOut. rewrite Hk. split; [done|].
    by intros (d & (ro' & n' & c' & ? & _) & _).
Qed.

Section Picture.
Context `{MapOrder} {pool : BootcNodePool} {owned : gmap string BootcNode} {now : Z} {s : CState}.
Hypothesis Hpic : pictures pool owned now s.

Lemma pictures_bucket st k bn :
  owned !! k = Some bn → k ∈ bucket (buildRolloutState owned) st ↔ effective bn st.
Proof.
  intros Hk. rewrite elem_of_bucket, <- (classify_iff bn st). split; [|eauto].
  intros (bn' & ? & ?). congruence.
Qed.

Lemma pictures_up k : k ∈ upToDate (cs_rs s) ↔ k ∈ bucket (buildRolloutState owned) nodeStateUpToDate.
Proof.
  destruct Hpic as [(_ & -> & _) _ _].
  by destruct (timeouts_shape owned (resolveRebootTimeout pool) now) as (out & _ & _ & -> & _).
Qed.

Lemma pictures_stuck k :
  k ∈ rebootTimedOutNodes (cs_rs s) ↔
    k ∈ bucket (buildRolloutState owned) nodeStateRebooting ∧
    timedOut owned (resolveRebootTimeout pool) now k = true.
Proof. destruct Hpic as [(_ & _ & -> & _) _ _]. apply timeouts_members. Qed.

Lemma pictures_degraded k :
  k ∈ degraded (cs_rs s) ↔
    k ∈ bucket (buildRolloutState owned) nodeStateDegraded ∨ k ∈ rebootTimedOutNodes (cs_rs s).
Proof.
  destruct Hpic as [(-> & _ & -> & _) _ _].
  destruct (timeouts_shape owned (resolveRebootTimeout pool) now) as (out & -> & -> & _).
  apply elem_of_app.
Qed.

Lemma pictures_member st k : k ∈ bucket (buildRolloutState owned) st → is_Some (owned !! k).
Proof. rewrite elem_of_bucket. intros (bn & ? & _). eauto. Qed.

(** A node that was not up to date is as it was classified. *)
Lemma pictures_same st k :
  k ∈ bucket (buildRolloutState owned) st → st ≠ nodeStateUpToDate → cs_owned s !! k = owned !! k.
Proof.
  intros Hk Hne. apply (pc_owned _ _ _ _ Hpic). rewrite pictures_up. intros Hu.
  by apply (bucket_disjoint owned _ _ _ Hk) in Hu.
Qed.

Lemma pictures_unhealthy k bn :
  timeoutTyped pool → owned !! k = Some bn → slotted (cs_owned s) k = true →
  k ∈ unhealthyKeys s ↔ unhealthy pool now bn.
Proof.
  intros Hty Hk Hsl. unfold unhealthyKeys. rewrite !elem_of_app, !elem_of_filter_b, Hsl. cbn [andb].
  rewrite pictures_degraded, pictures_up, pictures_stuck, !(pictures_bucket _ _ _ Hk).
  rewrite (reconditioned_target _ _ (pc_pool _ _ _ _ Hpic)).
  assert (effective bn nodeStateRebooting → timedOut owned (resolveRebootTimeout pool) now k = true →
    unhealthy pool now bn) as Hstuck.
  { intros He Hto. apply (timedOut_deadline pool owned now k bn Hty Hk He) in Hto as (d & ? & ?).
    by eapply un_stuck. }
  assert (effective bn nodeStateDegraded →
    degradedOnTarget (cs_owned s) (TargetDigest (pool_status pool)) k = true ↔
    (Booted (bn_status bn) = None ∨
     ∃ i, Booted (bn_status bn) = Some i ∧ carries_digest i (TargetDigest (pool_status pool)))) as Hon.
  { intros He%(pictures_bucket _ _ _ Hk). unfold degradedOnTarget.
    rewrite (pictures_same _ _ He) by done. rewrite Hk. destruct (Booted (bn_status bn)) as [i|].
    - rewrite match_booted. split; [eauto|]. by intros [?|(? & [= <-] & ?)].
    - split; [by left|done]. }
  split.
  - intros [[Hd [He|[He Hto]]]|[[_ He]|[_ [He Hto]]]]; [|by apply Hstuck|by apply un_notReady|by apply Hstuck].
    assert (daemonDegraded bn) by (by inversion He). apply (Hon He) in Hd as [Hb|(i & Hb & Hc)].
    + by apply un_unreported.
    + by eapply un_degraded.
  - intros [Hd Hb|i Hd Hb Hc|He|d He Hdl Hlt].
    + left. pose proof (eff_degraded bn Hd) as He. split; [|by left]. apply (Hon He). by left.
    + left. pose proof (eff_degraded bn Hd) as He. split; [|by left]. apply (Hon He). eauto.
    + right; left. done.
    + right; right. split; [done|]. split; [done|].
      apply (timedOut_deadline pool owned now k bn Hty Hk He). eauto.
Qed.

Lemma pictures_keys k : k ∈ unhealthyKeys s → slotted (cs_owned s) k = true ∧ is_Some (owned !! k).
Proof.
  unfold unhealthyKeys. rewrite !elem_of_app, !elem_of_filter_b, andb_true_iff.
  rewrite pictures_degraded, pictures_up, pictures_stuck.
  intros [[[Hs _] [Hk|[Hk _]]]|[[Hs Hk]|[Hs [Hk _]]]]; (split; [done|by eapply pictures_member]).
Qed.

(** The brake counts nodes, not symptoms: a timed-out node sits in two of the
    lists, but is counted once. *)
Lemma pictures_NoDup : synced owned (TargetDigest (pool_status pool)) → NoDup (unhealthyKeys s).
Proof.
  intros Hsync. pose proof pictures_stuck as Hst. unfold unhealthyKeys.
  rewrite (reconditioned_target _ _ (pc_pool _ _ _ _ Hpic)).
  pose proof Hpic as [(Hd & Hu & Hto & _) _ _].
  destruct (timeouts_shape owned (resolveRebootTimeout pool) now)
    as (out & Ed & Eo & Eu & _ & _ & _ & Hnd & Hsub).
  rewrite Hto, Eo in *. rewrite Hd, Ed, Hu, Eu, List.filter_app, (filter_none _ out), app_nil_r.
  2:{ intros k Hk. apply Hst in Hk as [Hk _]. unfold degradedOnTarget.
      rewrite (pictures_same _ _ Hk) by done. fold (degradedOnTarget owned (TargetDigest (pool_status pool)) k).
      rewrite (rebooting_not_on_target owned _ k Hsync), andb_false_r; [done|].
      rewrite build_bucket, elem_of_filter_b in Hk. by destruct Hk. }
  rewrite !NoDup_app. split_and!.
  - apply NoDup_filter_b, (bucket_NoDup owned nodeStateDegraded).
  - intros k. rewrite elem_of_app, !elem_of_filter_b. intros [_ Hk] [[_ Hk']|[_ Hk']].
    + by pose proof (bucket_disjoint owned nodeStateDegraded nodeStateUpToDate k Hk Hk').
    + by pose proof (bucket_disjoint owned nodeStateDegraded nodeStateRebooting k Hk (Hsub _ Hk')).
  - apply NoDup_filter_b, (bucket_NoDup owned nodeStateUpToDate).
  - intros k. rewrite !elem_of_filter_b. intros [_ Hk] [_ Hk'].
    by pose proof (bucket_disjoint owned nodeStateUpToDate nodeStateRebooting k Hk (Hsub _ Hk')).
  - by apply NoDup_filter_b.
Qed.
End Picture.

Lemma unhealthy_unstaged pool now bn : unhealthy pool now bn → ¬ effective bn nodeStateStaged.
Proof.
  intros Hu He. destruct Hu as [Hd _|i Hd _ _|He'|d He' _ _].
  - by apply (effective_functional _ _ _ (eff_degraded _ Hd)) in He.
  - by apply (effective_functional _ _ _ (eff_degraded _ Hd)) in He.
  - by apply (effective_functional _ _ _ He') in He.
  - by apply (effective_functional _ _ _ He') in He.
Qed.

(** ** The pass *)

(** A pass from [s] with history [h] ended in [s']: node [k] was unhealthy at
    [now] by the BootcNode the pass started with, which no finished drain made the
    pass write since, and it holds its reboot slot at the end. *)
Record unhealthySlotted s h s' (now : Z) (k : string) : Prop := {
  uh_undrained : Ev (PollDrain k) (Some None) ∉ h;
  uh_node : ∃ bn, cs_owned s !! k = Some bn ∧ unhealthy (cs_pool s) now bn;
  uh_slot : ∃ bn v, cs_owned s' !! k = Some bn ∧
              GoMap.lookup (bn_annotations bn) AnnotationInRebootSlot = Some v
}.

Lemma slotted_lookup (owned : gmap string BootcNode) k :
  slotted owned k = true ↔
    ∃ bn v, owned !! k = Some bn ∧ GoMap.lookup (bn_annotations bn) AnnotationInRebootSlot = Some v.
Proof.
  unfold slotted. destruct (owned !! k) as [bn|].
  - rewrite has_annotation_spec. unfold GoMap.has. rewrite bool_decide_eq_true. split.
    + intros [v Hv]. eauto.
    + intros (bn' & v & [= <-] & Hv). by exists v.
  - split; [done|]. by intros (? & ? & ? & _).
Qed.

(** What holds between the classification and the brake. *)
Record atBrake `{MapOrder} s h s' (owned : gmap string BootcNode) (now : Z) : Prop := {
  ab_still : still h;
  ab_separated : separated (cs_rs s');
  ab_now : Ev Now now ∈ h;
  ab_owned k : Ev (PollDrain k) (Some None) ∉ h → owned !! k = cs_owned s !! k;
  ab_pic : pictures (cs_pool s) owned now s';
  ab_reason : degradedReason (cs_pool s') = Some PoolRolloutHalted →
              degradedReason (cs_pool s) = Some PoolRolloutHalted
}.

Lemma atBrake_extend `{MapOrder} s h t s1 s2 owned now :
  atBrake s h s1 owned now → still t → cs_pool s2 = cs_pool s1 → same_buckets (cs_rs s1) (cs_rs s2) →
  (∀ k, k ∉ upToDate (cs_rs s1) → cs_owned s2 !! k = cs_owned s1 !! k) →
  atBrake s (h ++ t) s2 owned now.
Proof.
  intros [H1 H2 H3 H4 [(Hd & Hu & Ht & Hs) H5 H6] H7] Hst Hp (Ed & Eu & Et & Es) Ho. split.
  - by apply still_app.
  - unfold separated, watched. by rewrite Es, Ed, Eu, Et.
  - apply elem_of_app. by left.
  - intros k Hk. apply H4. intros Hin. apply Hk, elem_of_app. by left.
  - split.
    + unfold same_buckets. rewrite Ed, Eu, Et, Es. by split_and!.
    + intros k. rewrite Eu. intros Hk. by rewrite Ho, H5.
    + by rewrite Hp.
  - by rewrite Hp.
Qed.

Lemma collect_untouched `{MapOrder} s :
  wpg collectDrainResults s [] (λ h s1 _, still h ∧ cs_pool s1 = cs_pool s ∧
    ∀ k, Ev (PollDrain k) (Some None) ∉ h → cs_owned s1 !! k = cs_owned s !! k).
Proof.
  unfold collectDrainResults. go_step. go_step.
  apply (wpg_forEach_inv (λ h s1, still h ∧ cs_pool s1 = cs_pool s ∧
    ∀ k, Ev (PollDrain k) (Some None) ∉ h → cs_owned s1 !! k = cs_owned s !! k)); [| |done].
  2:{ split_and!; [|done|done]. intros e He. by apply elem_of_nil in He. }
  intros n s1 h _ (Hh & Hp & Ho).
  eapply wpg_mono; [|apply (wpg_and _ _ _ (λ h' _ _, still h') (λ h' s' _, cs_pool s' = cs_pool s ∧ ∀ k,
    Ev (PollDrain k) (Some None) ∉ h' → cs_owned s' !! k = cs_owned s !! k));
    [by apply (collect_still n s1 h)|]].
  { by intros h' s' [] [? ?]. }
  assert (∀ k t, Ev (PollDrain k) (Some None) ∉ h ++ t → cs_owned s1 !! k = cs_owned s !! k) as Ho'.
  { intros k t Hk. apply Ho. intros Hin. apply Hk, elem_of_app. by left. }
  apply wpg_collectDrainResult.
  - split; [done|]. intros k Hk. by eapply Ho'.
  - intros res c t s' _ _. split; [done|]. intros k Hk. by eapply Ho'.
  - intros bn c x s' _. destruct x as [got|e]; (split; [done|]); intros k Hk; [|by eapply Ho'].
    destruct (decide (k = n)) as [->|Hne].
    + exfalso. apply Hk. rewrite elem_of_app, elem_of_cons. right; left. done.
    + cbn [setOwned cs_owned]. rewrite lookup_insert_ne by done. by eapply Ho'.
Qed.

Lemma classify_atBrake `{MapOrder} s h s1 :
  still h → cs_pool s1 = cs_pool s →
  (∀ k, Ev (PollDrain k) (Some None) ∉ h → cs_owned s1 !! k = cs_owned s !! k) →
  wpg classifyPass s1 h (λ h' s2 r, is_ok r = true ∧ ∃ now, atBrake s h' s2 (cs_owned s1) now).
Proof.
  intros Hh Hp Ho. eapply wpg_mono; [|apply (wpg_and _ _ _ (λ h' s2 _, still h' ∧ separated (cs_rs s2)) (λ h' s2 r, still h' → separated (cs_rs s2) →
    is_ok r = true ∧ ∃ now, atBrake s h' s2 (cs_owned s1) now)); [by apply (classify_separated s1 h)|]].
  { intros h' s' r [[H1 H2] H3]. by apply H3. }
  unfold classifyPass. do 6 go_step. set (a := applyRebootTimeouts _ _ _ x).
  assert (∀ s2 t, cs_rs s2 = setRequeue a.2 a.1 → cs_owned s2 = cs_owned s1 →
    reconditioned (cs_pool s) (cs_pool s2) →
    (degradedReason (cs_pool s2) = Some PoolRolloutHalted →
     degradedReason (cs_pool s) = Some PoolRolloutHalted) →
    still ((h ++ [Ev Now x]) ++ t) → separated (cs_rs s2) →
    ∃ now, atBrake s ((h ++ [Ev Now x]) ++ t) s2 (cs_owned s1) now) as Hend.
  { intros s2 t Hrs Hs2 Hpool Hreason H1 H2. exists x. split; [done|done| | | |done].
    - apply elem_of_app. left. apply elem_of_app. right. by apply list_elem_of_singleton.
    - intros k Hk. apply Ho. intros Hin. apply Hk. rewrite !elem_of_app. by left; left.
    - split; [|by rewrite Hs2|done]. rewrite Hrs. unfold a. rewrite Hp. by split_and!. }
  destruct a as [rs rq] eqn:Ea. cbn [fst snd] in Hend. do 2 go_step. split_match.
  - unfold degradePool. do 3 go_step. intros H1 H2. split; [done|]. apply Hend; try done.
    + cbn. rewrite <- Hp. apply setPoolDegraded_reconditioned.
    + cbn [cs_pool setPool setRS]. rewrite degradedReason_set, Hp. by split_match.
  - go_step. intros H1 H2. split; [done|]. rewrite <- (app_nil_r (h ++ _)). rewrite <- (app_nil_r (h ++ _)) in H1.
    apply Hend; try done; cbn; by rewrite Hp.
Qed.

Lemma free_atBrake `{MapOrder} s k s1 h owned now :
  k ∈ upToDate (cs_rs s1) → atBrake s h s1 owned now →
  wpg (freeCompletedSlot k) s1 h (λ h' s2 _, upToDate (cs_rs s2) = upToDate (cs_rs s1) ∧
    atBrake s h' s2 owned now).
Proof.
  intros Hk Hc. pose proof (ab_still _ _ _ _ _ Hc) as Hh.
  eapply wpg_mono; [|apply (wpg_and _ _ _ (λ h' _ _, still h') (λ h' s2 _, still h' →
    upToDate (cs_rs s2) = upToDate (cs_rs s1) ∧ atBrake s h' s2 owned now)); [by apply free_still|]].
  { intros h' s' r [H1 H2]. by apply H2. }
  assert (∀ t s2, still (h ++ t) → cs_pool s2 = cs_pool s1 → same_buckets (cs_rs s1) (cs_rs s2) →
    (∀ k', k' ≠ k → cs_owned s2 !! k' = cs_owned s1 !! k') →
    upToDate (cs_rs s2) = upToDate (cs_rs s1) ∧ atBrake s (h ++ t) s2 owned now) as Hend.
  { intros t s2 Hst Hp Hb Ho. split; [by destruct Hb as (_ & ? & _)|].
    eapply atBrake_extend; [done| |done|done|].
    - intros e He. apply Hst, elem_of_app. by right.
    - intros k' Hk'. apply Ho. by intros ->. }
  apply wpg_freeCompletedSlot.
  - intros _ e _. done.
  - intros t r _ Hst. by apply Hend.
  - intros bn t node tf b1 s' r _ _ _ _ _ _ _ -> Hst. apply Hend; try done; [by destruct (is_ok r)|].
    intros k' Hk'. by apply lookup_insert_ne.
  - intros bn t node tf b1 r _ _ _ _ _ _ _ Hst. apply Hend; try done.
    intros k' Hk'. by apply lookup_insert_ne.
Qed.

(** Two unhealthy nodes make two entries, and the other way round. *)
Lemma atBrake_two `{MapOrder} s h s' owned now k1 k2 :
  timeoutTyped (cs_pool s) → atBrake s h s' owned now → k1 ≠ k2 →
  unhealthySlotted s h s' now k1 → unhealthySlotted s h s' now k2 → 2 ≤ length (unhealthyOf s').
Proof.
  intros Hty Hc Hne H1 H2. rewrite <- unhealthyKeys_length.
  assert (∀ k, unhealthySlotted s h s' now k → k ∈ unhealthyKeys s') as Hin.
  { intros k [Hd (bn & Hk & Hu) Hs%slotted_lookup]. rewrite <- (ab_owned _ _ _ _ _ Hc k Hd) in Hk.
    by apply (pictures_unhealthy (ab_pic _ _ _ _ _ Hc) k bn). }
  apply Hin in H1, H2. destruct (unhealthyKeys s') as [|a [|b l]]; [by apply elem_of_nil in H1| |simpl; lia].
  apply list_elem_of_singleton in H1, H2. congruence.
Qed.

Lemma atBrake_found `{MapOrder} s h s' owned now :
  timeoutTyped (cs_pool s) → atBrake s h s' owned now →
  synced (cs_owned s) (TargetDigest (pool_status (cs_pool s))) →
  (∀ k, Ev (PollDrain k) (Some None) ∉ h) → 2 ≤ length (unhealthyOf s') →
  ∃ k1 k2, k1 ≠ k2 ∧ unhealthySlotted s h s' now k1 ∧ unhealthySlotted s h s' now k2.
Proof.
  intros Hty Hc Hsync Hnd Hlen. rewrite <- unhealthyKeys_length in Hlen.
  pose proof (λ k, ab_owned _ _ _ _ _ Hc k (Hnd k)) as Ho. pose proof (ab_pic _ _ _ _ _ Hc) as Hpic.
  assert (NoDup (unhealthyKeys s')) as Hdup.
  { apply (pictures_NoDup Hpic). intros k bn. rewrite Ho. apply Hsync. }
  assert (∀ k, k ∈ unhealthyKeys s' → unhealthySlotted s h s' now k) as Hin.
  { intros k Hk. destruct (pictures_keys Hpic k Hk) as [Hs [bn Hbn]]. split; [done| |by apply slotted_lookup].
    exists bn. rewrite <- Ho. split; [done|]. by apply (pictures_unhealthy Hpic k bn). }
  destruct (unhealthyKeys s') as [|a [|b l]]; [simpl in Hlen; lia..|]. exists a, b. split_and!.
  - intros ->. apply NoDup_cons in Hdup as [Hn _]. apply Hn. set_solver.
  - apply Hin. set_solver.
  - apply Hin. set_solver.
Qed.

(** A node that ends the pass unhealthy was so at the brake: [advance] only
    touches staged nodes. *)
Lemma unhealthy_before `{MapOrder} s h t s3 s4 owned now k :
  atBrake s h s3 owned now → framed s3 s4 →
  unhealthySlotted s (h ++ t) s4 now k → unhealthySlotted s h s3 now k.
Proof.
  intros Hc (_ & _ & Ho) [Hd (bn & Hk & Hu) Hs].
  assert (Ev (PollDrain k) (Some None) ∉ h) as Hd' by (intros ?; apply Hd, elem_of_app; by left).
  split; [done|eauto|]. rewrite Ho in Hs; [done|]. intros Hst.
  destruct (ab_pic _ _ _ _ _ Hc) as [(_ & _ & _ & Es) _ _]. rewrite Es in Hst.
  destruct (timeouts_shape owned (resolveRebootTimeout (cs_pool s)) now) as (out & _ & _ & _ & Est & _).
  rewrite Est in Hst. apply (unhealthy_unstaged _ _ _ Hu).
  apply (pictures_bucket (owned := owned) nodeStateStaged k); [by rewrite (ab_owned _ _ _ _ _ Hc)|done].
Qed.

Lemma halted_reason reason :
  (poolDegradedPrecedence PoolRolloutHalted <= precedenceOf reason)%Z →
  reason ∈ [Some PoolRolloutHalted; Some PoolInvalidSpec; Some PoolTagResolutionError].
Proof.
  change (poolDegradedPrecedence PoolRolloutHalted) with 4%Z.
  destruct reason as [r|]; simpl; [|lia]. unfold poolDegradedPrecedence.
  repeat (split_match; [try lia;
    match goal with H : (r =s _) = true |- _ => apply seq_b_true in H as -> end; intros _; set_solver|]).
  lia.
Qed.

(** C6. The safety brake, for every pass of [driveRollout]. If two different
    nodes are unhealthy in their reboot slots then the pass hands out no slot and
    starts no drain, and when it succeeds the pool is Degraded with reason
    RolloutHalted, or InvalidSpec or TagResolutionError, which mask it. A node
    counts when it keeps its slot to the end of the pass and its BootcNode says
    so: degraded and either booted into the target digest or without any booted
    report; up to date (rebooted, but not released since the Node is not Ready);
    or rebooting for longer than the pool's rebootTimeoutSeconds at every clock
    reading of the pass. Conversely, in a pass that collects no successful drain
    and starts with specs synced to the target, a new RolloutHalted means that the
    pass handed out nothing and that two different nodes are unhealthy in this
    sense at a clock reading of the pass. *)
Theorem driveRollout_halts `{MapOrder} s :
  timeoutTyped (cs_pool s) →
  wpg driveRollout s [] (λ h s' r,
    (∀ k1 k2, k1 ≠ k2 →
       (∀ now, Ev Now now ∈ h →
          unhealthySlotted s h s' now k1 ∧ unhealthySlotted s h s' now k2) →
       still h ∧
       (is_ok r = true → degradedReason (cs_pool s') ∈
          [Some PoolRolloutHalted; Some PoolInvalidSpec; Some PoolTagResolutionError])) ∧
    (degradedReason (cs_pool s) ≠ Some PoolRolloutHalted →
     synced (cs_owned s) (TargetDigest (pool_status (cs_pool s))) →
     (∀ k, Ev (PollDrain k) (Some None) ∉ h) →
     degradedReason (cs_pool s') = Some PoolRolloutHalted →
     still h ∧ ∃ now k1 k2, Ev Now now ∈ h ∧ k1 ≠ k2 ∧
       unhealthySlotted s h s' now k1 ∧ unhealthySlotted s h s' now k2)).
Proof.
  intros Hty. unfold driveRollout. go_step. go_step. eapply wpg_mono; [|apply collect_untouched].
  intros h1 s1 [[]|e] (H1 & Hp1 & Ho1); [|split; [done|by rewrite Hp1]]. go_step.
  eapply wpg_mono; [|by apply (classify_atBrake s h1 s1)].
  intros h2 s2 [[]|e] [[=] [now Hc2]]. go_step. go_step.
  eapply wpg_mono with (Φ := λ h3 s3 _, atBrake s h3 s3 (cs_owned s1) now).
  2:{ unfold freeCompletedSlots. go_step. go_step.
      apply (wpg_forEach_inv (λ h3 s3, upToDate (cs_rs s3) = upToDate (cs_rs s2) ∧
        atBrake s h3 s3 (cs_owned s1) now)); [|done|by intros ?? []].
      intros k s3 h3 Hk [Hu3 Hc3]. eapply wpg_mono; [|apply (free_atBrake s); [by rewrite Hu3|done]].
      intros h4 s4 [[]|e] [Hu4 Hc4]; [|done]. by rewrite Hu4. }
  intros h3 s3 [[]|e] Hc3; pose proof (ab_still _ _ _ _ _ Hc3) as H3.
  2:{ split; [done|]. intros Hn _ _ Hr. by apply (ab_reason _ _ _ _ _ Hc3) in Hr. }
  do 6 go_step. go_step. fold (unhealthyOf s3).
  destruct (Nat.leb_spec unhealthySlotHaltThreshold (length (unhealthyOf s3))) as [Hle|Hlt];
    unfold unhealthySlotHaltThreshold in *.
  - unfold degradePool. do 3 go_step. go_step. assert (still (h3 ++ [Ev Now x])) as Hst.
    { apply still_app; [done|by apply still_one]. }
    split; [intros k1 k2 _ _; split; [done|intros _; apply halted_reason, degraded_at_least]|].
    intros _ Hsync Hnd _. split; [done|].
    assert (∀ k, Ev (PollDrain k) (Some None) ∉ h3) as Hnd3.
    { intros k Hk. apply (Hnd k), elem_of_app. by left. }
    destruct (atBrake_found s h3 s3 (cs_owned s1) now Hty Hc3 Hsync Hnd3 Hle) as (k1 & k2 & Hne & Hu1 & Hu2).
    exists now, k1, k2. split_and!; [apply elem_of_app; left; apply (ab_now _ _ _ _ _ Hc3)|done| |].
    + by destruct Hu1.
    + by destruct Hu2.
  - eapply wpg_mono; [|apply wpg_and; [apply wpg_history|apply advance_framed]].
    intros h4 s4 r [[t ->] Hf]. assert (
      (∀ k1 k2, k1 ≠ k2 → ¬ (∀ now, Ev Now now ∈ h3 ++ t →
          unhealthySlotted s (h3 ++ t) s4 now k1 ∧ unhealthySlotted s (h3 ++ t) s4 now k2)) ∧
      (degradedReason (cs_pool s) ≠ Some PoolRolloutHalted →
       degradedReason (cs_pool s4) ≠ Some PoolRolloutHalted)) as [Ha Hb].
    { split.
      - intros k1 k2 Hne Hall. destruct (Hall now) as [Hu1 Hu2].
        { apply elem_of_app. left. apply (ab_now _ _ _ _ _ Hc3). }
        pose proof (unhealthy_before _ _ _ _ _ _ _ _ Hc3 Hf Hu1) as Hv1.
        pose proof (unhealthy_before _ _ _ _ _ _ _ _ Hc3 Hf Hu2) as Hv2.
        pose proof (atBrake_two _ _ _ _ _ _ _ Hty Hc3 Hne Hv1 Hv2). lia.
      - intros Hn Hr. destruct Hf as (Hp & _). rewrite Hp in Hr. by apply (ab_reason _ _ _ _ _ Hc3) in Hr. }
    destruct r as [[]|e]; [go_step|]; (split; [intros k1 k2 Hne Hall; by destruct (Ha k1 k2 Hne)|]);
      intros Hn _ _ Hr; by destruct (Hb Hn).
Qed.
End Halt.
