(* ===== verification/RolloutProgress.v ===== *)
(** * RolloutProgress: a pass leaves nothing undone

    The counterpart of [RolloutCapacity] and [RolloutHalt]: a pass that succeeds
    and is not halted uses the capacity it may use, and every node in a slot that
    waits for its reboot is being drained, unless Karpenter is in the way; then the
    pass asks to come back within [karpenterRequeueInterval]. *)

From S2P Require Import Prelude Effects Types Library LibModel Client Samples Sim Image Karpenter Classify PoolStatus Slots Utf8 Events Drain Rollout RolloutSafety RolloutCapacity RolloutHalt.

Section Progress.
Context {L : Lib} {HL : LibLaws L} {C : Config}.
Implicit Types (h t : history) (s : CState) (l : list string).

(** The pass comes back soon. *)
Definition paced s : Prop := (0 < requeueAfter (cs_rs s) <= karpenterRequeueInterval)%Z.

Lemma wpg_requeue_paced s h (Φ : history → CState → result unit → Prop) :
  (∀ s', paced s' → cs_owned s' = cs_owned s → cs_drains s' = cs_drains s → Φ h s' (Ok tt)) →
  wpg (requeue karpenterRequeueInterval) s h Φ.
Proof.
  intros H. unfold requeue, modifyRS. go_step. apply H; [|done|done]. unfold paced. simpl.
  unfold earlierRequeue, karpenterRequeueInterval, GoInt.Second.
  destruct (Z.leb_spec (30 * 1000000000) 0); [lia|].
  destruct (Z.leb_spec (requeueAfter (cs_rs s)) 0); simpl; [lia|].
  destruct (Z.ltb_spec (30 * 1000000000) (requeueAfter (cs_rs s))); simpl; lia.
Qed.

(** A candidate is deferred only with a requeue. *)
Lemma candidate_paced k s h :
  wpg (processCandidate k) s h (λ _ s' r, (paced s → paced s') ∧ (r = Ok false → paced s')).
Proof.
  unfold processCandidate. go_step. apply wpg_deref; [|done]. intros bn _. apply wpg_fetch_checked; [done|].
  intros t node kds _ _ _. split_match.
  { go_step. apply wpg_requeue_paced. intros s' Hp _ _. by go_step. }
  go_step. go_step. unfold onPair. unfold wpg. apply wp_bind.
  eapply wp_mono; [|apply (wp_history (assignRebootSlot (kds_prefetchedClaim kds) (bn, node)))].
  intros h' [[b1 n1] r] _. simpl. destruct r as [[]|e]; [|done].
  change (wpg ((if isNodeOwnedByKarpenterNodeClaim n1 then requeue karpenterRequeueInterval else ret tt) ;;; ret true)%go
    (setOwned k b1 s) h' (λ _ s' r, (paced s → paced s') ∧ (r = Ok false → paced s'))).
  go_step. destruct (isNodeOwnedByKarpenterNodeClaim n1).
  - apply wpg_requeue_paced. intros s' Hp _ _. by go_step.
  - go_step. by go_step.
Qed.

(** What [s'] has over [s], when only the BootcNode [k] was worked on: no slot is
    lost, and a node without a slot that gets one adds one. *)
Definition gained k (got : bool) s s' : Prop :=
  (∀ j, j ≠ k → cs_owned s' !! j = cs_owned s !! j) ∧
  (slotted (cs_owned s) k = true → slotted (cs_owned s') k = true) ∧
  (got = true → slotted (cs_owned s') k = true) ∧
  slots (cs_owned s) ≤ slots (cs_owned s') ∧
  (got = true → slotted (cs_owned s) k = false → slots (cs_owned s') = S (slots (cs_owned s))).

Lemma gained_same k s s' : cs_owned s' = cs_owned s → gained k false s s'.
Proof. intros Ho. unfold gained. by rewrite Ho. Qed.

Lemma gained_insert k got bn b1 s s' :
  cs_owned s !! k = Some bn → cs_owned s' = <[k := b1]> (cs_owned s) →
  (isSlotted bn = true → isSlotted b1 = true) → (got = true → isSlotted b1 = true) →
  gained k got s s'.
Proof.
  intros Hk Ho H1 H2. pose proof (slots_insert _ _ bn b1 Hk) as Hs. unfold gained. rewrite Ho.
  rewrite (slotted_isSlotted (cs_owned s) k bn Hk).
  rewrite (slotted_isSlotted (<[k := b1]> (cs_owned s)) k b1) by apply lookup_insert_eq.
  split_and!; [intros j Hj; by rewrite lookup_insert_ne|done|done|..].
  - destruct (isSlotted bn), (isSlotted b1); naive_solver lia.
  - intros Hg Hb. rewrite Hb, (H2 Hg) in Hs. lia.
Qed.

Definition assigned (r : result bool) : bool := match r with Ok b => b | Err _ => false end.

(** One candidate, when nobody else writes. *)
Lemma candidate_gained k s h :
  wpg (processCandidate k) s h (λ h' s' r, quiet_history h' → gained k (assigned r) s s').
Proof.
  apply wpg_processCandidate.
  - intros _ e _. by apply gained_same.
  - intros bn t s' r _ _ _ Ho Hr _. replace (assigned r) with false by (by destruct r as [[]|]). by apply gained_same.
  - intros bn t node claim b' n' c' ta s' b1 r Hbn _ _ _ _ Hplan _ Hb1 Hok _ Ho.
    rewrite !Forall_app. intros (_ & _ & Hq). destruct Hplan as [Hpb Hps _ _ _ _ _].
    assert (isSlotted b' = true) as Hb' by (rewrite isSlotted_spec; apply GoMap.has_true; rewrite Hps; eauto).
    eapply gained_insert; [done|done| |].
    + intros Hsl. destruct Hb1 as [->|Hin]; [done|]. by rewrite (quiet_slotted _ _ _ _ Hq Hin).
    + intros Hr. destruct r as [[]|]; try done. destruct (Hok eq_refl) as [_ Hba].
      destruct (bn_after_quiet _ _ _ _ Hq Hpb Hba) as [Hext _].
      rewrite isSlotted_spec in *. unfold GoMap.has in *. by rewrite (Hext _).
Qed.

(** ** The two loops over candidates *)

(** Over a whole loop: slots are kept, and so is a requeue. *)
Definition onward s h' s' : Prop :=
  (paced s → paced s') ∧
  (quiet_history h' → slots (cs_owned s) ≤ slots (cs_owned s') ∧
     ∀ j, slotted (cs_owned s) j = true → slotted (cs_owned s') j = true).

Lemma onward_trans s h1 s1 t s2 : onward s h1 s1 → onward s1 (h1 ++ t) s2 → onward s (h1 ++ t) s2.
Proof.
  intros [Hp1 H1] [Hp2 H2]. split; [auto|]. intros Hq. pose proof Hq as [Hq1 _]%Forall_app.
  destruct (H1 Hq1) as [? ?], (H2 Hq) as [? ?]. split; [lia|auto].
Qed.

Lemma gained_onward k got s h' s' :
  (paced s → paced s') → (quiet_history h' → gained k got s s') → onward s h' s'.
Proof.
  intros Hp Hg. split; [done|]. intros (Ho & Hk & _ & Hs & _)%Hg. split; [done|].
  intros j Hj. destruct (decide (j = k)) as [->|Hne]; [auto|]. unfold slotted. by rewrite Ho.
Qed.

Lemma candidate_onward k s h :
  wpg (processCandidate k) s h (λ h' s' r,
    (∃ t, h' = h ++ t) ∧ onward s h' s' ∧ (r = Ok false → paced s') ∧
    (quiet_history h' → gained k (assigned r) s s')).
Proof.
  eapply wpg_mono; [|apply wpg_and; [apply wpg_history|apply wpg_and; [apply candidate_paced|apply candidate_gained]]].
  intros h' s' r (Ht & (Hp & Hd) & Hg). split_and!; [done|by eapply gained_onward|done|done].
Qed.

(** The nodes that have a slot are refreshed. *)
Lemma slotted_onward l s h :
  wpg (forEach l (λ k, _ <- processCandidate k ;; ret tt))%go s h (λ h' s' _,
    onward s h' s' ∧ (quiet_history h' → ∀ j, j ∉ l → cs_owned s' !! j = cs_owned s !! j)).
Proof.
  apply (wpg_forEach_inv (λ h' s', onward s h' s' ∧
    (quiet_history h' → ∀ j, j ∉ l → cs_owned s' !! j = cs_owned s !! j))); [|by split; [split|]|done].
  intros k s1 h1 Hk [H1 Ho1]. go_step. eapply wpg_mono; [|apply candidate_onward].
  intros h2 s2 [b|e] ([t ->] & H2 & _ & Hg); [go_step|]; (split; [by eapply onward_trans|]).
  all: intros Hq j Hj; destruct (Hg Hq) as [Ho2 _]; apply Forall_app in Hq as [Hq1 _];
    rewrite Ho2 by (intros ->; done); by apply Ho1.
Qed.

(** The nodes without a slot: the loop ends with all slots used, with a requeue, or
    with a slot for each of them. *)
Lemma assignLoop_progress l (a av : Z) s h :
  NoDup l → (quiet_history h → ∀ k, k ∈ l → slotted (cs_owned s) k = false) →
  wpg (assignLoop l a av) s h (λ h' s' r,
    (∃ t, h' = h ++ t) ∧ onward s h' s' ∧
    (quiet_history h' → r = Ok tt →
     paced s' ∨ (av - a <= Z.of_nat (slots (cs_owned s')) - Z.of_nat (slots (cs_owned s)))%Z ∨
     ∀ k, k ∈ l → slotted (cs_owned s') k = true)).
Proof.
  revert a s h. induction l as [|k l IH]; intros a s h Hnd Hun; simpl.
  { go_step. split_and!; [by exists []; rewrite app_nil_r|by split|].
    intros _ _. right. right. by intros k Hk%elem_of_nil. }
  destruct (Z.leb_spec av a) as [Hle|Hlt].
  { go_step. split_and!; [by exists []; rewrite app_nil_r|by split|]. intros _ _. right. left. lia. }
  apply NoDup_cons in Hnd as [Hk Hnd]. go_step. eapply wpg_mono; [|apply candidate_onward].
  intros h1 s1 [b|e] ([t ->] & H1 & Hdef & Hg); [|by split_and!; [exists t| |]].
  eapply wpg_mono; [|apply (IH _ s1 (h ++ t) Hnd)].
  - intros h2 s2 r ([t2 ->] & H2 & Hend). split_and!; [by exists (t ++ t2); rewrite app_assoc|by eapply onward_trans|].
    intros Hq Hr. specialize (Hend Hq Hr). destruct H2 as [Hp2 H2]. destruct (H2 Hq) as [Hs2 Hk2].
    pose proof Hq as [Hq1 _]%Forall_app. pose proof Hq1 as [Hq0 _]%Forall_app.
    destruct (Hg Hq1) as (_ & _ & Hgot & Hs1 & Hone). destruct b; [|left; auto].
    specialize (Hone eq_refl (Hun Hq0 k ltac:(set_solver))). specialize (Hgot eq_refl).
    destruct Hend as [?|[?|Hall]]; [by left|right; left; lia|]. right. right.
    intros j [->|Hj]%elem_of_cons; auto.
  - intros Hq1 j Hj. destruct (Hg Hq1) as (Ho & _). pose proof Hq1 as [Hq0 _]%Forall_app.
    unfold slotted. rewrite Ho by set_solver. apply (Hun Hq0). set_solver.
Qed.

(** ** Draining *)

(** The node waits in a slot for the drain before its reboot. *)
Definition awaiting_drain (bn : BootcNode) : Prop :=
  isSlotted bn = true ∧ DesiredImageState (bn_spec bn) ≠ DesiredImageStateBooted.

Definition draining s bn : Prop := paced s ∨ is_Some (cs_drains s !! bn_name bn).

(** Between two states of the loop that starts drains. *)
Definition drained_more s s' : Prop :=
  cs_owned s' = cs_owned s ∧ (paced s → paced s') ∧ (∀ bn, draining s bn → draining s' bn).

#[local] Instance drained_more_preorder : PreOrder drained_more.
Proof. split; [intros s; by split_and!|]. intros s1 s2 s3 (Ho & Hp & Hd) (Ho' & Hp' & Hd'). split_and!; [congruence|auto|auto]. Qed.

Lemma drainCandidate_progress k s h :
  wpg (drainCandidate k) s h (λ _ s' r,
    drained_more s s' ∧
    (r = Ok tt → ∀ bn, cs_owned s !! k = Some bn → awaiting_drain bn → draining s' bn)).
Proof.
  unfold drainCandidate. go_step. apply wpg_deref; [|done].
  intros bn Hbn. destruct (HasAnnotation (bn_meta bn) AnnotationInRebootSlot) eqn:Ea; cbn [negb].
  2:{ go_step. split; [done|]. intros _ b Hb [Hs _]. simplify_eq. unfold isSlotted in Hs. congruence. }
  destruct (DesiredImageState (bn_spec bn) =s DesiredImageStateBooted) eqn:Eb.
  { go_step. apply seq_b_true in Eb. split; [done|]. intros _ b Hb [_ Hd]. by simplify_eq. }
  apply wpg_fetch_checked; [done|]. intros t node kds _ _ _. split_match.
  { apply wpg_requeue_paced. intros s' Hp Ho Hd. split; [split_and!; [done|done|]|]; by left. }
  unfold ensureDrain. go_step. go_step. destruct (cs_drains s !! bn_name bn) as [d|] eqn:Ed.
  { go_step. split; [done|]. intros _ b Hb _. simplify_eq. right. by rewrite Ed. }
  do 6 go_step. apply (wpg_call (resp := resp) (StartDrain _ _ _)). intros y.
  split; [split_and!; [done|done|]|].
  - intros b [Hp|[d Hd]]; [by left|right]. simpl. rewrite lookup_insert. case_decide; [by eexists|by exists d].
  - intros _ b Hb _. simplify_eq. right. simpl. rewrite lookup_insert_eq. by eexists.
Qed.

Lemma drainLoop_progress l s h :
  wpg (forEach l drainCandidate) s h (λ _ s' r,
    drained_more s s' ∧
    (r = Ok tt → ∀ k bn, k ∈ l → cs_owned s !! k = Some bn → awaiting_drain bn → draining s' bn)).
Proof.
  apply (wpg_forEach (λ done _ s', drained_more s s' ∧
    ∀ k bn, k ∈ done → cs_owned s !! k = Some bn → awaiting_drain bn → draining s' bn)).
  - intros done k rest s1 h1 -> [Hm Hd]. eapply wpg_mono; [|apply drainCandidate_progress].
    intros h2 s2 [[]|e] [Hm2 Hk]; (split; [by etransitivity|]); [|done].
    destruct Hm as (Ho & _), Hm2 as (_ & _ & Hm2).
    intros j bn [Hj| ->%list_elem_of_singleton]%elem_of_app Hbn Ha.
    + apply Hm2. by eapply Hd.
    + apply Hk; [done|congruence|done].
  - split; [done|]. by intros k bn Hk%elem_of_nil.
  - intros h' s' [Hm Hd]. split; [done|]. auto.
Qed.

(** ** The pass *)

(** What a pass that was not halted leaves behind. *)
Definition progress s : Prop :=
  ∃ mu, resolveMaxUnavailable (cs_pool s) (Z.of_nat (nodeCount (cs_rs s))) = Ok mu ∧
    (paced s ∨ (mu <= Z.of_nat (slots (cs_owned s)))%Z ∨
     ∀ k, k ∈ staged (cs_rs s) → slotted (cs_owned s) k = true) ∧
    (∀ k bn, k ∈ staged (cs_rs s) → cs_owned s !! k = Some bn → awaiting_drain bn → draining s bn).

(** The periodic requeue changes nothing else. *)
Lemma requeueKarpenter_progress l s h :
  wpg (requeueKarpenter l) s h (λ h' s' r,
    h' = h ∧ r = Ok tt ∧ (paced s → paced s') ∧ cs_owned s' = cs_owned s ∧ cs_drains s' = cs_drains s).
Proof.
  unfold requeueKarpenter. go_step. go_step. destruct (existsb _ l); [|by go_step].
  apply wpg_requeue_paced. by intros s' Hp Ho Hd.
Qed.

(** [advance], from the state [s] in which the slots are counted. *)
Lemma advance_progress s h :
  NoDup (staged (cs_rs s)) → (quiet_history h → occupiedSlots (cs_rs s) = Z.of_nat (slots (cs_owned s))) →
  wpg advance s h (λ h' s' r, quiet_history h' → r = Ok tt →
    ∃ mu, resolveMaxUnavailable (cs_pool s) (Z.of_nat (nodeCount (cs_rs s))) = Ok mu ∧
    (paced s' ∨ (mu <= Z.of_nat (slots (cs_owned s')))%Z ∨
     ∀ k, k ∈ staged (cs_rs s) → slotted (cs_owned s') k = true) ∧
    (∀ k bn, k ∈ staged (cs_rs s) → cs_owned s' !! k = Some bn → awaiting_drain bn → draining s' bn)).
Proof.
  intros Hnd Hocc. unfold advance. do 6 go_step. destruct (resolveMaxUnavailable _ _) as [mu|e] eqn:Emu; [|done].
  do 2 go_step. pose proof (λ k, partition_members (cs_owned s) (staged (cs_rs s)) k) as Hmem.
  pose proof (partition_NoDup (cs_owned s) _ Hnd) as [_ Hun].
  destruct (partitionSlottedNodes _ _) as [sl un] eqn:Ep. simpl in Hmem, Hun.
  go_step. eapply wpg_mono; [|apply wpg_and; [apply wpg_history|apply slotted_onward]].
  intros h1 s1 [[]|e] ([t1 ->] & H1 & Ho1); [|done]. go_step. eapply wpg_mono; [|apply assignLoop_progress; [exact Hun|]].
  2:{ intros Hq k [Hk Hin]%Hmem. unfold slotted. rewrite Ho1; [exact Hk|done|].
      intros [Hk' _]%Hmem. congruence. }
  intros h2 s2 [[]|e] ([t2 ->] & H2 & Hend); [|done]. go_step. eapply wpg_mono; [|apply requeueKarpenter_progress].
  intros h3 s3 r (-> & -> & Hp3 & Ho3 & _).
  eapply wpg_mono; [|apply wpg_and; [apply wpg_history|apply drainLoop_progress]].
  intros h4 s4 r ([t4 ->] & (Ho4 & Hp4 & _) & Hd) Hq Hr. exists mu. split; [done|]. rewrite Ho4, Ho3 in *.
  pose proof Hq as [Hq2 _]%Forall_app. pose proof Hq2 as [Hq1 _]%Forall_app. pose proof Hq1 as [Hq0 _]%Forall_app.
  split; [|intros k bn; by apply Hd].
  specialize (Hend Hq2 eq_refl). destruct H1 as [_ H1], H2 as [_ H2]. destruct (H1 Hq1) as [Hs1 Hk1], (H2 Hq2) as [Hs2 Hk2].
  destruct Hend as [?|[?|Hall]]; [left; auto|right; left; specialize (Hocc Hq0); lia|]. right. right.
  intros k Hk. destruct (slotted (cs_owned s) k) eqn:Ek; [auto|]. by apply Hall, Hmem.
Qed.

(** C7. Progress.  When nobody else writes the BootcNodes and a pass of
    [driveRollout] succeeds without being halted (fewer than two unhealthy
    slots), it has used what it may use: either all of [maxUnavailable] is taken,
    or every staged node holds a slot, or the pass comes back within
    [karpenterRequeueInterval] because Karpenter is at work on a node.  And every
    staged node in a slot that is not approved yet is being drained, or again the
    pass comes back.  So the rollout never stalls with capacity left. *)
Theorem driveRollout_progress `{MapOrder} s0 :
  wpg driveRollout s0 [] (λ h s r,
    quiet_history h → is_ok r = true → length (unhealthyOf s) < unhealthySlotHaltThreshold → progress s).
Proof.
  unfold driveRollout. go_step. go_step. eapply wpg_mono; [|apply (collect_all_before s0)].
  intros h1 s1 [[]|e] H1; [|done]. go_step.
  eapply wpg_mono; [|by apply (classify_pass s0)]. intros h2 s2 [[]|e] H2; [|done].
  go_step. go_step. eapply wpg_mono with (Φ := λ h s _, classified s0 h s).
  2:{ unfold freeCompletedSlots. go_step. go_step. apply (wpg_forEach_inv (classified s0)); [|done|done].
      intros k s h _ H'. eapply wpg_mono; [|by apply free_classified]. by intros ?? []. }
  intros h3 s3 [[]|e] [_ _ Hnd Hocc]; [|done]. do 6 go_step. go_step. fold (unhealthyOf s3).
  destruct (Nat.leb_spec unhealthySlotHaltThreshold (length (unhealthyOf s3))) as [Hle|_].
  - unfold degradePool. do 3 go_step. go_step. intros _ _ Hlt. exfalso. revert Hlt.
    unfold unhealthyOf at 1. cbn [cs_pool cs_owned cs_rs setPool].
    rewrite (proj2 (proj2 (setPoolDegraded_frame _ _ _ _))). fold (unhealthyOf s3). lia.
  - eapply wpg_mono; [|apply wpg_and; [apply (advance_framed s3)|by apply advance_progress]].
    intros h4 s4 [[]|e] [(Hp & Hr & _) H4]; [go_step|done]. intros Hq _ _.
    destruct (H4 Hq eq_refl) as (mu & Hmu & Hcap & Hdr). exists mu. rewrite Hp.
    assert (nodeCount (cs_rs s4) = nodeCount (cs_rs s3)) as -> by exact (f_equal nodeCount (symmetry Hr)).
    assert (staged (cs_rs s4) = staged (cs_rs s3)) as -> by by destruct (same_rs_buckets _ _ Hr) as (_ & _ & _ & ?).
    done.
Qed.
End Progress.
