(* ===== verification/RolloutApproval.v ===== *)
(** * RolloutApproval: exactly the drained nodes are approved

    What a pass of [driveRollout] does to the specs of the BootcNodes. *)

From S2P Require Import Prelude Effects Types Library LibModel Client Samples Sim Image Karpenter Classify PoolStatus Slots Utf8 Events Drain Rollout RolloutSafety RolloutCapacity.

Section Approval.
Context {L : Lib} {HL : LibLaws L} {C : Config}.
Implicit Types (h t : history) (s : CState) (l : list string).

Definition specsOf s : gmap string BootcNodeSpec := bn_spec <$> cs_owned s.

(** No drain is asked for its result. *)
Definition pollless t : Prop := ∀ e n, e ∈ t → ev_req e ≠ PollDrain n.

Lemma pollless_nil : pollless [].
Proof. by intros e n He%elem_of_nil. Qed.
Lemma pollless_app t1 t2 : pollless t1 → pollless t2 → pollless (t1 ++ t2).
Proof. intros H1 H2 e n [?|?]%elem_of_app; eauto. Qed.
Lemma pollless_one e : (∀ n, ev_req e ≠ PollDrain n) → pollless [e].
Proof. by intros H e' n ->%list_elem_of_singleton. Qed.
Lemma pollless_lookups t : lookups t → pollless t.
Proof. intros Ht e n He. by destruct (Ht e He) as [[m ->]|[m ->]]. Qed.
Lemma pollless_woc (P : req → Prop) t : writes_or_claims P t → pollless t.
Proof. intros Ht e n He. destruct (Ht e He) as [[Hw _]|[m ->]]; [|done]. by destruct (ev_req e). Qed.
Lemma pollless_claim t : claim_lookup t → pollless t.
Proof. intros [->|(n & x & ->)]; [apply pollless_nil|by apply pollless_one]. Qed.
#[local] Hint Resolve pollless_nil pollless_app pollless_one pollless_lookups pollless_woc pollless_claim : bootc.

Lemma pollless_assign bn b' node n' claim c' t : assign_trace bn b' node n' claim c' t → pollless t.
Proof.
  intros (t0 & t1 & t2 & t3 & -> & H0 & H1 & H2 & H3). repeat apply pollless_app.
  - eauto with bootc.
  - destruct H1 as [[-> _]|(x & -> & _)]; [apply pollless_nil|by apply pollless_one].
  - destruct H2 as [->|(c & c1 & x & _ & _ & ->)]; [apply pollless_nil|by apply pollless_one].
  - destruct H3 as [->|(x & ->)]; [apply pollless_nil|by apply pollless_one].
Qed.

(** A part of the pass that leaves the specs alone and polls no drain. *)
Definition steady s h h' s' : Prop :=
  ∃ t, h' = h ++ t ∧ pollless t ∧ (quiet_history t → specsOf s' = specsOf s).

Lemma steady_refl s s' h : cs_owned s' = cs_owned s → steady s h h s'.
Proof. intros Ho. exists []. unfold specsOf. rewrite app_nil_r, Ho. eauto with bootc. Qed.

Lemma steady_reads s s' h t : pollless t → cs_owned s' = cs_owned s → steady s h (h ++ t) s'.
Proof. intros Ht Ho. exists t. unfold specsOf. by rewrite Ho. Qed.

Lemma steady_trans s1 h1 h2 s2 h3 s3 : steady s1 h1 h2 s2 → steady s2 h2 h3 s3 → steady s1 h1 h3 s3.
Proof.
  intros (t & -> & Hp & Hs) (t' & -> & Hp' & Hs'). exists (t ++ t'). split_and!; [by rewrite app_assoc|eauto with bootc|].
  intros [Hq Hq']%Forall_app. by rewrite Hs', Hs.
Qed.

Lemma steady_insert s s' h t k bn b1 :
  pollless t → cs_owned s !! k = Some bn → cs_owned s' = <[k := b1]> (cs_owned s) →
  (quiet_history t → bn_spec b1 = bn_spec bn) → steady s h (h ++ t) s'.
Proof.
  intros Ht Hk Ho Hs. exists t. split_and!; [done|done|]. intros Hq. unfold specsOf.
  rewrite Ho, fmap_insert, (Hs Hq). apply insert_id. by rewrite lookup_fmap, Hk.
Qed.

(** Under quiet writers a patch that keeps the spec keeps it. *)
Lemma patched_spec t bn new b1 :
  bn_spec new = bn_spec bn → (b1 = bn ∨ Ev (PatchBootcNode bn new) (Ok b1) ∈ t) →
  quiet_history t → bn_spec b1 = bn_spec bn.
Proof. intros Hn [->|Hin] Hq; [done|]. destruct (quiet_bn _ _ _ _ Hq Hin) as [_ ->]. done. Qed.

Lemma free_steady k s h : wpg (freeCompletedSlot k) s h (λ h' s' _, steady s h h' s').
Proof.
  apply wpg_freeCompletedSlot.
  - intros _ _. by apply steady_refl.
  - intros t r Ht. apply steady_reads; [eauto with bootc|done].
  - intros bn t node tf b1 s' r Hbn _ Ht _ _ Hw Hr ->.
    eapply steady_insert; [eauto with bootc|done|done|]. intros [_ Hq]%Forall_app.
    eapply (patched_spec tf bn (clearSlotKeys bn)); [done| |done]. destruct (is_ok r); auto.
  - intros bn t node tf b1 r Hbn _ Ht _ _ Hw Hb1.
    eapply steady_insert; [eauto with bootc|done|done|]. intros [_ Hq]%Forall_app.
    by eapply (patched_spec tf bn (clearTaintRecord bn)).
Qed.

Lemma candidate_steady k s h : wpg (processCandidate k) s h (λ h' s' _, steady s h h' s').
Proof.
  apply wpg_processCandidate.
  - intros _ e. by apply steady_refl.
  - intros bn t s' r _ Ht _ Ho _. apply steady_reads; [eauto with bootc|done].
  - intros bn t node claim b' n' c' ta s' b1 r Hbn Ht _ _ _ [Hpb _ _ _ _ _ _] Hta Hb1 _ _ Ho.
    eapply steady_insert; [apply pollless_app; [eauto with bootc|by eapply pollless_assign]|done|done|].
    intros [_ Hq]%Forall_app. eapply patched_spec; [|done|done]. by rewrite Hpb.
Qed.

Lemma drain_steady k s h : wpg (drainCandidate k) s h (λ h' s' _, steady s h h' s').
Proof.
  unfold drainCandidate. go_step. apply wpg_deref; [|intros; by apply steady_refl]. intros bn _.
  repeat (split_match; [go_step; by apply steady_refl|]). apply wpg_fetch_checked.
  { intros t e Ht. apply steady_reads; [eauto with bootc|done]. }
  intros t node kds Ht _ _. split_match.
  - apply wpg_requeue. intros s' _ Ho. apply steady_reads; [eauto with bootc|done].
  - unfold ensureDrain. go_step. go_step.
    destruct (cs_drains s !! bn_name bn); [go_step; apply steady_reads; [eauto with bootc|done]|].
    do 6 go_step. apply (wpg_call (resp := resp) (StartDrain _ _ _)). intros y.
    rewrite <- !app_assoc. apply steady_reads; [|done].
    repeat apply pollless_app; [eauto with bootc|by apply pollless_one|by apply pollless_one].
Qed.

(** A loop over steady steps. *)
Lemma forEach_steady (f : string → ctl CState unit) l s h :
  (∀ k s h, wpg (f k) s h (λ h' s' _, steady s h h' s')) →
  wpg (forEach l f) s h (λ h' s' _, steady s h h' s').
Proof.
  intros Hf. apply (wpg_forEach_inv (λ h' s', steady s h h' s')); [|by apply steady_refl|done].
  intros k s1 h1 _ H1. eapply wpg_mono; [|apply Hf]. intros h2 s2 [[]|e] H2; by eapply steady_trans.
Qed.

Lemma assignLoop_steady l a av s h : wpg (assignLoop l a av) s h (λ h' s' _, steady s h h' s').
Proof.
  revert a s h. induction l as [|k l IH]; intros a s h; simpl; [go_step; by apply steady_refl|].
  split_match; [go_step; by apply steady_refl|]. go_step. eapply wpg_mono; [|apply candidate_steady].
  intros h1 s1 [b|e] H1; [|done]. eapply wpg_mono; [|apply IH]. intros h2 s2 r H2. by eapply steady_trans.
Qed.

Lemma advance_steady s h : wpg advance s h (λ h' s' _, steady s h h' s').
Proof.
  unfold advance. do 6 go_step. destruct (resolveMaxUnavailable _ _) as [mu|e]; [|by apply steady_refl].
  do 2 go_step. destruct (partitionSlottedNodes _ _) as [sl un]. go_step.
  eapply wpg_mono; [|apply (forEach_steady _ sl)].
  2:{ intros k s1 h1. go_step. eapply wpg_mono; [|apply candidate_steady]. intros h2 s2 [b|e] H2; [by go_step|done]. }
  intros h1 s1 [[]|e] H1; [|done]. go_step. eapply wpg_mono; [|apply assignLoop_steady].
  intros h2 s2 [[]|e] H2; [|by eapply steady_trans]. go_step. unfold requeueKarpenter. go_step. go_step.
  assert (steady s h h2 s2) as H12 by by eapply steady_trans.
  eapply wpg_mono with (Φ := λ h' s' _, steady s h h' s').
  { intros h3 s3 [[]|e] H3; [|done]. eapply wpg_mono; [|apply forEach_steady, drain_steady].
    intros h4 s4 r H4. by eapply steady_trans. }
  destruct (existsb _ _); [|by go_step]. apply wpg_requeue. intros s' _ Ho.
  eapply steady_trans; [exact H12|by apply steady_refl].
Qed.

Lemma classify_steady `{MapOrder} s h : wpg classifyPass s h (λ h' s' _, steady s h h' s').
Proof.
  unfold classifyPass. do 6 go_step. destruct (applyRebootTimeouts _ _ _ _) as [rs rq]. do 2 go_step. split_match.
  - unfold degradePool. do 3 go_step. rewrite <- app_assoc. apply steady_reads; [|done].
    apply pollless_app; by apply pollless_one.
  - go_step. apply steady_reads; [by apply pollless_one|done].
Qed.

(** ** Collecting the results *)

Definition approvedSpec (bn : BootcNode) : BootcNodeSpec := bn_spec (setDesiredImageState DesiredImageStateBooted bn).

(** The drain of node [n] was collected with success. *)
Definition drained h (n : string) : Prop := Ev (PollDrain n) (Some None) ∈ h.

(** The spec of every BootcNode is the one from before the pass, approved if its
    node was drained. *)
Definition approvals s0 h s : Prop :=
  dom (cs_owned s) = dom (cs_owned s0) ∧
  ∀ n bn bn', cs_owned s0 !! n = Some bn → cs_owned s !! n = Some bn' →
    (drained h n ∧ bn_spec bn' = approvedSpec bn) ∨ (¬ drained h n ∧ bn_spec bn' = bn_spec bn).

Lemma drained_pollless h t n : pollless t → drained (h ++ t) n ↔ drained h n.
Proof.
  intros Ht. unfold drained. rewrite elem_of_app. split; [|by left]. intros [?|Hin]; [done|].
  by destruct (Ht _ n Hin).
Qed.

Lemma specs_lookup s s' n bn' :
  specsOf s' = specsOf s → cs_owned s' !! n = Some bn' →
  ∃ bn, cs_owned s !! n = Some bn ∧ bn_spec bn' = bn_spec bn.
Proof.
  intros Hs Hn. assert (specsOf s' !! n = Some (bn_spec bn')) as Hl by (unfold specsOf; by rewrite lookup_fmap, Hn).
  rewrite Hs in Hl. unfold specsOf in Hl. rewrite lookup_fmap in Hl. apply fmap_Some in Hl as (bn & ? & ?). eauto.
Qed.

(** Steady parts keep the approvals. *)
Lemma approvals_steady s0 h s h' s' :
  approvals s0 h s → steady s h h' s' → quiet_history h' → approvals s0 h' s'.
Proof.
  intros [Hd Ha] (t & -> & Hp & Hs) [_ Hq]%Forall_app. specialize (Hs Hq). split.
  - rewrite <- Hd. apply (f_equal dom) in Hs. unfold specsOf in Hs. by rewrite !dom_fmap_L in Hs.
  - intros n bn bn' H0 H1. destruct (specs_lookup s s' n bn' Hs H1) as (b & Hb & ->).
    rewrite (drained_pollless h t n Hp). eauto.
Qed.

Definition pollAns (e : event) : option (string * option (option error)) :=
  let '(Ev r x) := e in
  match r return resp r → option (string * option (option error)) with
  | PollDrain n => λ x, Some (n, x)
  | _ => λ _, None
  end x.

Lemma drained_pollAns h n : drained h n ↔ ∃ e, e ∈ h ∧ pollAns e = Some (n, Some None).
Proof.
  split; [by intros Hin; eexists|]. intros ([r x] & Hin & He). destruct r; try done.
  simpl in He. injection He as -> ->. done.
Qed.

(** A poll that brings no success for a known node changes nothing. *)
Lemma approvals_poll s0 h t s s' :
  approvals s0 h s → cs_owned s' = cs_owned s →
  (∀ e n, e ∈ t → pollAns e = Some (n, Some None) → cs_owned s !! n = None) → approvals s0 (h ++ t) s'.
Proof.
  intros [Hd Ha] Ho Ht. split; [by rewrite Ho|]. intros n bn bn' H0 H1. rewrite Ho in H1.
  assert (drained (h ++ t) n ↔ drained h n) as ->; [|eauto].
  rewrite !drained_pollAns. setoid_rewrite elem_of_app. split; [|naive_solver].
  intros (e & [Hin|Hin] & He); [eauto|]. specialize (Ht e n Hin He). congruence.
Qed.

Lemma approvedSpec_ext bn bn' : bn_spec bn' = bn_spec bn ∨ bn_spec bn' = approvedSpec bn → approvedSpec bn' = approvedSpec bn.
Proof. unfold approvedSpec. destruct bn as [? [] ?], bn' as [? [] ?]. simpl. intros [H|H]; by simplify_eq/=. Qed.

Lemma approvals_approve s0 h t s s' n bn got :
  approvals s0 h s → cs_owned s !! n = Some bn → cs_owned s' = <[n := got]> (cs_owned s) →
  bn_spec got = approvedSpec bn → drained (h ++ t) n →
  (∀ e m, e ∈ t → pollAns e = Some (m, Some None) → m = n) → approvals s0 (h ++ t) s'.
Proof.
  intros [Hd Ha] Hn Ho Hs Hdr Ht. split.
  { rewrite Ho, dom_insert_L, <- Hd. apply elem_of_dom_2 in Hn. set_solver. }
  intros m bm bm' H0 H1. rewrite Ho in H1. destruct (decide (m = n)) as [->|Hne].
  - rewrite lookup_insert_eq in H1. injection H1 as <-. left. split; [done|]. rewrite Hs.
    apply approvedSpec_ext. destruct (Ha n bm bn H0 Hn) as [[_ ?]|[_ ?]]; auto.
  - rewrite lookup_insert_ne in H1 by done.
    assert (drained (h ++ t) m ↔ drained h m) as ->; [|eauto].
    rewrite !drained_pollAns. setoid_rewrite elem_of_app. split; [|naive_solver].
    intros (e & [Hin|Hin] & He); [eauto|]. by destruct (Hne (Ht e m Hin He)).
Qed.

Lemma collect_approvals s0 n s h :
  (quiet_history h → approvals s0 h s) →
  wpg (collectDrainResult n) s h (λ h' s' r, is_ok r = true → quiet_history h' → approvals s0 h' s').
Proof.
  intros Ha. apply wpg_collectDrainResult.
  - intros _ [Hq _]%Forall_app. apply (approvals_poll _ _ _ s); [auto|done|].
    by intros e m ->%list_elem_of_singleton [= <-].
  - intros res c t s' Ht Hnone _ [Hq _]%Forall_app. apply (approvals_poll _ _ _ s); [auto|done|].
    intros e m. rewrite elem_of_app, !elem_of_cons, elem_of_nil. intros [[->|[->|[->|[]]]]|He] Hp; try done.
    + injection Hp as -> ->. destruct (cs_owned s !! m) as [b|]; [by destruct (Hnone b eq_refl eq_refl)|done].
    + destruct Ht as [->|(e' & -> & Hab)]; [by apply elem_of_nil in He|]. apply list_elem_of_singleton in He as ->.
      destruct e' as [[] y]; done.
  - intros bn c x s' Hbn Hok Hq'. pose proof Hq' as [Hq Hqt]%Forall_app. destruct x as [got|e]; [|done].
    eapply (approvals_approve s0 h _ s); [auto|exact Hbn|done| | |].
    + apply (quiet_bn _ bn (setDesiredImageState DesiredImageStateBooted bn) got Hqt). set_solver.
    + unfold drained. set_solver.
    + intros e m. rewrite !elem_of_cons, elem_of_nil. intros [->|[->|[->|[->|[]]]]] Hp; try done. by injection Hp.
Qed.

(** C8. Approvals are exact.  When nobody else writes the BootcNodes and a pass of
    [driveRollout] succeeds, the BootcNodes are the ones from before, and each has
    its old spec, except that the nodes whose drain was collected with success in
    this pass are approved for reboot, all of them and no others. *)
Theorem driveRollout_approves `{MapOrder} s0 :
  wpg driveRollout s0 [] (λ h s r, quiet_history h → is_ok r = true → approvals s0 h s).
Proof.
  unfold driveRollout. go_step. go_step.
  eapply wpg_mono with (Φ := λ h s r, is_ok r = true → quiet_history h → approvals s0 h s).
  2:{ unfold collectDrainResults. go_step. go_step.
      apply (wpg_forEach_inv (λ h s, quiet_history h → approvals s0 h s)); [| |auto].
      - intros n s h _ Ha. eapply wpg_mono; [|by apply collect_approvals]. intros h' s' [[]|e] Hc; [auto|done].
      - intros _. split; [done|]. intros n bn bn' H0 H1. right. simplify_eq. split; [by intros Hn%elem_of_nil|done]. }
  intros h1 s1 [[]|e] H1; [|done]. go_step.
  eapply wpg_mono with (Φ := λ h s r, steady s1 h1 h s); [|apply classify_steady].
  intros h2 s2 [[]|e] H2; [|done]. go_step. go_step. eapply wpg_mono with (Φ := λ h s r, steady s2 h2 h s).
  2:{ unfold freeCompletedSlots. go_step. go_step. apply forEach_steady, free_steady. }
  intros h3 s3 [[]|e] H3; [|done]. assert (steady s1 h1 h3 s3) as H13 by by eapply steady_trans.
  assert (∀ h s, steady s3 h3 h s → quiet_history h → approvals s0 h s) as Hend.
  { intros h s Hst Hq. assert (steady s1 h1 h s) as Hs by by eapply steady_trans.
    eapply approvals_steady; [|exact Hs|exact Hq]. destruct Hs as (t & -> & _). apply Forall_app in Hq as [Hq _]. auto. }
  do 6 go_step. go_step. split_match.
  - unfold degradePool. do 3 go_step. go_step. intros Hq _. apply Hend; [|done].
    apply steady_reads; [by apply pollless_one|done].
  - eapply wpg_mono; [|apply advance_steady]. intros h4 s4 [[]|e] H4; [go_step|done]. auto.
Qed.
End Approval.
