(* ===== verification/RolloutWitness.v ===== *)
(** * RolloutWitness: rollout passes on a concrete cluster

    Runs of [driveRollout] against the simulated cluster, to which the theorems
    of [RolloutSafety], [RolloutCapacity], [RolloutHalt], [RolloutProgress] and
    [RolloutApproval] are applied. *)

From S2P Require Import Prelude Effects Types Library LibModel Client Samples Sim Image Karpenter Classify PoolStatus Slots Utf8 Events Drain Rollout RolloutSafety RolloutCapacity RolloutHalt RolloutProgress RolloutApproval.

Module RolloutWitness.
Import LibModel.
#[local] Existing Instance idOrder.

#[export] Instance config : Config := {|
  EventNamespace := "bootc-operator"; TagResolutionInterval := (300 * GoInt.Second)%Z;
  PullSecretNamespaces := ["bootc-operator"] |}.

(** "w1" finished its update and is Ready, "w2" is staged and waits for a slot,
    "w3" holds a slot and its drain has just finished. *)
Definition owned0 : gmap string BootcNode :=
  Samples.store [Samples.upToDateNode "w1" Samples.slotAnnotations;
                 Samples.stagedNode "w2" None;
                 Samples.stagedNode "w3" Samples.slotAnnotations].

Definition cordoned (name : string) : Node := setUnschedulable true (Samples.node name None).

Definition pool0 : BootcNodePool :=
  Samples.pool (Some (mkRolloutSpec (Some (IntVal 2)) false None None)).

Definition world0 : World :=
  mkWorld 0 {["workers" := pool0]}
    (list_to_map [("w1", cordoned "w1"); ("w2", Samples.node "w2" None); ("w3", cordoned "w3")])
    owned0 ∅ ∅ ∅ {["w3" := None]}.

Definition state0 : CState :=
  mkCState pool0 owned0 {["w3" := mkDrainStatus 0 false]} emptyRolloutState.

Definition pass0 := run sim (driveRollout state0) world0.

Definition keyedb (owned : gmap string BootcNode) : bool :=
  forallb (λ kv, bool_decide (bn_name kv.2 = kv.1)) (map_to_list owned).

Lemma keyedb_ok owned : keyedb owned = true → keyed owned.
Proof.
  unfold keyedb. rewrite forallb_forall. intros Hf k bn Hk.
  specialize (Hf (k, bn)). rewrite bool_decide_eq_true in Hf. apply Hf.
  by apply list_elem_of_In, elem_of_map_to_list.
Qed.

(** The pass approves "w3", frees "w1", and slots, cordons and drains "w2". *)
Example rolloutPass_story :
  is_ok pass0.2.2 = true ∧
  slotted (cs_owned pass0.2.1) "w1" = false ∧
  slotted (cs_owned pass0.2.1) "w2" = true ∧
  ((λ b, DesiredImageState (bn_spec b)) <$> cs_owned pass0.2.1 !! "w3") = Some "Booted" ∧
  ((λ n, node_unschedulable n) <$> w_nodes pass0.1.1 !! "w1") = Some false ∧
  ((λ n, node_unschedulable n) <$> w_nodes pass0.1.1 !! "w2") = Some true ∧
  (cs_drains pass0.2.1 !! "w2") = Some (mkDrainStatus 0 false) ∧
  (cs_drains pass0.2.1 !! "w3") = None.
Proof. vm_compute. done. Qed.

Lemma driveRollout_protocol_witness :
  keyed (cs_owned state0) ∧ 10 ≤ length pass0.1.2 ∧ guarded rollout_allowed pass0.1.2.
Proof.
  assert (keyed (cs_owned state0)) as Hk by (apply keyedb_ok; vm_compute; reflexivity).
  split; [exact Hk|]. split; [apply Nat.leb_le; vm_compute; reflexivity|].
  exact (proj2 (wpg_sim _ _ world0 _ (driveRollout_protocol state0 Hk))).
Defined.

Lemma driveRollout_grants_witness :
  grantsOf pass0.1.2 = 1 ∧
  ∃ mu, resolveMaxUnavailable (cs_pool pass0.2.1) (Z.of_nat (nodeCount (cs_rs pass0.2.1))) = Ok mu ∧
        (1 <= mu - occupiedSlots (cs_rs pass0.2.1))%Z.
Proof.
  assert (grantsOf pass0.1.2 = 1) as Hg by (vm_compute; reflexivity).
  split; [exact Hg|].
  destruct (wpg_sim _ _ world0 _ (driveRollout_grants state0)) as [_ [H|(mu & Hmu & Hle)]];
    fold pass0 in *.
  - rewrite Hg in H. discriminate H.
  - exists mu. split; [exact Hmu|]. rewrite Hg in Hle. exact Hle.
Defined.

Lemma driveRollout_budget_witness :
  slots (cs_owned state0) = 2 ∧ slots (cs_owned pass0.2.1) = 2 ∧
  (Z.of_nat (slots (cs_owned pass0.2.1)) <=
   Z.max (Z.of_nat (slots (cs_owned state0))) (unavailableLimit state0))%Z.
Proof.
  split; [vm_compute; reflexivity|]. split; [vm_compute; reflexivity|].
  destruct (wpg_sim _ _ world0 _ (driveRollout_budget state0)) as [Hq H]. exact (H Hq).
Defined.

(** The pass uses both slots, and "w2" is being drained. *)
Lemma driveRollout_progress_witness :
  is_ok pass0.2.2 = true ∧ length (unhealthyOf pass0.2.1) = 0 ∧ slots (cs_owned pass0.2.1) = 2 ∧ progress pass0.2.1.
Proof.
  assert (is_ok pass0.2.2 = true) as Hok by (vm_compute; reflexivity).
  assert (length (unhealthyOf pass0.2.1) = 0) as Hu by (vm_compute; reflexivity).
  split; [exact Hok|]. split; [exact Hu|]. split; [vm_compute; reflexivity|].
  destruct (wpg_sim _ _ world0 _ (driveRollout_progress state0)) as [Hq H].
  refine (H Hq Hok _). apply Nat.ltb_lt. vm_compute. reflexivity.
Defined.

Lemma driveRollout_approves_witness :
  ((λ b, DesiredImageState (bn_spec b)) <$> cs_owned state0 !! "w3") = Some "Staged" ∧
  ((λ b, DesiredImageState (bn_spec b)) <$> cs_owned pass0.2.1 !! "w3") = Some "Booted" ∧
  approvals state0 pass0.1.2 pass0.2.1.
Proof.
  split; [vm_compute; reflexivity|]. split; [vm_compute; reflexivity|].
  destruct (wpg_sim _ _ world0 _ (driveRollout_approves state0)) as [Hq H].
  refine (H Hq _). vm_compute. reflexivity.
Defined.

(** Two nodes degraded on the target image: the brake. *)
Definition owned1 : gmap string BootcNode :=
  Samples.store [Samples.degradedNode "w1" Samples.slotAnnotations;
                 Samples.degradedNode "w2" Samples.slotAnnotations;
                 Samples.stagedNode "w3" None].
Definition pool1 : BootcNodePool :=
  Samples.pool (Some (mkRolloutSpec (Some (StrVal "100%")) false None None)).
Definition world1 : World :=
  mkWorld 0 {["workers" := pool1]}
    (list_to_map [("w1", cordoned "w1"); ("w2", cordoned "w2"); ("w3", Samples.node "w3" None)])
    owned1 ∅ ∅ ∅ ∅.
Definition state1 : CState := mkCState pool1 owned1 ∅ emptyRolloutState.
Definition pass1 := run sim (driveRollout state1) world1.

Definition polls (r : req) : bool := match r with PollDrain _ => true | _ => false end.

Lemma unhealthy1 now k :
  k ∈ ["w1"; "w2"] → unhealthySlotted state1 pass1.1.2 pass1.2.1 now k.
Proof.
  intros Hk.
  assert (forallb (λ e, negb (polls (ev_req e))) pass1.1.2 = true) as Hp by (vm_compute; reflexivity).
  rewrite forallb_forall in Hp. split.
  - intros Hin%list_elem_of_In%Hp. discriminate.
  - exists (Samples.degradedNode k Samples.slotAnnotations).
    rewrite !elem_of_cons, elem_of_nil in Hk. destruct Hk as [->|[->|[]]];
      (split; [vm_compute; reflexivity|]); eapply un_degraded;
      [apply daemonDegraded_spec; vm_compute; reflexivity|reflexivity|left; reflexivity
      |apply daemonDegraded_spec; vm_compute; reflexivity|reflexivity|left; reflexivity].
  - apply slotted_lookup. rewrite !elem_of_cons, elem_of_nil in Hk.
    destruct Hk as [->|[->|[]]]; vm_compute; reflexivity.
Qed.

(** The pass succeeds, leaves the staged "w3" without a slot and reports the
    halt. *)
Lemma driveRollout_halts_witness :
  is_ok pass1.2.2 = true ∧ still pass1.1.2 ∧ slotted (cs_owned pass1.2.1) "w3" = false ∧
  degradedReason (cs_pool pass1.2.1) ∈
    [Some PoolRolloutHalted; Some PoolInvalidSpec; Some PoolTagResolutionError].
Proof.
  assert (is_ok pass1.2.2 = true) as Hok by (vm_compute; reflexivity).
  assert (timeoutTyped (cs_pool state1)) as Hty by (intros ro n [= <-] [=]).
  assert (∀ now, unhealthySlotted state1 pass1.1.2 pass1.2.1 now "w1" ∧
                 unhealthySlotted state1 pass1.1.2 pass1.2.1 now "w2") as Hu.
  { intros now. split; apply unhealthy1; [apply list_elem_of_here|apply list_elem_of_further, list_elem_of_here]. }
  assert ("w1" ≠ "w2") as Hne by discriminate.
  destruct (wpg_sim _ _ world1 _ (driveRollout_halts state1 Hty)) as [_ [H _]].
  destruct (H "w1" "w2" Hne (λ now _, Hu now)) as [Hst Hr].
  split_and!; [exact Hok|exact Hst|vm_compute; reflexivity|exact (Hr Hok)].
Defined.
End RolloutWitness.
