(* ===== verification/Membership.v ===== *)
(** * Membership: which nodes belong to a pool

    [syncMembership] of [internal/controller/bootcnodepool_controller.go] with
    the operations it uses: listing Nodes and BootcNodes, creating, syncing and
    removing BootcNodes; and [handlePoolDeletion]. *)

From S2P Require Import Prelude Effects Types Library LibModel Client Samples Sim Image Karpenter Classify PoolStatus Slots Utf8 Events Drain Rollout RolloutSafety.

Section Membership.
Context {L : Lib} {C : Config}.
Local Open Scope go_scope.

(** Run a function on a local Node variable; the result is the variable after
    the call. *)
Definition onNode {S : Type} (node : Node) (m : ctl Node unit) : ctl S Node :=
  λ s, pbind (m node) (λ nr, Ret (s, match nr.2 with Ok _ => Ok nr.1 | Err e => Err e end)).

(** Same for a local copy of a BootcNode and a local Node. *)
Definition onCopies {S : Type} (bn : BootcNode) (node : Node) (m : ctl (BootcNode * Node) unit)
    : ctl S Node :=
  λ s, pbind (m (bn, node)) (λ pr, Ret (s, match pr.2 with Ok _ => Ok pr.1.2 | Err e => Err e end)).

(** [listMatchingNodes]. *)
Definition listMatchingNodes {S : Type} (pool : BootcNodePool) : ctl S (list Node) :=
  match LabelSelectorAsSelector (NodeSelector (pool_spec pool)) with
  | Err e => throw (ErrInvalidSpec ("invalid nodeSelector: " +:+ Error e))
  | Ok sel => wrapf "listing nodes" (callE (ListNodes sel) id)
  end.

(** [m[x.Name] = x] for every element: later elements overwrite earlier ones. *)
Definition byName {A : Type} (name : A → string) (l : list A) : gmap string A :=
  fold_left (λ m x, <[name x := x]> m) l ∅.

(** [listAllBootcNodes]. *)
Definition listAllBootcNodes {S : Type} : ctl S (gmap string BootcNode) :=
  l <- wrapf "listing BootcNodes" (callE ListBootcNodes id) ;;
  ret (byName bn_name l).

(** [effectiveRebootPolicy]. *)
Definition effectiveRebootPolicy (pool : BootcNodePool) : string :=
  match Disruption (pool_spec pool) with
  | Some d => if RebootPolicy d =s "" then RebootPolicyRebootOnly else RebootPolicy d
  | None => RebootPolicyRebootOnly
  end.

(** [desiredImageFromPool]; the reference parsed before, or the code would
    dereference a nil interface. *)
Definition desiredImageFromPool (pool : BootcNodePool) : result string :=
  match parseImageRef (ImageRef (pool_spec pool)) with
  | Ok ref => Ok (named_String (TrimNamed ref) +:+ "@" +:+ TargetDigest (pool_status pool))
  | Err _ => Err (ErrPanic "nil reference")
  end.

(** The spec [syncBootcNodeSpec] wants. *)
Definition syncedSpec (pool : BootcNodePool) (desiredImage : string) (sp : BootcNodeSpec)
    : BootcNodeSpec :=
  mkBootcNodeSpec desiredImage
    (if DesiredImage sp =s desiredImage then DesiredImageState sp else DesiredImageStateStaged)
    (bnp_PullSecretRef (pool_spec pool)) (PullSecretHash sp) (effectiveRebootPolicy pool).

(** [syncBootcNodeSpec] on the BootcNode [k] of the owned set. *)
Definition syncBootcNodeSpec (pool : BootcNodePool) (k : string) (bn : BootcNode) : ctl CState unit :=
  desiredImage <- lift (desiredImageFromPool pool) ;;
  let sp := bn_spec bn in
  let needPatch :=
    negb (DesiredImage sp =s desiredImage) ||
    negb (bool_decide (bns_PullSecretRef sp = bnp_PullSecretRef (pool_spec pool))) ||
    negb (bns_RebootPolicy sp =s effectiveRebootPolicy pool) in
  if needPatch then
    got <- wrapf "patching BootcNode"
             (callE (PatchBootcNode bn (setBNSpec (syncedSpec pool desiredImage sp) bn)) id) ;;
    modify (setOwned k got)
  else ret tt.

(** The BootcNode [createBootcNode] builds, before the owner reference. *)
Definition newBootcNode (pool : BootcNodePool) (node : Node) (desiredImage : string) : BootcNode :=
  let m := newMeta (node_name node) in
  mkBootcNode
    (if nodeHasOsNotReadyTaint node
     then SetMetaDataAnnotation m AnnotationOwnsOsNotReadyTaint "true" else m)
    (mkBootcNodeSpec desiredImage DesiredImageStateStaged (bnp_PullSecretRef (pool_spec pool)) ""
       (effectiveRebootPolicy pool))
    (mkBootcNodeStatus 0 None None None []).

(** [createBootcNode]. *)
Definition createBootcNode {S : Type} (pool : BootcNodePool) (node : Node) : ctl S BootcNode :=
  desiredImage <- lift (desiredImageFromPool pool) ;;
  let bn := newBootcNode pool node desiredImage in
  m <- wrapf "setting owner reference"
         (lift (SetControllerReference "BootcNodePool" (pool_meta pool) (bn_meta bn))) ;;
  got <- wrapf "creating BootcNode" (callE (CreateBootcNode (setBNMeta m bn)) id) ;;
  _ <- wrapf "labeling node" (onNode node (ensureManagedLabel true)) ;;
  ret got.

(** The BootcNode whose taint ownership is stripped, for [removeBootcNode]. *)
Definition withoutTaintOwnership (bn : BootcNode) : BootcNode :=
  setBNAnnotations (GoMap.remove (bn_annotations bn) AnnotationOwnsOsNotReadyTaint) bn.

(** [removeBootcNode]. *)
Definition removeBootcNode (bn : BootcNode) : ctl CState unit :=
  drains <- gets cs_drains ;;
  match drains !! bn_name bn with
  | Some _ =>
      _ <- call (CancelDrain (bn_name bn)) ;;
      modify (λ s, setDrains (delete (bn_name bn) (cs_drains s)) s)
  | None => ret tt
  end ;;;
  r <- call (GetNode (bn_name bn)) ;;
  match r with
  | Err e => if IsNotFound e then ret tt else throw (ErrWrap ("fetching node " +:+ bn_name bn) e)
  | Ok node =>
      match om_deletionTimestamp (node_meta node) with
      | Some _ => ret tt
      | None =>
          node' <- wrapf "restoring node state"
                     (onCopies (withoutTaintOwnership bn) node (restoreNodeState None)) ;;
          _ <- wrapf "removing managed label" (onNode node' (ensureManagedLabel false)) ;;
          ret tt
      end
  end ;;;
  d <- call (DeleteBootcNode bn) ;;
  match d with
  | Ok _ => ret tt
  | Err e => if IsNotFound e then ret tt else throw (ErrWrap "deleting BootcNode" e)
  end.

(** The set of conflicting pools is a local variable of [syncMembership]. *)
Abbreviation MState := (CState * gset string)%type.

Definition onC {A : Set} (m : ctl CState A) : ctl MState A := zoom fst (λ c s, (c, s.2)) m.

(** One iteration over the matching nodes. *)
Definition adoptNode (pool : BootcNodePool) (allBN : gmap string BootcNode) (matching : gmap string Node)
    (nodeName : string) : ctl MState unit :=
  match matching !! nodeName with
  | None => ret tt
  | Some node =>
      owned <- gets (λ s : MState, cs_owned s.1 !! nodeName) ;;
      match owned with
      | Some bn =>
          _ <- wrapf ("ensuring managed label for " +:+ nodeName) (onNode node (ensureManagedLabel true)) ;;
          wrapf ("syncing BootcNode spec for " +:+ nodeName) (onC (syncBootcNodeSpec pool nodeName bn))
      | None =>
          r <- try (createBootcNode pool node) ;;
          match r with
          | Ok bn => onC (modify (setOwned nodeName bn))
          | Err e =>
              if negb (IsAlreadyExists e) then throw (ErrWrap ("creating BootcNode for " +:+ nodeName) e)
              else
                match allBN !! nodeName ≫= λ existing, GetControllerOf (bn_meta existing) with
                | Some owner => modify (λ s : MState, (s.1, {[ ref_name owner ]} ∪ s.2))
                | None => ret tt
                end
          end
      end
  end.

(** One iteration over the owned BootcNodes. *)
Definition dropNode (matching : gmap string Node) (nodeName : string) : ctl CState unit :=
  match matching !! nodeName with
  | Some _ => ret tt
  | None =>
      bn <- deref nodeName ;;
      wrapf ("removing BootcNode for " +:+ nodeName) (removeBootcNode bn) ;;;
      modify (λ s, mkCState (cs_pool s) (delete nodeName (cs_owned s)) (cs_drains s) (cs_rs s))
  end.

(** The loop over the matching nodes, with its local set of conflicts. *)
Definition adoptNodes `{MapOrder} (pool : BootcNodePool) (allBN : gmap string BootcNode)
    (matching : gmap string Node) : ctl CState (list string) :=
  λ s, pbind (forEach (rangeKeys 5 matching) (adoptNode pool allBN matching) (s, ∅))
         (λ r, Ret (r.1.1, match r.2 with Ok _ => Ok (elements r.1.2) | Err e => Err e end)).

(** [syncMembership]; the owned BootcNodes it returns are the state's. *)
Definition syncMembership `{MapOrder} : ctl CState unit :=
  pool <- gets cs_pool ;;
  nodes <- wrapf "listing matching nodes" (listMatchingNodes pool) ;;
  let matching := byName node_name nodes in
  allBN <- wrapf "listing BootcNodes" listAllBootcNodes ;;
  modify (λ s, mkCState (cs_pool s)
                 (filter (λ kv, IsControlledBy (bn_meta kv.2) (pool_meta pool) = true) allBN)
                 (cs_drains s) (cs_rs s)) ;;;
  conflicting <- adoptNodes pool allBN matching ;;
  owned <- gets cs_owned ;;
  forEach (rangeKeys 6 owned) (dropNode matching) ;;;
  (if negb (length conflicting =? 0) then
     degradePool PoolNodeConflict
       ("Node selector overlaps with pool(s): " +:+ join ", " (sortStrings conflicting))
   else ret tt).

(** [handlePoolDeletion]; the empty [ctrl.Result] is not represented. *)
Definition handlePoolDeletion `{MapOrder} : ctl CState unit :=
  pool <- gets cs_pool ;;
  if negb (ContainsFinalizer (pool_meta pool) FinalizerPoolCleanup) then ret tt
  else
    allBN <- wrapf "listing BootcNodes for deletion cleanup" listAllBootcNodes ;;
    forEach (rangeKeys 7 allBN) (λ k,
      match allBN !! k with
      | Some bn =>
          if negb (IsControlledBy (bn_meta bn) (pool_meta pool)) then ret tt
          else wrapf ("removing BootcNode " +:+ bn_name bn +:+ " during pool deletion")
                 (removeBootcNode bn)
      | None => ret tt
      end) ;;;
    r <- call (UpdatePool (setPoolMeta (RemoveFinalizer (pool_meta pool) FinalizerPoolCleanup) pool)) ;;
    match r with
    | Ok got => modify (setPool got)
    | Err e => if IsNotFound e then ret tt else throw (ErrWrap "removing finalizer" e)
    end.
End Membership.
