(* ===== verification/MembershipSafety.v ===== *)
(** * MembershipSafety: what membership changes may do

    Every request of [syncMembership] and [handlePoolDeletion], for every
    behaviour of the API server: a pool touches only its own BootcNodes, a new
    desired image revokes a pending reboot approval, a departing node is cleaned
    up before its BootcNode goes, and its startup taint stays. *)

From S2P Require Import Prelude Effects Types Library LibModel Client Samples Sim Image Karpenter Classify PoolStatus Slots Utf8 Events Drain Rollout RolloutSafety Membership.

Section Steps.
Context {L : Lib} {HL : LibLaws L} {C : Config}.
Implicit Types (h t : history) (bn : BootcNode) (node : Node) (s : CState).

Lemma wpg_onNode {S : Type} node m (s : S) h (Φ : history → S → result Node → Prop) :
  wpg m node h (λ h' n r, Φ h' s (match r with Ok _ => Ok n | Err e => Err e end)) →
  wpg (onNode node m) s h Φ.
Proof. unfold wpg, onNode. intros H. by apply wp_bind. Qed.

Lemma wpg_onCopies {S : Type} bn node m (s : S) h (Φ : history → S → result Node → Prop) :
  wpg m (bn, node) h (λ h' p r, Φ h' s (match r with Ok _ => Ok p.2 | Err e => Err e end)) →
  wpg (onCopies bn node m) s h Φ.
Proof. unfold wpg, onCopies. intros H. by apply wp_bind. Qed.

Definition isManaged node : bool := GoMap.has (om_labels (node_meta node)) LabelManaged.

(** The Node with the managed label added or removed. *)
Definition relabelled (managed : bool) node : Node :=
  setNodeLabels
    (if managed then GoMap.set (om_labels (node_meta node)) LabelManaged ""
     else GoMap.remove (om_labels (node_meta node)) LabelManaged) node.

(** The label is as it should be, or a patch made it so. *)
Definition labelled (managed : bool) node t : Prop :=
  isManaged node = managed ∨ ∃ got, Ev (PatchNode node (relabelled managed node)) (Ok got) ∈ t.

Lemma wpg_ensureManagedLabel managed node h (Φ : history → Node → result unit → Prop) :
  (∀ t n r, (t = [] ∧ r = Ok tt ∨ ∃ x, t = [Ev (PatchNode node (relabelled managed node)) x] ∧
                                       r = match x with Ok _ => Ok tt | Err e => Err e end) →
     (r = Ok tt → labelled managed node t) → Φ (h ++ t) n r) →
  wpg (ensureManagedLabel managed) node h Φ.
Proof.
  intros H. unfold ensureManagedLabel. go_step. go_step. unfold id.
  destruct (eqb managed (GoMap.has _ _)) eqn:E.
  - go_step. rewrite <- (app_nil_r h). apply H; [by left|].
    intros _. left. by apply eqb_prop in E.
  - go_step. apply wpg_callE. intros x. destruct x as [got|e]; simpl; [go_step|]; apply H.
    + right. by eexists.
    + intros _. right. exists got. unfold relabelled. set_solver.
    + right. by eexists.
    + done.
Qed.

(** What a patch for the label may do. *)
Definition label_write (managed : bool) node (r : req) : Prop :=
  r = PatchNode node (relabelled managed node).

(** The answer says that the object already exists. *)
Definition ans_exists (ev : event) : bool :=
  let '(Ev r x) := ev in
  match r return resp r → bool with
  | CreateBootcNode _ => λ x, match x with Err e => IsAlreadyExists e | Ok _ => false end
  | PatchNode _ _ => λ x, match x with Err e => IsAlreadyExists e | Ok _ => false end
  | _ => λ _, false
  end x.

(** The requests of [createBootcNode]: the create, then the label. *)
Definition create_request (pool : BootcNodePool) node (r : req) : Prop :=
  (∃ desired ref, desiredImageFromPool pool = Ok desired ∧ ref_controller ref = true ∧
     ref_uid ref = om_uid (pool_meta pool) ∧
     r = CreateBootcNode (setBNMeta (setOwnerReferences [ref] (bn_meta (newBootcNode pool node desired)))
                            (newBootcNode pool node desired))) ∨
  label_write true node r.

Lemma newBootcNode_unowned pool node desired :
  om_ownerReferences (bn_meta (newBootcNode pool node desired)) = [].
Proof. unfold newBootcNode. simpl. destruct (nodeHasOsNotReadyTaint node); [by rewrite set_annotation_spec|done]. Qed.

Lemma wpg_createBootcNode {S : Type} pool node (s : S) h (Φ : history → S → result BootcNode → Prop) :
  (∀ t r, (∀ e, e ∈ t → create_request pool node (ev_req e)) →
     (∀ got, r = Ok got → ∃ b, Ev (CreateBootcNode b) (Ok got) ∈ t) →
     (∀ e, r = Err e → IsAlreadyExists e = true → ∃ ev, ev ∈ t ∧ ans_exists ev = true) →
     Φ (h ++ t) s r) →
  wpg (createBootcNode pool node) s h Φ.
Proof.
  intros H. unfold createBootcNode. go_step. go_step.
  destruct (desiredImageFromPool pool) as [desired|e] eqn:Ed.
  2:{ rewrite <- (app_nil_r h). apply H; [|done|].
      - intros ev He. by apply elem_of_nil in He.
      - intros e' [= <-]. unfold desiredImageFromPool in Ed. destruct (parseImageRef _); [done|].
        by injection Ed as <-. }
  set (b0 := newBootcNode pool node desired).
  destruct (set_controller_spec "BootcNodePool" (pool_meta pool) (bn_meta b0))
    as (ref & Eref & Hc & Hu & _ & _); [by apply newBootcNode_unowned|].
  go_step. go_step. go_step. rewrite Eref. simpl.
  set (new := setBNMeta _ b0).
  assert (create_request pool node (CreateBootcNode new)) as Hcr by (left; exists desired, ref; done).
  go_step. go_step. apply wpg_callE. intros x. destruct x as [got|e]; simpl.
  2:{ apply H; [by intros ev ->%list_elem_of_singleton|done|].
      intros e' [= <-] He. eexists. split; [by apply list_elem_of_singleton|]. exact He. }
  go_step. go_step. apply wpg_onNode, wpg_ensureManagedLabel. intros t n r Ht _. rewrite <- app_assoc.
  assert (∀ e, e ∈ [Ev (CreateBootcNode new) (Ok got)] ++ t → create_request pool node (ev_req e)) as Hall.
  { intros e [->%list_elem_of_singleton|He]%elem_of_app; [done|].
    destruct Ht as [[-> _]|(x & -> & _)]; [by apply elem_of_nil in He|].
    apply list_elem_of_singleton in He as ->. by right. }
  destruct r as [[]|e]; [go_step|]; apply H; try done.
  - intros g [= <-]. exists new. set_solver.
  - intros e' [= <-] He. destruct Ht as [[_ ?]|(x & -> & Hx)]; [done|].
    destruct x as [|e2]; [done|]. injection Hx as ->. eexists. split; [apply elem_of_app; right;
      by apply list_elem_of_singleton|]. exact He.
Qed.

(** [syncBootcNodeSpec]: at most one patch, of the spec alone. *)
Lemma wpg_syncBootcNodeSpec pool k bn s h (Φ : history → CState → result unit → Prop) :
  (∀ e, Φ h s (Err e)) →
  (∀ desired, desiredImageFromPool pool = Ok desired → DesiredImage (bn_spec bn) = desired → Φ h s (Ok tt)) →
  (∀ desired x, desiredImageFromPool pool = Ok desired →
     Φ (h ++ [Ev (PatchBootcNode bn (setBNSpec (syncedSpec pool desired (bn_spec bn)) bn)) x])
       (match x with Ok got => setOwned k got s | Err _ => s end)
       (match x with Ok _ => Ok tt | Err e => Err (ErrWrap "patching BootcNode" e) end)) →
  wpg (syncBootcNodeSpec pool k bn) s h Φ.
Proof.
  intros H0 H1 H2. unfold syncBootcNodeSpec. go_step. go_step.
  destruct (desiredImageFromPool pool) as [desired|e]; [|done].
  destruct (_ || _ || _) eqn:Ep.
  - go_step. go_step. apply wpg_callE. intros x. specialize (H2 desired x eq_refl).
    destruct x as [got|e]; simpl; [go_step|]; apply H2.
  - go_step. apply (H1 desired); [done|].
    apply orb_false_iff in Ep as [[Ei%negb_false_iff _]%orb_false_iff _]. by apply seq_b_true in Ei.
Qed.

(** ** Removing a BootcNode *)

(** A request on behalf of a node that leaves: cancel its drain, look at it, take
    the fence down.  Its taints stay and it is never cordoned. *)
Definition remove_request bn (r : req) : Prop :=
  match r with
  | CancelDrain n | GetNode n => n = bn_name bn
  | GetNodeClaim _ => True
  | PatchNodeClaim c c' => claim_restored (withoutTaintOwnership bn) c c'
  | PatchNode base new =>
      node_taints new = node_taints base ∧
      (node_unschedulable base = false → node_unschedulable new = false)
  | _ => False
  end.

Definition removing bn t : Prop := ∀ e, e ∈ t → remove_request bn (ev_req e).

Lemma removing_app bn t1 t2 : removing bn t1 → removing bn t2 → removing bn (t1 ++ t2).
Proof. intros H1 H2 e [?|?]%elem_of_app; auto. Qed.
Lemma removing_nil bn : removing bn [].
Proof. intros e He. by apply elem_of_nil in He. Qed.
Lemma removing_one bn e : remove_request bn (ev_req e) → removing bn [e].
Proof. by intros H e' ->%list_elem_of_singleton. Qed.

(** The Node behind [bn] needs no more care: it is gone or going, or the
    controller's marks on it and on its NodeClaim are removed and the managed
    label is off. *)
Definition vacated bn t : Prop :=
  ∃ x, Ev (GetNode (bn_name bn)) x ∈ t ∧
    match x with
    | Err e => IsNotFound e = true
    | Ok node =>
        om_deletionTimestamp (node_meta node) ≠ None ∨
        (fence_down None (withoutTaintOwnership bn) node t ∧
         ∃ n1, (n1 = node ∨ ∃ n', Ev (PatchNode node n') (Ok n1) ∈ t) ∧ labelled false n1 t)
    end.

(** No NodeClaim was fetched. *)
Definition claimless t : Prop := ∀ n x, Ev (GetNodeClaim n) x ∉ t.

Lemma fence_down_frame bn node t0 t t1 :
  claimless t0 → claimless t1 → fence_down None bn node t → fence_down None bn node (t0 ++ t ++ t1).
Proof.
  intros H0 H1 [Hn Hc]. split.
  - destruct Hn as [?|(n' & got & ? & ?)]; [by left|right; exists n', got; set_solver].
  - intros c [?|(nm & Hin)]; [done|]. rewrite !elem_of_app in Hin. destruct Hin as [Hin|[Hin|Hin]].
    + by destruct (H0 _ _ Hin).
    + destruct (Hc c) as [?|(c' & got & ? & ?)]; [right; by exists nm|by left|right; exists c', got; set_solver].
    + by destruct (H1 _ _ Hin).
Qed.

Lemma labelled_app b node t0 t t1 : labelled b node t → labelled b node (t0 ++ t ++ t1).
Proof. intros [?|(got & ?)]; [by left|right; exists got; set_solver]. Qed.

Lemma claimless_nil : claimless [].
Proof. intros n x Hin. by apply elem_of_nil in Hin. Qed.

Lemma claimless_one e : (∀ n, ev_req e ≠ GetNodeClaim n) → claimless [e].
Proof. intros H n x Hin. apply list_elem_of_singleton in Hin as <-. by apply (H n). Qed.

Lemma claimless_app t1 t2 : claimless t1 → claimless t2 → claimless (t1 ++ t2).
Proof. intros H1 H2 n x [?|?]%elem_of_app; [by eapply H1|by eapply H2]. Qed.

Lemma withoutTaint_unowned bn :
  GoMap.has (bn_annotations (withoutTaintOwnership bn)) AnnotationOwnsOsNotReadyTaint = false.
Proof.
  apply GoMap.has_false.
  change (bn_annotations (withoutTaintOwnership bn))
    with (GoMap.remove (bn_annotations bn) AnnotationOwnsOsNotReadyTaint).
  apply GoMap.lookup_remove_eq.
Qed.

Lemma restored_removing bn node t got :
  node_restored (withoutTaintOwnership bn) node t got → removing bn t.
Proof.
  intros [(-> & _)|(n' & x & -> & _ & Hr)]; [apply removing_nil|]. apply removing_one. split.
  - rewrite (rest_taints _ _ _ Hr), withoutTaint_unowned. done.
  - rewrite (rest_cordon _ _ _ Hr). by case_decide.
Qed.

Lemma claims_removing bn t : claim_trace (withoutTaintOwnership bn) t → removing bn t.
Proof.
  intros (t0 & t1 & -> & H0 & H1). apply removing_app.
  - destruct H0 as [->|(n & x & ->)]; [apply removing_nil|by apply removing_one].
  - destruct H1 as [->|(c & c' & x & Hc & ->)]; [apply removing_nil|by apply removing_one].
Qed.

(** Equal up to the drains. *)
Definition same_but_drains s s' : Prop :=
  cs_pool s' = cs_pool s ∧ cs_owned s' = cs_owned s ∧ cs_rs s' = cs_rs s.

(** The clean-up of the Node, before the BootcNode is deleted. *)
Lemma wpg_cleanNode bn node s h (Φ : history → CState → result unit → Prop) :
  (∀ t e, removing bn t → Φ (h ++ t) s (Err e)) →
  (∀ t n1, removing bn t → fence_down None (withoutTaintOwnership bn) node t →
     (n1 = node ∨ ∃ n', Ev (PatchNode node n') (Ok n1) ∈ t) → labelled false n1 t →
     Φ (h ++ t) s (Ok tt)) →
  wpg (node' <- wrapf "restoring node state"
                  (onCopies (withoutTaintOwnership bn) node (restoreNodeState None)) ;;
       _ <- wrapf "removing managed label" (onNode node' (ensureManagedLabel false)) ;;
       ret tt)%go s h Φ.
Proof.
  intros Herr Hok. go_step. go_step. apply wpg_onCopies, wpg_restoreNodeState.
  { intros t e Ht. apply Herr. by eapply restored_removing. }
  intros t1 t2 n1 r Ht1 Ht2 Hc.
  assert (removing bn (t1 ++ t2)) as Hrem.
  { apply removing_app; [by eapply restored_removing|by apply claims_removing]. }
  destruct r as [[]|e]; [|by apply Herr]. simpl.
  go_step. go_step. apply wpg_onNode, wpg_ensureManagedLabel. intros t3 n r Ht3 Hl.
  rewrite <- app_assoc.
  assert (removing bn ((t1 ++ t2) ++ t3)) as Hrem'.
  { apply removing_app; [done|]. destruct Ht3 as [[-> _]|(x & -> & _)]; [apply removing_nil|by apply removing_one]. }
  destruct r as [[]|e]; [go_step|by apply Herr].
  apply (Hok _ n1); [done| | |].
  - apply (fence_down_frame _ _ [] (t1 ++ t2) t3); [apply claimless_nil| |].
    + destruct Ht3 as [[-> _]|(x & -> & _)]; [apply claimless_nil|by apply claimless_one].
    + by apply (fence_down_intro None _ _ _ _ n1); [|apply Hc].
  - destruct Ht1 as [(_ & [= ->] & _)|(n' & x & -> & Hx & _)]; [by left|].
    destruct x as [n2|]; [|done]. injection Hx as <-. right. exists n'. set_solver.
  - destruct (Hl eq_refl) as [?|(got & ?)]; [by left|right; exists got; set_solver].
Qed.

(** The deletion at the end of [removeBootcNode]. *)
Lemma wpg_deleteBootcNode bn s h (Φ : history → CState → result unit → Prop) :
  (∀ y r, (is_ok r = true ↔ match y with Ok _ => True | Err e => IsNotFound e = true end) →
     Φ (h ++ [Ev (DeleteBootcNode bn) y]) s r) →
  wpg (d <- call (DeleteBootcNode bn) ;;
       match d with
       | Ok _ => ret tt
       | Err e => if IsNotFound e then ret tt else throw (ErrWrap "deleting BootcNode" e)
       end)%go s h Φ.
Proof.
  intros H. go_step. go_step. destruct x as [[]|e]; [|destruct (IsNotFound e) eqn:En];
    go_step; apply H; try done; by rewrite En.
Qed.

(** Looking at the Node and cleaning it up: when it succeeds, the BootcNode may
    be deleted. *)
Lemma wpg_vacate bn (K : ctl CState unit) s h tc (Φ : history → CState → result unit → Prop) :
  removing bn tc → claimless tc →
  (∀ t e, removing bn t → Φ (h ++ t) s (Err e)) →
  (∀ t, removing bn t → vacated bn t → wpg K s (h ++ t) Φ) →
  wpg (r <- call (GetNode (bn_name bn)) ;;
       match r with
       | Err e => if IsNotFound e then ret tt else throw (ErrWrap ("fetching node " +:+ bn_name bn) e)
       | Ok node =>
           match om_deletionTimestamp (node_meta node) with
           | Some _ => ret tt
           | None =>
               node' <- wrapf "restoring node state"
                          (onCopies (withoutTaintOwnership bn) node (restoreNodeState None)) ;;
               _ <- wrapf "removing managed label" (onNode node' (ensureManagedLabel false)) ;;
               ret tt
           end
       end ;;; K)%go s (h ++ tc) Φ.
Proof.
  intros Htc Hcl Herr Hok. go_step. go_step. go_step. set (g := Ev (GetNode (bn_name bn)) x).
  assert (removing bn (tc ++ [g])) as Hg by (apply removing_app; [done|by apply removing_one]).
  rewrite <- app_assoc. destruct x as [node|e].
  - destruct (om_deletionTimestamp (node_meta node)) eqn:Ed.
    { go_step. apply Hok; [done|]. exists (Ok node). split; [unfold g; set_solver|]. left. congruence. }
    apply wpg_cleanNode; intros t.
    + intros e Ht. rewrite <- app_assoc. by apply Herr, removing_app.
    + intros n1 Ht Hf Hn Hl. rewrite <- app_assoc. apply Hok; [by apply removing_app|].
      exists (Ok node). split; [unfold g; set_solver|]. right. rewrite <- (app_nil_r t). split.
      * apply fence_down_frame; [|apply claimless_nil|done].
        apply claimless_app; [done|by apply claimless_one].
      * exists n1. split; [destruct Hn as [?|(n' & ?)]; [by left|right; exists n'; set_solver]|].
        by apply labelled_app.
  - destruct (IsNotFound e) eqn:En; go_step; [|by apply Herr].
    apply Hok; [done|]. exists (Err e). split; [unfold g; set_solver|done].
Qed.

Lemma wpg_removeBootcNode bn s h (Φ : history → CState → result unit → Prop) :
  (∀ t s' e, removing bn t → same_but_drains s s' → Φ (h ++ t) s' (Err e)) →
  (∀ t y s' r, removing bn t → vacated bn t → same_but_drains s s' →
     (is_ok r = true ↔ match y with Ok _ => True | Err e => IsNotFound e = true end) →
     Φ (h ++ t ++ [Ev (DeleteBootcNode bn) y]) s' r) →
  wpg (removeBootcNode bn) s h Φ.
Proof.
  intros Herr Hok. unfold removeBootcNode. go_step. go_step. go_step.
  destruct (cs_drains s !! bn_name bn).
  - go_step. go_step. go_step. apply wpg_vacate; [by apply removing_one|by apply claimless_one| |].
    + intros t e Ht. by apply Herr.
    + intros t Ht Hv. apply wpg_deleteBootcNode. intros y r Hr. rewrite <- app_assoc. by eapply Hok.
  - go_step. rewrite <- (app_nil_r h).
    apply wpg_vacate; [apply removing_nil|apply claimless_nil| |].
    + intros t e Ht. by apply Herr.
    + intros t Ht Hv. apply wpg_deleteBootcNode. intros y r Hr. rewrite <- app_assoc. by eapply Hok.
Qed.
End Steps.

(** ** The membership protocol *)

Section Protocol.
Context {L : Lib} {HL : LibLaws L} {C : Config}.
Context (pool : BootcNodePool).
Implicit Types (h t : history) (bn : BootcNode) (node : Node) (s : CState).

(** A BootcNode the API server listed and whose controller is this pool. *)
Definition own h bn : Prop :=
  ∃ l, Ev ListBootcNodes (Ok l) ∈ h ∧ bn ∈ l ∧ IsControlledBy (bn_meta bn) (pool_meta pool) = true.

Definition membership_allowed h (r : req) : Prop :=
  match r with
  | Now | ListNodes _ | ListBootcNodes | GetNode _ | GetNodeClaim _ => True
  | CancelDrain n => ∃ bn, own h bn ∧ n = bn_name bn
  | PatchNode base new =>
      node_taints new = node_taints base ∧
      (node_unschedulable base = false → node_unschedulable new = false)
  | PatchNodeClaim c c' => ∃ bn, own h bn ∧ claim_restored (withoutTaintOwnership bn) c c'
  | CreateBootcNode b =>
      IsControlledBy (bn_meta b) (pool_meta pool) = true ∧
      DesiredImageState (bn_spec b) = DesiredImageStateStaged ∧
      desiredImageFromPool pool = Ok (DesiredImage (bn_spec b))
  | PatchBootcNode base new =>
      own h base ∧ bn_meta new = bn_meta base ∧ bn_status new = bn_status base ∧
      desiredImageFromPool pool = Ok (DesiredImage (bn_spec new)) ∧
      DesiredImageState (bn_spec new) =
        (if decide (DesiredImage (bn_spec new) = DesiredImage (bn_spec base))
         then DesiredImageState (bn_spec base) else DesiredImageStateStaged)
  | DeleteBootcNode b => own h b ∧ ∃ h1 t h2, h = h1 ++ t ++ h2 ∧ vacated b t
  | _ => False
  end.

Lemma own_app h t bn : own h bn → own (h ++ t) bn.
Proof. intros (l & ? & ? & ?). exists l. set_solver. Qed.

Lemma membership_lasting : lasting membership_allowed.
Proof.
  intros h t r. destruct r; simpl; try done.
  - intros (Ho & ?). split; [by apply own_app|done].
  - intros (Ho & h1 & t1 & h2 & -> & Hv). split; [by apply own_app|].
    exists h1, t1, (h2 ++ t). split; [by rewrite <- !app_assoc|done].
  - intros (bn & ? & ?). exists bn. split; [by apply own_app|done].
  - intros (bn & ? & ?). exists bn. split; [by apply own_app|done].
Qed.

Abbreviation safe := (guarded membership_allowed).

Lemma membership_safe_app h t : safe h → (∀ e, e ∈ t → membership_allowed h (ev_req e)) → safe (h ++ t).
Proof. apply guarded_app, membership_lasting. Qed.

Lemma removing_allowed h bn t e :
  own h bn → removing bn t → e ∈ t → membership_allowed h (ev_req e).
Proof.
  intros Ho Ht He. specialize (Ht e He). destruct (ev_req e); try done; simpl in *; eauto.
Qed.

Lemma label_allowed h managed node r : label_write managed node r → membership_allowed h r.
Proof. by intros ->. Qed.

Lemma create_allowed h node r : create_request pool node r → membership_allowed h r.
Proof.
  intros [(desired & ref & Hd & Hc & Hu & ->)|Hl]; [|by eapply label_allowed]. simpl.
  split_and!; [|done|done]. apply controlled_by_spec. exists ref. split; [|done].
  rewrite controller_of_spec. simpl. by rewrite Hc.
Qed.

(** Removing an own BootcNode keeps the protocol. *)
Lemma remove_safe bn s h :
  safe h → own h bn →
  wpg (removeBootcNode bn) s h (λ h' s' _, safe h' ∧ same_but_drains s s').
Proof.
  intros Hh Ho. apply wpg_removeBootcNode.
  - intros t s' e Ht Hs. split; [|done]. apply membership_safe_app; [done|]. intros ev. by eapply removing_allowed.
  - intros t y s' r Ht Hv Hs _. split; [|done]. rewrite app_assoc. apply guarded_snoc.
    + apply membership_safe_app; [done|]. intros ev. by eapply removing_allowed.
    + split; [by apply own_app|]. exists h, t, []. by rewrite app_nil_r.
Qed.

Lemma byName_elem {A : Type} (name : A → string) (l : list A) k x :
  byName name l !! k = Some x → x ∈ l ∧ name x = k.
Proof.
  unfold byName. induction l as [|y l IH] using rev_ind; [simpl; by rewrite lookup_empty|].
  rewrite fold_left_app. simpl. rewrite lookup_insert.
  case_decide; [intros [= <-]; set_solver|]. intros Hx. destruct (IH Hx). set_solver.
Qed.

(** The BootcNodes outside [done] are own ones, as listed. *)
Definition listed_own (done : list string) h (owned : gmap string BootcNode) : Prop :=
  ∀ k bn, k ∉ done → owned !! k = Some bn → own h bn.

Lemma listed_own_app done h t owned : listed_own done h owned → listed_own done (h ++ t) owned.
Proof. intros H k bn Hk Hb. by eapply own_app, H. Qed.

Lemma listed_own_insert done h owned k b :
  listed_own done h owned → listed_own (done ++ [k]) h (<[k := b]> owned).
Proof.
  intros H k' bn Hk'. rewrite lookup_insert_ne by set_solver. apply H. set_solver.
Qed.

Lemma listed_own_more done h owned k : listed_own done h owned → listed_own (done ++ [k]) h owned.
Proof. intros H k' bn Hk'. apply H. set_solver. Qed.

Lemma wpg_onC {A : Set} (m : ctl CState A) (s : CState * gset string) h
    (Φ : history → CState * gset string → result A → Prop) :
  wpg m s.1 h (λ h' c r, Φ h' (c, s.2) r) → wpg (onC m) s h Φ.
Proof. intros H. unfold onC. by apply wpg_zoom. Qed.

Lemma sync_spec_allowed h bn desired :
  own h bn → desiredImageFromPool pool = Ok desired →
  membership_allowed h (PatchBootcNode bn (setBNSpec (syncedSpec pool desired (bn_spec bn)) bn)).
Proof.
  intros Ho Hd. simpl. split_and!; [done..|]. case_decide as E.
  - rewrite E. by rewrite seq_b_refl.
  - by rewrite (proj2 (seq_b_false _ _)) by congruence.
Qed.

Lemma label_safe {S : Type} managed node (s : S) h (Φ : history → S → result Node → Prop) :
  safe h → (∀ t r, safe (h ++ t) → Φ (h ++ t) s r) →
  wpg (onNode node (ensureManagedLabel managed)) s h Φ.
Proof.
  intros Hh H. apply wpg_onNode, wpg_ensureManagedLabel. intros t n r Ht _. apply H.
  apply membership_safe_app; [done|]. intros e He.
  destruct Ht as [[-> _]|(x & -> & _)]; [by apply elem_of_nil in He|].
  by apply list_elem_of_singleton in He as ->.
Qed.

Lemma adopt_safe allBN matching done n ms h :
  n ∉ done → safe h → listed_own done h (cs_owned ms.1) →
  wpg (adoptNode pool allBN matching n) ms h (λ h' ms' _,
    safe h' ∧ listed_own (done ++ [n]) h' (cs_owned ms'.1) ∧ cs_pool ms'.1 = cs_pool ms.1).
Proof.
  intros Hn Hh Hl. unfold adoptNode. destruct (matching !! n) as [node|].
  2:{ go_step. split_and!; [done|by apply listed_own_more|done]. }
  go_step. go_step. destruct (cs_owned ms.1 !! n) as [bn|] eqn:Eo.
  - assert (own h bn) as Hown by (by eapply Hl). go_step. go_step. apply label_safe; [done|].
    intros t r Ht. apply (listed_own_app _ _ t) in Hl. apply (own_app _ t) in Hown.
    destruct r as [u|e]; [|split_and!; [done|by apply listed_own_more|done]].
    go_step. apply wpg_onC, wpg_syncBootcNodeSpec.
    + intros e. split_and!; [done|by apply listed_own_more|done].
    + intros desired _ _. split_and!; [done|by apply listed_own_more|done].
    + intros desired x Hd. split_and!.
      * apply guarded_snoc; [done|]. by apply sync_spec_allowed.
      * apply listed_own_app. destruct x; simpl; [by apply listed_own_insert|by apply listed_own_more].
      * by destruct x.
  - go_step. go_step. apply wpg_createBootcNode. intros t r Ht _ _.
    assert (safe (h ++ t)) as Ht' by (apply membership_safe_app; [done|]; intros e He; eapply create_allowed; eauto).
    apply (listed_own_app _ _ t) in Hl.
    destruct r as [bn|e].
    + apply wpg_onC. go_step. split_and!; [done|by apply listed_own_insert|done].
    + repeat split_match; go_step; (split_and!; [done|by apply listed_own_more|done]).
Qed.

Lemma adoptNodes_safe `{MapOrder} allBN matching s h :
  safe h → listed_own [] h (cs_owned s) →
  wpg (adoptNodes pool allBN matching) s h (λ h' s' _,
    safe h' ∧ (∀ k bn, matching !! k = None → cs_owned s' !! k = Some bn → own h' bn) ∧
    cs_pool s' = cs_pool s).
Proof.
  intros Hh Hl. unfold wpg, adoptNodes. apply wp_bind.
  assert (wpg (forEach (rangeKeys 5 matching) (adoptNode pool allBN matching)) (s, ∅) h (λ h' ms _,
    safe h' ∧ (∀ k bn, matching !! k = None → cs_owned ms.1 !! k = Some bn → own h' bn) ∧
    cs_pool ms.1 = cs_pool s)) as Hw; [|exact Hw].
  assert (∀ done h' (ms : CState * gset string), done ⊆ rangeKeys 5 matching →
    safe h' ∧ listed_own done h' (cs_owned ms.1) ∧ cs_pool ms.1 = cs_pool s →
    safe h' ∧ (∀ k bn, matching !! k = None → cs_owned ms.1 !! k = Some bn → own h' bn) ∧
    cs_pool ms.1 = cs_pool s) as Hweak.
  { intros done h' ms Hsub (H1 & H2 & H3). split_and!; [done| |done]. intros k bn Hk. apply H2.
    intros [x Hx]%Hsub%elem_of_rangeKeys. congruence. }
  apply (wpg_forEach (λ done h' ms,
    safe h' ∧ listed_own done h' (cs_owned ms.1) ∧ cs_pool ms.1 = cs_pool s)); [|done|].
  - intros done n rest ms h' Hr (Hs & Hl' & Hp).
    assert (n ∉ done) as Hn.
    { pose proof (NoDup_rangeKeys 5 matching) as Hnd. rewrite Hr in Hnd.
      apply NoDup_app in Hnd as (_ & Hd & _). intros Hin. apply (Hd n Hin). set_solver. }
    eapply wpg_mono; [|by apply adopt_safe]. intros h2 ms2 r (H1 & H2 & H3).
    destruct r as [[]|e]; [by split_and!; [..|congruence]|].
    apply (Hweak (done ++ [n])); [rewrite Hr; set_solver|]. split_and!; [done|done|congruence].
  - intros h' ms Hi. by eapply Hweak.
Qed.

Lemma syncMembership_safe `{MapOrder} s :
  cs_pool s = pool →
  wpg syncMembership s [] (λ h _ _, guarded membership_allowed h).
Proof.
  intros Hp. unfold syncMembership. go_step. go_step. rewrite Hp. go_step. go_step.
  assert (safe []) as H0 by apply guarded_nil.
  unfold listMatchingNodes. destruct (LabelSelectorAsSelector _) as [sel|e]; [|by go_step].
  go_step. apply wpg_callE. intros x. assert (safe [Ev (ListNodes sel) x]) as H1.
  { by apply (guarded_snoc _ []). }
  destruct x as [nodes|e]; simpl; [|done]. set (matching := byName node_name nodes).
  go_step. go_step. unfold listAllBootcNodes. go_step. go_step. apply wpg_callE. intros x.
  set (h2 := _ ++ [Ev ListBootcNodes x]). assert (safe h2) as H2 by (by apply guarded_snoc).
  destruct x as [l|e]; simpl; [|done]. go_step. go_step. go_step.
  set (owned0 := filter _ (byName bn_name l)).
  assert (listed_own [] h2 owned0) as Hl.
  { intros k bn _ [Hk Hc]%map_lookup_filter_Some. apply byName_elem in Hk as [Hin _].
    exists l. split; [unfold h2; set_solver|done]. }
  go_step. eapply wpg_mono; [|by apply adoptNodes_safe].
  intros h3 s3 [conflicting|e] (H3 & Hown & Hp3); [|done].
  go_step. go_step. go_step.
  eapply wpg_mono with (Φ := λ h' _ _, safe h').
  { intros h4 s4 [[]|e] H4; [|done]. split_match; [|by go_step].
    unfold degradePool. do 3 go_step. by apply guarded_snoc. }
  apply (wpg_forEach_inv (λ h' s', safe h' ∧
    ∀ k bn, matching !! k = None → cs_owned s' !! k = Some bn → own h' bn)); [|done|by intros ?? []].
  intros k s' h' _ [Hs' Ho']. unfold dropNode. destruct (matching !! k) as [nd|] eqn:Em; [by go_step|].
  go_step. apply wpg_deref; [|done]. intros bn Hbn. go_step. go_step.
  eapply wpg_mono; [|apply wpg_and; [|apply wpg_history]; apply remove_safe; [done|by eapply Ho']].
  intros h4 s4 [[]|e] [[H4 (_ & Hso & _)] [t ->]]; [|done].
  go_step. split; [done|]. intros k' bn' Hm. simpl. rewrite Hso.
  intros [_ Hk']%lookup_delete_Some. by eapply own_app, Ho'.
Qed.

(** C12. The membership protocol.  In every run of [syncMembership], for every
    behaviour of the API server and wherever it fails: the pool patches and
    deletes only BootcNodes that were listed with this pool as their controller,
    and creates only BootcNodes it controls; a patch changes the spec alone, sets
    the pool's image, and when that changes the image it resets the desired state
    to Staged (revoking a pending reboot approval), otherwise it keeps the state,
    so membership never approves a reboot; a BootcNode is deleted only once its
    Node is gone or has been restored and unlabelled; Nodes keep their taints
    (the startup taint of an unverified node included) and are never cordoned. *)
Theorem syncMembership_protocol `{MapOrder} s :
  cs_pool s = pool →
  wpg syncMembership s [] (λ h _ _, guarded membership_allowed h).
Proof. apply syncMembership_safe. Qed.
End Protocol.

(** ** Deleting a pool *)

Section Deletion.
Context {L : Lib} {HL : LibLaws L} {C : Config}.
Implicit Types (h t : history) (bn : BootcNode) (s : CState).

(** The API server confirmed that the BootcNode is gone. *)
Definition gone h bn : Prop :=
  ∃ y, Ev (DeleteBootcNode bn) y ∈ h ∧ match y with Ok _ => True | Err e => IsNotFound e = true end.

Definition deletion_allowed (pool : BootcNodePool) h (r : req) : Prop :=
  match r with
  | UpdatePool p =>
      FinalizerPoolCleanup ∉ om_finalizers (pool_meta p) ∧
      ∃ l, Ev ListBootcNodes (Ok l) ∈ h ∧
        ∀ k bn, byName bn_name l !! k = Some bn →
          IsControlledBy (bn_meta bn) (pool_meta pool) = true → gone h bn
  | PatchBootcNode _ _ | CreateBootcNode _ => False
  | _ => membership_allowed pool h r
  end.

Lemma gone_app h t bn : gone h bn → gone (h ++ t) bn.
Proof. intros (y & ? & ?). exists y. set_solver. Qed.

Lemma deletion_lasting pool : lasting (deletion_allowed pool).
Proof.
  intros h t r. destruct r; try done; try apply (membership_lasting pool h t).
  simpl. intros (Hf & l & Hl & Hall). split; [done|]. exists l. split; [set_solver|].
  intros k bn Hk Hc. by eapply gone_app, Hall.
Qed.

Lemma removing_deletion pool h bn t e :
  own pool h bn → removing bn t → e ∈ t → deletion_allowed pool h (ev_req e).
Proof.
  intros Ho Ht He. pose proof (removing_allowed pool h bn t e Ho Ht He) as Ha.
  specialize (Ht e He). by destruct (ev_req e).
Qed.

Lemma remove_deletion pool bn s h :
  guarded (deletion_allowed pool) h → own pool h bn →
  wpg (removeBootcNode bn) s h (λ h' _ r,
    guarded (deletion_allowed pool) h' ∧ (is_ok r = true → gone h' bn)).
Proof.
  intros Hh Ho. apply wpg_removeBootcNode.
  - intros t s' e Ht _. split; [|done]. apply guarded_app; [apply deletion_lasting|done|].
    intros ev. by eapply removing_deletion.
  - intros t y s' r Ht Hv _ Hr. rewrite app_assoc. split.
    + apply guarded_snoc.
      * apply guarded_app; [apply deletion_lasting|done|]. intros ev. by eapply removing_deletion.
      * simpl. split; [by apply own_app|]. exists h, t, []. by rewrite app_nil_r.
    + intros Hok. exists y. split; [set_solver|]. by apply Hr.
Qed.

(** Every own BootcNode of [all] is gone. *)
Definition all_gone (pool : BootcNodePool) (all : gmap string BootcNode) h (k : string) : Prop :=
  ∀ bn, all !! k = Some bn → IsControlledBy (bn_meta bn) (pool_meta pool) = true → gone h bn.

Lemma removeAll_gone `{MapOrder} pool l h0 s :
  let all := byName bn_name l in
  Ev ListBootcNodes (Ok l) ∈ h0 → guarded (deletion_allowed pool) h0 →
  wpg (forEach (rangeKeys 7 all) (λ k,
         match all !! k with
         | Some bn =>
             if negb (IsControlledBy (bn_meta bn) (pool_meta pool)) then ret tt
             else wrapf ("removing BootcNode " +:+ bn_name bn +:+ " during pool deletion")
                    (removeBootcNode bn)
         | None => ret tt
         end)) s h0 (λ h _ r,
    guarded (deletion_allowed pool) h ∧ (∃ t, h = h0 ++ t) ∧ (r = Ok tt → ∀ k, all_gone pool all h k)).
Proof.
  intros all Hl H0.
  apply (wpg_forEach (λ done h _, guarded (deletion_allowed pool) h ∧ (∃ t, h = h0 ++ t) ∧
    ∀ k, k ∈ done → all_gone pool all h k)).
  - intros done k rest s' h _ (Hg & [t ->] & Hd).
    assert (∀ t', all_gone pool all ((h0 ++ t) ++ t') k →
      (∃ t0, (h0 ++ t) ++ t' = h0 ++ t0) ∧
      ∀ k', k' ∈ done ++ [k] → all_gone pool all ((h0 ++ t) ++ t') k') as Hstep.
    { intros t' Hk. split; [exists (t ++ t'); by rewrite app_assoc|].
      intros k' [Hk'|Hk']%elem_of_app; [intros bn Hb Hc; by eapply gone_app, Hd|].
      by apply list_elem_of_singleton in Hk' as ->. }
    specialize (Hstep []) as Hstay. rewrite app_nil_r in Hstay. unfold all_gone at 1 in Hstay.
    destruct (all !! k) as [bn|] eqn:Ek; [|go_step; split; [done|by apply Hstay]].
    destruct (IsControlledBy (bn_meta bn) (pool_meta pool)) eqn:Ec; simpl.
    2:{ go_step. split; [done|]. apply Hstay. congruence. }
    assert (own pool (h0 ++ t) bn) as Hown.
    { apply byName_elem in Ek as [Hin _]. exists l. split; [set_solver|done]. }
    go_step. eapply wpg_mono; [|apply wpg_and; [by apply (remove_deletion pool)|apply wpg_history]].
    intros h2 s2 [[]|e] [[H2 Hgn] [t' ->]].
    + split; [done|]. apply Hstep. intros bn' Hb _. rewrite Ek in Hb. injection Hb as <-. by apply Hgn.
    + split_and!; [done|exists (t ++ t'); by rewrite app_assoc|done].
  - split_and!; [done|exists []; by rewrite app_nil_r|set_solver].
  - intros h s' (Hg & Ht & Hd). split_and!; [done|done|]. intros _ k bn Hk. eapply Hd; [|done].
    apply elem_of_rangeKeys. eauto.
Qed.

Lemma handlePoolDeletion_safe `{MapOrder} s :
  wpg handlePoolDeletion s [] (λ h _ r,
    guarded (deletion_allowed (cs_pool s)) h ∧
    (ContainsFinalizer (pool_meta (cs_pool s)) FinalizerPoolCleanup = true → is_ok r = true →
     ∃ p x, Ev (UpdatePool p) x ∈ h)).
Proof.
  unfold handlePoolDeletion. go_step. go_step. set (pool := cs_pool s).
  assert (guarded (deletion_allowed pool) []) as H0 by apply guarded_nil.
  destruct (ContainsFinalizer _ _) eqn:Ef; cbn [negb]; [|by go_step].
  go_step. go_step. unfold listAllBootcNodes. go_step. go_step. apply wpg_callE. intros x.
  set (h1 := [] ++ [Ev ListBootcNodes x]). assert (guarded (deletion_allowed pool) h1) as H1.
  { by apply guarded_snoc. }
  destruct x as [l|e]; cbv [id]; [|done]. go_step. go_step.
  assert (Ev ListBootcNodes (Ok l) ∈ h1) as Hl by (unfold h1; set_solver).
  eapply wpg_mono; [|by apply (removeAll_gone pool l)].
  intros h2 s2 [[]|e] (H2 & [t ->] & Hok); [|done]. specialize (Hok eq_refl).
  go_step. go_step. set (p := setPoolMeta _ pool).
  assert (guarded (deletion_allowed pool) ((h1 ++ t) ++ [Ev (UpdatePool p) x])) as H3.
  { apply guarded_snoc; [done|]. simpl. split.
    - rewrite remove_finalizer_spec. simpl. rewrite elem_of_filter_b.
      intros [Hb _]. by rewrite seq_b_refl in Hb.
    - exists l. split; [set_solver|]. intros k bn. apply Hok. }
  assert (∃ p' y, Ev (UpdatePool p') y ∈ (h1 ++ t) ++ [Ev (UpdatePool p) x]) as Hex.
  { exists p, x. set_solver. }
  destruct x as [got|er]; [by go_step|]. destruct (IsNotFound er); by go_step.
Qed.

(** C14. A pool goes last.  In every run of [handlePoolDeletion], for every
    behaviour of the API server: the cleanup finalizer is taken off the pool only
    after every listed BootcNode that the pool controls has been confirmed deleted
    (each of them after its Node was restored and unlabelled, or is gone), and
    nothing is created or patched on the way but the departing Nodes and their
    NodeClaims.  When the pool carries the finalizer and the function succeeds,
    that update was made. *)
Theorem handlePoolDeletion_last `{MapOrder} s :
  wpg handlePoolDeletion s [] (λ h _ r,
    guarded (deletion_allowed (cs_pool s)) h ∧
    (ContainsFinalizer (pool_meta (cs_pool s)) FinalizerPoolCleanup = true → is_ok r = true →
     ∃ p x, Ev (UpdatePool p) x ∈ h)).
Proof. apply handlePoolDeletion_safe. Qed.
End Deletion.
