(* ===== verification/MembershipWitness.v ===== *)
(** * MembershipWitness: membership on a concrete cluster

    Runs of [syncMembership] and [handlePoolDeletion] against the simulated
    cluster, to which the theorems of [MembershipSafety] are applied. *)

From S2P Require Import Prelude Effects Types Library LibModel Client Samples Sim Image Karpenter Classify PoolStatus Slots Utf8 Events Drain Rollout RolloutSafety RolloutWitness Membership MembershipSafety.

Module MembershipWitness.
Import LibModel.
#[local] Existing Instance idOrder.
#[local] Existing Instance RolloutWitness.config.

(** A BootcNode that another pool controls. *)
Definition foreign (b : BootcNode) : BootcNode :=
  setBNMeta (setOwnerReferences
    [mkOwnerReference "node.bootc.dev/v1alpha1" "BootcNodePool" "gpu" "gpu-uid" true] (bn_meta b)) b.

(** "w1" still has image A desired and is approved for a reboot, "w2" is new,
    "w3" holds a slot but left the selector, "w4" belongs to pool "gpu". *)
Definition bns0 : gmap string BootcNode :=
  Samples.store [
    Samples.bootcNode "w1" Samples.RefA DesiredImageStateBooted (Some Samples.imageA) None
      [Samples.idle ConditionTrue NodeReasonIdle 0] Samples.slotAnnotations;
    Samples.stagedNode "w3" Samples.slotAnnotations;
    foreign (Samples.upToDateNode "w4" None)].

Definition outsider (name : string) : Node :=
  setNodeLabels (GoMap.set None LabelManaged "") (setUnschedulable true (Samples.node name None)).

Definition pool0 : BootcNodePool := Samples.pool None.

Definition world0 : World :=
  mkWorld 0 {["workers" := pool0]}
    (list_to_map [("w1", Samples.node "w1" None); ("w2", Samples.node "w2" None);
                  ("w3", outsider "w3"); ("w4", Samples.node "w4" None)])
    bns0 ∅ ∅ ∅ ∅.

Definition state0 : CState :=
  mkCState pool0 ∅ {["w3" := mkDrainStatus 0 false]} emptyRolloutState.

Definition pass0 := run sim (syncMembership state0) world0.

(** The pass revokes the approval of "w1", adopts "w2", restores and drops "w3",
    and reports the conflict about "w4". *)
Example membershipPass_story :
  is_ok pass0.2.2 = true ∧
  ((λ b, (DesiredImage (bn_spec b), DesiredImageState (bn_spec b))) <$> w_bns pass0.1.1 !! "w1")
    = Some (Samples.RefB, "Staged") ∧
  ((λ b, DesiredImage (bn_spec b)) <$> w_bns pass0.1.1 !! "w2") = Some Samples.RefB ∧
  w_bns pass0.1.1 !! "w3" = None ∧
  ((λ n, (node_unschedulable n, isManaged n)) <$> w_nodes pass0.1.1 !! "w3") = Some (false, false) ∧
  (isManaged <$> w_nodes pass0.1.1 !! "w2") = Some true ∧
  (isManaged <$> w_nodes pass0.1.1 !! "w4") = Some false ∧
  cs_drains pass0.2.1 = ∅ ∧
  (c_message <$> FindStatusCondition (pool_conditions (cs_pool pass0.2.1)) PoolDegraded)
    = Some "Node selector overlaps with pool(s): gpu".
Proof. vm_compute. done. Qed.

Lemma syncMembership_protocol_witness :
  cs_pool state0 = pool0 ∧ 10 ≤ length pass0.1.2 ∧ guarded (membership_allowed pool0) pass0.1.2.
Proof.
  split; [reflexivity|]. split; [apply Nat.leb_le; vm_compute; reflexivity|].
  exact (proj2 (wpg_sim _ _ world0 _ (syncMembership_protocol pool0 state0 eq_refl))).
Defined.

(** Deleting the pool afterwards. *)
Definition pass1 := run sim (handlePoolDeletion (mkCState pool0 ∅ ∅ emptyRolloutState)) pass0.1.1.

Lemma handlePoolDeletion_last_witness :
  ContainsFinalizer (pool_meta pool0) FinalizerPoolCleanup = true ∧ is_ok pass1.2.2 = true ∧
  (bool_decide (is_Some (w_bns pass1.1.1 !! "w1")), bool_decide (is_Some (w_bns pass1.1.1 !! "w4")))
    = (false, true) ∧
  guarded (deletion_allowed pool0) pass1.1.2 ∧ ∃ p x, Ev (UpdatePool p) x ∈ pass1.1.2.
Proof.
  assert (ContainsFinalizer (pool_meta pool0) FinalizerPoolCleanup = true) as Hf by (vm_compute; reflexivity).
  assert (is_ok pass1.2.2 = true) as Hok by (vm_compute; reflexivity).
  split; [exact Hf|]. split; [exact Hok|]. split; [vm_compute; reflexivity|].
  destruct (wpg_sim _ _ pass0.1.1 _
    (handlePoolDeletion_last (mkCState pool0 ∅ ∅ emptyRolloutState))) as [_ [Hg Hu]].
  split; [exact Hg|]. exact (Hu Hf Hok).
Defined.
End MembershipWitness.
