(* ===== verification/MembershipSync.v ===== *)
(** * MembershipSync: what a successful membership sync establishes

    After [syncMembership] the owned BootcNodes are exactly the matching nodes
    (less those another pool holds), filed under their names, each asking for
    the pool's image: the state in which the rollout may start. *)

From S2P Require Import Prelude Effects Types Library LibModel Client Samples Sim Image Karpenter Classify PoolStatus Slots Utf8 Events Drain Rollout RolloutSafety RolloutWitness Membership MembershipSafety MembershipWitness.

Section Sync.
Context {L : Lib} {HL : LibLaws L} {C : Config}.
Context (pool : BootcNodePool).
Implicit Types (h t : history) (bn : BootcNode) (node : Node) (s : CState).

Lemma byName_is_Some {A : Type} (name : A → string) (l : list A) k :
  is_Some (byName name l !! k) ↔ k ∈ name <$> l.
Proof.
  unfold byName. induction l as [|x l IH] using rev_ind; [simpl; split; [by intros []|set_solver]|].
  rewrite fold_left_app, fmap_app, elem_of_app. simpl.
  destruct (decide (name x = k)) as [<-|Hne].
  - rewrite lookup_insert_eq. split; [intros _; right; set_solver|eauto].
  - rewrite lookup_insert_ne, IH by done. set_solver.
Qed.

(** The BootcNode [bn] stored under [k] asks for the pool's image. *)
Definition in_sync bn : Prop := desiredImageFromPool pool = Ok (DesiredImage (bn_spec bn)).

Lemma in_sync_digest bn :
  in_sync bn → valid_digest (TargetDigest (pool_status pool)) →
  desiredDigest bn (TargetDigest (pool_status pool)).
Proof.
  unfold in_sync, desiredImageFromPool. destruct (parseImageRef _) as [ref|] eqn:Er; [|done].
  intros [= Hd] Hv. destruct (parse_trim_digest _ _ _ Er Hv) as (n & Hn & Hdig).
  exists n. by rewrite <- Hd.
Qed.

(** The creation for the node [k] was answered with "already exists". *)
Definition refused h k : Prop :=
  ∃ node ev, node_name node = k ∧ ev ∈ h ∧ create_request pool node (ev_req ev) ∧ ans_exists ev = true.

Lemma refused_app h t k : refused h k → refused (h ++ t) k.
Proof. intros (node & ev & ? & ? & ?). exists node, ev. set_solver. Qed.

Lemma quiet_honest h : quiet_history h → honest_history h.
Proof. intros Hq. eapply Forall_impl; [exact Hq|]. by intros e []. Qed.

Lemma created_as_sent node got b t :
  honest_history t → (∀ e, e ∈ t → create_request pool node (ev_req e)) →
  Ev (CreateBootcNode b) (Ok got) ∈ t → bn_name got = node_name node ∧ in_sync got.
Proof.
  intros Hh Hr Hin. pose proof (proj1 (Forall_forall _ _) Hh _ Hin got eq_refl) as [Hn Hs].
  destruct (Hr _ Hin) as [(desired & ref & Hd & _ & _ & Hb)|Hl]; [|discriminate Hl].
  simpl in Hb. injection Hb as ->. unfold in_sync. rewrite Hn, Hs. split; [|done].
  unfold newBootcNode, bn_name. simpl. destruct (nodeHasOsNotReadyTaint node); [|done].
  by rewrite set_annotation_spec.
Qed.

(** After the elements [done] of the loop over the matching nodes. *)
Record adopted (done : list string) h (owned : gmap string BootcNode) : Prop := {
  ad_keyed : honest_history h → keyed owned;
  ad_sync : quiet_history h → ∀ k bn, k ∈ done → owned !! k = Some bn → in_sync bn;
  ad_covered k : k ∈ done → is_Some (owned !! k) ∨ refused h k
}.

Lemma adopted_more done h t owned k :
  adopted done h owned → (quiet_history (h ++ t) → ∀ bn, owned !! k = Some bn → in_sync bn) →
  is_Some (owned !! k) ∨ refused (h ++ t) k →
  adopted (done ++ [k]) (h ++ t) owned.
Proof.
  intros [Hk Hs Hc] Hnew Hcov. split.
  - intros [Hh _]%Forall_app. by apply Hk.
  - intros Hq k' bn [Hd| ->%list_elem_of_singleton]%elem_of_app; [|by apply Hnew].
    apply Forall_app in Hq as [Hq _]. by apply Hs.
  - intros k' [Hd| ->%list_elem_of_singleton]%elem_of_app; [|done].
    destruct (Hc _ Hd); [by left|right; by apply refused_app].
Qed.

Lemma adopted_insert done h t owned k b :
  adopted done h owned → (honest_history (h ++ t) → bn_name b = k) →
  (quiet_history (h ++ t) → in_sync b) →
  adopted (done ++ [k]) (h ++ t) (<[k := b]> owned).
Proof.
  intros [Hk Hs Hc] Hn Hsync. split.
  - intros Hh k' bn [[<- <-]|[_ Hk']]%lookup_insert_Some; [by apply Hn|].
    apply Forall_app in Hh as [Hh _]. by apply Hk.
  - intros Hq k' bn Hd [[<- <-]|[Hne Hk']]%lookup_insert_Some; [by apply Hsync|].
    apply Forall_app in Hq as [Hq _]. apply (Hs Hq k'); [|done].
    apply elem_of_app in Hd as [?|?%list_elem_of_singleton]; congruence.
  - intros k' Hd. destruct (decide (k' = k)) as [->|Hne]; [left; rewrite lookup_insert_eq; eauto|].
    rewrite lookup_insert_ne by done. apply elem_of_app in Hd as [Hd|?%list_elem_of_singleton]; [|done].
    destruct (Hc _ Hd); [by left|right; by apply refused_app].
Qed.

Lemma adopt_synced allBN matching done n ms h :
  (∀ k node, matching !! k = Some node → node_name node = k) → is_Some (matching !! n) →
  adopted done h (cs_owned ms.1) →
  wpg (adoptNode pool allBN matching n) ms h (λ h' ms' r,
    cs_pool ms'.1 = cs_pool ms.1 ∧ (is_ok r = true → adopted (done ++ [n]) h' (cs_owned ms'.1))).
Proof.
  intros Hm [node Hn] Ha. unfold adoptNode. rewrite Hn. go_step. go_step.
  destruct (cs_owned ms.1 !! n) as [bn|] eqn:Eo.
  - go_step. go_step. apply wpg_onNode, wpg_ensureManagedLabel. intros t n' r _ _.
    destruct r as [[]|e]; [|done]. go_step. apply wpg_onC, wpg_syncBootcNodeSpec; [done| |].
    + intros desired Hd Hi. split; [done|]. intros _. apply adopted_more; [done| |left; eauto].
      intros _ bn' Hbn'. simpl in Hbn'. rewrite Eo in Hbn'. injection Hbn' as <-. unfold in_sync. by rewrite Hi.
    + intros desired x Hd. destruct x as [got|e]; [|done]. split; [done|]. intros _.
      rewrite <- app_assoc. simpl.
      apply adopted_insert; [done| |].
      * intros [Hh0 [_ Hp]%Forall_app]%Forall_app. apply Forall_cons in Hp as [Hp _].
        destruct (Hp got eq_refl) as [-> _]. by apply (ad_keyed _ _ _ Ha Hh0).
      * intros [_ [_ Hp]%Forall_app]%Forall_app. apply Forall_cons in Hp as [[_ Hp] _].
        destruct (Hp got eq_refl) as (_ & Hsp & _). unfold in_sync. by rewrite Hsp.
  - go_step. go_step. apply wpg_createBootcNode. intros t r Hr Hok Hex. destruct r as [bn|e].
    + apply wpg_onC. go_step. split; [done|]. intros _. destruct (Hok bn eq_refl) as [b Hb].
      apply adopted_insert; [done| |]; intros Hq.
      * apply Forall_app in Hq as [_ Hq]. rewrite <- (Hm _ _ Hn). by eapply created_as_sent.
      * apply quiet_honest, Forall_app in Hq as [_ Hq]. by eapply (created_as_sent node).
    + destruct (IsAlreadyExists e) eqn:Ee; cbn [negb]; [|by go_step].
      destruct (Hex e eq_refl Ee) as (ev & Hev & Hans).
      assert (adopted (done ++ [n]) (h ++ t) (cs_owned ms.1)) as Hdone.
      { apply adopted_more; [done|congruence|]. right. exists node, ev.
        split_and!; [by apply Hm|set_solver|by apply Hr|done]. }
      split_match; by go_step.
Qed.

Lemma adoptNodes_synced `{MapOrder} allBN matching s h :
  (∀ k node, matching !! k = Some node → node_name node = k) →
  adopted [] h (cs_owned s) →
  wpg (adoptNodes pool allBN matching) s h (λ h' s' r,
    cs_pool s' = cs_pool s ∧ (is_ok r = true → adopted (rangeKeys 5 matching) h' (cs_owned s'))).
Proof.
  intros Hm Ha. unfold wpg, adoptNodes. apply wp_bind.
  assert (wpg (forEach (rangeKeys 5 matching) (adoptNode pool allBN matching)) (s, ∅) h (λ h' ms r,
    cs_pool ms.1 = cs_pool s ∧ (is_ok r = true → adopted (rangeKeys 5 matching) h' (cs_owned ms.1)))) as Hw.
  2:{ eapply wp_mono; [|exact Hw]. intros h' [[s' cf] [[]|e]] [Hp Hi]; simpl in *; [by split|done]. }
  apply (wpg_forEach (λ done h' ms, cs_pool ms.1 = cs_pool s ∧ adopted done h' (cs_owned ms.1)));
    [|done|by intros h' ms []].
  intros done n rest ms h' Hr [Hp Had].
  eapply wpg_mono; [|apply adopt_synced; [done| |exact Had]].
  - intros h2 ms2 [[]|e] [Hp2 Hok]; (split; [congruence|]); [by apply Hok|done].
  - apply (elem_of_rangeKeys 5). rewrite Hr. set_solver.
Qed.

(** Dropping the nodes that no longer match. *)
Lemma drop_synced `{MapOrder} matching owned s h :
  cs_owned s = owned →
  wpg (forEach (rangeKeys 6 owned) (dropNode matching)) s h (λ _ s' r,
    cs_pool s' = cs_pool s ∧
    (is_ok r = true → ∀ k, cs_owned s' !! k = if matching !! k then owned !! k else None)).
Proof.
  intros Ho. apply (wpg_forEach (λ done _ s', cs_pool s' = cs_pool s ∧ ∀ k,
    cs_owned s' !! k = if decide (k ∈ done) then (if matching !! k then owned !! k else None) else owned !! k)).
  - intros done k rest s' h' _ [Hp Hi].
    assert (∀ o : gmap string BootcNode, (∀ k', o !! k' = if decide (k' = k) then (if matching !! k then owned !! k else None)
                                  else cs_owned s' !! k') →
      ∀ k', o !! k' = if decide (k' ∈ done ++ [k]) then (if matching !! k' then owned !! k' else None)
                      else owned !! k') as Hstep.
    { intros o Hk k'. rewrite Hk. case_decide as E; [subst; by rewrite decide_True by set_solver|].
      rewrite Hi. destruct (decide (k' ∈ done)); [by rewrite decide_True by set_solver|].
      by rewrite decide_False by set_solver. }
    unfold dropNode. destruct (matching !! k) as [nd|] eqn:Em.
    { go_step. split; [done|]. apply Hstep. intros k'. case_decide as E; [|done]. subst.
      rewrite Hi, Em. by case_decide. }
    go_step. apply wpg_deref; [|done]. intros bn Hbn. go_step. go_step.
    apply wpg_removeBootcNode; [intros t s2 e _ (Hp2 & _); split; [congruence|done]|].
    intros t y s2 [[]|e] _ _ (Hp2 & Ho2 & _) _; [|split; [congruence|done]].
    go_step. split; [simpl; congruence|]. apply Hstep. intros k'. simpl. rewrite Ho2.
    case_decide as E; [subst; by rewrite lookup_delete_eq|by rewrite lookup_delete_ne].
  - split; [done|]. intros k. rewrite decide_False by set_solver. by rewrite Ho.
  - intros h' s' [Hp Hi]. split; [done|]. intros _ k. rewrite Hi.
    destruct (owned !! k) as [bn|] eqn:Eo.
    + rewrite decide_True; [done|]. apply elem_of_rangeKeys. eauto.
    + by case_decide; destruct (matching !! k).
Qed.

(** What the pass leaves behind: the listed nodes and the owned BootcNodes. *)
Record membership_post h (owned : gmap string BootcNode) : Prop := {
  mp_keyed : honest_history h → keyed owned;
  mp_members : ∃ sel (nodes : list Node),
    LabelSelectorAsSelector (NodeSelector (pool_spec pool)) = Ok sel ∧
    Ev (ListNodes sel) (Ok nodes) ∈ h ∧
    (∀ k, is_Some (owned !! k) → k ∈ node_name <$> nodes) ∧
    (∀ k, k ∈ node_name <$> nodes → is_Some (owned !! k) ∨ refused h k);
  mp_sync : quiet_history h → ∀ k bn, owned !! k = Some bn → in_sync bn
}.

Lemma matching_named nodes k (node : Node) : byName node_name nodes !! k = Some node → node_name node = k.
Proof. intros Hk. by apply byName_elem in Hk as [_ ?]. Qed.

Lemma membership_post_intro `{MapOrder} nodes sel h0 t owned owned' :
  LabelSelectorAsSelector (NodeSelector (pool_spec pool)) = Ok sel →
  Ev (ListNodes sel) (Ok nodes) ∈ h0 →
  adopted (rangeKeys 5 (byName node_name nodes)) h0 owned →
  (∀ k, owned' !! k = if byName node_name nodes !! k then owned !! k else None) →
  membership_post (h0 ++ t) owned'.
Proof.
  intros Hsel Hin [Hk Hs Hc] Ho.
  assert (∀ k bn, owned' !! k = Some bn → is_Some (byName node_name nodes !! k) ∧ owned !! k = Some bn) as Hsub.
  { intros k bn. rewrite Ho. destruct (byName _ _ !! k); [eauto|done]. }
  split.
  - intros [Hh _]%Forall_app k bn [_ Hb]%Hsub. by apply Hk.
  - exists sel, nodes. split_and!; [done|set_solver| |].
    + intros k [bn [Hm _]%Hsub]. by apply byName_is_Some.
    + intros k Hm%byName_is_Some. rewrite Ho. destruct Hm as [nd Hm]. rewrite Hm.
      destruct (Hc k) as [?|?]; [apply elem_of_rangeKeys; eauto|by left|right; by apply refused_app].
  - intros [Hq _]%Forall_app k bn [Hm Hb]%Hsub. apply (Hs Hq k); [by apply elem_of_rangeKeys|done].
Qed.

Lemma wpg_degradePool reason message s h (Φ : history → CState → result unit → Prop) :
  (∀ x p, reconditioned (cs_pool s) p → Φ (h ++ [Ev Now x]) (setPool p s) (Ok tt)) →
  wpg (degradePool reason message) s h Φ.
Proof. intros H. unfold degradePool. do 3 go_step. apply H, setPoolDegraded_reconditioned. Qed.

Lemma syncMembership_post `{MapOrder} s :
  cs_pool s = pool →
  wpg syncMembership s [] (λ h s' r,
    reconditioned pool (cs_pool s') ∧ (is_ok r = true → membership_post h (cs_owned s'))).
Proof.
  intros Hp. unfold syncMembership. go_step. go_step. rewrite Hp. go_step. go_step.
  unfold listMatchingNodes. destruct (LabelSelectorAsSelector _) as [sel|e] eqn:Esel; [|by go_step; rewrite Hp].
  go_step. apply wpg_callE. intros [nodes|e]; cbv [id]; [|by rewrite Hp].
  set (h1 := [] ++ [Ev (ListNodes sel) (Ok nodes)]). set (matching := byName node_name nodes).
  go_step. go_step. unfold listAllBootcNodes. go_step. go_step. apply wpg_callE.
  intros [l|e]; cbv [id]; [|by rewrite Hp].
  set (h2 := h1 ++ [Ev ListBootcNodes (Ok l)]). go_step. go_step. go_step.
  set (s1 := mkCState _ _ _ _). go_step.
  eapply wpg_mono; [|apply wpg_and; [apply (adoptNodes_synced (byName bn_name l) matching s1 h2)|apply wpg_history]].
  - intros h3 s3 [conflicting|e] [[Hp3 Had] [t3 Ht3]]; (assert (cs_pool s3 = pool) as Hp3' by (by rewrite Hp3)).
    2:{ split; [by rewrite Hp3'|done]. }
    specialize (Had eq_refl). go_step. go_step. go_step.
    eapply wpg_mono; [|apply wpg_and; [apply (drop_synced matching (cs_owned s3)); done|apply wpg_history]].
    intros h4 s4 [[]|e] [[Hp4 Hdrop] [t4 ->]]; (assert (cs_pool s4 = pool) as Hp4' by congruence).
    2:{ split; [by rewrite Hp4'|done]. }
    specialize (Hdrop eq_refl).
    assert (∀ t, membership_post ((h3 ++ t4) ++ t) (cs_owned s4)) as Hpost.
    { intros t. rewrite <- app_assoc. eapply membership_post_intro; [done| |exact Had|done].
      rewrite Ht3. unfold h2, h1. set_solver. }
    split_match.
    + apply wpg_degradePool. intros x p Hr. rewrite Hp4' in Hr. split; [exact Hr|]. intros _. apply Hpost.
    + go_step. split; [by rewrite Hp4'|]. intros _. rewrite <- (app_nil_r (h3 ++ t4)). apply Hpost.
  - apply matching_named.
  - split; [|intros _ k bn Hk; by apply elem_of_nil in Hk|intros k Hk; by apply elem_of_nil in Hk].
    intros _ k bn [Hk _]%map_lookup_filter_Some. by apply byName_elem in Hk as [_ ?].
Qed.

(** C13. What membership establishes.  Whenever [syncMembership] succeeds against
    an API server whose writes are not interfered with: the owned BootcNodes it
    hands to the rollout are filed under their own names; each belongs to a node
    the pool's selector listed, and every listed node has one, unless creating it
    was refused because it already exists (the node conflict); every one asks for
    the pool's image at the target digest, so that the store is [synced], the
    state the rollout's theorems start from.  The pool itself changes in its
    conditions only. *)
Theorem syncMembership_synced `{MapOrder} s :
  cs_pool s = pool → valid_digest (TargetDigest (pool_status pool)) →
  wpg syncMembership s [] (λ h s' r,
    reconditioned pool (cs_pool s') ∧
    (quiet_history h → is_ok r = true →
     synced (cs_owned s') (TargetDigest (pool_status pool)) ∧
     ∃ sel (nodes : list Node),
       LabelSelectorAsSelector (NodeSelector (pool_spec pool)) = Ok sel ∧
       Ev (ListNodes sel) (Ok nodes) ∈ h ∧
       (∀ k, is_Some (cs_owned s' !! k) → k ∈ node_name <$> nodes) ∧
       (∀ k, k ∈ node_name <$> nodes → is_Some (cs_owned s' !! k) ∨ refused h k))).
Proof.
  intros Hp Hv. eapply wpg_mono; [|by apply syncMembership_post].
  intros h s' r [Hrec Hpost]. split; [done|]. intros Hq Hr. destruct (Hpost Hr) as [Hk Hm Hs].
  split; [|done]. intros k bn Hbn. split; [by apply Hk; [apply quiet_honest|]|].
  apply in_sync_digest; [by eapply Hs|done].
Qed.
End Sync.

Module MembershipSyncWitness.
Import LibModel MembershipWitness.
#[local] Existing Instance idOrder.
#[local] Existing Instance RolloutWitness.config.

(** The pass of [MembershipWitness]: "w1" and "w2" are owned and in sync. *)
Lemma syncMembership_synced_witness :
  valid_digest (TargetDigest (pool_status pool0)) ∧ is_ok pass0.2.2 = true ∧
  size (cs_owned pass0.2.1) = 2 ∧ synced (cs_owned pass0.2.1) Samples.DigestB.
Proof.
  assert (valid_digest (TargetDigest (pool_status pool0))) as Hv.
  { exists Samples.RefB. eexists. split; vm_compute; reflexivity. }
  assert (is_ok pass0.2.2 = true) as Hok by (vm_compute; reflexivity).
  split; [exact Hv|]. split; [exact Hok|]. split; [vm_compute; reflexivity|].
  destruct (wpg_sim _ _ world0 _ (syncMembership_synced pool0 state0 eq_refl Hv)) as [Hq [_ H]].
  exact (proj1 (H Hq Hok)).
Defined.
End MembershipSyncWitness.
