(* ===== verification/Reconcile.v ===== *)
(** * Reconcile: one pass of the pool controller

    [Reconcile] of [internal/controller/bootcnodepool_controller.go], with pull
    secrets, tag resolution and the status update. *)

From S2P Require Import Prelude Effects Types Library LibModel Client Samples Sim Image Karpenter Classify PoolStatus Slots Utf8 Events Drain Rollout RolloutSafety Membership.

Section Reconcile.
Context {L : Lib} {C : Config}.
Local Open Scope go_scope.

(** [clearPoolDegradedReason] on the pool of the pass.  The clock that [SetStatusCondition]
    may read is read first, also where the condition ends up untouched. *)
Definition clearDegraded (reason : string) : ctl CState unit :=
  now <- call Now ;;
  modify (λ s, setPool (clearPoolDegradedReason now reason (cs_pool s)) s).

(** [fetchPullSecretData]; [None] is the nil slice. *)
Definition fetchPullSecretData {S : Type} (pool : BootcNodePool) : ctl S (option string) :=
  match bnp_PullSecretRef (pool_spec pool) with
  | None => ret None
  | Some ref =>
      if negb (bool_decide (psr_namespace ref ∈ PullSecretNamespaces)) then
        throw (ErrString ("pull secret namespace " +:+ quoted (psr_namespace ref) +:+
                          " is not allowed (allowed: " +:+ join ", " PullSecretNamespaces +:+ ")"))
      else
        secret <- wrapf ("fetching pull secret " +:+ psr_namespace ref +:+ "/" +:+ psr_name ref)
                    (callE (GetSecret (psr_namespace ref) (psr_name ref)) id) ;;
        match GoMap.lookup (secret_data secret) DockerConfigJsonKey with
        | None => throw (ErrString ("pull secret " +:+ psr_namespace ref +:+ "/" +:+ psr_name ref +:+
                                    " missing " +:+ DockerConfigJsonKey +:+ " key"))
        | Some data => ret (Some data)
        end
  end.

(** The tail of [resolveTargetDigest]: ask the registry. *)
Definition resolveTag (now : Z) (secretData : option string) : ctl CState (Z * bool) :=
  pool <- gets cs_pool ;;
  digest <- call (ResolveTag (ImageRef (pool_spec pool)) secretData) ;;
  changed <- match digest with
             | Err e => degradePool PoolTagResolutionError (Error e) ;;; ret false
             | Ok d =>
                 let old := TargetDigest (pool_status pool) in
                 modify (λ s, setPool (setTargetDigest d (cs_pool s)) s) ;;;
                 clearDegraded PoolTagResolutionError ;;;
                 ret (negb (old =s "") && negb (old =s d))
             end ;;
  modify (λ s, setPool (setNextTagResolutionTime (Some (now + TagResolutionInterval)%Z) (cs_pool s)) s) ;;;
  ret (TagResolutionInterval, changed).

(** [resolveTargetDigest]: the requeue delay and whether a tag moved. *)
Definition resolveTargetDigest (secretData : option string) : ctl CState (Z * bool) :=
  pool <- gets cs_pool ;;
  match parseImageRef (ImageRef (pool_spec pool)) with
  | Err e => throw (ErrInvalidSpec ("invalid image ref " +:+ quoted (ImageRef (pool_spec pool)) +:+
                                    ": " +:+ Error e))
  | Ok ref =>
      match named_digest ref with
      | Some d =>
          modify (λ s, setPool (setNextTagResolutionTime None (setTargetDigest d (cs_pool s))) s) ;;;
          clearDegraded PoolTagResolutionError ;;;
          ret (0%Z, false)
      | None =>
          now <- call Now ;;
          match NextTagResolutionTime (pool_status pool) with
          | Some next =>
              if (now <? next)%Z then ret (GoInt.timeSub next now, false)
              else resolveTag now secretData
          | None => resolveTag now secretData
          end
      end
  end.

(** [updatePoolStatus]. *)
Definition updatePoolStatus (previous : BootcNodePoolStatus) (tagTargetChanged : bool) : ctl CState unit :=
  pool <- gets cs_pool ;;
  if bool_decide (pool_status pool = previous) then ret tt
  else
    got <- callE (UpdatePoolStatus pool) id ;;
    modify (setPool got) ;;;
    recordPoolEvents got previous tagTargetChanged.

Definition writeStatus (previous : BootcNodePoolStatus) (tagTargetChanged : bool) : ctl CState unit :=
  wrapf "updating pool status" (updatePoolStatus previous tagTargetChanged).

(** [setInvalidSpecCondition]. *)
Definition setInvalidSpecCondition (previous : BootcNodePoolStatus) (e : error) : ctl CState Z :=
  degradePool PoolInvalidSpec (Error e) ;;;
  writeStatus previous false ;;;
  ret 0%Z.

(** What [Reconcile] does with the error of a step. *)
Definition failed (previous : BootcNodePoolStatus) (pre : string) (e : error) : ctl CState Z :=
  if isInvalidSpecError e then setInvalidSpecCondition previous e else throw (ErrWrap pre e).

(** The steps after the target digest is known. *)
Definition rolloutPass `{MapOrder} (statusOrig : BootcNodePoolStatus) (requeue : Z)
    (tagTargetChanged : bool) : ctl CState Z :=
  clearDegraded PoolNodeConflict ;;;
  clearDegraded PoolNodeDegraded ;;;
  clearDegraded PoolRolloutHalted ;;;
  clearDegraded PoolInvalidSpec ;;;
  m <- try syncMembership ;;
  match m with
  | Err e => failed statusOrig "syncing membership" e
  | Ok _ =>
      pool <- gets cs_pool ;;
      zoom cs_owned (λ o s, mkCState (cs_pool s) o (cs_drains s) (cs_rs s)) (recordNodeEvents pool) ;;;
      d <- try driveRollout ;;
      match d with
      | Err e => failed statusOrig "driving rollout" e
      | Ok rs =>
          stall <- recordDrainStalls ;;
          now <- call Now ;;
          modify (λ s, setPool (syncPoolStatus now (cs_pool s) rs) s) ;;;
          writeStatus statusOrig tagTargetChanged ;;;
          ret (earlierRequeue (earlierRequeue requeue stall) (requeueAfter rs))
      end
  end.

(** [Reconcile] once the pool is fetched; the result is [RequeueAfter]. *)
Definition reconcilePool `{MapOrder} : ctl CState Z :=
  pool <- gets cs_pool ;;
  match om_deletionTimestamp (pool_meta pool) with
  | Some _ => handlePoolDeletion ;;; ret 0%Z
  | None =>
      if negb (ContainsFinalizer (pool_meta pool) FinalizerPoolCleanup) then
        _ <- wrapf "adding finalizer"
               (callE (UpdatePool (setPoolMeta (AddFinalizer (pool_meta pool) FinalizerPoolCleanup) pool)) id) ;;
        ret 0%Z
      else
        let statusOrig := pool_status pool in
        secret <- try (fetchPullSecretData pool) ;;
        match secret with
        | Err e =>
            degradePool PoolSecretError (Error e) ;;;
            writeStatus statusOrig false ;;;
            ret 0%Z
        | Ok secretData =>
            clearDegraded PoolSecretError ;;;
            rr <- try (resolveTargetDigest secretData) ;;
            match rr with
            | Err e => failed statusOrig "resolving target digest" e
            | Ok (requeue, tagTargetChanged) =>
                target <- gets (λ s, TargetDigest (pool_status (cs_pool s))) ;;
                if target =s "" then
                  writeStatus statusOrig tagTargetChanged ;;;
                  ret requeue
                else rolloutPass statusOrig requeue tagTargetChanged
            end
        end
  end.

(** [Reconcile]; between passes the reconciler keeps only its drains. *)
Definition Reconcile `{MapOrder} (name : string) : ctl (gmap string drainStatus) Z :=
  r <- call (GetPool name) ;;
  match r with
  | Err e => if IsNotFound e then ret 0%Z else throw (ErrWrap "fetching pool" e)
  | Ok pool =>
      λ drains, pbind (reconcilePool (mkCState pool ∅ drains emptyRolloutState))
                  (λ sr, Ret (cs_drains sr.1, sr.2))
  end.
End Reconcile.
