(* ===== verification/ReconcileSafety.v ===== *)
(** * ReconcileSafety: what one pass of the controller may do

    The protocols of membership, deletion and rollout composed along
    [Reconcile]: every request of a pass, from the first read of the pool to the
    status update. *)

From S2P Require Import Prelude Effects Types Library LibModel Client Samples Sim Image Karpenter Classify PoolStatus Slots Utf8 Events Drain Rollout RolloutSafety RolloutWitness Membership MembershipSafety MembershipWitness MembershipSync Reconcile.

(** ** The rollout changes the pool in its conditions only *)

Section RolloutPool.
Context {L : Lib} {HL : LibLaws L} {C : Config}.

Definition poolKept {A : Set} (m : ctl CState A) : Prop :=
  ∀ s h, wpg m s h (λ _ s' _, reconditioned (cs_pool s) (cs_pool s')).

Lemma poolKept_bind {A B : Set} (m : ctl CState A) (f : A → ctl CState B) :
  poolKept m → (∀ a, poolKept (f a)) → poolKept (gbind m f).
Proof.
  intros Hm Hf s h. go_step. eapply wpg_mono; [|apply Hm]. intros h' s' [a|e] H1; [|done].
  eapply wpg_mono; [|apply Hf]. intros h2 s2 r H2. by etransitivity.
Qed.

Lemma poolKept_wrapf {A : Set} pre (m : ctl CState A) : poolKept m → poolKept (wrapf pre m).
Proof. intros Hm s h. go_step. apply Hm. Qed.

Lemma poolKept_forEach {X : Type} (l : list X) (f : X → ctl CState unit) :
  (∀ x, poolKept (f x)) → poolKept (forEach l f).
Proof.
  intros Hf s h. apply (wpg_forEach_inv (λ _ s', reconditioned (cs_pool s) (cs_pool s'))); [|done|done].
  intros x s' h' _ H1. eapply wpg_mono; [|apply Hf]. intros h2 s2 [[]|e] H2; by etransitivity.
Qed.

Lemma poolKept_gets {A : Set} (f : CState → A) : poolKept (gets f).
Proof. intros s h. by go_step. Qed.
Lemma poolKept_ret {A : Set} (a : A) : poolKept (ret a).
Proof. intros s h. by go_step. Qed.
Lemma poolKept_lift {A : Set} (r : result A) : poolKept (lift r).
Proof. intros s h. by go_step. Qed.
Lemma poolKept_requeue d : poolKept (requeue d).
Proof. intros s h. apply wpg_requeue. intros s' (Hp & _) _. by rewrite Hp. Qed.
Lemma poolKept_degradePool reason message : poolKept (degradePool reason message).
Proof. intros s h. by apply wpg_degradePool. Qed.

Lemma poolKept_collect n : poolKept (collectDrainResult n).
Proof. intros s h. apply wpg_collectDrainResult; [done|done|]. intros bn c x s' _. by destruct x. Qed.

Lemma poolKept_free k : poolKept (freeCompletedSlot k).
Proof. intros s h. apply wpg_freeCompletedSlot; [done|done| |done]. intros. by subst. Qed.

Lemma poolKept_candidate k : poolKept (processCandidate k).
Proof.
  intros s h. apply wpg_processCandidate; [done| |].
  - intros bn t s' r _ _ (Hp & _) _ _. by rewrite Hp.
  - intros bn t node claim b' n' c' ta s' b1 r _ _ _ _ _ _ _ _ _ (Hp & _) _. by rewrite Hp.
Qed.

Lemma poolKept_assignLoop l a b : poolKept (assignLoop l a b).
Proof.
  revert a. induction l as [|k l IH]; intros a; simpl; [apply poolKept_ret|].
  split_match; [apply poolKept_ret|]. apply poolKept_bind; [apply poolKept_candidate|]. intros r. apply IH.
Qed.

Lemma poolKept_drain k : poolKept (drainCandidate k).
Proof.
  intros s h. unfold drainCandidate. go_step. apply wpg_deref; [|done]. intros bn _.
  repeat (split_match; [by go_step|]). apply wpg_fetch_checked; [done|]. intros t node kds _ _ _.
  split_match; [apply poolKept_requeue|].
  unfold ensureDrain. go_step. go_step. split_match; [by go_step|].
  do 6 go_step. by apply (wpg_call (resp := resp) (StartDrain _ _ _)).
Qed.

Lemma poolKept_advance : poolKept advance.
Proof.
  unfold advance. do 2 (apply poolKept_bind; [apply poolKept_gets|intros ?]).
  apply poolKept_bind; [apply poolKept_lift|intros mu].
  apply poolKept_bind; [apply poolKept_gets|intros owned].
  destruct (partitionSlottedNodes _ _) as [sl un].
  apply poolKept_bind; [|intros _].
  { apply poolKept_forEach. intros k. apply poolKept_bind; [apply poolKept_candidate|intros; apply poolKept_ret]. }
  apply poolKept_bind; [apply poolKept_assignLoop|intros _].
  apply poolKept_bind; [|intros _; apply poolKept_forEach, poolKept_drain].
  unfold requeueKarpenter. apply poolKept_bind; [apply poolKept_gets|].
  intros []; [apply poolKept_requeue|apply poolKept_ret].
Qed.

Lemma driveRollout_pool `{MapOrder} : poolKept driveRollout.
Proof.
  unfold driveRollout. apply poolKept_bind; [|intros _].
  { apply poolKept_wrapf. unfold collectDrainResults.
    apply poolKept_bind; [apply poolKept_gets|intros; apply poolKept_forEach, poolKept_collect]. }
  apply poolKept_bind; [|intros _].
  { intros s h. unfold classifyPass. do 6 go_step. destruct (applyRebootTimeouts _ _ _ _) as [rs rq].
    do 2 go_step. split_match; [by apply wpg_degradePool|by go_step]. }
  apply poolKept_bind; [|intros _].
  { apply poolKept_wrapf. unfold freeCompletedSlots.
    apply poolKept_bind; [apply poolKept_gets|intros; apply poolKept_forEach, poolKept_free]. }
  do 3 (apply poolKept_bind; [apply poolKept_gets|intros ?]).
  apply poolKept_bind; [|intros _; apply poolKept_gets].
  split_match; [apply poolKept_degradePool|apply poolKept_advance].
Qed.
End RolloutPool.

(** ** The pass *)

Section Safety.
Context {L : Lib} {HL : LibLaws L} {C : Config}.
Context (name : string).
Implicit Types (h t : history) (bn : BootcNode) (s : CState) (pool : BootcNodePool).

(** The pass read [pool] first. *)
Definition fetched h pool : Prop := ∃ t, h = Ev (GetPool name) (Ok pool) :: t.

(** The pass manages [pool]: it carries the finalizer and is not being deleted. *)
Definition managed h pool : Prop :=
  fetched h pool ∧ om_deletionTimestamp (pool_meta pool) = None ∧
  ContainsFinalizer (pool_meta pool) FinalizerPoolCleanup = true.

(** The pass cleans up after [pool]. *)
Definition deleting h pool : Prop :=
  fetched h pool ∧ om_deletionTimestamp (pool_meta pool) ≠ None ∧
  ContainsFinalizer (pool_meta pool) FinalizerPoolCleanup = true.

Definition same_object pool p : Prop := pool_meta p = pool_meta pool ∧ pool_spec p = pool_spec pool.

(** The credentials for the registry: none, or the data of the pool's pull secret,
    read in this pass from an allowed namespace. *)
Definition credentials h pool (auth : option string) : Prop :=
  match auth, bnp_PullSecretRef (pool_spec pool) with
  | None, None => True
  | Some data, Some ref =>
      psr_namespace ref ∈ PullSecretNamespaces ∧
      ∃ secret, Ev (GetSecret (psr_namespace ref) (psr_name ref)) (Ok secret) ∈ h ∧
        GoMap.lookup (secret_data secret) DockerConfigJsonKey = Some data
  | _, _ => False
  end.

(** The pass has sent its status update. *)
Definition status_written h : Prop := ∃ p x, Ev (UpdatePoolStatus p) x ∈ h.

Definition reconcile_allowed h (r : req) : Prop :=
  match r with
  | GetPool n => n = name
  | Now | ListNodes _ | ListBootcNodes | GetNode _ | GetNodeClaim _ | PollDrain _ => ∃ pool, fetched h pool
  | GetSecret ns n =>
      ns ∈ PullSecretNamespaces ∧
      ∃ pool, managed h pool ∧ bnp_PullSecretRef (pool_spec pool) = Some (mkPullSecretRef n ns)
  | ResolveTag ref auth =>
      ∃ pool, managed h pool ∧ ref = ImageRef (pool_spec pool) ∧ credentials h pool auth
  | UpdatePool p =>
      (∃ pool, fetched h pool ∧ om_deletionTimestamp (pool_meta pool) = None ∧
         p = setPoolMeta (AddFinalizer (pool_meta pool) FinalizerPoolCleanup) pool) ∨
      (∃ pool, deleting h pool ∧ deletion_allowed pool h r)
  | UpdatePoolStatus p => ¬ status_written h ∧ ∃ pool, managed h pool ∧ same_object pool p
  | Eventf _ _ _ _ _ _ =>
      about "BootcNode" r ∨
      (about "BootcNodePool" r ∧ ∃ p got, Ev (UpdatePoolStatus p) (Ok got) ∈ h)
  | CreateBootcNode b =>
      ∃ pool, managed h pool ∧ IsControlledBy (bn_meta b) (pool_meta pool) = true ∧
        DesiredImageState (bn_spec b) = DesiredImageStateStaged
  | PatchBootcNode base new =>
      ∃ pool, managed h pool ∧ rollout_allowed h r
  | DeleteBootcNode b =>
      ∃ pool, (managed h pool ∨ deleting h pool) ∧ own pool h b ∧
        ∃ h1 t h2, h = h1 ++ t ++ h2 ∧ vacated b t
  | PatchNode base new =>
      (∃ pool, managed h pool ∨ deleting h pool) ∧
      (cordons base new → (∃ pool, managed h pool) ∧ (∃ n, read h n base) ∧ checked h base)
  | PatchNodeClaim _ _ => ∃ pool, managed h pool ∨ deleting h pool
  | StartDrain n _ _ => (∃ pool, managed h pool) ∧ ∃ node, read h n node ∧ checked h node
  | DrainCtxErr n => ∃ res, Ev (PollDrain n) (Some res) ∈ h
  | CancelDrain n =>
      (∃ res, Ev (PollDrain n) (Some res) ∈ h) ∨ ∃ pool bn, fetched h pool ∧ own pool h bn ∧ n = bn_name bn
  | ListPools | GetBootcNode _ => False
  end.

Abbreviation safe := (guarded reconcile_allowed).

Lemma fetched_app h t pool : fetched h pool → fetched (h ++ t) pool.
Proof. intros [t' ->]. by exists (t' ++ t). Qed.
Lemma managed_app h t pool : managed h pool → managed (h ++ t) pool.
Proof. intros (? & ? & ?). split_and!; [by apply fetched_app|done..]. Qed.
Lemma deleting_app h t pool : deleting h pool → deleting (h ++ t) pool.
Proof. intros (? & ? & ?). split_and!; [by apply fetched_app|done..]. Qed.

(** Membership as a part of the pass. *)
Lemma own_prefix pool h t bn : own pool t bn → own pool (h ++ t) bn.
Proof. intros (l & ? & ? & ?). exists l. set_solver. Qed.

Lemma own_same pool p h bn : same_object pool p → own p h bn → own pool h bn.
Proof. intros [Hm _] (l & ? & ? & ?). exists l. by rewrite <- Hm. Qed.

Lemma vacated_prefix h t bn :
  (∃ h1 t' h2, t = h1 ++ t' ++ h2 ∧ vacated bn t') → ∃ h1 t' h2, h ++ t = h1 ++ t' ++ h2 ∧ vacated bn t'.
Proof. intros (h1 & t' & h2 & -> & Hv). exists (h ++ h1), t', h2. by rewrite <- app_assoc. Qed.

(** A spec patch of membership neither approves, nor grants, nor releases. *)
Lemma spec_patch_allowed pool h t base new :
  membership_allowed pool t (PatchBootcNode base new) → rollout_allowed h (PatchBootcNode base new).
Proof.
  intros (_ & Hm & _ & _ & Hst). assert (isSlotted new = isSlotted base) as Hsl by (unfold isSlotted; by rewrite Hm).
  split_and!.
  - intros [H1 H2]. rewrite Hst in H2. by case_decide.
  - intros [H1 H2]. congruence.
  - intros [H1 H2]. congruence.
Qed.

Lemma uncordoned_only base new :
  (node_unschedulable base = false → node_unschedulable new = false) → ¬ cordons base new.
Proof. intros H [H1 H2]. specialize (H H1). congruence. Qed.

Lemma membership_reconcile pool p h t r :
  managed h pool → same_object pool p → membership_allowed p t r → reconcile_allowed (h ++ t) r.
Proof.
  intros Hm Hs. apply (managed_app _ t) in Hm as Hm'. pose proof (proj1 Hm') as Hf.
  destruct r; try done; try (intros _; exists pool; by (left + idtac)).
  - intros [_ Hc]. split; [eauto|]. intros Hcord. by apply uncordoned_only in Hcord.
  - intros (Hc & Hst & _). exists pool. destruct Hs as [<- _]. done.
  - intros Hp. exists pool. split; [done|]. by eapply spec_patch_allowed.
  - intros (Ho & Hv). exists pool. split_and!; [by left| |by apply vacated_prefix].
    by eapply own_same, own_prefix.
  - intros (bn & Ho & ->). right. exists pool, bn. split_and!; [done| |done].
    by eapply own_same, own_prefix.
Qed.

(** The rollout as a part of the pass. *)
Lemma rollout_prefix h t r : rollout_allowed t r → rollout_allowed (h ++ t) r.
Proof.
  assert (∀ node, checked t node → checked (h ++ t) node) as Hck.
  { intros node [H1 H2]. split; [done|]. intros ref Hr. destruct (H2 ref Hr) as (x & ? & ?).
    exists x. set_solver. }
  destruct r; simpl; try done; unfold read.
  - intros ((n & ?) & Hc & ?). split_and!; [exists n; set_solver|auto|done].
  - intros (Ha & Hr & Hg). split_and!.
    + intros H. specialize (Ha H). set_solver.
    + intros H. destruct (Hr H) as (nd & ? & ?). exists nd. set_solver.
    + intros H. destruct (Hg H) as (nd & ? & ?). exists nd. split; [set_solver|auto].
  - intros (nd & ? & ?). exists nd. split; [set_solver|auto].
  - intros (res & ?). exists res. set_solver.
  - intros (res & ?). exists res. set_solver.
Qed.

Lemma rollout_reconcile pool h t r :
  managed h pool → rollout_allowed t r → reconcile_allowed (h ++ t) r.
Proof.
  intros Hm Hr%(rollout_prefix h). apply (managed_app _ t) in Hm. pose proof (proj1 Hm) as Hf.
  destruct r; try done; try (by exists pool); try (exists pool; by left); try (by left).
  - destruct Hr as (Hrd & Hc & _). split; [eauto|]. intros Hcord. eauto.
  - split; [eauto|done].
Qed.

(** The clean-up of a deleted pool as a part of the pass. *)
Lemma deletion_reconcile pool h t r :
  deleting h pool → deletion_allowed pool t r → reconcile_allowed (h ++ t) r.
Proof.
  intros Hd. apply (deleting_app _ t) in Hd. pose proof (proj1 Hd) as Hf.
  destruct r; try done; try (intros _; exists pool; by (right + idtac)).
  - intros (Hfin & l & Hl & Hall). right. exists pool. split; [done|]. split; [done|].
    exists l. split; [set_solver|]. intros k bn Hk Hc. destruct (Hall k bn Hk Hc) as (y & ? & ?).
    exists y. set_solver.
  - intros [_ Hc]. split; [eauto|]. intros Hcord. by apply uncordoned_only in Hcord.
  - intros (Ho & Hv). exists pool. split_and!; [by right|by apply own_prefix|by apply vacated_prefix].
  - intros (bn & Ho & ->). right. exists pool, bn. split_and!; [done|by apply own_prefix|done].
Qed.

Section Pass.
Context (pool : BootcNodePool).

(** The protocol was kept, given that the API server was honest. *)
Definition hsafe h : Prop := honest_history h → safe h.

(** The status update is still to come. *)
Definition hfresh h : Prop := honest_history h → ¬ status_written h.

Record inv h s : Prop := {
  inv_safe : hsafe h;
  inv_fresh : hfresh h;
  inv_managed : managed h pool;
  inv_same : same_object pool (cs_pool s)
}.

Lemma hsafe_snoc h e : hsafe h → reconcile_allowed h (ev_req e) → hsafe (h ++ [e]).
Proof. intros Hh He [Hq _]%Forall_app. apply guarded_snoc; auto. Qed.

Lemma hsafe_phase (Q : history → req → Prop) h t :
  hsafe h → guarded Q t → (∀ t1 r, Q t1 r → reconcile_allowed (h ++ t1) r) → hsafe (h ++ t).
Proof. intros Hh Ht HQ [Hq _]%Forall_app. eapply guarded_prefix; eauto. Qed.

Lemma fresh_app h t :
  hfresh h → (∀ e p, e ∈ t → ev_req e ≠ UpdatePoolStatus p) → hfresh (h ++ t).
Proof.
  intros Hf Ht [Hh _]%Forall_app (p & x & [Hin|Hin]%elem_of_app).
  - apply Hf; [done|]. by exists p, x.
  - by apply (Ht _ p Hin).
Qed.

(** A protocol without status updates. *)
Lemma guarded_no_status (Q : history → req → Prop) t :
  guarded Q t → (∀ t1 p, ¬ Q t1 (UpdatePoolStatus p)) → ∀ e p, e ∈ t → ev_req e ≠ UpdatePoolStatus p.
Proof.
  intros Hg HQ e p He Hr. apply list_elem_of_split in He as (t1 & t2 & ->).
  apply (HQ t1 p). rewrite <- Hr. by eapply Hg.
Qed.

(** Steps that keep the invariant, and steps that may be the last. *)
Definition keeps {A : Set} (m : ctl CState A) : Prop :=
  ∀ s h, inv h s → wpg m s h (λ h' s' _, inv h' s').
Definition ends {A : Set} (m : ctl CState A) : Prop :=
  ∀ s h, inv h s → wpg m s h (λ h' _ _, hsafe h').

Lemma keeps_bind {A B : Set} (m : ctl CState A) (f : A → ctl CState B) :
  keeps m → (∀ a, keeps (f a)) → keeps (gbind m f).
Proof.
  intros Hm Hf s h Hi. go_step. eapply wpg_mono; [|by apply Hm]. intros h' s' [a|e] Hi'; [by apply Hf|done].
Qed.

Lemma ends_bind {A B : Set} (m : ctl CState A) (f : A → ctl CState B) :
  keeps m → (∀ a, ends (f a)) → ends (gbind m f).
Proof.
  intros Hm Hf s h Hi. go_step. eapply wpg_mono; [|by apply Hm].
  intros h' s' [a|e] Hi'; [by apply Hf|by destruct Hi'].
Qed.

Lemma keeps_ends {A : Set} (m : ctl CState A) : keeps m → ends m.
Proof. intros Hm s h Hi. eapply wpg_mono; [|by apply Hm]. by intros h' s' r []. Qed.

Lemma keeps_try {A : Set} (m : ctl CState A) : keeps m → keeps (try m).
Proof. intros Hm s h Hi. go_step. by apply Hm. Qed.

Lemma keeps_pure {A : Set} (m : ctl CState A) :
  (∀ s, ∃ r, m s = Ret (s, r)) → keeps m.
Proof. intros Hm s h Hi. unfold wpg. destruct (Hm s) as [r ->]. exact Hi. Qed.

Lemma keeps_ret {A : Set} (a : A) : keeps (ret a).
Proof. apply keeps_pure. intros s. by eexists. Qed.
Lemma keeps_throw {A : Set} e : keeps (throw e : ctl CState A).
Proof. apply keeps_pure. intros s. by eexists. Qed.
Lemma keeps_gets {A : Set} (f : CState → A) : keeps (gets f).
Proof. apply keeps_pure. intros s. by eexists. Qed.

(** A change of the pool's status. *)
Lemma keeps_modifyPool (f : BootcNodePool → BootcNodePool) :
  (∀ p, same_object p (f p)) → keeps (modify (λ s, setPool (f (cs_pool s)) s)).
Proof.
  intros Hf s h [Hs Hw Hm [H1 H2]]. go_step. split; [done|done|done|]. simpl.
  destruct (Hf (cs_pool s)). split; congruence.
Qed.

Lemma reconditioned_same p p' : reconditioned p p' → same_object p p'.
Proof. intros H. split; [by apply reconditioned_meta|by apply reconditioned_spec]. Qed.

(** A request that is not the status update. *)
Lemma inv_snoc h s e :
  inv h s → reconcile_allowed h (ev_req e) → (∀ p, ev_req e ≠ UpdatePoolStatus p) → inv (h ++ [e]) s.
Proof.
  intros [Hs Hw Hm Ho] Hr Hp. split; [by apply hsafe_snoc| |by apply managed_app|done].
  apply fresh_app; [done|]. by intros e' p ->%list_elem_of_singleton.
Qed.

Lemma keeps_now : keeps (call Now).
Proof.
  intros s h Hi. go_step. apply inv_snoc; [done| |done]. exists pool. by destruct Hi as [_ _ [Hf _] _].
Qed.

Lemma keeps_degradePool reason message : keeps (degradePool reason message).
Proof.
  apply keeps_bind; [apply keeps_now|intros now].
  apply keeps_modifyPool. intros p. apply reconditioned_same, setPoolDegraded_reconditioned.
Qed.

Lemma keeps_clearDegraded reason : keeps (clearDegraded reason).
Proof.
  apply keeps_bind; [apply keeps_now|intros now].
  apply keeps_modifyPool. intros p. apply reconditioned_same, clearPoolDegradedReason_reconditioned.
Qed.

(** *** Pull secret and target digest *)

Lemma credentials_app h t auth : credentials h pool auth → credentials (h ++ t) pool auth.
Proof.
  unfold credentials. destruct auth, (bnp_PullSecretRef (pool_spec pool)); try done.
  intros (Hns & sec & Hin & Hd). split; [done|]. exists sec. set_solver.
Qed.

Lemma wpg_fetchPullSecretData s h :
  inv h s →
  wpg (fetchPullSecretData pool) s h (λ h' s' r, inv h' s' ∧ ∀ d, r = Ok d → credentials h' pool d).
Proof.
  intros Hi. unfold fetchPullSecretData, credentials.
  destruct (bnp_PullSecretRef (pool_spec pool)) as [ref|] eqn:Er.
  2:{ go_step. split; [done|]. by intros d [= <-]. }
  case_bool_decide as Hns; cbn [negb]; [|by go_step].
  go_step. go_step. apply wpg_callE. intros x. set (h' := h ++ _).
  assert (inv h' s) as Hi'.
  { apply inv_snoc; [done| |done]. split; [done|]. exists pool. split; [by destruct Hi|].
    rewrite Er. by destruct ref. }
  destruct x as [secret|e]; cbv [id]; [|done].
  destruct (GoMap.lookup _ _) as [data|] eqn:Ed; go_step; [|done].
  split; [done|]. intros d [= <-]. split; [done|]. exists secret. split; [|done].
  unfold h'. set_solver.
Qed.

Lemma resolveTag_kept now auth s h :
  inv h s → credentials h pool auth → wpg (resolveTag now auth) s h (λ h' s' _, inv h' s').
Proof.
  intros Hi Hc. unfold resolveTag. go_step. go_step. go_step.
  apply (wpg_call (resp := resp) (ResolveTag _ _)). intros x.
  set (h' := h ++ _). assert (inv h' s) as Hi'.
  { apply inv_snoc; [done| |done]. destruct Hi as [_ _ Hm Ho].
    exists pool. split_and!; [done| |done]. by rewrite (proj2 Ho). }
  go_step. eapply wpg_mono with (Φ := λ h2 s2 _, inv h2 s2).
  - intros h2 s2 [changed|e] H2; [|done]. go_step.
    eapply wpg_mono; [|by apply (keeps_modifyPool (setNextTagResolutionTime _))].
    intros h3 s3 [[]|e] H3; [by go_step|done].
  - destruct x as [d|e].
    + apply keeps_bind; [by apply (keeps_modifyPool (setTargetDigest d))|intros _|done].
      apply keeps_bind; [apply keeps_clearDegraded|intros _; apply keeps_ret].
    + apply keeps_bind; [apply keeps_degradePool|intros _; apply keeps_ret|done].
Qed.

Lemma resolveTargetDigest_kept auth s h :
  inv h s → credentials h pool auth → wpg (resolveTargetDigest auth) s h (λ h' s' _, inv h' s').
Proof.
  intros Hi Hc. unfold resolveTargetDigest. go_step. go_step.
  destruct (parseImageRef _) as [ref|e]; [|by go_step]. destruct (named_digest ref) as [d|].
  - apply keeps_bind; [|intros _|done].
    { apply (keeps_modifyPool (λ p, setNextTagResolutionTime None (setTargetDigest d p))). done. }
    apply keeps_bind; [apply keeps_clearDegraded|intros _; apply keeps_ret].
  - go_step. eapply wpg_mono; [|apply wpg_and; [by apply keeps_now|apply wpg_history]].
    intros h' s' [now|e] [Hi' [t ->]]; [|done]. apply (credentials_app _ t) in Hc.
    repeat split_match; try (by go_step); by apply resolveTag_kept.
Qed.

(** *** Membership, node events, rollout *)

(** The owned BootcNodes are filed under their names, given honest answers. *)
Definition hkeyed h s : Prop := honest_history h → keyed (cs_owned s).

Lemma membership_kept `{MapOrder} s h :
  inv h s → wpg syncMembership s h (λ h' s' r, inv h' s' ∧ (is_ok r = true → hkeyed h' s')).
Proof.
  intros [Hs Hw Hm Ho]. eapply wpg_after.
  { apply wpg_and; [by apply (syncMembership_safe (cs_pool s))|by apply (syncMembership_post (cs_pool s))]. }
  intros t s' r [Hg [Hrec Hpost]]. split.
  - split; [| |by apply managed_app|].
    + eapply hsafe_phase; [done|exact Hg|]. intros t1 r1. by apply (membership_reconcile pool (cs_pool s)).
    + apply fresh_app; [done|]. eapply guarded_no_status; [exact Hg|by intros ?? []].
    + apply reconditioned_same in Hrec as [H1 H2]. destruct Ho. split; congruence.
  - intros Hr [_ Hh]%Forall_app. by apply (mp_keyed _ _ _ (Hpost Hr)).
Qed.

Lemma marker_allowed h bn observation :
  rollout_allowed h (PatchBootcNode bn
    (setBNAnnotations (GoMap.set (bn_annotations bn) AnnotationLastObservedState observation) bn)).
Proof.
  set (new := setBNAnnotations _ bn). assert (isSlotted new = isSlotted bn) as Hsl.
  { unfold isSlotted. rewrite !has_annotation_spec. unfold GoMap.has. simpl.
    by rewrite GoMap.lookup_set_ne. }
  split_and!; intros [H1 H2]; [done|congruence|congruence].
Qed.

Lemma nodeEvents_kept `{MapOrder} p s h :
  inv h s → hkeyed h s →
  wpg (zoom cs_owned (λ o s, mkCState (cs_pool s) o (cs_drains s) (cs_rs s)) (recordNodeEvents p)) s h
    (λ h' s' _, inv h' s' ∧ hkeyed h' s').
Proof.
  intros Hi Hk. go_step. unfold recordNodeEvents. go_step. go_step.
  apply (wpg_forEach_inv (λ h' owned, inv h' s ∧ (honest_history h' → keyed owned))); [|done|].
  2:{ intros h' owned [[H1 H2 H3 H4] H5]. by split. }
  intros k owned h' _ [[Hs Hw Hm Ho] Hkd]. destruct (owned !! k) as [bn|] eqn:Eb.
  2:{ unfold recordNodeEvent. go_step. go_step. rewrite Eb. by go_step. }
  eapply wpg_recordNodeEvent; [done|by intros|]. intros t0 x _ Hab new. split.
  - assert (guarded rollout_allowed (t0 ++ [Ev (PatchBootcNode bn new) x])) as Hg.
    { eapply (guarded_app _ []); [apply rollout_allowed_lasting|apply guarded_nil|].
      intros e [He| ->%list_elem_of_singleton]%elem_of_app; [|apply marker_allowed].
      specialize (Hab e He). by destruct (ev_req e). }
    split; [| |by apply managed_app|done].
    + eapply hsafe_phase; [done|exact Hg|]. intros t1 r. by apply (rollout_reconcile pool).
    + apply fresh_app; [done|]. eapply guarded_no_status; [exact Hg|by intros ?? []].
  - intros [Hh [_ Hx]%Forall_app]%Forall_app. specialize (Hkd Hh). destruct x as [got|e]; [|done].
    apply Forall_cons in Hx as [Hx _]. destruct (Hx got eq_refl) as [Hn _].
    intros k' b [[<- <-]|[_ Hb]]%lookup_insert_Some; [|by apply Hkd]. rewrite Hn. by apply Hkd.
Qed.

Lemma rollout_kept `{MapOrder} s h :
  inv h s → hkeyed h s → wpg driveRollout s h (λ h' s' _, inv h' s').
Proof.
  intros [Hs Hw Hm Ho] Hk. eapply wpg_after.
  { apply wpg_and; [apply (wpg_impl _ _ _ (keyed (cs_owned s))), driveRollout_safe|apply driveRollout_pool]. }
  intros t s' r [Hg Hrec]. split; [| |by apply managed_app|].
  - intros Hh. apply Forall_app in Hh as [Hh _]. eapply guarded_prefix; [by apply Hs|by apply Hg, Hk|].
    intros t1 r1. by apply (rollout_reconcile pool).
  - intros Hh. pose proof Hh as [Hh' _]%Forall_app. specialize (Hg (Hk Hh')).
    revert Hh. apply fresh_app; [done|]. eapply guarded_no_status; [exact Hg|by intros ?? []].
  - apply reconditioned_same in Hrec as [H1 H2]. destruct Ho. split; congruence.
Qed.

Lemma drainStalls_kept `{MapOrder} : keeps recordDrainStalls.
Proof.
  unfold recordDrainStalls. apply keeps_bind; [apply keeps_now|intros now].
  do 3 (apply keeps_bind; [apply keeps_gets|intros ?]).
  destruct (stallLoop _ _ _ _ _ _) as [[drains' stalled] next].
  apply keeps_bind; [|intros _]; [intros s h [Hs Hw Hm Ho]; by go_step|].
  apply keeps_bind; [|intros _; apply keeps_ret]. intros s h Hi.
  apply (wpg_forEach_inv inv); [|done|done]. intros bn s' h' _ Hi'.
  apply wpg_recordEvent. intros e He. apply inv_snoc; [done| |]; destruct (ev_req e); try done. by left.
Qed.

(** *** The status update *)

Lemma poolEvents_safe p previous changed s h st got :
  hsafe h → Ev (UpdatePoolStatus st) (Ok got) ∈ h →
  wpg (recordPoolEvents p previous changed : ctl CState unit) s h (λ h' _ _, hsafe h').
Proof.
  intros Hs Hin.
  set (I := λ h, hsafe h ∧ Ev (UpdatePoolStatus st) (Ok got) ∈ h).
  assert (∀ ty reason action n (s : CState) h, I h →
    wpg (recordEvent (poolRef p) None ty reason action n) s h (λ h' _ _, I h')) as Hev.
  { intros ty reason action n s' h' [H1 H2]. apply wpg_recordEvent. intros e He. split; [|set_solver].
    apply hsafe_snoc; [done|]. destruct (ev_req e); try done. right. eauto. }
  assert (∀ b ty reason action n (s : CState) h, I h →
    wpg (if b : bool then recordEvent (poolRef p) None ty reason action n else ret tt) s h
      (λ h' _ _, I h')) as Hif by (intros []; [exact Hev|by intros; go_step]).
  unfold recordPoolEvents. eapply wpg_mono with (Φ := λ h' _ _, I h'); [by intros h' s' r []|].
  do 3 (go_step; eapply wpg_mono; [|by apply Hif]; intros ? ? [[]|?] ?; [|done]).
  split_match; [by apply Hif|by go_step].
Qed.

Lemma writeStatus_ends previous changed : ends (writeStatus previous changed).
Proof.
  intros s h [Hs Hw Hm Ho]. unfold writeStatus, updatePoolStatus. go_step. go_step. go_step.
  case_bool_decide; [by go_step|]. go_step. apply wpg_callE. intros x.
  set (h' := h ++ _). assert (hsafe h') as Hs'.
  { intros Hh. pose proof Hh as [Hh' _]%Forall_app. revert Hh. apply hsafe_snoc; [done|].
    split; [by apply Hw|]. exists pool. split; [done|]. destruct Ho. split; congruence. }
  destruct x as [got|e]; cbv [id]; [|done]. go_step. go_step.
  eapply wpg_mono; [|apply (poolEvents_safe got previous changed _ h' (cs_pool s) got); [done|]].
  - done.
  - unfold h'. set_solver.
Qed.

Lemma ends_then {B : Set} (m : ctl CState unit) (b : B) : ends m → ends (gbind m (λ _, ret b)).
Proof.
  intros Hm s h Hi. go_step. eapply wpg_mono; [|by apply Hm]. intros h' s' [[]|e] H; [by go_step|done].
Qed.

Lemma failed_ends previous pre e : ends (failed previous pre e).
Proof.
  unfold failed, setInvalidSpecCondition. split_match; [|apply keeps_ends, keeps_throw].
  apply ends_bind; [apply keeps_degradePool|intros _]. apply ends_then, writeStatus_ends.
Qed.

Lemma rolloutPass_ends `{MapOrder} st requeue changed : ends (rolloutPass st requeue changed).
Proof.
  unfold rolloutPass. do 4 (apply ends_bind; [apply keeps_clearDegraded|intros _]).
  intros s h Hi. go_step. go_step. eapply wpg_mono; [|by apply membership_kept].
  intros h1 s1 [[]|e] [H1 Hk1]; [|by apply failed_ends]. specialize (Hk1 eq_refl).
  go_step. go_step. go_step. eapply wpg_mono; [|by apply nodeEvents_kept].
  intros h2 s2 [[]|e] [H2 Hk2]; [|by destruct H2].
  go_step. go_step. eapply wpg_mono; [|by apply rollout_kept].
  intros h3 s3 [rs|e] H3; [|by apply failed_ends].
  revert s3 h3 H3. match goal with |- ∀ s3 h3, inv h3 s3 → wpg ?m _ _ _ => change (ends m) end.
  apply ends_bind; [apply drainStalls_kept|intros stall].
  apply ends_bind; [apply keeps_now|intros now].
  apply ends_bind; [|intros _; apply ends_then, writeStatus_ends].
  apply (keeps_modifyPool (λ p, syncPoolStatus now p rs)). intros p.
  unfold syncPoolStatus, syncUpToDateCondition. by repeat split_match.
Qed.

(** The pass over a managed pool. *)
Lemma managedPass_ends `{MapOrder} h s :
  inv h s → cs_pool s = pool → wpg reconcilePool s h (λ h' _ _, hsafe h').
Proof.
  intros Hi Hp. pose proof (inv_managed _ _ Hi) as (_ & Hdel & Hfin).
  unfold reconcilePool. go_step. go_step. rewrite Hp, Hdel, Hfin. cbn [negb].
  go_step. go_step. eapply wpg_mono; [|by apply wpg_fetchPullSecretData].
  intros h1 s1 r [H1 Hc]. destruct r as [auth|e].
  2:{ revert s1 h1 H1 Hc. intros s1 h1 H1 _.
      apply ends_bind; [apply keeps_degradePool|intros _; apply ends_then, writeStatus_ends|done]. }
  specialize (Hc auth eq_refl). go_step.
  eapply wpg_mono; [|apply wpg_and; [by apply keeps_clearDegraded|apply wpg_history]].
  intros h2 s2 [[]|e] [H2 [t ->]]; [|by destruct H2]. apply (credentials_app _ t) in Hc.
  go_step. go_step. eapply wpg_mono; [|by apply resolveTargetDigest_kept].
  intros h3 s3 [[rq changed]|e] H3; [|by apply failed_ends].
  go_step. go_step. split_match; [apply ends_then; [apply writeStatus_ends|done]|by apply rolloutPass_ends].
Qed.
End Pass.

Lemma reconcilePool_safe `{MapOrder} pool drains h :
  hsafe h → hfresh h → fetched h pool →
  wpg reconcilePool (mkCState pool ∅ drains emptyRolloutState) h (λ h' _ _, hsafe h').
Proof.
  intros Hs Hw Hf. destruct (om_deletionTimestamp (pool_meta pool)) as [d|] eqn:Ed.
  - unfold reconcilePool. go_step. go_step. cbn [cs_pool]. rewrite Ed. go_step.
    destruct (ContainsFinalizer (pool_meta pool) FinalizerPoolCleanup) eqn:Ef.
    + eapply wpg_after; [apply handlePoolDeletion_safe|]. cbn [cs_pool]. intros t s' r [Hg _].
      assert (hsafe (h ++ t)) as Ht; [|by destruct r; [go_step|]].
      eapply hsafe_phase; [done|exact Hg|]. intros t1 r1. apply deletion_reconcile.
      split_and!; [done|congruence|done].
    + unfold handlePoolDeletion. go_step. go_step. cbn [cs_pool]. rewrite Ef. cbn [negb]. go_step. by go_step.
  - destruct (ContainsFinalizer (pool_meta pool) FinalizerPoolCleanup) eqn:Ef.
    + by apply (managedPass_ends pool).
    + unfold reconcilePool. go_step. go_step. cbn [cs_pool]. rewrite Ed, Ef. cbn [negb].
      go_step. go_step. apply wpg_callE. intros x.
      assert (hsafe (h ++ [Ev (UpdatePool (setPoolMeta
        (AddFinalizer (pool_meta pool) FinalizerPoolCleanup) pool)) x])) as Hu.
      { apply hsafe_snoc; [done|]. left. by exists pool. }
      destruct x; cbv [id]; [by go_step|done].
Qed.

Lemma Reconcile_safe `{MapOrder} drains :
  wpg (Reconcile name) drains [] (λ h _ _, honest_history h → guarded reconcile_allowed h).
Proof.
  unfold Reconcile. go_step. go_step. set (h := [] ++ [Ev (GetPool name) x]).
  assert (hsafe h) as Hs by (intros _; by apply guarded_snoc; [apply guarded_nil|]).
  destruct x as [pool|e]; [|split_match; by go_step].
  unfold wpg. apply wp_bind. eapply wp_mono; [|apply (reconcilePool_safe pool drains h Hs)].
  - by intros h' [s' r].
  - by apply (fresh_app []); [intros _ (p & y & Hin%elem_of_nil)|intros e p ->%list_elem_of_singleton].
  - by exists [].
Qed.

(** C3. The controller's protocol.  In every pass of [Reconcile], for every pool,
    every set of drains left by earlier passes and every honest API server,
    however it fails and whatever others write meanwhile: nodes, BootcNodes and
    NodeClaims are touched only for a pool that was read with the cleanup
    finalizer; for a pool being deleted nothing is created, patched or drained
    and the finalizer goes last; a BootcNode is approved for reboot only after a
    drain of that node was collected with success in this pass; slots are
    granted, nodes cordoned and drained only after Node and NodeClaim were found
    free of Karpenter disruption, and slots are released only for Ready nodes;
    BootcNodes are deleted only when this pool owns them and their Node was
    cleaned up; pull secrets are read from allowed namespaces only, and the
    registry sees no other credentials; the status is sent at most once, and
    events about the pool follow a status that was persisted. *)
Theorem Reconcile_protocol `{MapOrder} drains :
  wpg (Reconcile name) drains [] (λ h _ _, honest_history h → guarded reconcile_allowed h).
Proof. apply Reconcile_safe. Qed.
End Safety.
