(* ===== verification/ReconcileProps.v ===== *)
(** * ReconcileProps: steps of a pass, branch by branch

    Tag resolution, the status update and its events, and what a pass does to
    the Degraded condition; the witnesses run whole passes of [Reconcile]
    against the simulated cluster. *)

From S2P Require Import Prelude Effects Types Library LibModel Client Samples Sim Image Karpenter Classify PoolStatus Slots Utf8 Events Drain Rollout RolloutSafety RolloutWitness Membership MembershipSafety MembershipWitness MembershipSync Reconcile ReconcileSafety.

Section Resolution.
Context {L : Lib} {HL : LibLaws L} {C : Config}.
Implicit Types (h : history) (s : CState) (pool : BootcNodePool).

(** A tag is due for resolution. *)
Definition due pool (now : Z) : bool :=
  match NextTagResolutionTime (pool_status pool) with
  | Some next => negb (now <? next)%Z
  | None => true
  end.

(** The outcome of asking the registry at [now], after which [p] is the pool. *)
Definition resolved pool (now : Z) (answer : result string) (p : BootcNodePool)
    (r : result (Z * bool)) : Prop :=
  let old := TargetDigest (pool_status pool) in
  NextTagResolutionTime (pool_status p) = Some (now + TagResolutionInterval)%Z ∧
  match answer with
  | Ok d =>
      TargetDigest (pool_status p) = d ∧ degradedReason p ≠ Some PoolTagResolutionError ∧
      r = Ok (TagResolutionInterval, negb (old =s "") && negb (old =s d))
  | Err e =>
      TargetDigest (pool_status p) = old ∧ degradedReason p = Some PoolTagResolutionError ∧
      r = Ok (TagResolutionInterval, false)
  end.

Lemma tag_error_reported now message pool :
  degradedReason (setPoolDegraded now PoolTagResolutionError message pool) = Some PoolTagResolutionError.
Proof.
  rewrite degradedReason_set. destruct (Z.ltb_spec (poolDegradedPrecedence PoolTagResolutionError)
    (precedenceOf (degradedReason pool))) as [Hlt|]; [|done]. exfalso.
  change (poolDegradedPrecedence PoolTagResolutionError) with 6%Z in Hlt.
  unfold precedenceOf in Hlt. destruct (degradedReason pool) as [r|]; [|lia].
  pose proof (precedence_range r). lia.
Qed.

Lemma tag_error_cleared now pool :
  degradedReason (clearPoolDegradedReason now PoolTagResolutionError pool) ≠ Some PoolTagResolutionError.
Proof. rewrite degradedReason_clear. by case_decide. Qed.

Lemma wpg_resolveTag now auth s h (Φ : history → CState → result (Z * bool) → Prop) :
  (∀ answer y p r, same_object (cs_pool s) p → resolved (cs_pool s) now answer p r →
     Φ (h ++ [Ev (ResolveTag (ImageRef (pool_spec (cs_pool s))) auth) answer; Ev Now y]) (setPool p s) r) →
  wpg (resolveTag now auth) s h Φ.
Proof.
  intros H. unfold resolveTag. go_step. go_step. go_step.
  apply (wpg_call (resp := resp) (ResolveTag _ _)). intros [d|e]; go_step.
  - go_step. go_step. unfold clearDegraded. go_step. go_step. go_step. go_step. go_step. go_step. go_step.
    rewrite <- app_assoc. simpl app.
    set (p := setNextTagResolutionTime _ _).
    destruct (clearPoolDegradedReason_frame x PoolTagResolutionError (setTargetDigest d (cs_pool s)))
      as (Hm & Hs & Ht).
    apply (H (Ok d) x p).
    + split; [exact Hm|exact Hs].
    + split; [done|]. split_and!; [exact Ht|apply tag_error_cleared|done].
  - unfold degradePool. do 7 go_step. rewrite <- app_assoc. simpl app. set (p := setNextTagResolutionTime _ _).
    destruct (setPoolDegraded_frame x PoolTagResolutionError (Error e) (cs_pool s)) as (Hm & Hs & Ht).
    apply (H (Err e) x p).
    + split; [exact Hm|exact Hs].
    + split; [done|]. split_and!; [exact Ht|apply tag_error_reported|done].
Qed.

(** C26. [resolveTargetDigest], branch by branch and for every answer of the
    registry: a reference that does not parse is an invalid spec and changes
    nothing; a digest reference is its own target and ends any tag resolution; a
    tag that is not due leaves the pool as it is and asks to come back when it
    is; a due tag is resolved with one question to the registry, whose answer
    becomes the target (reported as moved only when it replaces another one),
    while a failure keeps the target, marks the pool Degraded with
    TagResolutionError and is retried after the interval instead of failing the
    pass.  Only the pool's status changes. *)
Theorem resolveTargetDigest_table auth s :
  let pool := cs_pool s in
  wpg (resolveTargetDigest auth) s [] (λ h s' r,
    (∃ p, s' = setPool p s ∧ same_object pool p) ∧
    match parseImageRef (ImageRef (pool_spec pool)) with
    | Err _ => h = [] ∧ s' = s ∧ ∃ m, r = Err (ErrInvalidSpec m)
    | Ok ref =>
        match named_digest ref with
        | Some d =>
            (∃ y, h = [Ev Now y]) ∧ r = Ok (0%Z, false) ∧
            TargetDigest (pool_status (cs_pool s')) = d ∧
            NextTagResolutionTime (pool_status (cs_pool s')) = None ∧
            degradedReason (cs_pool s') ≠ Some PoolTagResolutionError
        | None => ∃ now t, h = Ev Now now :: t ∧
            if due pool now then
              ∃ answer y, t = [Ev (ResolveTag (ImageRef (pool_spec pool)) auth) answer; Ev Now y] ∧
                resolved pool now answer (cs_pool s') r
            else t = [] ∧ s' = s ∧
              ∃ next, NextTagResolutionTime (pool_status pool) = Some next ∧ (now < next)%Z ∧
                      r = Ok (GoInt.timeSub next now, false)
        end
    end).
Proof.
  intros pool. unfold resolveTargetDigest. go_step. go_step. fold pool.
  assert (∃ p, s = setPool p s ∧ same_object pool p) as Hsame by (exists pool; by destruct s).
  destruct (parseImageRef _) as [ref|e]; [|go_step; eauto 6].
  destruct (named_digest ref) as [d|].
  - go_step. go_step. unfold clearDegraded. do 5 go_step. set (p := setNextTagResolutionTime _ _).
    destruct (clearPoolDegradedReason_frame x PoolTagResolutionError p) as (Hm & Hs & Ht).
    split; [eexists; by split|]. split_and!; [by eexists|done|exact Ht| |apply tag_error_cleared].
    pose proof (clearPoolDegradedReason_reconditioned x PoolTagResolutionError p) as Hr.
    exact (eq_sym (f_equal (λ q, NextTagResolutionTime (pool_status q)) Hr)).
  - go_step. go_step. unfold due.
    assert (wpg (resolveTag x auth) s [Ev Now x] (λ h s' r,
      (∃ p, s' = setPool p s ∧ same_object pool p) ∧ ∃ now t, h = Ev Now now :: t ∧ now = x ∧
        ∃ answer y, t = [Ev (ResolveTag (ImageRef (pool_spec pool)) auth) answer; Ev Now y] ∧
          resolved pool now answer (cs_pool s') r)) as Hask.
    { apply wpg_resolveTag. intros answer y p r Hp Hr. split; [by exists p|].
      eexists x, _. split; [simpl; reflexivity|]. split; [done|]. by exists answer, y. }
    destruct (NextTagResolutionTime (pool_status pool)) as [next|] eqn:En.
    + destruct (Z.ltb_spec x next) as [Hlt|Hge].
      * go_step. split; [done|]. exists x, []. split; [done|].
        destruct (Z.ltb_spec x next) as [_|]; [|lia]. cbn [negb]. eauto 7.
      * eapply wpg_mono; [|exact Hask]. intros h s' r (Hp & now & t & Hh & -> & Hrest).
        split; [done|]. exists x, t. split; [done|]. destruct (Z.ltb_spec x next) as [|_]; [lia|]. exact Hrest.
    + eapply wpg_mono; [|exact Hask]. intros h s' r (Hp & now & t & Hh & -> & Hrest). eauto.
Qed.
End Resolution.
