(* ===== verification/ReconcileWitness.v ===== *)
(** * ReconcileWitness: whole passes on a concrete cluster

    Passes of [Reconcile] against the simulated cluster: the witness of the
    controller's protocol, and the passes that show behaviour the comments and
    documents of the repository do not lead one to expect. *)

From S2P Require Import Prelude Effects Types Library LibModel Client Samples Sim Image Karpenter Classify PoolStatus Slots Utf8 Events Drain Rollout RolloutSafety RolloutWitness Membership MembershipSafety MembershipWitness MembershipSync Reconcile ReconcileSafety ReconcileProps.

Module ReconcileWitness.
Import LibModel.
#[local] Existing Instance idOrder.
#[local] Existing Instance RolloutWitness.config.

Definition reconcile (name : string) (drains : gmap string drainStatus) (w : World) :=
  run sim (Reconcile name drains) w.

(** The clock advances and drains finish between passes. *)
Definition later (t : Z) (w : World) : World :=
  mkWorld t (w_pools w) (w_nodes w) (w_bns w) (w_claims w) (w_secrets w) (w_tags w) (w_drains w).
Definition drained (n : string) (w : World) : World :=
  mkWorld (w_now w) (w_pools w) (w_nodes w) (w_bns w) (w_claims w) (w_secrets w) (w_tags w)
    (<[n := None]> (w_drains w)).

Definition stateOf (n : string) (w : World) : option string :=
  (λ b, DesiredImageState (bn_spec b)) <$> w_bns w !! n.
Definition imageOf (n : string) (w : World) : option string :=
  (λ b, DesiredImage (bn_spec b)) <$> w_bns w !! n.
Definition slotOf (n : string) (w : World) : option bool := isSlotted <$> w_bns w !! n.

(** A pool that follows a tag, with a pull secret. *)
Definition tagPool (ref target : string) (next : option Z) : BootcNodePool :=
  mkBootcNodePool
    (mkObjectMeta "workers" "" "pool-uid" 1 None None [] [FinalizerPoolCleanup] None)
    (mkBootcNodePoolSpec (Some Samples.workerSelector) ref
       (Some (mkRolloutSpec (Some (IntVal 2)) false None None)) None
       (Some (mkPullSecretRef "pull" "bootc-operator")))
    (mkBootcNodePoolStatus 0 target next "" false 0 0 0 0 []).

Definition secret0 : Secret :=
  mkSecret (newMeta "pull") "kubernetes.io/dockerconfigjson" (GoMap.set None DockerConfigJsonKey "{}").

Definition tagged : string := "quay.io/example/myos:latest".

(** The nodes of [RolloutWitness], for a pool whose tag has to be resolved. *)
Definition world0 : World :=
  mkWorld 0 {["workers" := tagPool tagged "" None]} (w_nodes RolloutWitness.world0)
    (w_bns RolloutWitness.world0) ∅ {["bootc-operator/pull" := secret0]}
    {[tagged := Samples.DigestB]} {["w3" := None]}.
Definition drains0 : gmap string drainStatus := {["w3" := mkDrainStatus 0 false]}.
Definition pass0 := reconcile "workers" drains0 world0.

(** One pass resolves the tag, approves "w3", frees "w1", slots "w2" and writes
    the status. *)
Example reconcilePass_story :
  pass0.2.2 = Ok (300 * GoInt.Second)%Z ∧
  stateOf "w3" pass0.1.1 = Some "Booted" ∧ slotOf "w1" pass0.1.1 = Some false ∧
  slotOf "w2" pass0.1.1 = Some true ∧
  ((λ p, (TargetDigest (pool_status p), NodeCount (pool_status p), UpdatedCount (pool_status p)))
     <$> w_pools pass0.1.1 !! "workers") = Some (Samples.DigestB, 3%Z, 1%Z).
Proof. vm_compute. done. Qed.

Lemma Reconcile_protocol_witness :
  20 ≤ length pass0.1.2 ∧ guarded (reconcile_allowed "workers") pass0.1.2.
Proof.
  split; [apply Nat.leb_le; vm_compute; reflexivity|].
  destruct (wpg_sim _ _ world0 _ (Reconcile_protocol "workers" drains0)) as [Hq H].
  apply H. exact (quiet_honest _ Hq).
Defined.

(** The tag is resolved, then left alone until it is due again. *)
Definition pass1 := run sim (resolveTargetDigest None (mkCState (tagPool tagged "" None) ∅ ∅ emptyRolloutState)) world0.

Lemma resolveTargetDigest_table_witness :
  TargetDigest (pool_status (cs_pool pass1.2.1)) = Samples.DigestB ∧ ∃ p, cs_pool pass1.2.1 = p ∧
  same_object (tagPool tagged "" None) p.
Proof.
  split; [vm_compute; reflexivity|].
  destruct (wpg_sim _ _ world0 _ (resolveTargetDigest_table None
    (mkCState (tagPool tagged "" None) ∅ ∅ emptyRolloutState))) as [_ [(p & Hp & Hs) _]].
  exists p. split; [|exact Hs]. exact (f_equal cs_pool Hp).
Defined.

(** ** Passes that surprise *)

Definition asks (f : req → bool) (h : history) : bool := existsb (λ e, f (ev_req e)) h.
Definition isResolve (r : req) : bool := match r with ResolveTag _ _ => true | _ => false end.
Definition isStatus (r : req) : bool := match r with UpdatePoolStatus _ => true | _ => false end.
Definition isStart (n : string) (r : req) : bool :=
  match r with StartDrain m _ _ => m =s n | _ => false end.
Definition isStallEvent (r : req) : bool :=
  match r with Eventf _ _ _ reason _ _ => reason =s eventReasonDrainTakingTooLong | _ => false end.

(** The user points the pool at another repository before the tag is due again:
    the registry is not asked, and the nodes are told to run the old digest from
    the new repository. *)
Definition other : string := "quay.io/example/other:latest".
Definition worldStale : World :=
  mkWorld 0 {["workers" := tagPool other Samples.DigestB (Some (300 * GoInt.Second)%Z)]}
    (w_nodes RolloutWitness.world0) (w_bns RolloutWitness.world0) ∅
    {["bootc-operator/pull" := secret0]} {[other := Samples.DigestC]} ∅.
Definition passStale := reconcile "workers" ∅ worldStale.

Example stale_digest_after_ref_change :
  is_ok passStale.2.2 = true ∧ asks isResolve passStale.1.2 = false ∧
  imageOf "w2" passStale.1.1 = Some "quay.io/example/other@sha256:bbbb".
Proof. vm_compute. done. Qed.

(** A pool with a degraded node, reconciled twice with nothing changed in between
    but the clock: the second pass writes the status again, because it cleared
    and set the Degraded condition and so reset its transition time. *)
Definition degradedOf (w : World) : option Condition :=
  w_pools w !! "workers" ≫= λ p, FindStatusCondition (pool_conditions p) PoolDegraded.
Definition worldDeg : World :=
  mkWorld 0 {["workers" := Samples.pool None]} (w_nodes RolloutWitness.world1)
    (Samples.store [Samples.degradedNode "w1" None; Samples.upToDateNode "w2" None; Samples.upToDateNode "w3" None])
    ∅ ∅ ∅ ∅.
Definition passDeg1 := reconcile "workers" ∅ worldDeg.
Definition passDeg2 := reconcile "workers" ∅ (later 60 passDeg1.1.1).

Example degraded_status_rewritten :
  asks isStatus passDeg2.1.2 = true ∧
  (c_reason <$> degradedOf passDeg1.1.1) = Some PoolNodeDegraded ∧
  (c_reason <$> degradedOf passDeg2.1.1) = (c_reason <$> degradedOf passDeg1.1.1) ∧
  (c_message <$> degradedOf passDeg2.1.1) = (c_message <$> degradedOf passDeg1.1.1) ∧
  (c_lastTransitionTime <$> degradedOf passDeg1.1.1) = Some (Some 0%Z) ∧
  (c_lastTransitionTime <$> degradedOf passDeg2.1.1) = Some (Some 60%Z).
Proof. vm_compute. done. Qed.

(** A drain of "w3" finished.  A pass over another pool takes its result and drops
    it; the next pass over "workers" finds nothing and drains "w3" again. *)
Definition gpuPool : BootcNodePool :=
  mkBootcNodePool
    (mkObjectMeta "gpu" "" "gpu-uid" 1 None None [] [FinalizerPoolCleanup] None)
    (mkBootcNodePoolSpec (Some (mkLabelSelector (GoMap.set None "gpu" "yes") [])) Samples.RefB None None None)
    Samples.status0.
Definition worldTwo : World :=
  mkWorld 0 {["workers" := RolloutWitness.pool0; "gpu" := gpuPool]} (w_nodes RolloutWitness.world0)
    (w_bns RolloutWitness.world0) ∅ ∅ ∅ {["w3" := None]}.
Definition passGpu := reconcile "gpu" drains0 worldTwo.
Definition passAfter := reconcile "workers" passGpu.2.1 passGpu.1.1.

Example drain_result_lost :
  passGpu.2.1 = ∅ ∧ stateOf "w3" passGpu.1.1 = Some "Staged" ∧
  stateOf "w3" passAfter.1.1 = Some "Staged" ∧ asks (isStart "w3") passAfter.1.2 = true.
Proof. vm_compute. done. Qed.

(** The same with a drain that takes too long: the other pool's pass marks it as
    reported without an event, so nobody reports it. *)
Definition worldSlow : World :=
  mkWorld (10 * GoInt.Minute) (w_pools worldTwo) (w_nodes worldTwo) (w_bns worldTwo) ∅ ∅ ∅ ∅.
Definition passSlow1 := reconcile "gpu" drains0 worldSlow.
Definition passSlow2 := reconcile "workers" passSlow1.2.1 passSlow1.1.1.

Example drain_stall_unreported :
  asks isStallEvent passSlow1.1.2 = false ∧ asks isStallEvent passSlow2.1.2 = false ∧
  asks isStallEvent (reconcile "workers" drains0 worldSlow).1.2 = true.
Proof. vm_compute. done. Qed.

(** The target goes back to what "w3" runs while it is being drained: its slot is
    freed and it is uncordoned, but the drain goes on, and its success approves a
    reboot of a node without a slot. *)
Definition poolBack : BootcNodePool :=
  mkBootcNodePool (pool_meta RolloutWitness.pool0)
    (mkBootcNodePoolSpec (Some Samples.workerSelector) Samples.RefA
       (Some (mkRolloutSpec (Some (IntVal 2)) false None None)) None None) Samples.status0.
Definition worldBack : World :=
  mkWorld 0 {["workers" := poolBack]} (w_nodes RolloutWitness.world0) (w_bns RolloutWitness.world0)
    ∅ ∅ ∅ ∅.
Definition passBack1 := reconcile "workers" drains0 worldBack.
Definition passBack2 := reconcile "workers" passBack1.2.1 (drained "w3" passBack1.1.1).

Example approved_without_slot :
  slotOf "w3" passBack1.1.1 = Some false ∧
  (node_unschedulable <$> w_nodes passBack1.1.1 !! "w3") = Some false ∧
  bool_decide (is_Some (passBack1.2.1 !! "w3")) = true ∧
  slotOf "w3" passBack2.1.1 = Some false ∧ stateOf "w3" passBack2.1.1 = Some "Booted".
Proof. vm_compute. done. Qed.
End ReconcileWitness.
