(* ===== verification/StageOp.v ===== *)
(** * StageOp: one staging operation at a time

    [stageOp] of [internal/daemon/reconciler.go]: the daemon's reconciler starts
    [bootc switch] in goroutines that outlive the reconcile pass, and shares with
    them a record of what is in flight, guarded by a mutex.  Every method holds
    the mutex, so each is one atomic step; [run] holds a second mutex until it
    returns, and is modelled in three steps: entering, the end of the command, and
    the event it sends to the reconciler through a channel of capacity one.
    [stager_step] is the interleaving of the reconciler's calls with the
    goroutines and with controller-runtime, which moves the events of the channel
    to the reconciler's work queue; [stager_inv] holds in every reachable state. *)

From S2P Require Import Prelude Effects.

Definition stageBackoffMin : Z := (5 * GoInt.Second)%Z.
Definition stageMaxBackoffExponent : Z := 7.

(** [stageOp]; the cancel function is the goroutine it cancels. *)
Record stageOp : Set := mkStageOp {
  so_image : string;
  so_cancel : option nat;
  so_err : option error;
  so_retries : Z
}.

(** [takeErr]. *)
Definition takeErr (s : stageOp) : stageOp * option error :=
  (mkStageOp (so_image s) (so_cancel s) None
     (match so_err s with
      | Some _ => if (so_retries s <? stageMaxBackoffExponent)%Z then (so_retries s + 1)%Z else so_retries s
      | None => so_retries s
      end),
   so_err s).

(** [backoff]: shifting by a negative count panics. *)
Definition backoff (s : stageOp) : result Z :=
  if (so_retries s - 1 <? 0)%Z then Err (ErrPanic "negative shift amount")
  else Ok (GoInt.wrap64 (Z.shiftl stageBackoffMin (so_retries s - 1))).

(** [isInFlight]. *)
Definition isInFlight (s : stageOp) (image : string) : bool := so_image s =s image.

(** [acquire] for the goroutine [id]; the second part is the goroutine whose
    context it cancels. *)
Definition acquire (s : stageOp) (image : string) (id : nat) : stageOp * option nat :=
  (mkStageOp image (Some id) None (match so_cancel s with Some _ => 0%Z | None => so_retries s end),
   so_cancel s).

(** [reset]. *)
Definition reset (s : stageOp) : stageOp := mkStageOp (so_image s) (so_cancel s) (so_err s) 0.

(** The end of [run], after [executor.Stage] returned [err]. *)
Definition runEnd (s : stageOp) (cancelled : bool) (err : option error) : stageOp :=
  if cancelled then s
  else mkStageOp "" None (match err with Some e => Some e | None => so_err s end) (so_retries s).

(** ** The goroutines *)

(** Before [runMu], in [executor.Stage], at the send on [done], or returned; a
    goroutine that found its context cancelled returns without a result. *)
Inductive phase : Set :=
| Waiting
| Staging
| Notifying (err : option error)
| Returned (res : option (option error)).

Record goroutine : Set := mkGoroutine {
  g_image : string;
  g_phase : phase;
  g_cancelled : bool
}.

Definition setPhase (p : phase) (g : goroutine) : goroutine := mkGoroutine (g_image g) p (g_cancelled g).
Definition setCancelled (g : goroutine) : goroutine := mkGoroutine (g_image g) (g_phase g) true.

(** The operation, every goroutine started so far, by number, whether the channel
    [stageDone] holds an event, and whether the node is in the work queue. *)
Record stager : Set := mkStager {
  st_op : stageOp;
  st_runs : list goroutine;
  st_done : bool;
  st_queued : bool
}.

Definition stager0 : stager := mkStager (mkStageOp "" None None 0) [] false false.

(** [runMu] is held from the check of the context to the return. *)
Definition holdsMu (g : goroutine) : bool :=
  match g_phase g with Staging | Notifying _ => true | _ => false end.
Definition idleMu (runs : list goroutine) : Prop := ∀ i g, runs !! i = Some g → holdsMu g = false.

(** The reconciler: a pass begins, and its calls. *)
Inductive call_step : stager → stager → Prop :=
| step_pass op runs done queued : call_step (mkStager op runs done queued) (mkStager op runs done false)
| step_takeErr op runs done queued :
    call_step (mkStager op runs done queued) (mkStager (takeErr op).1 runs done queued)
| step_reset op runs done queued :
    call_step (mkStager op runs done queued) (mkStager (reset op) runs done queued)
| step_acquire op runs done queued image op' old :
    acquire op image (length runs) = (op', old) →
    call_step (mkStager op runs done queued)
      (mkStager op' ((match old with Some i => alter setCancelled i runs | None => runs end)
                     ++ [mkGoroutine image Waiting false]) done queued).

(** A step of a goroutine: it gets the second mutex and looks at its context; the
    command returns and it looks again; it sends its event once the channel has
    room.  And controller-runtime takes the event out of the channel. *)
Inductive run_step : stager → stager → Prop :=
| step_enter op runs done queued i g :
    runs !! i = Some g → g_phase g = Waiting → idleMu runs →
    run_step (mkStager op runs done queued)
      (mkStager op (alter (setPhase (if g_cancelled g then Returned None else Staging)) i runs) done queued)
| step_finish op runs done queued i g err :
    runs !! i = Some g → g_phase g = Staging →
    run_step (mkStager op runs done queued)
      (mkStager (runEnd op (g_cancelled g) err)
         (alter (setPhase (if g_cancelled g then Returned None else Notifying err)) i runs) done queued)
| step_send op runs queued i g err :
    runs !! i = Some g → g_phase g = Notifying err →
    run_step (mkStager op runs false queued)
      (mkStager op (alter (setPhase (Returned (Some err))) i runs) true queued)
| step_receive op runs queued :
    run_step (mkStager op runs true queued) (mkStager op runs false true).

Definition stager_step (s s' : stager) : Prop := call_step s s' ∨ run_step s s'.

(** A goroutine whose command is still to run or running, and counts. *)
Definition live (g : goroutine) : Prop :=
  g_cancelled g = false ∧ match g_phase g with Waiting | Staging => True | _ => False end.

(** What the command of a goroutine returned, if that counts. *)
Definition g_result (g : goroutine) : option (option error) :=
  match g_phase g with Notifying err => Some err | Returned res => res | _ => None end.

Record stager_inv (op : stageOp) (runs : list goroutine) : Prop := {
  si_cancel i : so_cancel op = Some i →
    S i = length runs ∧ ∃ g, runs !! i = Some g ∧ live g ∧ g_image g = so_image op;
  si_none : so_cancel op = None → so_image op = "";
  si_live i g : runs !! i = Some g → live g → so_cancel op = Some i;
  si_retries : (0 <= so_retries op <= stageMaxBackoffExponent)%Z;
  si_err e : so_err op = Some e →
    so_cancel op = None ∧
    ∃ g, last runs = Some g ∧ g_cancelled g = false ∧ g_result g = Some (Some e);
  si_mutex i j g g' : runs !! i = Some g → runs !! j = Some g' →
    holdsMu g = true → holdsMu g' = true → i = j
}.

(** Reachable states. *)
Inductive reachable : stager → Prop :=
| reach_init : reachable stager0
| reach_step s s' : reachable s → stager_step s s' → reachable s'.

(** ** The invariant *)

Lemma inv_init : stager_inv (st_op stager0) (st_runs stager0).
Proof. by split. Qed.

Lemma inv_takeErr op runs : stager_inv op runs → stager_inv (takeErr op).1 runs.
Proof.
  intros [Hc Hn Hl Hr He Hm]. split; simpl in *; try done.
  unfold stageMaxBackoffExponent in *. destruct (so_err op); [|done].
  destruct (Z.ltb_spec (so_retries op) 7); lia.
Qed.

Lemma inv_reset op runs : stager_inv op runs → stager_inv (reset op) runs.
Proof. by intros [Hc Hn Hl Hr He Hm]. Qed.

(** Cancelling the goroutine in charge leaves none alive. *)
Lemma cancelled_runs op runs old (i : nat) g :
  stager_inv op runs → so_cancel op = old →
  (match old with Some i => alter setCancelled i runs | None => runs end) !! i = Some g →
  ¬ live g ∧ ∃ g0, runs !! i = Some g0 ∧ g_phase g0 = g_phase g.
Proof.
  intros [Hc _ Hl _ _ _] Ho Hi. simpl in *. destruct old as [j|].
  - destruct (decide (i = j)) as [->|Hne].
    + rewrite list_lookup_alter_eq in Hi. destruct (runs !! j) as [g0|] eqn:Eg; [|done].
      injection Hi as <-. split; [by intros []|]. eauto.
    + rewrite list_lookup_alter_ne in Hi by done. split; [|eauto].
      intros Hg. specialize (Hl _ _ Hi Hg). congruence.
  - split; [|eauto]. intros Hg. specialize (Hl _ _ Hi Hg). congruence.
Qed.

Lemma holdsMu_phase g g' : g_phase g = g_phase g' → holdsMu g = holdsMu g'.
Proof. unfold holdsMu. by intros ->. Qed.

Lemma inv_acquire op runs image op' old :
  acquire op image (length runs) = (op', old) → stager_inv op runs →
  stager_inv op' ((match old with Some i => alter setCancelled i runs | None => runs end)
                  ++ [mkGoroutine image Waiting false]).
Proof.
  intros [= <- <-] Hinv. set (runs' := match so_cancel op with Some i => _ | None => runs end).
  assert (length runs' = length runs) as Hlen.
  { unfold runs'. destruct (so_cancel op); [apply length_alter|done]. }
  assert (∀ i g, (runs' ++ [mkGoroutine image Waiting false]) !! i = Some g →
    (i = length runs ∧ g = mkGoroutine image Waiting false) ∨
    (¬ live g ∧ ∃ g0, runs !! i = Some g0 ∧ g_phase g0 = g_phase g)) as Hcase.
  { intros i g [Hi|[Hle Hi]]%lookup_app_Some.
    - right. by eapply (cancelled_runs op runs (so_cancel op)).
    - left. apply list_lookup_singleton_Some in Hi as [Hi <-]. split; [lia|done]. }
  destruct Hinv as [Hc Hn Hl Hr He Hm]. split; simpl in *.
  - intros i [= <-]. rewrite length_app, Hlen. split; [simpl; lia|].
    eexists. rewrite lookup_app_r by lia. rewrite Hlen, Nat.sub_diag. split_and!; [done|done|done].
  - done.
  - intros i g [[-> ->]|[Hd _]]%Hcase Hg; [done|]. by destruct Hd.
  - destruct (so_cancel op); [unfold stageMaxBackoffExponent|]; lia.
  - done.
  - intros i j g g' Hi Hj Hpi Hpj. apply Hcase in Hi as [[-> ->]|(_ & g0 & Hi & Ei)]; [done|].
    apply Hcase in Hj as [[-> ->]|(_ & g1 & Hj & Ej)]; [done|].
    apply (Hm i j g0 g1); [done..|by rewrite (holdsMu_phase _ _ Ei)|by rewrite (holdsMu_phase _ _ Ej)].
Qed.

(** A change of one goroutine's phase. *)
Lemma lookup_setPhase (runs : list goroutine) (i j : nat) p g :
  alter (setPhase p) i runs !! j = Some g →
  (i = j ∧ ∃ g0, runs !! j = Some g0 ∧ g = setPhase p g0) ∨ (i ≠ j ∧ runs !! j = Some g).
Proof.
  destruct (decide (i = j)) as [->|Hne].
  - rewrite list_lookup_alter_eq. intros (g0 & ? & ->)%fmap_Some. eauto.
  - rewrite list_lookup_alter_ne by done. eauto.
Qed.

Lemma last_setPhase (runs : list goroutine) (i : nat) p g0 :
  last runs = Some g0 →
  ∃ g1, last (alter (setPhase p) i runs) = Some g1 ∧
    (g1 = g0 ∨ runs !! i = Some g0 ∧ g1 = setPhase p g0).
Proof.
  rewrite !last_lookup, length_alter. intros Hl.
  destruct (decide (i = pred (length runs))) as [->|]; [|rewrite list_lookup_alter_ne by done; eauto].
  rewrite list_lookup_alter_eq, Hl. eauto.
Qed.

(** The mutex stays with one goroutine, when it had it or nobody did. *)
Lemma mutex_setPhase (runs : list goroutine) (i : nat) p :
  (∀ i j g g', runs !! i = Some g → runs !! j = Some g' → holdsMu g = true → holdsMu g' = true → i = j) →
  (∀ g0, runs !! i = Some g0 → holdsMu g0 = false → holdsMu (setPhase p g0) = true → idleMu runs) →
  ∀ j k g g', alter (setPhase p) i runs !! j = Some g → alter (setPhase p) i runs !! k = Some g' →
    holdsMu g = true → holdsMu g' = true → j = k.
Proof.
  intros Hm Hi.
  assert (∀ j g g0, runs !! i = Some g0 → holdsMu (setPhase p g0) = true → i ≠ j →
    runs !! j = Some g → holdsMu g = true → False) as Hx.
  { intros j g g0 H0 Hp Hne Hj Hg. destruct (holdsMu g0) eqn:E0; [by destruct Hne; apply (Hm i j g0 g)|].
    specialize (Hi g0 H0 E0 Hp j g Hj). congruence. }
  intros j k g g' [(<- & g0 & Hj & ->)|[Hne Hj]]%lookup_setPhase [(<- & g1 & Hk & ->)|[Hne' Hk]]%lookup_setPhase Hg Hg'.
  - done.
  - destruct (Hx k g' g0); done.
  - destruct (Hx j g g1); done.
  - by eapply Hm.
Qed.

(** A change of phase that ends no operation: the goroutine in charge stays alive,
    a dead one stays dead, and results stay. *)
Lemma inv_setPhase op runs (i : nat) g p :
  runs !! i = Some g → (live (setPhase p g) ↔ live g) → (∀ r, g_result g = Some r → g_result (setPhase p g) = Some r) →
  (holdsMu g = false → holdsMu (setPhase p g) = true → idleMu runs) →
  stager_inv op runs → stager_inv op (alter (setPhase p) i runs).
Proof.
  intros Hi Hlive Hres Hmu [Hc Hn Hl Hr He Hm]. split; try done.
  - intros j Hj. rewrite length_alter. destruct (Hc j Hj) as (Hlen & g' & Hg' & Hl' & Him).
    split; [done|]. destruct (decide (i = j)) as [->|Hne].
    + assert (g = g') as <- by congruence. eexists. rewrite list_lookup_alter_eq, Hg'.
      split_and!; [done|by apply Hlive|done].
    + exists g'. by rewrite list_lookup_alter_ne.
  - intros j g' [(<- & g0 & Hj & ->)|[Hne Hj]]%lookup_setPhase Hlg; [|by eapply Hl].
    assert (g0 = g) as -> by congruence. apply (Hl i g); [done|by apply Hlive].
  - intros e Hs. destruct (He e Hs) as (Hnc & g0 & Hlast & Hcn & Hph). split; [done|].
    destruct (last_setPhase runs i p g0 Hlast) as (g1 & Hg1 & [->|[H0 ->]]).
    + exists g0. done.
    + exists (setPhase p g0). assert (g0 = g) as -> by congruence. split_and!; [done|done|by apply Hres].
  - apply mutex_setPhase; [done|]. intros g0 H0. assert (g0 = g) as -> by congruence. done.
Qed.

Lemma inv_enter op runs (i : nat) g :
  runs !! i = Some g → g_phase g = Waiting → idleMu runs → stager_inv op runs →
  stager_inv op (alter (setPhase (if g_cancelled g then Returned None else Staging)) i runs).
Proof.
  intros Hi Hp Hmu Hinv. apply (inv_setPhase _ _ _ g); try done.
  - unfold live. simpl. rewrite Hp. destruct (g_cancelled g) eqn:Ec; naive_solver.
  - unfold g_result. by rewrite Hp.
Qed.

(** The goroutine in charge hands over: nothing is in flight any more. *)
Lemma inv_finish op runs (i : nat) g err :
  runs !! i = Some g → g_phase g = Staging → stager_inv op runs →
  stager_inv (runEnd op (g_cancelled g) err)
    (alter (setPhase (if g_cancelled g then Returned None else Notifying err)) i runs).
Proof.
  intros Hi Hp Hinv. unfold runEnd. destruct (g_cancelled g) eqn:Ecn.
  { apply (inv_setPhase _ _ _ g); try done.
    - unfold live. simpl. rewrite Ecn. naive_solver.
    - unfold g_result. by rewrite Hp. }
  destruct Hinv as [Hc Hn Hl Hr He Hm].
  assert (so_cancel op = Some i) as Hci.
  { apply (Hl i g Hi). split; [done|]. by rewrite Hp. }
  split; simpl; try done.
  - intros j g' [(<- & g0 & Hj & ->)|[Hne Hj]]%lookup_setPhase Hlive; [by destruct Hlive|].
    specialize (Hl j g' Hj Hlive). congruence.
  - intros e Hs. split; [done|]. destruct (Hc i Hci) as [Hlen _].
    assert (so_err op = None) as Hne. { destruct (so_err op) as [e'|]; [|done]. destruct (He e' eq_refl). congruence. }
    destruct err as [e'|]; [|congruence]. injection Hs as ->.
    exists (setPhase (Notifying (Some e)) g). split; [|by split].
    rewrite last_lookup, length_alter, <- Hlen. simpl. by rewrite list_lookup_alter_eq, Hi.
  - apply mutex_setPhase; [done|]. intros g0 H0. assert (g0 = g) as -> by congruence.
    unfold holdsMu. by rewrite Hp.
Qed.

Lemma inv_send op runs (i : nat) g err :
  runs !! i = Some g → g_phase g = Notifying err → stager_inv op runs →
  stager_inv op (alter (setPhase (Returned (Some err))) i runs).
Proof.
  intros Hi Hp Hinv. apply (inv_setPhase _ _ _ g); try done.
  - unfold live. simpl. by rewrite Hp.
  - unfold g_result. by rewrite Hp.
Qed.

Abbreviation inv s := (stager_inv (st_op s) (st_runs s)).

Lemma step_inv s s' : inv s → stager_step s s' → inv s'.
Proof.
  intros Hinv [Hs|Hs]; destruct Hs; simpl in *; try done.
  - by apply inv_takeErr.
  - by apply inv_reset.
  - by eapply inv_acquire.
  - by apply inv_enter.
  - by apply inv_finish.
  - by eapply inv_send.
Qed.

Lemma reachable_inv s : reachable s → inv s.
Proof. induction 1; [apply inv_init|by eapply step_inv]. Qed.

(** C20. What is in flight.  In every state reachable by any interleaving of the
    reconciler's calls with the goroutines: [isInFlight image] says exactly that
    a goroutine for this image is still at work and was not cancelled, so that
    the reconciler never waits for a staging operation that nobody runs; there is
    at most one such goroutine, whatever was started and cancelled before; and
    at most one goroutine executes [bootc switch]. *)
Theorem stage_in_flight s image :
  reachable s → image ≠ "" →
  (isInFlight (st_op s) image = true ↔
     ∃ i g, st_runs s !! i = Some g ∧ live g ∧ g_image g = image) ∧
  (∀ i j g g', st_runs s !! i = Some g → st_runs s !! j = Some g' → live g → live g' → i = j) ∧
  (∀ i j g g', st_runs s !! i = Some g → st_runs s !! j = Some g' →
     g_phase g = Staging → g_phase g' = Staging → i = j).
Proof.
  intros [Hc Hn Hl _ _ Hm]%reachable_inv Hne. split_and!; [split| |].
  - unfold isInFlight. intros Heq%seq_b_true.
    destruct (so_cancel (st_op s)) as [i|] eqn:Ec; [|by rewrite Hn in Heq].
    destruct (Hc i eq_refl) as (_ & g & ? & ? & ?). exists i, g. split_and!; congruence.
  - intros (i & g & Hi & Hg & Him). apply seq_b_true.
    destruct (Hc i (Hl _ _ Hi Hg)) as (_ & g' & Hi' & _ & <-). congruence.
  - intros i j g g' Hi Hj Hg Hg'. pose proof (Hl _ _ Hi Hg). pose proof (Hl _ _ Hj Hg'). congruence.
  - intros i j g g' Hi Hj Hg Hg'. apply (Hm i j g g'); [done..| |]; unfold holdsMu; by rewrite ?Hg, ?Hg'.
Qed.


(** ** Goroutines come to an end *)

(** ** Termination and wake-ups *)

Definition weight (g : goroutine) : nat :=
  match g_phase g with Waiting => 4 | Staging => 3 | Notifying _ => 2 | Returned _ => 0 end.

(** A bound on the steps that are still to come. *)
Definition load (s : stager) : nat := sum_list_with weight (st_runs s) + (if st_done s then 1 else 0).

Lemma load_alter runs (i : nat) g p :
  runs !! i = Some g →
  sum_list_with weight (alter (setPhase p) i runs) + weight g = sum_list_with weight runs + weight (setPhase p g).
Proof.
  revert i. induction runs as [|g0 runs IH]; intros [|i]; [done..| |].
  - intros [= ->]. change (weight (setPhase p g) + sum_list_with weight runs + weight g =
      weight g + sum_list_with weight runs + weight (setPhase p g)). lia.
  - intros Hi. specialize (IH i Hi).
    change (weight g0 + sum_list_with weight (alter (setPhase p) i runs) + weight g =
      weight g0 + sum_list_with weight runs + weight (setPhase p g)). lia.
Qed.

Lemma run_step_load s s' : run_step s s' → load s' < load s.
Proof.
  unfold load. intros [op runs d q i g Hi Hp _|op runs d q i g err Hi Hp|op runs q i g err Hi Hp|]; cbn [st_runs st_done].
  - pose proof (load_alter runs i g (if g_cancelled g then Returned None else Staging) Hi) as Hw.
    assert (weight (setPhase (if g_cancelled g then Returned None else Staging) g) < weight g); [|lia].
    unfold weight. rewrite Hp. simpl. destruct (g_cancelled g); lia.
  - pose proof (load_alter runs i g (if g_cancelled g then Returned None else Notifying err) Hi) as Hw.
    assert (weight (setPhase (if g_cancelled g then Returned None else Notifying err) g) < weight g); [|lia].
    unfold weight. rewrite Hp. simpl. destruct (g_cancelled g); lia.
  - pose proof (load_alter runs i g (Returned (Some err)) Hi) as Hw.
    assert (S (weight (setPhase (Returned (Some err)) g)) < weight g); [|lia].
    unfold weight. rewrite Hp. simpl. lia.
  - lia.
Qed.

Definition returned (g : goroutine) : bool := match g_phase g with Returned _ => true | _ => false end.

(** Nothing is left to do for the goroutines and the channel. *)
Definition at_rest (s : stager) : Prop :=
  st_done s = false ∧ ∀ i g, st_runs s !! i = Some g → returned g = true.

Lemma first_with (f : goroutine → bool) (runs : list goroutine) :
  (∃ i g, runs !! i = Some g ∧ f g = true) ∨ ∀ i g, runs !! i = Some g → f g = false.
Proof.
  induction runs as [|g runs [(i & g' & Hi & Hr)|IH]]; [by right|left; by exists (S i), g'|].
  destruct (f g) eqn:Eg; [left; by exists 0, g|right].
  intros [|i] g' Hi; [by injection Hi as <-|by eapply IH].
Qed.

(** Unless they are at rest, somebody can step. *)
Lemma run_progress s : at_rest s ∨ ∃ s', run_step s s'.
Proof.
  destruct s as [op runs done q]. destruct done; [right; eexists; apply step_receive|].
  destruct (first_with holdsMu runs) as [(i & g & Hi & Hg)|Hidle].
  { right. unfold holdsMu in Hg. destruct (g_phase g) eqn:Ep; try done.
    - eexists. by apply (step_finish _ _ _ _ i g None).
    - eexists. by eapply (step_send _ _ _ i g). }
  destruct (first_with (negb ∘ returned) runs) as [(i & g & Hi & Hg)|Hall].
  - right. eexists. apply (step_enter _ _ _ _ i g Hi); [|done].
    specialize (Hidle i g Hi). unfold holdsMu in Hidle. unfold returned in Hg. simpl in Hg. by destruct (g_phase g).
  - left. split; [done|]. intros i g Hi. specialize (Hall i g Hi). simpl in Hall. by destruct (returned g).
Qed.

Lemma at_rest_final s s' : at_rest s → ¬ run_step s s'.
Proof.
  intros [Hd Hr] Hs. destruct Hs as [op runs d q i g Hi Hp _|op runs d q i g err Hi Hp|op runs q i g err Hi Hp|]; simpl in *;
    [| | |done]; specialize (Hr i g Hi); unfold returned in Hr; by rewrite Hp in Hr.
Qed.

Lemma run_steps_end n s : load s ≤ n → ∃ s', rtc run_step s s' ∧ at_rest s'.
Proof.
  revert s. induction n as [n IH] using lt_wf_ind. intros s Hn.
  destruct (run_progress s) as [Hrest|[s1 Hs1]]; [by exists s|]. pose proof (run_step_load _ _ Hs1) as Hl.
  destruct (IH (load s1) ltac:(lia) s1 ltac:(lia)) as (s' & Hr & Hall).
  exists s'. split; [by eapply rtc_l|done].
Qed.

Lemma run_terminates s : Acc (flip run_step) s.
Proof.
  induction (Wf_nat.well_founded_ltof _ load s) as [s _ IH]. constructor. intros s' Hs'.
  apply IH. by apply run_step_load.
Qed.

Lemma reachable_run s s' : reachable s → rtc run_step s s' → reachable s'.
Proof. intros Hr Hs. induction Hs as [|s s1 s' H1 _ IH]; [done|]. apply IH. eapply reach_step; [done|by right]. Qed.

Lemma rest_not_in_flight s image : inv s → at_rest s → image ≠ "" → isInFlight (st_op s) image = false.
Proof.
  intros [Hc Hn _ _ _ _] [_ Hall] Hne. destruct (so_cancel (st_op s)) as [i|].
  - destruct (Hc i eq_refl) as (_ & g & Hi & [_ Hg] & _). specialize (Hall _ _ Hi).
    unfold returned in Hall. by destruct (g_phase g).
  - unfold isInFlight. rewrite Hn by done. apply seq_b_false. congruence.
Qed.

(** C22. Staging comes to an end.  From every reachable state, and as long as the
    reconciler makes no further call: the goroutines and the channel make finitely
    many steps in whatever order they run; they are never stuck, there is a step
    until all goroutines have returned and the channel is empty; and then nothing
    is in flight, so that the next pass of the reconciler does not wait. *)
Theorem stage_comes_to_rest s :
  reachable s →
  Acc (flip run_step) s ∧
  (at_rest s ↔ ∀ s', ¬ run_step s s') ∧
  ∃ s', rtc run_step s s' ∧ at_rest s' ∧ ∀ image, image ≠ "" → isInFlight (st_op s') image = false.
Proof.
  intros Hr. split_and!; [apply run_terminates|split| ].
  - intros Hrest s'. by apply at_rest_final.
  - intros Hno. destruct (run_progress s) as [?|[s' Hs']]; [done|by destruct (Hno s')].
  - destruct (run_steps_end (load s) s) as (s' & Hs & Hall); [lia|]. exists s'. split_and!; [done|done|].
    intros image. apply rest_not_in_flight; [|done]. by eapply reachable_inv, reachable_run.
Qed.

(** A wake-up is on its way: in the queue, in the channel or about to be sent. *)
Definition announced (s : stager) : Prop :=
  st_queued s = true ∨ st_done s = true ∨ ∃ i g err, st_runs s !! i = Some g ∧ g_phase g = Notifying err.

Definition awaited (s : stager) : Prop := announced s ∨ ∃ i g, st_runs s !! i = Some g ∧ live g.

(** Other goroutines keep their phases. *)
Lemma phase_other (runs : list goroutine) (i j : nat) p g :
  i ≠ j → runs !! j = Some g → alter (setPhase p) i runs !! j = Some g.
Proof. intros Hne Hj. by rewrite list_lookup_alter_ne. Qed.

Lemma notifying_kept (runs : list goroutine) (i j : nat) p g g' err :
  runs !! i = Some g → runs !! j = Some g' → g_phase g' = Notifying err → g_phase g ≠ Notifying err →
  ∃ k g1 err1, alter (setPhase p) i runs !! k = Some g1 ∧ g_phase g1 = Notifying err1.
Proof.
  intros Hi Hj Hp Hne. exists j, g', err. split; [|done]. apply phase_other; [|done]. intros ->. congruence.
Qed.

Lemma run_step_awaited s s' : run_step s s' → awaited s → awaited s'.
Proof.
  unfold awaited, announced.
  intros [op runs d q i g Hi Hp _|op runs d q i g err Hi Hp|op runs q i g err Hi Hp|op runs q] Ha; simpl in *; [| |by auto..].
  - destruct Ha as [[?|[?|(j & g' & err & Hj & Hp')]]|(j & g' & Hj & Hl)]; [by auto..| |].
    + left. right. right. eapply notifying_kept; [done..|]. congruence.
    + right. destruct (decide (i = j)) as [<-|Hne]; [|exists j, g'; split; [by apply phase_other|done]].
      assert (g' = g) as -> by congruence. destruct Hl as [Hcn _]. rewrite Hcn.
      eexists i, _. rewrite list_lookup_alter_eq, Hi. by split_and!.
  - destruct Ha as [[?|[?|(j & g' & err' & Hj & Hp')]]|(j & g' & Hj & Hl)]; [by auto..| |].
    + left. right. right. eapply notifying_kept; [done..|]. congruence.
    + destruct (decide (i = j)) as [<-|Hne]; [|right; exists j, g'; split; [by apply phase_other|done]].
      assert (g' = g) as -> by congruence. destruct Hl as [Hcn _]. rewrite Hcn. left. right. right.
      eexists i, _, err. by rewrite list_lookup_alter_eq, Hi.
Qed.

Lemma rest_queued s : at_rest s → awaited s → st_queued s = true.
Proof.
  intros [Hd Hr] [[?|[?|(i & g & err & Hi & Hp)]]|(i & g & Hi & [_ Hl])]; [done|congruence| |];
    specialize (Hr i g Hi); unfold returned in Hr; [by rewrite Hp in Hr|by destruct (g_phase g)].
Qed.

(** C21. No wake-up is lost.  When the reconciler waits because an image is in
    flight, it is woken: however the goroutines and the channel proceed from a
    reachable state, when they can proceed no further the node is in the work
    queue and the image is not in flight any more; this although goroutines that
    were cancelled send nothing, and although the send on the channel of capacity
    one happens while [runMu] is held. *)
Theorem stage_wakes_reconciler s s' image :
  reachable s → image ≠ "" → isInFlight (st_op s) image = true →
  rtc run_step s s' → (∀ s2, ¬ run_step s' s2) →
  st_queued s' = true ∧ isInFlight (st_op s') image = false.
Proof.
  intros Hreach Hne Hin Hs Hend. destruct (run_progress s') as [Hrest|[s2 H2]]; [|by destruct (Hend s2)].
  split; [|apply rest_not_in_flight; [by eapply reachable_inv, reachable_run|done..]].
  apply rest_queued; [done|]. apply reachable_inv in Hreach as [Hc Hn _ _ _ _].
  assert (awaited s) as Ha.
  { right. destruct (so_cancel (st_op s)) as [i|]; [destruct (Hc i eq_refl) as (_ & g & ? & ? & _); by exists i, g|].
    unfold isInFlight in Hin. apply seq_b_true in Hin. rewrite Hn in Hin by done. congruence. }
  clear -Hs Ha. induction Hs as [|s s1 s' H1 _ IH]; [done|]. by apply IH, (run_step_awaited s).
Qed.

(** ** The specification: one job at a time

    What the reconciler needs of all this: one job slot.  A job is started and
    replaces the one before, it succeeds or fails, its failure is reported once
    and counted. *)

Record job : Set := mkJob {
  j_busy : option string;
  j_failed : option error;
  j_failures : Z
}.

Inductive job_step : job → job → Prop :=
| job_start image j :
    job_step j (mkJob (Some image) None (match j_busy j with Some _ => 0%Z | None => j_failures j end))
| job_success image n : job_step (mkJob (Some image) None n) (mkJob None None n)
| job_failure image e n : job_step (mkJob (Some image) None n) (mkJob None (Some e) n)
| job_report b e n : job_step (mkJob b (Some e) n) (mkJob b None (Z.min stageMaxBackoffExponent (n + 1)))
| job_forgive b e n : job_step (mkJob b e n) (mkJob b e 0).

Definition jobOf (s : stager) : job :=
  mkJob (match so_cancel (st_op s) with Some _ => Some (so_image (st_op s)) | None => None end)
    (so_err (st_op s)) (so_retries (st_op s)).

Lemma jobOf_call s s' : inv s → call_step s s' → job_step (jobOf s) (jobOf s') ∨ jobOf s = jobOf s'.
Proof.
  intros [_ _ _ Hr _ _] Hs. destruct Hs as [op runs d q|op runs d q|op runs d q|op runs d q image op' old Ha]; unfold jobOf; simpl in *; [by right|..].
  - destruct (so_err op) as [e|]; [left|by right].
    assert ((if (so_retries op <? stageMaxBackoffExponent)%Z then (so_retries op + 1)%Z else so_retries op) =
      Z.min stageMaxBackoffExponent (so_retries op + 1)) as ->.
    { unfold stageMaxBackoffExponent in *. destruct (Z.ltb_spec (so_retries op) 7); lia. }
    apply job_report.
  - left. apply job_forgive.
  - left. injection Ha as <- <-. simpl.
    pose proof (job_start image (mkJob (match so_cancel op with Some _ => Some (so_image op) | None => None end)
      (so_err op) (so_retries op))) as Hj. simpl in Hj. by destruct (so_cancel op).
Qed.

Lemma jobOf_run s s' : inv s → run_step s s' → job_step (jobOf s) (jobOf s') ∨ jobOf s = jobOf s'.
Proof.
  intros [Hc _ Hl _ He _] Hs. destruct Hs as [op runs d q i g Hi Hp _|op runs d q i g err Hi Hp| |]; [by right| |by right..].
  unfold jobOf, runEnd. simpl in *. destruct (g_cancelled g) eqn:Ecn; [by right|]. left. simpl.
  assert (so_cancel op = Some i) as Hci by (apply (Hl i g Hi); split; [done|by rewrite Hp]).
  assert (so_err op = None) as Hne.
  { destruct (so_err op) as [e|]; [|done]. destruct (He e eq_refl). congruence. }
  rewrite Hci, Hne. destruct err as [e|]; [apply job_failure|apply job_success].
Qed.

(** C10. Refinement.  The record, its two mutexes and the goroutines, however they
    interleave, implement the one-job specification: every step of a reachable
    state is a step of the specification or invisible to it.  In particular a
    goroutine that was cancelled, and the goroutines that wait for the mutex or
    the channel, never show. *)
Theorem stage_refines_job s s' :
  reachable s → stager_step s s' → job_step (jobOf s) (jobOf s') ∨ jobOf s = jobOf s'.
Proof. intros Hr%reachable_inv [Hs|Hs]; [by apply jobOf_call|by apply jobOf_run]. Qed.

Module StageOpWitness.

(** Image B is staged, image C replaces it, B's command is killed, C runs and
    fails. *)
Definition oom : error := ErrString "exit status 1".
Definition s1 : stager := mkStager (acquire (st_op stager0) "B" 0).1 [mkGoroutine "B" Waiting false] false false.
Definition s2 : stager := mkStager (st_op s1) [mkGoroutine "B" Staging false] false false.
Definition s3 : stager :=
  mkStager (acquire (st_op s2) "C" 1).1 [mkGoroutine "B" Staging true; mkGoroutine "C" Waiting false] false false.
Definition s4 : stager :=
  mkStager (st_op s3) [mkGoroutine "B" (Returned None) true; mkGoroutine "C" Waiting false] false false.
Definition s5 : stager :=
  mkStager (st_op s3) [mkGoroutine "B" (Returned None) true; mkGoroutine "C" Staging false] false false.
Definition s6 : stager :=
  mkStager (runEnd (st_op s5) false (Some oom))
    [mkGoroutine "B" (Returned None) true; mkGoroutine "C" (Notifying (Some oom)) false] false false.
Definition s7 : stager :=
  mkStager (st_op s6)
    [mkGoroutine "B" (Returned None) true; mkGoroutine "C" (Returned (Some (Some oom))) false] true false.
Definition s8 : stager := mkStager (st_op s7) (st_runs s7) false true.

Lemma step34 : run_step s3 s4.
Proof. by apply (step_finish (st_op s3) (st_runs s3) _ _ 0 (mkGoroutine "B" Staging true) (Some oom)). Qed.

Lemma steps38 : run_step s4 s5 ∧ run_step s5 s6 ∧ run_step s6 s7 ∧ run_step s7 s8.
Proof.
  split_and!.
  - apply (step_enter (st_op s4) (st_runs s4) _ _ 1 (mkGoroutine "C" Waiting false)); [done..|].
    intros [|[|i]] g; [by intros [= <-]..|done].
  - by apply (step_finish (st_op s5) (st_runs s5) _ _ 1 (mkGoroutine "C" Staging false) (Some oom)).
  - by apply (step_send (st_op s6) (st_runs s6) _ 1 (mkGoroutine "C" (Notifying (Some oom)) false)).
  - apply step_receive.
Qed.

Lemma reach3 : reachable s3.
Proof.
  assert (reachable s1) as H1.
  { eapply reach_step; [apply reach_init|]. left. by apply (step_acquire (st_op stager0) [] _ _ "B" _ None). }
  assert (reachable s2) as H2.
  { eapply reach_step; [exact H1|]. right. apply (step_enter (st_op s1) (st_runs s1) _ _ 0 (mkGoroutine "B" Waiting false)); [done..|].
    intros [|i] g; [by intros [= <-]|done]. }
  eapply reach_step; [exact H2|]. left. by apply (step_acquire (st_op s2) [mkGoroutine "B" Staging false] _ _ "C" _ (Some 0)).
Qed.

Lemma run38 : rtc run_step s3 s8.
Proof. destruct steps38 as (? & ? & ? & ?). eapply rtc_l; [apply step34|]. do 4 (eapply rtc_l; [done|]). apply rtc_refl. Qed.

Lemma rest8 : at_rest s8.
Proof. split; [done|]. intros [|[|i]] g; [by intros [= <-]..|done]. Qed.

Lemma stage_in_flight_witness :
  isInFlight (st_op s3) "C" = true ∧ isInFlight (st_op s3) "B" = false ∧
  ∃ i g, st_runs s3 !! i = Some g ∧ live g ∧ g_image g = "C".
Proof.
  split; [reflexivity|]. split; [reflexivity|].
  apply (proj1 (stage_in_flight s3 "C" reach3 ltac:(discriminate))). reflexivity.
Defined.


Lemma stage_comes_to_rest_witness :
  isInFlight (st_op s3) "C" = true ∧
  ∃ s', rtc run_step s3 s' ∧ isInFlight (st_op s') "C" = false.
Proof.
  split; [reflexivity|]. destruct (stage_comes_to_rest s3 reach3) as (_ & _ & s' & H1 & _ & H2).
  exists s'. split; [exact H1|]. apply H2. discriminate.
Defined.

Lemma stage_wakes_reconciler_witness :
  isInFlight (st_op s3) "C" = true ∧ rtc run_step s3 s8 ∧ st_queued s8 = true ∧ isInFlight (st_op s8) "C" = false.
Proof.
  split; [reflexivity|]. split; [exact run38|].
  apply (stage_wakes_reconciler s3 s8 "C" reach3 ltac:(discriminate) eq_refl run38).
  intros s2. apply at_rest_final, rest8.
Defined.

Lemma stage_refines_job_witness :
  jobOf s3 = mkJob (Some "C") None 0 ∧ (job_step (jobOf s3) (jobOf s4) ∨ jobOf s3 = jobOf s4).
Proof. split; [reflexivity|]. apply (stage_refines_job s3 s4 reach3). right. exact step34. Defined.
End StageOpWitness.
