(* ===== verification/Bootc.v ===== *)
(** * Bootc: what the host's bootc reports and what it is asked to do

    The types of [internal/bootc/status.go], and the command lines of
    [internal/bootc/executor.go]. *)

From S2P Require Import Prelude Effects Types.

(** ** bootc status *)

Record ImageSignature : Set := mkImageSignature {
  OstreeRemote : option string;
  ContainerPolicy : option bool;
  Insecure : option bool
}.

Record ImageReference : Set := mkImageReference {
  ir_Image : string;
  Transport : string;
  Signature : option ImageSignature
}.

Record OstreeInfo : Set := mkOstreeInfo { Stateroot : string; Checksum : string; DeploySerial : Z }.

Record ComposefsInfo : Set := mkComposefsInfo {
  Verity : string;
  BootType : string;
  Bootloader : string;
  BootDigest : option string;
  MissingVerityAllowed : bool
}.

Record ImageStatus : Set := mkImageStatus {
  is_Image : ImageReference;
  is_Version : option string;
  is_Timestamp : option Z;
  is_ImageDigest : string;
  is_Architecture : string
}.

Record BootEntry : Set := mkBootEntry {
  be_Image : option ImageStatus;
  CachedUpdate : option ImageStatus;
  be_Incompatible : bool;
  Pinned : bool;
  be_SoftRebootCapable : bool;
  DownloadOnly : bool;
  Store : option string;
  Ostree : option OstreeInfo;
  Composefs : option ComposefsInfo
}.

Record FilesystemOverlay : Set := mkFilesystemOverlay { AccessMode : string; Persistence : string }.

Record StatusSpec : Set := mkStatusSpec { ss_Image : option ImageReference; BootOrder : string }.

Record StatusBody : Set := mkStatusBody {
  sb_Staged : option BootEntry;
  sb_Booted : option BootEntry;
  sb_Rollback : option BootEntry;
  OtherDeployments : list BootEntry;
  RollbackQueued : bool;
  sb_Type : option string;
  UsrOverlay : option FilesystemOverlay
}.

Record Status : Set := mkStatus {
  APIVersion : string;
  Kind : string;
  st_Spec : StatusSpec;
  st_Status : StatusBody
}.

#[export] Instance ImageSignature_eq_dec : EqDecision ImageSignature.
Proof. solve_decision. Defined.
#[export] Instance ImageReference_eq_dec : EqDecision ImageReference.
Proof. solve_decision. Defined.
#[export] Instance OstreeInfo_eq_dec : EqDecision OstreeInfo.
Proof. solve_decision. Defined.
#[export] Instance ComposefsInfo_eq_dec : EqDecision ComposefsInfo.
Proof. solve_decision. Defined.
#[export] Instance ImageStatus_eq_dec : EqDecision ImageStatus.
Proof. solve_decision. Defined.
#[export] Instance BootEntry_eq_dec : EqDecision BootEntry.
Proof. solve_decision. Defined.
#[export] Instance FilesystemOverlay_eq_dec : EqDecision FilesystemOverlay.
Proof. solve_decision. Defined.
#[export] Instance StatusSpec_eq_dec : EqDecision StatusSpec.
Proof. solve_decision. Defined.
#[export] Instance StatusBody_eq_dec : EqDecision StatusBody.
Proof. solve_decision. Defined.
#[export] Instance Status_eq_dec : EqDecision Status.
Proof. solve_decision. Defined.

(** ** Commands *)

(** [bootcStatusArgs], [bootcSwitchArgs], [bootcApplyUpdateArgs],
    [systemctlRebootArgs]. *)
Definition bootcStatusArgs : list string := ["bootc"; "status"; "--json"; "--format-version"; "1"].
Definition bootcSwitchArgs (image : string) : list string := ["bootc"; "switch"; image].
Definition bootcApplyUpdateArgs (softReboot : bool) : list string :=
  ["bootc"; "switch"; "--from-downloaded"; "--apply"] ++ (if softReboot then ["--soft-reboot=auto"] else []).
Definition systemctlRebootArgs : list string := ["systemctl"; "reboot"].

(** [nsenterCmd]: the argument vector of the command. *)
Definition nsenterCmd (args : list string) : list string :=
  "nsenter" :: ["--target"; "1"; "--mount"; "--pid"; "--cgroup"; "--setuid"; "0"; "--setgid"; "0"; "--env"; "--"] ++ args.

Definition stageUnitName : string := "bootc-operator-switch.service".
