(* ===== verification/Daemon.v ===== *)
(** * Daemon: the per-node reconciler

    [internal/daemon/reconciler.go]: [BootcNodeReconciler.Reconcile] and the
    functions it calls.  Its requests are the API server, the clock, the status
    watcher, the staging operation (the methods of [StageOp], each atomic, with
    goroutines stepping in between), the file system of the host and the reboot
    commands. *)

From S2P Require Import Prelude Effects Types Library LibModel Image StageOp Bootc.

Inductive dreq : Set :=
| DNow
(* API server: the cached client, and the direct reader for secrets *)
| DGetBootcNode (name : string)
| DPatchStatus (base new : BootcNode)
| DGetSecret (namespace name : string)
(* StatusWatcher.GetStatus *)
| DGetStatus
(* stageOp; [DAcquire] also starts the goroutine *)
| DTakeErr
| DBackoff
| DIsInFlight (image : string)
| DAcquire (image : string)
| DReset
(* os: paths are the elements given to filepath.Join, a temporary file is its name *)
| DMkdirAll (dir : list string)
| DCreateTemp (dir : list string) (pattern : string)
| DWrite (file data : string)
| DClose (file : string)
| DRename (file : string) (target : list string)
| DRemove (file : string)
(* Executor *)
| DReboot
| DApplyUpdate (softReboot : bool).

Definition dresp (r : dreq) : Set :=
  match r with
  | DNow => Z
  | DGetBootcNode _ => result BootcNode
  | DPatchStatus _ _ => result BootcNode
  | DGetSecret _ _ => result Secret
  | DGetStatus => result Status
  | DTakeErr => option error
  | DBackoff => result Z
  | DIsInFlight _ => bool
  | DAcquire _ => unit
  | DReset => unit
  | DMkdirAll _ => result unit
  | DCreateTemp _ _ => result string
  | DWrite _ _ => result unit
  | DClose _ => result unit
  | DRename _ _ => result unit
  | DRemove _ => result unit
  | DReboot => result unit
  | DApplyUpdate _ => result unit
  end.

Abbreviation dgo := (go dresp).
Abbreviation dhistory := (trace dresp).

(** The fields of [BootcNodeReconciler] that are plain values. *)
Class DConfig : Type := { NodeName : string; HostRoot : string }.

(** What a pass works on: the local BootcNode and the reconciler's flag. *)
Record DState : Set := mkDState { ds_bn : BootcNode; rebootIssued : bool }.

Definition setBn (b : BootcNode) (s : DState) : DState := mkDState b (rebootIssued s).
Definition setIssued (b : bool) (s : DState) : DState := mkDState (ds_bn s) b.

(** [reconcileResult]; the requeue delay stands for [ctrl.Result]. *)
Record reconcileResult : Set := mkReconcileResult {
  rr_requeue : Z;
  degradedMsg : string;
  needsReboot : bool;
  softReboot : bool
}.

Definition result0 : reconcileResult := mkReconcileResult 0 "" false false.
Definition degradedResult (msg : string) : reconcileResult := mkReconcileResult 0 msg false false.

(** [updateAction]. *)
Inductive updateAction : Set := actionStage | actionAwaitStage | actionAwaitBooted | actionReboot.

(** [convertBootEntry]. *)
Definition convertBootEntry (entry : option BootEntry) : option ImageInfo :=
  match entry with
  | None => None
  | Some e =>
      match be_Image e with
      | None => None
      | Some img =>
          Some (mkImageInfo (ir_Image (is_Image img)) (is_ImageDigest img)
                  (match is_Version img with Some v => v | None => "" end)
                  (is_Timestamp img) (is_Architecture img) (be_SoftRebootCapable e) (be_Incompatible e))
      end
  end.

Section Daemon.
Context {L : Lib} {D : DConfig}.
Local Open Scope go_scope.

Definition dcallE {S : Type} {A : Set} (r : dreq) (f : dresp r → result A) : dgo S A :=
  gbind (call r) (λ x, lift (f x)).

(** [apimeta.SetStatusCondition] on the local BootcNode. *)
Definition setCondition (type status reason message : string) : dgo DState unit :=
  now <- call DNow ;;
  modify (λ s,
    let bn := ds_bn s in
    setBn (setBNConditions
             (SetStatusCondition now (bns_Conditions (bn_status bn))
                (mkCondition type status reason message None (om_generation (bn_meta bn)))) bn) s).

(** [populateBootcFields]. *)
Definition populateBootcFields : dgo DState unit :=
  status <- wrapf "getting bootc status" (dcallE DGetStatus id) ;;
  let body := st_Status status in
  modify (λ s,
    let bn := ds_bn s in
    let st := bn_status bn in
    setBn (setBNStatus (mkBootcNodeStatus (bns_ObservedGeneration st)
             (convertBootEntry (sb_Booted body)) (convertBootEntry (sb_Staged body))
             (convertBootEntry (sb_Rollback body)) (bns_Conditions st)) bn) s).

(** [classifyAction]. *)
Definition classifyAction (bn : BootcNode) (desiredDigest desiredImage : string) : dgo DState updateAction :=
  if negb (InfoMatchesDigest (Staged (bn_status bn)) desiredDigest) then
    inflight <- call (DIsInFlight desiredImage) ;;
    ret (if (inflight : bool) then actionAwaitStage else actionStage)
  else if negb (DesiredImageState (bn_spec bn) =s DesiredImageStateBooted) then ret actionAwaitBooted
  else ret actionReboot.

(** The directory of the auth file, as elements of a path. *)
Definition authDir : list string :=
  [if HostRoot =s "" then "/proc/1/root" else HostRoot; "run"; "ostree"].

(** [writeAuthFile]. *)
Definition writeAuthFile (data : string) : dgo DState unit :=
  wrapf "creating auth dir" (dcallE (DMkdirAll authDir) id) ;;;
  tmp <- wrapf "creating temp file" (dcallE (DCreateTemp authDir ".auth-*.json") id) ;;
  w <- call (DWrite tmp data) ;;
  match w with
  | Err e => _ <- call (DClose tmp) ;; _ <- call (DRemove tmp) ;; throw (ErrWrap "writing auth data" e)
  | Ok _ =>
      c <- call (DClose tmp) ;;
      match c with
      | Err e => _ <- call (DRemove tmp) ;; throw (ErrWrap "closing temp file" e)
      | Ok _ =>
          r <- call (DRename tmp (authDir ++ ["auth.json"])) ;;
          match r with
          | Err e => _ <- call (DRemove tmp) ;; throw (ErrWrap "renaming auth file" e)
          | Ok _ => ret tt
          end
      end
  end.

(** [syncPullSecret]: failures are logged only. *)
Definition syncPullSecret (bn : BootcNode) : dgo DState unit :=
  match bns_PullSecretRef (bn_spec bn) with
  | None => ret tt
  | Some ref =>
      r <- call (DGetSecret (psr_namespace ref) (psr_name ref)) ;;
      match r with
      | Err _ => ret tt
      | Ok secret =>
          match GoMap.lookup (secret_data secret) DockerConfigJsonKey with
          | None => ret tt
          | Some data => _ <- try (writeAuthFile data) ;; ret tt
          end
      end
  end.

(** What [reconcileBootcNode] does once the action is known. *)
Definition act (action : updateAction) (desiredImage : string) : dgo DState reconcileResult :=
  bn <- gets ds_bn ;;
  let soft := bns_RebootPolicy (bn_spec bn) =s RebootPolicyAllowSoftReboot in
  match action with
  | actionStage =>
      _ <- call (DAcquire desiredImage) ;;
      setCondition NodeIdle ConditionFalse NodeReasonStaging "" ;;; ret result0
  | actionAwaitStage => setCondition NodeIdle ConditionFalse NodeReasonStaging "" ;;; ret result0
  | actionReboot =>
      setCondition NodeIdle ConditionFalse NodeReasonRebooting "" ;;; ret (mkReconcileResult 0 "" true soft)
  | actionAwaitBooted => setCondition NodeIdle ConditionFalse NodeReasonStaged "" ;;; ret result0
  end.

(** [reconcileBootcNode]: the result, and the error for the caller to return. *)
Definition reconcileBootcNode : dgo DState (reconcileResult * option error) :=
  p <- try populateBootcFields ;;
  match p with
  | Err e =>
      let degradedErr := ErrWrap "populating bootc fields" e in
      ret (degradedResult (Error degradedErr), Some degradedErr)
  | Ok _ =>
      bn <- gets ds_bn ;;
      match Booted (bn_status bn) with
      | None =>
          let degradedErr := ErrString "bootc status has no booted entry" in
          ret (degradedResult (Error degradedErr), Some degradedErr)
      | Some _ =>
          let desired := DesiredImage (bn_spec bn) in
          match ParseNamed desired with
          | Err e => ret (degradedResult ("invalid image ref " +:+ quoted desired +:+ ": " +:+ Error e), None)
          | Ok desiredRef =>
              match named_digest desiredRef with
              | None => ret (degradedResult ("image ref " +:+ quoted desired +:+ " has no digest"), None)
              | Some digest =>
                  if InfoMatchesDigest (Booted (bn_status bn)) digest then
                    _ <- call DReset ;; ret (result0, None)
                  else
                    stageErr <- call DTakeErr ;;
                    match stageErr with
                    | Some e =>
                        delay <- dcallE DBackoff id ;;
                        ret (mkReconcileResult delay ("bootc stage failed: " +:+ Error e) false false, None)
                    | None =>
                        syncPullSecret bn ;;;
                        action <- classifyAction bn digest (named_String desiredRef) ;;
                        res <- act action (named_String desiredRef) ;;
                        ret (res, None)
                    end
              end
          end
      end
  end.

(** The reboot at the end of [Reconcile]. *)
Definition rebootIfNeeded (res : reconcileResult) : dgo DState unit :=
  if needsReboot res then
    (if softReboot res
     then wrapf "apply with soft reboot" (dcallE (DApplyUpdate true) id)
     else wrapf "reboot" (dcallE DReboot id)) ;;;
    modify (setIssued true)
  else ret tt.

(** [Reconcile] on the fetched BootcNode. *)
Definition reconcileFetched (orig : BootcNode) : dgo DState Z :=
  modify (setBn (let st := bn_status orig in
    setBNStatus (mkBootcNodeStatus (om_generation (bn_meta orig)) (Booted st) (Staged st) (Rollback st)
                   (bns_Conditions st)) orig)) ;;;
  setCondition NodeIdle ConditionTrue NodeReasonIdle "" ;;;
  rr <- reconcileBootcNode ;;
  let '(res, reconcileErr) := rr in
  (if negb (degradedMsg res =s "")
   then setCondition NodeDegraded ConditionTrue NodeReasonError (degradedMsg res)
   else setCondition NodeDegraded ConditionFalse NodeReasonHealthy "") ;;;
  bn <- gets ds_bn ;;
  (if bool_decide (bn_status bn = bn_status orig) then ret tt
   else
     got <- wrapf "patching BootcNode status" (dcallE (DPatchStatus orig bn) id) ;;
     modify (setBn got)) ;;;
  rebootIfNeeded res ;;;
  match reconcileErr with
  | Some e => throw e
  | None => ret (rr_requeue res)
  end.

(** [Reconcile]; the result is [RequeueAfter]. *)
Definition DReconcile (reqName : string) : dgo DState Z :=
  issued <- gets rebootIssued ;;
  if negb (reqName =s NodeName) then ret 0%Z
  else if (issued : bool) then ret 0%Z
  else
    r <- call (DGetBootcNode reqName) ;;
    match r with
    | Err e => if IsNotFound e then ret 0%Z else throw (ErrWrap "fetching BootcNode" e)
    | Ok bn => reconcileFetched bn
    end.
End Daemon.
