(* ===== verification/DaemonSafety.v ===== *)
(** * DaemonSafety: what a daemon pass does, and when

    The protocol of [DReconcile] (when it stages, reboots, writes), and the
    agreement between the status it reports and the state in which the pool
    controller's [classifyNode] places the node. *)

From S2P Require Import Prelude Effects Types Library LibModel Client Samples Image Karpenter Classify StageOp Bootc Daemon.

Section Steps.
Context {L : Lib} {HL : LibLaws L} {D : DConfig}.
Implicit Types (h t : dhistory) (s : DState) (bn : BootcNode).

Lemma wpg_dcallE {S : Type} {A : Set} (r : dreq) (f : dresp r → result A) (s : S) h Φ :
  (∀ x, Φ (h ++ [Ev r x]) s (f x)) → wpg (dcallE r f) s h Φ.
Proof. intros H. unfold dcallE. go_step. go_step. go_step. apply H. Qed.

(** The local copy differs from the fetched BootcNode in its status only. *)
Definition restatus bn bn' : Prop := bn_meta bn' = bn_meta bn ∧ bn_spec bn' = bn_spec bn.

#[global] Instance restatus_preorder : PreOrder restatus.
Proof. split; [done|]. intros b1 b2 b3 [H1 H2] [H3 H4]. split; congruence. Qed.

(** Status, reason of a condition. *)
Definition shows bn (type status reason : string) : Prop :=
  ∃ c, FindStatusCondition (bns_Conditions (bn_status bn)) type = Some c ∧
       c_status c = status ∧ c_reason c = reason.

(** Equal up to the conditions. *)
Definition same_images bn bn' : Prop :=
  restatus bn bn' ∧ Booted (bn_status bn') = Booted (bn_status bn) ∧
  Staged (bn_status bn') = Staged (bn_status bn).

#[global] Instance same_images_preorder : PreOrder same_images.
Proof.
  split; [done|]. intros b1 b2 b3 (H1 & ? & ?) (H2 & ? & ?). split_and!; [by etransitivity|congruence..].
Qed.

Lemma wpg_setCondition type status reason message s h (Φ : dhistory → DState → result unit → Prop) :
  (∀ x bn', same_images (ds_bn s) bn' → shows bn' type status reason →
     (∀ ty st r, ty ≠ type → shows (ds_bn s) ty st r → shows bn' ty st r) →
     Φ (h ++ [Ev DNow x]) (setBn bn' s) (Ok tt)) →
  wpg (setCondition type status reason message) s h Φ.
Proof.
  intros H. unfold setCondition. go_step. go_step. go_step. apply H.
  - done.
  - unfold shows. simpl. eexists. split; [apply find_set_eq|]. split; done.
  - intros t st r Hne (c & Hc & ?). exists c. simpl. by rewrite find_set_ne.
Qed.

(** ** The protocol *)

(** The pass read the BootcNode, which asks for the digest [d]. *)
Definition daemon_read h bn : Prop := Ev (DGetBootcNode NodeName) (Ok bn) ∈ h.
Definition wants bn (ref : Named) (d : string) : Prop :=
  ParseNamed (DesiredImage (bn_spec bn)) = Ok ref ∧ named_digest ref = Some d.
Definition hostStatus h (st : Status) : Prop := Ev DGetStatus (Ok st) ∈ h.

Definition bootedInfo (st : Status) : option ImageInfo := convertBootEntry (sb_Booted (st_Status st)).
Definition stagedInfo (st : Status) : option ImageInfo := convertBootEntry (sb_Staged (st_Status st)).

(** The pull secret's data was read in this pass. *)
Definition secretRead h (data : string) : Prop :=
  ∃ ns n secret, Ev (DGetSecret ns n) (Ok secret) ∈ h ∧
    GoMap.lookup (secret_data secret) DockerConfigJsonKey = Some data.

(** Everything that justifies a reboot. *)
Definition reboot_due h bn (soft : bool) : Prop :=
  daemon_read h bn ∧ DesiredImageState (bn_spec bn) = DesiredImageStateBooted ∧
  soft = (bns_RebootPolicy (bn_spec bn) =s RebootPolicyAllowSoftReboot) ∧
  (∃ ref d st, wants bn ref d ∧ hostStatus h st ∧
     InfoMatchesDigest (bootedInfo st) d = false ∧ InfoMatchesDigest (stagedInfo st) d = true) ∧
  (∃ new, shows new NodeIdle ConditionFalse NodeReasonRebooting ∧
     ((∃ got, Ev (DPatchStatus bn new) (Ok got) ∈ h) ∨ bn_status new = bn_status bn)).

Definition daemon_allowed h (r : dreq) : Prop :=
  match r with
  | DGetBootcNode n => n = NodeName
  | DReboot => ∃ bn, reboot_due h bn false
  | DApplyUpdate soft => soft = true ∧ ∃ bn, reboot_due h bn true
  | DAcquire image =>
      Ev (DIsInFlight image) false ∈ h ∧ Ev DTakeErr None ∈ h ∧
      ∃ bn ref d st, daemon_read h bn ∧ wants bn ref d ∧ image = named_String ref ∧ hostStatus h st ∧
        InfoMatchesDigest (bootedInfo st) d = false ∧ InfoMatchesDigest (stagedInfo st) d = false
  | DPatchStatus base new => daemon_read h base ∧ restatus base new ∧ bn_status new ≠ bn_status base
  | DGetSecret ns n =>
      ∃ bn, daemon_read h bn ∧ bns_PullSecretRef (bn_spec bn) = Some (mkPullSecretRef n ns)
  | DMkdirAll dir => dir = authDir
  | DCreateTemp dir _ => dir = authDir
  | DWrite tmp data => secretRead h data ∧ ∃ p, Ev (DCreateTemp authDir p) (Ok tmp) ∈ h
  | DRename tmp target =>
      target = authDir ++ ["auth.json"] ∧
      ∃ data, secretRead h data ∧ Ev (DWrite tmp data) (Ok tt) ∈ h ∧ Ev (DClose tmp) (Ok tt) ∈ h
  | _ => True
  end.

(** The part of the pass before its conclusion neither writes nor reboots. *)
Definition prep_allowed h (r : dreq) : Prop :=
  match r with
  | DReboot | DApplyUpdate _ | DPatchStatus _ _ => False
  | _ => daemon_allowed h r
  end.

Abbreviation dsafe := (guarded prep_allowed).

Lemma secretRead_app h t data : secretRead h data → secretRead (h ++ t) data.
Proof. intros (ns & n & sec & ? & ?). exists ns, n, sec. set_solver. Qed.

(** [writeAuthFile] replaces the auth file by a rename of a complete file, or not
    at all. *)
Lemma wpg_writeAuthFile data s h (Φ : dhistory → DState → result unit → Prop) :
  dsafe h → secretRead h data →
  (∀ t r, dsafe (h ++ t) → Φ (h ++ t) s r) →
  wpg (writeAuthFile data) s h Φ.
Proof.
  intros Hs Hd H. unfold writeAuthFile.
  assert (∀ h', dsafe h' → (∃ t, h' = h ++ t) → ∀ r, Φ h' s r) as HΦ by (intros h' Hh' [t ->] r; by apply H).
  assert (∀ (h' : dhistory) e, (∃ t, h' = h ++ t) → ∃ t, h' ++ [e] = h ++ t) as Hpre.
  { intros h' e [t ->]. exists (t ++ [e]). by rewrite app_assoc. }
  assert (∀ h', (∃ t, h' = h ++ t) → secretRead h' data) as Hsr.
  { intros h' [t ->]. by apply secretRead_app. }
  go_step. go_step. apply wpg_dcallE. intros x. set (h1 := h ++ [_]).
  assert (dsafe h1) as H1 by (by apply guarded_snoc). assert (∃ t, h1 = h ++ t) as P1 by (by eexists).
  destruct x as [[]|e]; cbv [id]; [|by apply HΦ].
  go_step. go_step. apply wpg_dcallE. intros x. set (h2 := h1 ++ [_]).
  assert (dsafe h2) as H2 by (by apply guarded_snoc). assert (∃ t, h2 = h ++ t) as P2 by (by apply Hpre).
  destruct x as [tmp|e]; cbv [id]; [|by apply HΦ].
  go_step. apply (wpg_call (resp := dresp) (DWrite tmp data)). intros w. set (h3 := h2 ++ [_]).
  assert (dsafe h3) as H3.
  { apply guarded_snoc; [done|]. split; [by apply Hsr|]. exists ".auth-*.json". unfold h2. set_solver. }
  assert (∃ t, h3 = h ++ t) as P3 by (by apply Hpre).
  destruct w as [[]|e].
  2:{ do 4 go_step. go_step. apply HΦ; [|by do 2 apply Hpre]. by do 2 (apply guarded_snoc; [|done]). }
  go_step. apply (wpg_call (resp := dresp) (DClose tmp)). intros c. set (h4 := h3 ++ [_]).
  assert (dsafe h4) as H4 by (by apply guarded_snoc). assert (∃ t, h4 = h ++ t) as P4 by (by apply Hpre).
  destruct c as [[]|e].
  2:{ do 3 go_step. apply HΦ; [|by apply Hpre]. by apply guarded_snoc. }
  go_step. apply (wpg_call (resp := dresp) (DRename tmp _)). intros r. set (h5 := h4 ++ [_]).
  assert (dsafe h5) as H5.
  { apply guarded_snoc; [done|]. split; [done|]. exists data. split_and!; [by apply Hsr|unfold h4, h3; set_solver..]. }
  assert (∃ t, h5 = h ++ t) as P5 by (by apply Hpre).
  destruct r as [[]|e]; [go_step; by apply HΦ|].
  do 3 go_step. apply HΦ; [|by apply Hpre]. by apply guarded_snoc.
Qed.

Lemma wpg_syncPullSecret bn s h (Φ : dhistory → DState → result unit → Prop) :
  dsafe h → (∃ base, daemon_read h base ∧ bn_spec bn = bn_spec base) →
  (∀ t, dsafe (h ++ t) → Φ (h ++ t) s (Ok tt)) →
  wpg (syncPullSecret bn) s h Φ.
Proof.
  intros Hs (base & Hr & Hsp) H. unfold syncPullSecret. rewrite Hsp.
  destruct (bns_PullSecretRef (bn_spec base)) as [ref|] eqn:Er.
  2:{ go_step. rewrite <- (app_nil_r h). apply H. by rewrite app_nil_r. }
  go_step. apply (wpg_call (resp := dresp) (DGetSecret _ _)). intros x. set (t1 := [_]).
  assert (dsafe (h ++ t1)) as H1.
  { apply guarded_snoc; [done|]. exists base. split; [done|]. rewrite Er. by destruct ref. }
  destruct x as [secret|e]; [|go_step; by apply H].
  destruct (GoMap.lookup _ _) as [data|] eqn:Ed; [|go_step; by apply H].
  go_step. go_step. apply wpg_writeAuthFile; [done| |].
  - exists (psr_namespace ref), (psr_name ref), secret. split; [unfold t1; set_solver|done].
  - intros t r Ht. go_step. rewrite <- app_assoc in *. by apply H.
Qed.

(** ** One pass over the fetched BootcNode *)

(** The state the node is in, from the host's status. *)
Definition report bn (st : Status) (d : string) : nodeState :=
  if InfoMatchesDigest (bootedInfo st) d then nodeStateUpToDate
  else if negb (InfoMatchesDigest (stagedInfo st) d) then nodeStateStaging
  else if DesiredImageState (bn_spec bn) =s DesiredImageStateBooted then nodeStateRebooting
  else nodeStateStaged.

(** The Idle condition that goes with it. *)
Definition idleOf (st : nodeState) : string * string :=
  match st with
  | nodeStateStaging => (ConditionFalse, NodeReasonStaging)
  | nodeStateStaged => (ConditionFalse, NodeReasonStaged)
  | nodeStateRebooting => (ConditionFalse, NodeReasonRebooting)
  | _ => (ConditionTrue, NodeReasonIdle)
  end.

(** Why a pass may report the node as Degraded. *)
Definition trouble h bn : Prop :=
  (∃ e, Ev DGetStatus (Err e) ∈ h) ∨ (∃ st, hostStatus h st ∧ bootedInfo st = None) ∨
  (∀ ref d, ¬ wants bn ref d) ∨ (∃ e, Ev DTakeErr (Some e) ∈ h).

(** The outcome of [reconcileBootcNode] for the BootcNode [base]: trouble, or the
    report. *)
Definition outcome (base : BootcNode) h s (res : reconcileResult) (err : option error) : Prop :=
  restatus base (ds_bn s) ∧
  ((degradedMsg res ≠ "" ∧ needsReboot res = false ∧ trouble h base) ∨
   (∃ ref d st, wants base ref d ∧ hostStatus h st ∧ degradedMsg res = "" ∧ err = None ∧
      is_Some (bootedInfo st) ∧ Booted (bn_status (ds_bn s)) = bootedInfo st ∧
      Staged (bn_status (ds_bn s)) = stagedInfo st ∧
      needsReboot res = bool_decide (report base st d = nodeStateRebooting) ∧
      softReboot res = needsReboot res && (bns_RebootPolicy (bn_spec base) =s RebootPolicyAllowSoftReboot) ∧
      shows (ds_bn s) NodeIdle (idleOf (report base st d)).1 (idleOf (report base st d)).2)).

Lemma wpg_act base ref d st action h s (Φ : dhistory → DState → result reconcileResult → Prop) :
  dsafe h → daemon_read h base → wants base ref d → hostStatus h st → Ev DTakeErr None ∈ h →
  restatus base (ds_bn s) → is_Some (bootedInfo st) → Booted (bn_status (ds_bn s)) = bootedInfo st →
  Staged (bn_status (ds_bn s)) = stagedInfo st → InfoMatchesDigest (bootedInfo st) d = false →
  match action with
  | actionStage => InfoMatchesDigest (stagedInfo st) d = false ∧ Ev (DIsInFlight (named_String ref)) false ∈ h
  | actionAwaitStage => InfoMatchesDigest (stagedInfo st) d = false
  | actionAwaitBooted => report base st d = nodeStateStaged
  | actionReboot => report base st d = nodeStateRebooting
  end →
  (∀ t s' res, dsafe (h ++ t) → rebootIssued s' = rebootIssued s → outcome base (h ++ t) s' res None →
     Φ (h ++ t) s' (Ok res)) →
  wpg (act action (named_String ref)) s h Φ.
Proof.
  intros Hs Hrd Hw Hst Hte Hre Hbs Hbo Hsg Hnb Hact H.
  assert (∀ t bn' res, dsafe (h ++ t) → same_images (ds_bn s) bn' → degradedMsg res = "" →
    shows bn' NodeIdle (idleOf (report base st d)).1 (idleOf (report base st d)).2 →
    needsReboot res = bool_decide (report base st d = nodeStateRebooting) →
    softReboot res = needsReboot res && (bns_RebootPolicy (bn_spec base) =s RebootPolicyAllowSoftReboot) →
    Φ (h ++ t) (setBn bn' s) (Ok res)) as Hdone.
  { intros t bn' res Hsafe (Hrs & Hb & Hsd) Hmsg Hsh Hn Hsoft. apply H; [done|done|]. split; [by etransitivity|].
    right. exists ref, d, st. split_and!; try done; [unfold hostStatus in *; set_solver|simpl; congruence|simpl; congruence]. }
  assert (InfoMatchesDigest (stagedInfo st) d = false → report base st d = nodeStateStaging) as Hrep.
  { intros E. unfold report. by rewrite Hnb, E. }
  unfold act. go_step. go_step. destruct action.
  - destruct Hact as [Hns Hif]. rewrite (Hrep Hns) in Hdone. go_step.
    apply (wpg_call (resp := dresp) (DAcquire _)). intros []. go_step. apply wpg_setCondition.
    intros x bn' Hsi Hsh _. go_step. rewrite <- app_assoc. apply Hdone; try done.
    rewrite app_assoc. apply guarded_snoc; [|done]. apply guarded_snoc; [done|].
    split_and!; [done|done|]. by exists base, ref, d, st.
  - rewrite (Hrep Hact) in Hdone. go_step. apply wpg_setCondition. intros x bn' Hsi Hsh _. go_step.
    apply Hdone; try done. by apply guarded_snoc.
  - rewrite Hact in Hdone. go_step. apply wpg_setCondition. intros x bn' Hsi Hsh _. go_step.
    apply Hdone; try done. by apply guarded_snoc.
  - rewrite Hact in Hdone. go_step. apply wpg_setCondition. intros x bn' Hsi Hsh _. go_step.
    apply Hdone; try done; [by apply guarded_snoc|]. simpl. by rewrite (proj2 Hre).
Qed.

(** Ending in trouble. *)
Lemma outcome_trouble base h s res err :
  restatus base (ds_bn s) → degradedMsg res ≠ "" → needsReboot res = false → trouble h base →
  outcome base h s res err.
Proof. intros. split; [done|]. by left. Qed.

Lemma app_nonempty (a : Ascii.ascii) (x y : string) : String a x +:+ y ≠ "".
Proof. done. Qed.

(** Once no failure is pending: the action, and what it reports. *)
Lemma wpg_decide base ref d st s h
    (Φ : dhistory → DState → result (reconcileResult * option error) → Prop) :
  dsafe h → daemon_read h base → wants base ref d → hostStatus h st → Ev DTakeErr None ∈ h →
  restatus base (ds_bn s) → is_Some (bootedInfo st) → Booted (bn_status (ds_bn s)) = bootedInfo st →
  Staged (bn_status (ds_bn s)) = stagedInfo st → shows (ds_bn s) NodeIdle ConditionTrue NodeReasonIdle →
  InfoMatchesDigest (bootedInfo st) d = false →
  (∀ t s' r, dsafe (h ++ t) → rebootIssued s' = rebootIssued s →
     (∀ rr, r = Ok rr → outcome base (h ++ t) s' rr.1 rr.2) → Φ (h ++ t) s' r) →
  wpg (action <- classifyAction (ds_bn s) d (named_String ref) ;;
       res <- act action (named_String ref) ;;
       ret (res, None))%go s h Φ.
Proof.
  intros Hs Hrd Hw Hst Hte Hre Hbs Hbo Hsg Hidle Em H. go_step.
  assert (∀ t action, dsafe (h ++ t) →
    match action with
    | actionStage => InfoMatchesDigest (stagedInfo st) d = false ∧ Ev (DIsInFlight (named_String ref)) false ∈ h ++ t
    | actionAwaitStage => InfoMatchesDigest (stagedInfo st) d = false
    | actionAwaitBooted => report base st d = nodeStateStaged
    | actionReboot => report base st d = nodeStateRebooting
    end →
    wpg (res <- act action (named_String ref) ;; ret (res, None))%go s (h ++ t) Φ) as Hact.
  { intros t action Hsafe Ha. go_step. eapply wpg_act; try exact Ha; try done.
    - unfold daemon_read in *. set_solver.
    - unfold hostStatus in *. set_solver.
    - set_solver.
    - intros t3 s' res H3 Hi Ho. go_step. rewrite <- !app_assoc in *.
      apply H; [done|done|]. by intros rr [= <-]. }
  unfold classifyAction. rewrite Hsg, (proj2 Hre).
  destruct (InfoMatchesDigest (stagedInfo st) d) eqn:Es; cbn [negb].
  - specialize (Hact []). rewrite app_nil_r in Hact.
    destruct (DesiredImageState (bn_spec base) =s DesiredImageStateBooted) eqn:Ed; cbn [negb]; go_step; apply Hact;
      try done; unfold report; by rewrite Em, Es, Ed.
  - go_step. apply (wpg_call (resp := dresp) (DIsInFlight _)). intros b. go_step.
    assert (dsafe (h ++ [Ev (DIsInFlight (named_String ref)) b])) as H3 by (by apply guarded_snoc).
    apply Hact; [done|]. destruct b; [done|]. split; [done|set_solver].
Qed.

(** [reconcileBootcNode] once the desired reference is parsed. *)
Lemma wpg_pursue base ref d st s h
    (Φ : dhistory → DState → result (reconcileResult * option error) → Prop) :
  dsafe h → daemon_read h base → wants base ref d → hostStatus h st →
  restatus base (ds_bn s) → is_Some (bootedInfo st) → Booted (bn_status (ds_bn s)) = bootedInfo st →
  Staged (bn_status (ds_bn s)) = stagedInfo st → shows (ds_bn s) NodeIdle ConditionTrue NodeReasonIdle →
  (∀ t s' r, dsafe (h ++ t) → rebootIssued s' = rebootIssued s →
     (∀ rr, r = Ok rr → outcome base (h ++ t) s' rr.1 rr.2) → Φ (h ++ t) s' r) →
  wpg (if InfoMatchesDigest (Booted (bn_status (ds_bn s))) d then
         _ <- call DReset ;; ret (result0, None)
       else
         stageErr <- call DTakeErr ;;
         match stageErr with
         | Some e =>
             delay <- dcallE DBackoff id ;;
             ret (mkReconcileResult delay ("bootc stage failed: " +:+ Error e) false false, None)
         | None =>
             syncPullSecret (ds_bn s) ;;;
             action <- classifyAction (ds_bn s) d (named_String ref) ;;
             res <- act action (named_String ref) ;;
             ret (res, None)
         end)%go s h Φ.
Proof.
  intros Hs Hrd Hw Hst Hre Hbs Hbo Hsg Hidle H. rewrite Hbo.
  destruct (InfoMatchesDigest (bootedInfo st) d) eqn:Em.
  - go_step. apply (wpg_call (resp := dresp) DReset). intros []. go_step. apply H; [by apply guarded_snoc|done|].
    intros rr [= <-]. split; [done|]. right. exists ref, d, st. unfold report. rewrite Em.
    split_and!; try done. unfold hostStatus in *. set_solver.
  - go_step. apply (wpg_call (resp := dresp) DTakeErr). intros [e|]; set (h1 := h ++ [_]);
      (assert (dsafe h1) as H1 by (by apply guarded_snoc)).
    + go_step. apply wpg_dcallE. intros x. unfold h1. rewrite <- app_assoc.
      assert (dsafe (h ++ [Ev DTakeErr (Some e)] ++ [Ev DBackoff x])) as H2.
      { rewrite app_assoc. by apply guarded_snoc. }
      destruct x as [delay|e']; cbv [id]; [go_step|by apply H].
      apply H; [done|done|]. intros rr [= <-]. apply outcome_trouble; [done|done|done|].
      right. right. right. exists e. set_solver.
    + go_step. apply wpg_syncPullSecret; [done| |].
      { exists base. split; [unfold daemon_read, h1 in *; set_solver|apply Hre]. }
      intros t2 H2.
      assert (daemon_read (h1 ++ t2) base ∧ hostStatus (h1 ++ t2) st ∧ Ev DTakeErr None ∈ h1 ++ t2)
        as (Hrd2 & Hst2 & Hte2) by (unfold daemon_read, hostStatus, h1 in *; set_solver).
      apply (wpg_decide base ref d st); try done.
      intros t3 s' r H3 Hi Ho. unfold h1 in *. rewrite <- !app_assoc in *. by apply H.
Qed.

Lemma wpg_reconcileBootcNode base s h
    (Φ : dhistory → DState → result (reconcileResult * option error) → Prop) :
  dsafe h → daemon_read h base → restatus base (ds_bn s) →
  shows (ds_bn s) NodeIdle ConditionTrue NodeReasonIdle →
  (∀ t s' r, dsafe (h ++ t) → rebootIssued s' = rebootIssued s →
     (∀ rr, r = Ok rr → outcome base (h ++ t) s' rr.1 rr.2) → Φ (h ++ t) s' r) →
  wpg reconcileBootcNode s h Φ.
Proof.
  intros Hs Hrd Hre Hidle H. unfold reconcileBootcNode, populateBootcFields.
  go_step. go_step. go_step. go_step. apply wpg_dcallE. intros x. set (h1 := h ++ [_]).
  assert (dsafe h1) as H1 by (by apply guarded_snoc).
  assert (∀ s' res err, restatus base (ds_bn s') → rebootIssued s' = rebootIssued s →
    degradedMsg res ≠ "" → needsReboot res = false → trouble h1 base → Φ h1 s' (Ok (res, err))) as Hbad.
  { intros s' res err Hr Hi Hm Hn Ht. apply H; [done|done|]. intros rr [= <-]. by apply outcome_trouble. }
  destruct x as [st|e]; cbv [id].
  2:{ go_step. apply Hbad; try done. left. exists e. unfold h1. set_solver. }
  assert (hostStatus h1 st) as Hst by (unfold hostStatus, h1; set_solver).
  go_step. set (s1 := setBn _ s). go_step. go_step.
  assert (restatus base (ds_bn s1)) as Hre1 by done.
  assert (Booted (bn_status (ds_bn s1)) = bootedInfo st) as Hbo by done.
  assert (shows (ds_bn s1) NodeIdle ConditionTrue NodeReasonIdle) as Hidle1 by exact Hidle.
  assert (Staged (bn_status (ds_bn s1)) = stagedInfo st) as Hsg by done.
  destruct (Booted (bn_status (ds_bn s1))) as [i|] eqn:Eb.
  2:{ go_step. apply Hbad; try done. right. left. by exists st. }
  rewrite (proj2 Hre1). destruct (ParseNamed (DesiredImage (bn_spec base))) as [ref|e] eqn:Ep.
  2:{ go_step. apply Hbad; try done. right. right. left. intros ref d [Hp _]. congruence. }
  destruct (named_digest ref) as [d|] eqn:Ed.
  2:{ go_step. apply Hbad; try done. right. right. left. intros ref' d' [Hp Hd]. congruence. }
  assert (is_Some (bootedInfo st)) as Hbs by (rewrite <- Hbo; eauto).
  rewrite <- Eb. apply (wpg_pursue base ref d st); try done.
  - unfold daemon_read, h1 in *. set_solver.
  - intros t s' r Ht Hi Ho. unfold h1 in *. rewrite <- app_assoc in *. by apply H.
Qed.

(** ** The report, as the controller reads it *)

Lemma classify_report base bn ref d st h :
  wants base ref d → restatus base bn → is_Some (bootedInfo st) →
  Booted (bn_status bn) = bootedInfo st → hostStatus h st →
  shows bn NodeIdle (idleOf (report base st d)).1 (idleOf (report base st d)).2 →
  shows bn NodeDegraded ConditionFalse NodeReasonHealthy →
  classifyNode bn = Ok (report base st d).
Proof.
  intros [Hp Hd] [_ Hsp] [i Hi] Hb _ (c & Hc & Hcs & Hcr) (c' & Hc' & Hcs' & _).
  unfold classifyNode. rewrite (is_true_find _ _ _ Hc'), Hcs'.
  cbn -[InfoMatchesDigest]. rewrite Hb, Hi.
  unfold parseImageRef. rewrite Hsp, Hp, Hd. rewrite (is_false_find _ _ _ Hc), Hcs, Hc, Hcr.
  unfold report. rewrite Hi.
  destruct (InfoMatchesDigest (Some i) d); [done|].
  destruct (InfoMatchesDigest (stagedInfo st) d); cbn [negb]; [|done].
  by destruct (DesiredImageState (bn_spec base) =s DesiredImageStateBooted).
Qed.

Lemma classify_degraded bn : shows bn NodeDegraded ConditionTrue NodeReasonError → classifyNode bn = Ok nodeStateDegraded.
Proof.
  intros (c & Hc & Hs & _). unfold classifyNode. by rewrite (is_true_find _ _ _ Hc), Hs.
Qed.

(** What the pass found out about the node. *)
Definition reported h base (new : BootcNode) : Prop :=
  (trouble h base ∧ classifyNode new = Ok nodeStateDegraded) ∨
  (∃ ref d st, wants base ref d ∧ hostStatus h st ∧ classifyNode new = Ok (report base st d)).

(** The Degraded condition, after which the BootcNode is complete. *)
Lemma wpg_conclude base res err s h (Φ : dhistory → DState → result unit → Prop) :
  outcome base h s res err →
  (∀ x s', rebootIssued s' = rebootIssued s → restatus base (ds_bn s') → reported h base (ds_bn s') →
     (needsReboot res = true →
        shows (ds_bn s') NodeIdle ConditionFalse NodeReasonRebooting ∧
        DesiredImageState (bn_spec base) = DesiredImageStateBooted ∧
        softReboot res = (bns_RebootPolicy (bn_spec base) =s RebootPolicyAllowSoftReboot) ∧
        ∃ ref d st, wants base ref d ∧ hostStatus h st ∧
          InfoMatchesDigest (bootedInfo st) d = false ∧ InfoMatchesDigest (stagedInfo st) d = true) →
     Φ (h ++ [Ev DNow x]) s' (Ok tt)) →
  wpg (if negb (degradedMsg res =s "")
       then setCondition NodeDegraded ConditionTrue NodeReasonError (degradedMsg res)
       else setCondition NodeDegraded ConditionFalse NodeReasonHealthy "") s h Φ.
Proof.
  intros [Hre Ho] H. destruct Ho as [(Hmsg & Hn & Ht)|(ref & d & st & Hw & Hst & Hmsg & -> & Hb & Hbo & Hsg & Hn & Hsoft & Hid)].
  - rewrite (proj2 (seq_b_false _ _) Hmsg). cbn [negb]. apply wpg_setCondition. intros x bn' (Hrs & _) Hsh _.
    apply H; [done|by etransitivity| |congruence]. left. split; [done|]. by apply classify_degraded.
  - rewrite Hmsg, seq_b_refl. cbn [negb]. apply wpg_setCondition. intros x bn' (Hrs & Hb1 & Hs1) Hsh Hoth.
    assert (restatus base bn') as Hre' by (by etransitivity).
    specialize (Hoth _ _ _ (ltac:(done) : NodeIdle ≠ NodeDegraded) Hid).
    apply H; [done|done| |].
    + right. exists ref, d, st. split_and!; [done|done|].
      eapply classify_report; [exact Hw|done|done|simpl; congruence|exact Hst|done|done].
    + intros Hn1. rewrite Hn1 in Hn, Hsoft. symmetry in Hn. apply bool_decide_eq_true in Hn.
      rewrite Hn in Hoth. simpl in Hoth, Hsoft. unfold report in Hn.
      destruct (InfoMatchesDigest (bootedInfo st) d) eqn:E1; [done|].
      destruct (InfoMatchesDigest (stagedInfo st) d) eqn:E2; cbn [negb] in Hn; [|done].
      destruct (DesiredImageState (bn_spec base) =s DesiredImageStateBooted) eqn:E3; [|done].
      apply seq_b_true in E3. split_and!; try done. by exists ref, d, st.
Qed.

(** ** The pass *)

Definition is_reboot (r : dreq) : bool := match r with DReboot | DApplyUpdate _ => true | _ => false end.

(** A reboot command that succeeded. *)
Definition rebootOk (e : ev dresp) : bool :=
  let '(Ev r x) := e in
  match r return dresp r → bool with
  | DReboot => is_ok
  | DApplyUpdate _ => is_ok
  | _ => λ _, false
  end x.

(** The host was told to reboot. *)
Definition rebooted h : Prop := ∃ e, e ∈ h ∧ rebootOk e = true.

Lemma rebooted_snoc h e : rebooted (h ++ [e]) → rebooted h ∨ rebootOk e = true.
Proof. intros (e' & [Hin| ->%list_elem_of_singleton]%elem_of_app & Hok); [left; by exists e'|by right]. Qed.

Lemma prep_daemon h : dsafe h → guarded daemon_allowed h.
Proof. intros H h1 e h2 Heq. specialize (H h1 e h2 Heq). by destruct (ev_req e). Qed.

Lemma prep_unrebooted h : dsafe h → ¬ rebooted h.
Proof.
  intros H (e & Hin & Hok). apply list_elem_of_split in Hin as (h1 & h2 & ->).
  specialize (H h1 _ h2 eq_refl). destruct e as [[] x]; done.
Qed.

(** What holds at the end of a pass over [base]. *)
Definition passed (base : BootcNode) h s : Prop :=
  guarded daemon_allowed h ∧ (rebooted h → rebootIssued s = true) ∧
  (∀ b new x, Ev (DPatchStatus b new) x ∈ h → b = base ∧ reported h base new).

Lemma trouble_app h t base : trouble h base → trouble (h ++ t) base.
Proof.
  intros [(e & ?)|[(st & Hs & ?)|[?|(e & ?)]]].
  - left. exists e. set_solver.
  - right. left. exists st. unfold hostStatus in *. set_solver.
  - right. right. by left.
  - right. right. right. exists e. set_solver.
Qed.

Lemma reported_app h t base new : reported h base new → reported (h ++ t) base new.
Proof.
  intros [[Ht Hc]|(ref & d & st & Hw & Hs & Hc)]; [left; split; [by apply trouble_app|done]|].
  right. exists ref, d, st. unfold hostStatus in *. set_solver.
Qed.

(** The reboot. *)
Lemma wpg_reboot base res s h (Φ : dhistory → DState → result unit → Prop) :
  passed base h s → ¬ rebooted h → (needsReboot res = true → reboot_due h base (softReboot res)) →
  (∀ t s' r, passed base (h ++ t) s' → Φ (h ++ t) s' r) →
  wpg (rebootIfNeeded res) s h Φ.
Proof.
  intros (Hg & _ & Hrep) Hnr Hdue H. unfold rebootIfNeeded. destruct (needsReboot res) eqn:En.
  2:{ go_step. rewrite <- (app_nil_r h). apply H. rewrite app_nil_r. split_and!; [done|by intros|done]. }
  specialize (Hdue eq_refl).
  assert (∀ r (x : dresp r) (s' : DState), is_reboot r = true → daemon_allowed h r →
    (rebootOk (Ev r x) = true → rebootIssued s' = true) →
    passed base (h ++ [Ev r x]) s') as Hstep.
  { intros r x s' Hr Ha Hi. split_and!; [by apply guarded_snoc| |].
    - by intros [?|?]%rebooted_snoc; [|apply Hi].
    - intros b new y [Hin|Hin]%elem_of_app.
      + destruct (Hrep b new y Hin) as [-> Hr']. split; [done|by apply reported_app].
      + apply list_elem_of_singleton in Hin. apply (f_equal ev_req) in Hin. simpl in Hin. by subst r. }
  go_step. destruct (softReboot res) eqn:Es.
  - go_step. apply wpg_dcallE. intros x. destruct x as [[]|e]; cbv [id]; [go_step|].
    + apply H, Hstep; [done|split; [done|by exists base]|done].
    + apply H, Hstep; [done|split; [done|by exists base]|done].
  - go_step. apply wpg_dcallE. intros x. destruct x as [[]|e]; cbv [id]; [go_step|].
    + apply H, Hstep; [done|by exists base|done].
    + apply H, Hstep; [done|by exists base|done].
Qed.

(** Preparing a pass decides nothing yet. *)
Lemma prep_passed base h s : dsafe h → passed base h s.
Proof.
  intros Hh. split_and!; [by apply prep_daemon|by intros ?%prep_unrebooted|].
  intros b new y Hin. apply list_elem_of_split in Hin as (ha & hb & ->). destruct (Hh ha _ hb eq_refl).
Qed.

(** The status patch. *)
Lemma patch_passed base new z h s :
  dsafe h → daemon_read h base → restatus base new → bn_status new ≠ bn_status base → reported h base new →
  passed base (h ++ [Ev (DPatchStatus base new) z]) s ∧ ¬ rebooted (h ++ [Ev (DPatchStatus base new) z]).
Proof.
  intros Hh Hrd Hre Hne Hrep. assert (¬ rebooted (h ++ [Ev (DPatchStatus base new) z])) as Hnr.
  { by intros [?%(prep_unrebooted h Hh)|]%rebooted_snoc. }
  split; [|done]. split_and!; [|done|].
  - apply guarded_snoc; [by apply prep_daemon|]. done.
  - intros b new' w [Hin|Hin]%elem_of_app.
    { apply list_elem_of_split in Hin as (ha & hb & Heq). destruct (Hh ha _ hb Heq). }
    apply list_elem_of_singleton, (f_equal ev_req) in Hin. simpl in Hin.
    injection Hin as -> ->. split; [done|by apply reported_app].
Qed.

(** The end of the pass. *)
Lemma wpg_finish base res err s h :
  passed base h s → ¬ rebooted h → (needsReboot res = true → reboot_due h base (softReboot res)) →
  wpg (rebootIfNeeded res ;;;
       match err with Some e => throw e | None => ret (rr_requeue res) end)%go s h
    (λ h' s' _, passed base h' s').
Proof.
  intros Hp Hnr Hdue. go_step. eapply wpg_reboot; [exact Hp|done|done|].
  intros t s' [[]|e] Hp'; [|done]. destruct err; by go_step.
Qed.

(** The pass over the fetched BootcNode. *)
Lemma wpg_reconcileFetched base s h :
  dsafe h → daemon_read h base → ¬ rebooted h →
  wpg (reconcileFetched base) s h (λ h' s' _, passed base h' s').
Proof.
  intros Hs Hrd Hnr. unfold reconcileFetched. go_step. go_step. go_step.
  apply wpg_setCondition. cbn [ds_bn setBn]. intros x bn1 Hsi Hidle _.
  set (s1 := setBn bn1 _). set (h1 := h ++ [_]). assert (dsafe h1) as H1 by (by apply guarded_snoc).
  go_step. apply (wpg_reconcileBootcNode base); [done|unfold daemon_read, h1 in *; set_solver| |done|].
  { destruct Hsi as [Hre _]. by transitivity (ds_bn (setBn (setBNStatus (mkBootcNodeStatus
      (om_generation (bn_meta base)) (Booted (bn_status base)) (Staged (bn_status base))
      (Rollback (bn_status base)) (bns_Conditions (bn_status base))) base) s)). }
  intros t s2 r H2 Hi2 Ho. set (h2 := h1 ++ t) in *.
  assert (daemon_read h2 base) as Hrd2 by (unfold daemon_read, h2, h1 in *; set_solver).
  destruct r as [[res err]|e]; [|by apply prep_passed]. specialize (Ho _ eq_refl). simpl in Ho.
  go_step. eapply wpg_conclude; [exact Ho|]. intros y s3 Hi3 Hre3 Hrep3 Hneed.
  set (h3 := h2 ++ [_]). assert (dsafe h3) as H3 by (by apply guarded_snoc).
  go_step. go_step. go_step.
  assert (∀ t' new, (∃ got, Ev (DPatchStatus base new) (Ok got) ∈ h3 ++ t') ∨ bn_status new = bn_status base →
    shows new NodeIdle ConditionFalse NodeReasonRebooting → needsReboot res = true →
    reboot_due (h3 ++ t') base (softReboot res)) as Hdue.
  { intros t' new Hp Hsh Hn. destruct (Hneed Hn) as (_ & Hb & Hsf & ref & d & st & Hw & Hst & Hm1 & Hm2).
    split_and!; [unfold daemon_read, h3 in *; set_solver|done|done| |by exists new].
    exists ref, d, st. split_and!; try done. unfold hostStatus, h3 in *. set_solver. }
  case_bool_decide as Heq.
  - go_step. apply wpg_finish; [by apply prep_passed|by apply prep_unrebooted|]. intros Hn.
    rewrite <- (app_nil_r h3). eapply (Hdue [] (ds_bn s3)); [by right|by apply Hneed|done].
  - go_step. go_step. apply wpg_dcallE. intros z.
    assert (∀ s', passed base (h3 ++ [Ev (DPatchStatus base (ds_bn s3)) z]) s' ∧
      ¬ rebooted (h3 ++ [Ev (DPatchStatus base (ds_bn s3)) z])) as Hp.
    { intros s'. apply patch_passed; [done|unfold daemon_read, h3 in *; set_solver|done|done|by apply reported_app]. }
    destruct z as [got|e']; cbv [id]; [|by apply Hp]. go_step. apply wpg_finish; [by apply Hp..|].
    intros Hn. apply (Hdue _ (ds_bn s3)); [left; exists got; set_solver|by apply Hneed|done].
Qed.

(** The pass: it does nothing, fails to read the BootcNode, or goes over it. *)
Lemma wpg_DReconcile reqName s :
  wpg (DReconcile reqName) s [] (λ h s' r,
    (h = [] ∧ s' = s ∧ r = Ok 0%Z) ∨
    (reqName = NodeName ∧ rebootIssued s = false ∧
     ((∃ e, h = [Ev (DGetBootcNode NodeName) (Err e)]) ∨
      ∃ base, daemon_read h base ∧ passed base h s'))).
Proof.
  unfold DReconcile. go_step. go_step. destruct (reqName =s NodeName) eqn:En; cbn [negb].
  2:{ go_step. by left. }
  apply seq_b_true in En as ->. destruct (rebootIssued s) eqn:Ei; [go_step; by left|].
  go_step. apply (wpg_call (resp := dresp) (DGetBootcNode _)). intros [base|e].
  - set (h1 := [] ++ [_]). assert (dsafe h1) as H1 by (by apply guarded_snoc; [apply guarded_nil|]).
    assert (daemon_read h1 base) as Hr by (unfold daemon_read, h1; set_solver).
    eapply wpg_mono; [|apply wpg_and; [by apply wpg_reconcileFetched, prep_unrebooted|apply wpg_history]].
    intros h s' r [Hp [t ->]]. right. split_and!; [done|done|]. right. exists base. split; [|done].
    unfold daemon_read, h1 in *. set_solver.
  - split_match; go_step; right; (split_and!; [done|done|]); left; by eexists.
Qed.

Lemma daemon_guarded reqName s : wpg (DReconcile reqName) s [] (λ h _ _, guarded daemon_allowed h).
Proof.
  eapply wpg_mono; [|apply wpg_DReconcile].
  intros h s' r [(-> & _)|(_ & _ & [(e & ->)|(base & _ & Hg & _)])]; [apply guarded_nil| |done].
  by apply (guarded_snoc _ []); [apply guarded_nil|].
Qed.

(** C9. The daemon's protocol.  In every pass, whatever the API server, bootc, the
    file system and the staging goroutine answer: the host is told to reboot only
    when the BootcNode read in this pass approves it (Booted), the host reports
    the desired digest as staged and not as booted, and the Rebooting condition
    was persisted before (by this pass, or it was already there); softly exactly
    when the policy allows it.  Staging starts only for the digest reference the
    BootcNode asks for, when it is neither booted nor staged nor in flight and no
    earlier failure is pending.  The status patch changes the status alone.  The
    auth file is replaced only by renaming a temporary file to which the pull
    secret of this BootcNode was completely written.  After a reboot was issued,
    no pass does anything any more, and requests for other nodes are ignored. *)
Theorem daemon_protocol reqName s :
  wpg (DReconcile reqName) s [] (λ h s' r,
    guarded daemon_allowed h ∧ (rebooted h → rebootIssued s' = true) ∧
    (reqName ≠ NodeName ∨ rebootIssued s = true → h = [] ∧ s' = s ∧ r = Ok 0%Z)).
Proof.
  eapply wpg_mono; [|apply wpg_DReconcile].
  intros h s' r [(-> & -> & ->)|(-> & Hi & Hrest)].
  - split_and!; [apply guarded_nil|by intros (e & He%elem_of_nil & _)|done].
  - assert (guarded daemon_allowed h ∧ (rebooted h → rebootIssued s' = true)) as [H1 H2].
    { destruct Hrest as [(e & ->)|(base & _ & Hp & Hq & _)]; [|done]. split.
      - by apply (guarded_snoc _ []); [apply guarded_nil|].
      - by intros (e' & ->%list_elem_of_singleton & Hok). }
    split_and!; [done|done|]. intros [?|?]; congruence.
Qed.

(** C11. Daemon and controller agree.  Whatever status a daemon pass sends for the
    BootcNode it read, the pool controller's [classifyNode] puts the node into
    exactly the state the daemon found it in: up to date when the host booted the
    desired digest; staging, staged or rebooting according to the staged image and
    the approval; and Degraded only when the host's status could not be read or
    has no booted image, the desired image is not a digest reference, or staging
    it failed. *)
Theorem daemon_report_classified reqName s :
  wpg (DReconcile reqName) s [] (λ h _ _,
    ∀ base new x, Ev (DPatchStatus base new) x ∈ h → daemon_read h base ∧ reported h base new).
Proof.
  eapply wpg_mono; [|apply wpg_DReconcile].
  intros h s' r [(-> & _)|(_ & _ & [(e & ->)|(base & Hr & _ & _ & Hp)])] b new x Hin.
  - by apply elem_of_nil in Hin.
  - apply list_elem_of_singleton, (f_equal ev_req) in Hin. done.
  - destruct (Hp b new x Hin) as [-> ?]. done.
Qed.
End Steps.
