(* ===== verification/Watcher.v ===== *)
(** * Watcher: the daemon's cache of the host's status

    [internal/daemon/watcher.go]: [StatusWatcher], its cache, the choice between
    fsnotify and polling, and the loop that refreshes the cache and wakes the
    reconciler.  [ParseStatus] of [internal/bootc/status.go] is here with its
    decoder, [json.Unmarshal] at type [Status], as a parameter. *)

From S2P Require Import Prelude Effects Types Bootc.

Definition DefaultPollInterval : Z := (5 * GoInt.Minute)%Z.

Class HostLib : Type := { Unmarshal : string → result Status }.

(** fsnotify watchers and tickers are pointers, numbers here; a watcher's two
    channels and a ticker's channel go by the number of their owner. *)
Inductive wreq : Set :=
(* Executor.Status *)
| WExecStatus
(* a non-blocking send to Events of an event about the node (was there room?);
   [visible] is no part of the event: it records what the other goroutines find
   behind the mutex at that moment, the cache and the started flag *)
| WTrySend (node : string) (visible : option Status * bool)
(* os.Stat, fsnotify, time.Ticker, close(Ready) *)
| WStat (path : string)
| WNewWatcher
| WAdd (fs : nat) (path : string)
| WCloseFs (fs : nat)
| WNewTicker (interval : Z)
| WStopTicker (t : nat)
| WCloseReady.

Definition wresp (r : wreq) : Set :=
  match r with
  | WExecStatus => result string
  | WTrySend _ _ => bool
  | WStat _ => bool
  | WNewWatcher => result nat
  | WAdd _ _ => result unit
  | WCloseFs _ => unit
  | WNewTicker _ => nat
  | WStopTicker _ => unit
  | WCloseReady => unit
  end.

Abbreviation wgo := (go wresp).
Abbreviation whistory := (trace wresp).
Abbreviation WEv r x := (Ev (resp := wresp) r x).

(** [StatusWatcher]; of the Ready channel, whether it is non-nil. *)
Record StatusWatcher : Set := mkWatcher {
  PollInterval : Z;
  OstreePath : string;
  ComposefsPath : string;
  sw_NodeName : string;
  Ready : bool;
  cached : option Status;
  started : bool
}.

Definition setCached (c : option Status) (w : StatusWatcher) : StatusWatcher :=
  mkWatcher (PollInterval w) (OstreePath w) (ComposefsPath w) (sw_NodeName w) (Ready w) c (started w).
Definition setStarted (w : StatusWatcher) : StatusWatcher :=
  mkWatcher (PollInterval w) (OstreePath w) (ComposefsPath w) (sw_NodeName w) (Ready w) (cached w) true.
Definition setInterval (z : Z) (w : StatusWatcher) : StatusWatcher :=
  mkWatcher z (OstreePath w) (ComposefsPath w) (sw_NodeName w) (Ready w) (cached w) (started w).

(** The watcher and the local variables of [Start]; [None] is nil. *)
Record Loop : Set := mkLoop {
  watcher : StatusWatcher;
  fsWatcher : option nat;
  ticker : option nat;
  tickerCh : option nat;
  evCh : option nat;
  errCh : option nat
}.

Definition setWatcher (w : StatusWatcher) (l : Loop) : Loop :=
  mkLoop w (fsWatcher l) (ticker l) (tickerCh l) (evCh l) (errCh l).
Definition setFsWatcher (x : option nat) (l : Loop) : Loop :=
  mkLoop (watcher l) x (ticker l) (tickerCh l) (evCh l) (errCh l).
Definition setTicker (x : option nat) (l : Loop) : Loop :=
  mkLoop (watcher l) (fsWatcher l) x (tickerCh l) (evCh l) (errCh l).
Definition setTickerCh (x : option nat) (l : Loop) : Loop :=
  mkLoop (watcher l) (fsWatcher l) (ticker l) x (evCh l) (errCh l).
Definition setEvCh (x : option nat) (l : Loop) : Loop :=
  mkLoop (watcher l) (fsWatcher l) (ticker l) (tickerCh l) x (errCh l).
Definition setErrCh (x : option nat) (l : Loop) : Loop :=
  mkLoop (watcher l) (fsWatcher l) (ticker l) (tickerCh l) (evCh l) x.

Section Watcher.
Context {H : HostLib}.
Local Open Scope go_scope.

(** [ParseStatus]. *)
Definition ParseStatus (data : string) : result Status :=
  match Unmarshal data with
  | Err e => Err (ErrWrap "parsing bootc status JSON" e)
  | Ok s => Ok s
  end.

Definition wcallE {A : Set} (r : wreq) (f : wresp r → result A) : wgo StatusWatcher A :=
  gbind (call r) (λ x, lift (f x)).

(** [refresh]: the new status and whether it differs from the cache. *)
Definition refresh : wgo StatusWatcher (Status * bool) :=
  data <- wcallE WExecStatus id ;;
  s <- lift (ParseStatus data) ;;
  old <- gets cached ;;
  modify (setCached (Some s)) ;;;
  ret (s, negb (bool_decide (Some s = old))).

(** [GetStatus]. *)
Definition GetStatus : wgo StatusWatcher Status :=
  w <- gets id ;;
  match started w, cached w with
  | true, Some s => ret s
  | _, _ => r <- refresh ;; ret r.1
  end.

(** [sendEvent]: when the channel is full the event is dropped. *)
Definition sendEvent : wgo StatusWatcher unit :=
  w <- gets id ;;
  _ <- call (WTrySend (sw_NodeName w) (cached w, started w)) ;;
  ret tt.

(** [refreshAndNotify]: errors are logged only. *)
Definition refreshAndNotify : wgo StatusWatcher unit :=
  r <- try refresh ;;
  match r with
  | Err _ => ret tt
  | Ok (_, changed) => if (changed : bool) then sendEvent else ret tt
  end.

(** [resolveWatchPath]; the empty string is "none". *)
Definition resolveWatchPath : wgo StatusWatcher string :=
  w <- gets id ;;
  a <- call (WStat (OstreePath w)) ;;
  if (a : bool) then ret (OstreePath w)
  else
    b <- call (WStat (ComposefsPath w)) ;;
    ret (if (b : bool) then ComposefsPath w else "").

(** [setupFsnotify]. *)
Definition setupFsnotify (watchPath : string) : wgo StatusWatcher (option nat) :=
  if watchPath =s "" then ret None
  else
    n <- call WNewWatcher ;;
    match n with
    | Err _ => ret None
    | Ok fs =>
        a <- call (WAdd fs watchPath) ;;
        match a with
        | Err _ => _ <- call (WCloseFs fs) ;; ret None
        | Ok _ => ret (Some fs)
        end
    end.

Definition onWatcher {A : Set} (m : wgo StatusWatcher A) : wgo Loop A := zoom watcher setWatcher m.

(** The closure [closeFsWatcher] of [Start]. *)
Definition closeFsWatcher : wgo Loop unit :=
  f <- gets fsWatcher ;;
  match f with
  | Some fs => _ <- call (WCloseFs fs) ;; modify (setFsWatcher None)
  | None => ret tt
  end.

(** [ticker = time.NewTicker(w.PollInterval); tickerCh = ticker.C]. *)
Definition startTicker : wgo Loop unit :=
  l <- gets id ;;
  t <- call (WNewTicker (PollInterval (watcher l))) ;;
  modify (setTicker (Some t)) ;;;
  modify (setTickerCh (Some t)).

(** [Start] up to its loop. *)
Definition startup : wgo Loop unit :=
  watchPath <- onWatcher resolveWatchPath ;;
  fs <- onWatcher (setupFsnotify watchPath) ;;
  modify (setFsWatcher fs) ;;;
  onWatcher (modify (λ w, if (PollInterval w <=? 0)%Z then setInterval DefaultPollInterval w else w)) ;;;
  f <- gets fsWatcher ;;
  match f with
  | None => startTicker
  | Some _ => ret tt
  end ;;;
  f <- gets fsWatcher ;;
  match f with
  | Some fs => modify (setEvCh (Some fs)) ;;; modify (setErrCh (Some fs))
  | None => ret tt
  end ;;;
  onWatcher (modify setStarted) ;;;
  ready <- gets (λ l, Ready (watcher l)) ;;
  if (ready : bool) then call WCloseReady else ret tt.

(** What the [select] of the loop may receive. *)
Inductive selected : Set :=
| CtxDone
| FsEvent (chmod create : bool)
| FsError (e : error)
| Tick.

(** A nil channel is never ready. *)
Definition enabled (l : Loop) (e : selected) : bool :=
  match e with
  | CtxDone => true
  | FsEvent _ _ => bool_decide (is_Some (evCh l))
  | FsError _ => bool_decide (is_Some (errCh l))
  | Tick => bool_decide (is_Some (tickerCh l))
  end.

(** One iteration of the loop: does it go on? *)
Definition onSelect (e : selected) : wgo Loop bool :=
  match e with
  | CtxDone => ret false
  | FsEvent chmod create =>
      (if chmod || create then onWatcher refreshAndNotify else ret tt) ;;; ret true
  | FsError _ =>
      closeFsWatcher ;;;
      modify (setEvCh None) ;;;
      modify (setErrCh None) ;;;
      startTicker ;;;
      ret true
  | Tick => onWatcher refreshAndNotify ;;; ret true
  end.

(** The loop over what the outside offers it, in turn; what is offered on a nil
    channel is not received.  Did it return? *)
Fixpoint watchLoop (es : list selected) : wgo Loop bool :=
  match es with
  | [] => ret false
  | e :: es =>
      l <- gets id ;;
      if enabled l e then
        go_on <- onSelect e ;;
        if (go_on : bool) then watchLoop es else ret true
      else watchLoop es
  end.

(** The deferred calls of [Start], last first. *)
Definition deferred : wgo Loop unit :=
  t <- gets ticker ;;
  match t with
  | Some t => _ <- call (WStopTicker t) ;; ret tt
  | None => ret tt
  end ;;;
  closeFsWatcher.

(** [Start]: did it return? *)
Definition Start (es : list selected) : wgo Loop bool :=
  startup ;;;
  fin <- watchLoop es ;;
  (if (fin : bool) then deferred else ret tt) ;;;
  ret fin.
End Watcher.

Section WatcherProperties.
Context {H : HostLib}.
Implicit Types (h : whistory) (w : StatusWatcher).

Lemma wpg_wcallE {A : Set} (r : wreq) (f : wresp r → result A) w h Φ :
  (∀ x, Φ (h ++ [Ev r x]) w (f x)) → wpg (wcallE r f) w h Φ.
Proof. intros HΦ. unfold wcallE. go_step. go_step. go_step. apply HΦ. Qed.

(** What [bootc status] said, if it ran and its output can be decoded. *)
Definition hostRead (x : wresp WExecStatus) : option Status :=
  match x with
  | Ok data => match Unmarshal data with Ok s => Some s | Err _ => None end
  | Err _ => None
  end.

Lemma wpg_refresh w h (Φ : whistory → StatusWatcher → result (Status * bool) → Prop) :
  (∀ x s, hostRead x = Some s →
     Φ (h ++ [Ev WExecStatus x]) (setCached (Some s) w) (Ok (s, negb (bool_decide (Some s = cached w))))) →
  (∀ x e, hostRead x = None → Φ (h ++ [Ev WExecStatus x]) w (Err e)) →
  wpg refresh w h Φ.
Proof.
  intros Hok Herr. unfold refresh. go_step. apply wpg_wcallE. intros x. specialize (Hok x). specialize (Herr x).
  destruct x as [data|e]; cbv [id]; [|by apply Herr]. go_step. go_step. simpl in Hok, Herr. unfold ParseStatus.
  destruct (Unmarshal data) as [s|e]; [|by apply Herr]. do 5 go_step. by apply Hok.
Qed.

(** C32. Notifications.  A refresh never fails the watcher's loop.  When the host's
    status cannot be read or decoded, the cache stays and nobody is woken; when it
    is what the cache holds, nobody is woken; when it is new, exactly one event
    about the daemon's node is offered to the reconciler, and at the moment it is
    offered the other goroutines already find the new status in the cache. A
    [GetStatus] on such a cache answers the new status without asking the host
    again, so the pass this causes (or the one whose wake-up already fills the
    channel) works on it. *)
Theorem watcher_notifies w :
  started w = true →
  wpg refreshAndNotify w [] (λ h w' r,
    r = Ok tt ∧ ∃ x, h !! 0 = Some (Ev WExecStatus x) ∧
    match hostRead x with
    | None => h = [Ev WExecStatus x] ∧ w' = w
    | Some s =>
        cached w' = Some s ∧
        (cached w = Some s → h = [Ev WExecStatus x]) ∧
        (cached w ≠ Some s →
           ∃ room, h = [Ev WExecStatus x; Ev (WTrySend (sw_NodeName w) (Some s, true)) room]) ∧
        ∀ w2 h2, (cached w2, started w2) = (Some s, true) →
          wpg GetStatus w2 h2 (λ h3 w3 r3, h3 = h2 ∧ w3 = w2 ∧ r3 = Ok s)
    end).
Proof.
  intros Hst.
  assert (∀ s w2 h2, (cached w2, started w2) = (Some s, true) →
    wpg GetStatus w2 h2 (λ h3 w3 r3, h3 = h2 ∧ w3 = w2 ∧ r3 = Ok s)) as Hget.
  { intros s w2 h2 [= Hc Hs]. unfold GetStatus. go_step. go_step. unfold id. rewrite Hs, Hc. by go_step. }
  unfold refreshAndNotify. go_step. go_step. apply wpg_refresh.
  - intros x s Hx. case_bool_decide as Hc; cbn [negb].
    + go_step. split; [done|]. exists x. rewrite Hx. split_and!; [done..|]. apply Hget.
    + unfold sendEvent. do 5 go_step. split; [done|]. exists x. rewrite Hx.
      split_and!; [done|done|congruence| |apply Hget]. intros _. cbn. rewrite Hst. by eexists.
  - intros x e Hx. go_step. split; [done|]. exists x. rewrite Hx. done.
Qed.

(** ** Sources of wake-ups *)

(** What the loop waits on: the channels of an fsnotify watcher that was created,
    watches one of the two paths and was not closed, or the channel of a ticker
    that was created with the poll interval and not stopped; one and not the
    other. *)
Inductive listening h (l : Loop) : Prop :=
| on_fsnotify f path :
    evCh l = Some f → errCh l = Some f → tickerCh l = None →
    path ∈ [OstreePath (watcher l); ComposefsPath (watcher l)] →
    WEv WNewWatcher (Ok f) ∈ h → WEv (WAdd f path) (Ok tt) ∈ h → WEv (WCloseFs f) tt ∉ h →
    listening h l
| on_ticker t :
    evCh l = None → errCh l = None → tickerCh l = Some t →
    WEv (WNewTicker (PollInterval (watcher l))) t ∈ h → WEv (WStopTicker t) tt ∉ h →
    listening h l.

(** Every fsnotify watcher was closed and every ticker stopped. *)
Definition released h : Prop :=
  (∀ f, WEv WNewWatcher (Ok f) ∈ h → WEv (WCloseFs f) tt ∈ h) ∧
  (∀ i t, WEv (WNewTicker i) t ∈ h → WEv (WStopTicker t) tt ∈ h).

(** Readings of an event. *)
Definition opened (e : ev wresp) : option nat :=
  match e with Ev WNewWatcher (Ok f) => Some f | _ => None end.
Definition ticking (e : ev wresp) : option nat :=
  match e with Ev (WNewTicker _) t => Some t | _ => None end.

(** The event is none that acquires or gives up a source. *)
Definition plain (e : ev wresp) : Prop :=
  match ev_req e with WNewWatcher | WCloseFs _ | WNewTicker _ | WStopTicker _ => False | _ => True end.

(** The invariant of the loop. *)
Record live h (l : Loop) : Prop := {
  lv_started : started (watcher l) = true;
  lv_interval : (0 < PollInterval (watcher l))%Z;
  lv_listening : listening h l;
  lv_fsWatcher : fsWatcher l = evCh l;
  lv_ticker : ticker l = tickerCh l;
  lv_opened f : WEv WNewWatcher (Ok f) ∈ h → WEv (WCloseFs f) tt ∈ h ∨ fsWatcher l = Some f;
  lv_ticking i t : WEv (WNewTicker i) t ∈ h → ticker l = Some t;
  lv_running t : WEv (WStopTicker t) tt ∉ h
}.

(** Membership of a request in a history that ends in known events. *)
Ltac in_history H :=
  lazymatch type of H with
  | _ ∈ _ ++ _ => apply elem_of_app in H as [H|H]; in_history H
  | _ ∈ _ :: _ => apply elem_of_cons in H as [H|H]; in_history H
  | _ ∈ [] => by apply elem_of_nil in H
  | Ev _ _ = Ev _ _ =>
      first [ discriminate (f_equal ev_req H)
            | apply (f_equal opened) in H; simpl in H; first [discriminate H | injection H as ->]
            | apply (f_equal ticking) in H; simpl in H; injection H as ->
            | apply (f_equal ev_req) in H; simpl in H; injection H as -> ]
  | _ => idtac
  end.

Lemma live_extend h t l w' :
  live h l → Forall plain t → started w' = true → PollInterval w' = PollInterval (watcher l) →
  OstreePath w' = OstreePath (watcher l) → ComposefsPath w' = ComposefsPath (watcher l) →
  live (h ++ t) (setWatcher w' l).
Proof.
  intros [H1 H2 H3 H4 H5 H6 H7 H8] Hp Hs Hi Ho Hc. rewrite Forall_forall in Hp.
  assert (∀ e, e ∈ h ++ t → ¬ plain e → e ∈ h) as Hin.
  { intros e [?|He]%elem_of_app Hn; [done|]. by apply Hp in He. }
  split; cbn [watcher setWatcher fsWatcher evCh ticker tickerCh]; try done.
  - by rewrite Hi.
  - destruct H3 as [f path Ha Hb Ht Hpath Hn Had Hcl|t' Ha Hb Ht Hn Hst].
    + eapply (on_fsnotify _ _ f path); cbn [watcher setWatcher]; rewrite ?Ho, ?Hc; try done;
        try (apply elem_of_app; by left).
      intros Hx%Hin; [done|]. by intros [].
    + eapply (on_ticker _ _ t'); cbn [watcher setWatcher]; rewrite ?Hi; try done; [apply elem_of_app; by left|].
      intros Hx%Hin; [done|]. by intros [].
  - intros f Hf%Hin; [|by intros []]. destruct (H6 f Hf) as [?|?]; [left; apply elem_of_app; by left|by right].
  - intros i t' Ht%Hin; [by eapply H7|by intros []].
  - intros t' Ht%Hin; [by eapply H8|by intros []].
Qed.

Lemma refreshAndNotify_live l h :
  live h l → wpg (onWatcher refreshAndNotify) l h (λ h' l' r, r = Ok tt ∧ live h' l').
Proof.
  intros Hl. pose proof (lv_started _ _ Hl) as Hs. unfold onWatcher. go_step. unfold refreshAndNotify. go_step. go_step.
  apply wpg_refresh.
  - intros x s _. split_match.
    + unfold sendEvent. do 5 go_step. split; [done|]. rewrite <- app_assoc.
      apply live_extend; try done. by repeat constructor.
    + go_step. split; [done|]. apply live_extend; try done. by repeat constructor.
  - intros x e _. go_step. split; [done|]. apply live_extend; try done. by repeat constructor.
Qed.

Lemma onSelect_live e l h :
  live h l → enabled l e = true →
  wpg (onSelect e) l h (λ h' l' r, r = Ok (match e with CtxDone => false | _ => true end) ∧ live h' l').
Proof.
  intros Hl He. unfold onSelect. destruct e as [|chmod create|e|].
  - by go_step.
  - go_step. eapply wpg_mono with (Φ := λ h' l' r, r = Ok tt ∧ live h' l').
    + intros h' w' r [-> Hw']. by go_step.
    + split_match; [by apply refreshAndNotify_live|by go_step].
  - apply bool_decide_eq_true in He as [f Herr].
    destruct Hl as [H1 H2 [f' path Ha Hb Ht Hpath Hn Had Hcl|t' _ Hb] H4 H5 H6 H7 H8]; [|congruence].
    assert (f' = f) as -> by congruence. rewrite Ha in H4. rewrite Ht in H5.
    unfold closeFsWatcher, startTicker. do 3 go_step. rewrite H4. do 16 go_step. split; [done|]. unfold id in *.
    rewrite <- app_assoc. simpl app.
    split; cbn; try done.
    + eapply (on_ticker _ _ x0); cbn; try done; [set_solver|]. intros Hx. in_history Hx. by eapply H8.
    + intros f0 Hf0. in_history Hf0. destruct (H6 f0) as [?|?]; [done|left; apply elem_of_app; by left|]. left.
      assert (f0 = f) as -> by congruence. destruct x. apply elem_of_app. right. apply list_elem_of_here.
    + intros i t Hi. in_history Hi; [|done]. apply H7 in Hi. congruence.
    + intros t Hx. in_history Hx. by eapply H8.
  - go_step. eapply wpg_mono; [|by apply refreshAndNotify_live]. intros h' w' r [-> Hw']. by go_step.
Qed.

Lemma watchLoop_live es l h :
  live h l →
  wpg (watchLoop es) l h (λ h' l' r, ∃ fin, r = Ok fin ∧ (fin = true ↔ CtxDone ∈ es) ∧ live h' l').
Proof.
  revert l h. induction es as [|e es IH]; intros l h Hl; cbn [watchLoop].
  { go_step. exists false. split_and!; [done| |done]. by rewrite elem_of_nil. }
  assert (e ≠ CtxDone → ∀ l' h', live h' l' → wpg (watchLoop es) l' h'
    (λ h' l' r, ∃ fin, r = Ok fin ∧ (fin = true ↔ CtxDone ∈ e :: es) ∧ live h' l')) as Hrest.
  { intros Hne l' h' Hl'. eapply wpg_mono; [|by apply IH]. intros h2 l2 r (fin & -> & Hf & H2).
    exists fin. split_and!; [done| |done]. rewrite Hf, elem_of_cons. split; [by right|]. by intros [<-|?]. }
  go_step. go_step. unfold id. destruct (enabled l e) eqn:He.
  - go_step. eapply wpg_mono; [|by apply onSelect_live]. intros h' l' r [-> Hl'].
    destruct e; [go_step; exists true; split_and!; [done| |done]|by apply Hrest..].
    split; [intros _; apply list_elem_of_here|done].
  - apply Hrest; [by intros ->|done].
Qed.

Definition isStat (r : wreq) : bool := match r with WStat _ => true | _ => false end.

(** What [resolveWatchPath] and [setupFsnotify] leave behind. *)
Definition acquired (w : StatusWatcher) h (fs : option nat) : Prop :=
  (∀ i t, WEv (WNewTicker i) t ∉ h) ∧ (∀ t, WEv (WStopTicker t) tt ∉ h) ∧ WEv WCloseReady tt ∉ h ∧
  match fs with
  | None => ∀ f, WEv WNewWatcher (Ok f) ∈ h → WEv (WCloseFs f) tt ∈ h
  | Some f =>
      (∀ f', WEv WNewWatcher (Ok f') ∈ h → f' = f) ∧ (∀ f', WEv (WCloseFs f') tt ∉ h) ∧
      WEv WNewWatcher (Ok f) ∈ h ∧
      ∃ path, path ∈ [OstreePath w; ComposefsPath w] ∧ WEv (WAdd f path) (Ok tt) ∈ h
  end.

Lemma resolve_stats w :
  wpg resolveWatchPath w [] (λ h w' r, w' = w ∧ Forall (λ e, ∃ p, ev_req e = WStat p) h ∧
    ∃ path, r = Ok path ∧ (path ≠ "" → path ∈ [OstreePath w; ComposefsPath w])).
Proof.
  unfold resolveWatchPath. do 4 go_step. unfold id. destruct x.
  - go_step. split_and!; [done|repeat constructor; eauto|]. eexists. split; [done|set_solver].
  - do 3 go_step. split_and!; [done|repeat constructor; eauto|]. eexists. split; [done|].
    destruct x; [set_solver|done].
Qed.

Lemma setup_acquires w h path :
  Forall (λ e : ev wresp, ∃ p, ev_req e = WStat p) h →
  (path ≠ "" → path ∈ [OstreePath w; ComposefsPath w]) →
  wpg (setupFsnotify path) w h (λ h' w' r, w' = w ∧ ∃ fs, r = Ok fs ∧ acquired w h' fs).
Proof.
  intros Hh Hpath.
  assert (∀ r' x, WEv r' x ∈ h → ∃ p, r' = WStat p) as Hst.
  { intros r' x Hin. rewrite Forall_forall in Hh. exact (Hh _ Hin). }
  assert (∀ r' x, isStat r' = false → WEv r' x ∉ h) as Hno.
  { intros r' x Hr Hin. destruct (Hst _ _ Hin) as [p ->]. discriminate. }
  unfold setupFsnotify, acquired. destruct (path =s "") eqn:Ep.
  { go_step. split; [done|]. exists None. split; [done|]. split; [intros; by apply Hno|].
    split; [intros; by apply Hno|]. split; [by apply Hno|]. intros f Hf. by apply (Hno WNewWatcher _ eq_refl) in Hf. }
  apply seq_b_false in Ep. specialize (Hpath Ep).
  assert (∀ t r' x, isStat r' = false → (WEv r' x ∈ t → False) → WEv r' x ∉ h ++ t) as Hno'.
  { intros t r' x Hr Ht [Hin|Hin]%elem_of_app; [by apply (Hno _ _ Hr) in Hin|done]. }
  go_step. go_step. destruct x as [f|e].
  2:{ go_step. split; [done|]. exists None.
      split_and!; [done|intros; apply Hno'; [done|intros Hx; by in_history Hx]..|
                   apply Hno'; [done|intros Hx; by in_history Hx]|].
      intros f Hf. in_history Hf. by apply (Hno WNewWatcher _ eq_refl) in Hf. }
  go_step. go_step. rewrite <- app_assoc. destruct x as [[]|e].
  - go_step. split; [done|]. exists (Some f).
    split_and!; [done|intros; apply Hno'; [done|intros Hx; by in_history Hx]..|
                 apply Hno'; [done|intros Hx; by in_history Hx]| | | |].
    + intros f' Hf'. in_history Hf'; [by apply (Hno WNewWatcher _ eq_refl) in Hf'|done].
    + intros f'. apply Hno'; [done|intros Hx; by in_history Hx].
    + apply elem_of_app. right. apply list_elem_of_here.
    + exists path. split; [done|]. apply elem_of_app. right. apply list_elem_of_further, list_elem_of_here.
  - do 3 go_step. rewrite <- app_assoc. split; [done|]. exists None. destruct x.
    split_and!; [done|intros; apply Hno'; [done|intros Hx; by in_history Hx]..|
                 apply Hno'; [done|intros Hx; by in_history Hx]|].
    intros f' Hf'. in_history Hf'; [by apply (Hno WNewWatcher _ eq_refl) in Hf'|].
    apply elem_of_app. right. apply list_elem_of_further, list_elem_of_further, list_elem_of_here.
Qed.

(** A step that also reads the local variables. *)
Ltac loop_step :=
  go_step; cbn [watcher setWatcher fsWatcher setFsWatcher ticker setTicker tickerCh setTickerCh
                evCh setEvCh errCh setErrCh].

(** Up to the closing of Ready. *)
Ltac to_ready :=
  repeat lazymatch goal with
  | |- wpg (gbind (gets (λ l, Ready (watcher l))) _) _ _ _ => fail
  | _ => loop_step
  end.

Lemma startup_live w :
  wpg startup (mkLoop w None None None None None) [] (λ h l r,
    r = Ok tt ∧ live h l ∧ (WEv WCloseReady tt ∈ h ↔ Ready w = true)).
Proof.
  unfold startup, onWatcher. go_step. go_step. eapply wpg_mono; [|apply resolve_stats].
  intros h1 w1 r (-> & Hh & path & -> & Hpath). go_step. go_step.
  eapply wpg_mono; [|by apply (setup_acquires w h1 path)]. clear Hh Hpath h1 path.
  intros h w1 r (-> & fs & -> & Hti & Hst & Hcr & Hfs). do 6 go_step. go_step. go_step.
  cbn [watcher setWatcher setFsWatcher fsWatcher ticker tickerCh evCh errCh].
  set (w1 := if (PollInterval w <=? 0)%Z then _ else w).
  assert ((0 < PollInterval w1)%Z ∧ Ready w1 = Ready w ∧ OstreePath w1 = OstreePath w ∧
          ComposefsPath w1 = ComposefsPath w) as (Hi & Hr & Hp1 & Hp2).
  { unfold w1. destruct (Z.leb_spec (PollInterval w) 0); [done|]. split_and!; done || lia. }
  clearbody w1.
  assert (∀ h l, live h l → Ready (watcher l) = Ready w → WEv WCloseReady tt ∉ h →
    wpg (ready <- gets (λ l, Ready (watcher l)) ;; if (ready : bool) then call WCloseReady else ret tt)%go l h
      (λ h l r, r = Ok tt ∧ live h l ∧ (WEv WCloseReady tt ∈ h ↔ Ready w = true))) as Hend.
  { intros h' l Hl Hrl Hn. do 2 go_step. rewrite Hrl. destruct (Ready w).
    - go_step. destruct x. split; [done|]. split; [|split; [done|intros _; apply elem_of_app; right; apply list_elem_of_here]].
      pose proof (live_extend h' [WEv WCloseReady tt] l (watcher l) Hl) as He.
      replace (setWatcher (watcher l) l) with l in He by (by destruct l).
      apply He; try done; [by repeat constructor|by apply lv_started in Hl].
    - go_step. done. }
  destruct fs as [f|].
  - destruct Hfs as (Hone & Hopen & Hnew & path & Hpath & Hadd).
    to_ready.
    apply Hend; [|done|done].
    split; cbn; try done.
    + apply (on_fsnotify _ _ f path); cbn; rewrite ?Hp1, ?Hp2; done.
    + intros f' Hf'. right. by rewrite (Hone f' Hf').
    + intros i t Ht. by apply Hti in Ht.
  - unfold startTicker.
    to_ready.
    apply Hend; [|done|].
    + split; cbn; try done.
      * apply (on_ticker _ _ x); cbn; try done; [apply elem_of_app; right; apply list_elem_of_here|].
        intros Hx. in_history Hx. by eapply Hst.
      * intros f Hf. in_history Hf. left. apply elem_of_app. left. by apply Hfs.
      * intros i t Ht. in_history Ht; [by apply Hti in Ht|done].
      * intros t Hx. in_history Hx. by eapply Hst.
    + intros Hx. by in_history Hx.
Qed.

(** Something on a channel the loop waits on that calls for a refresh. *)
Definition wakesUp (l : Loop) (e : selected) : Prop :=
  match e with
  | Tick => is_Some (tickerCh l)
  | FsEvent chmod create => is_Some (evCh l) ∧ (chmod = true ∨ create = true)
  | _ => False
  end.

Lemma refreshAndNotify_asks l h :
  wpg (onWatcher refreshAndNotify) l h (λ h' _ r, r = Ok tt ∧ ∃ x t, h' = h ++ WEv WExecStatus x :: t).
Proof.
  unfold onWatcher. go_step. unfold refreshAndNotify. go_step. go_step. apply wpg_refresh.
  - intros x s _. split_match.
    + unfold sendEvent. do 5 go_step. split; [done|]. rewrite <- app_assoc. by eexists x, _.
    + go_step. split; [done|]. by exists x, [].
  - intros x e _. go_step. split; [done|]. by exists x, [].
Qed.

Lemma wake_refreshes l e h :
  wakesUp l e →
  wpg (watchLoop [e]) l h (λ h' _ r, r = Ok false ∧ ∃ x t, h' = h ++ WEv WExecStatus x :: t).
Proof.
  intros He. cbn [watchLoop]. go_step. go_step. unfold id.
  destruct e as [|chmod create|e|]; simpl in He; try done; cbn [enabled onSelect].
  - destruct He as [He Hc]. rewrite bool_decide_true by done. go_step. go_step.
    replace (chmod || create) with true by (destruct Hc as [->| ->]; by rewrite ?orb_true_r).
    eapply wpg_mono; [|apply refreshAndNotify_asks]. intros h' l' r [-> Hh]. by do 2 go_step.
  - rewrite bool_decide_true by done. go_step. go_step.
    eapply wpg_mono; [|apply refreshAndNotify_asks]. intros h' l' r [-> Hh]. by do 2 go_step.
Qed.

End WatcherProperties.
