(* ===== verification/DaemonWitness.v ===== *)
(** * DaemonWitness: daemon passes on a concrete node

    An executable host for the witnesses of [DaemonSafety] and [Watcher], and the
    passes that show behaviour one would not expect. *)

From S2P Require Import Prelude Effects Types Library LibModel Client Samples Image Karpenter Classify StageOp Bootc Daemon DaemonSafety Watcher.

Module DaemonWitness.
Import LibModel.

#[export] Instance dconfig : DConfig := {| NodeName := "w1"; HostRoot := "/proc/1/root" |}.

(** The API server's copy of the BootcNode, the host and the staging record;
    staging goroutines make no step during a pass. *)
Record DWorld : Set := mkDWorld {
  dw_now : Z;
  dw_bn : BootcNode;
  dw_status : result Status;
  dw_op : stageOp;
  dw_secret : option Secret;
  dw_reboot : result unit
}.

Definition withOp (op : stageOp) (w : DWorld) : DWorld :=
  mkDWorld (dw_now w) (dw_bn w) (dw_status w) op (dw_secret w) (dw_reboot w).
Definition withBn (b : BootcNode) (w : DWorld) : DWorld :=
  mkDWorld (dw_now w) b (dw_status w) (dw_op w) (dw_secret w) (dw_reboot w).
Definition at_time (t : Z) (w : DWorld) : DWorld :=
  mkDWorld t (dw_bn w) (dw_status w) (dw_op w) (dw_secret w) (dw_reboot w).

Definition dsim : handler dresp DWorld := λ r w,
  match r return DWorld * dresp r with
  | DNow => (w, dw_now w)
  | DGetBootcNode n =>
      (w, if n =s bn_name (dw_bn w) then Ok (dw_bn w) else Err (ErrApi KNotFound "not found"))
  | DPatchStatus base new => (withBn new w, Ok new)
  | DGetSecret _ _ => (w, match dw_secret w with Some s => Ok s | None => Err (ErrApi KNotFound "not found") end)
  | DGetStatus => (w, dw_status w)
  | DTakeErr => (withOp (takeErr (dw_op w)).1 w, (takeErr (dw_op w)).2)
  | DBackoff => (w, backoff (dw_op w))
  | DIsInFlight image => (w, isInFlight (dw_op w) image)
  | DAcquire image => (withOp (acquire (dw_op w) image 0).1 w, tt)
  | DReset => (withOp (reset (dw_op w)) w, tt)
  | DMkdirAll _ => (w, Ok tt)
  | DCreateTemp _ _ => (w, Ok ".auth-1.json")
  | DWrite _ _ => (w, Ok tt)
  | DClose _ => (w, Ok tt)
  | DRename _ _ => (w, Ok tt)
  | DRemove _ => (w, Ok tt)
  | DReboot => (w, dw_reboot w)
  | DApplyUpdate _ => (w, dw_reboot w)
  end.

Definition entry (ref digest : string) : option BootEntry :=
  Some (mkBootEntry (Some (mkImageStatus (mkImageReference ref "registry" None) None None digest "amd64"))
          None false false false false None None None).

Definition host (booted staged : option BootEntry) : Status :=
  mkStatus "org.containers.bootc/v1" "BootcHost" (mkStatusSpec None "default")
    (mkStatusBody staged booted None [] false None None).

Definition op0 : stageOp := mkStageOp "" None None 0.
Definition onA : Status := host (entry Samples.RefA Samples.DigestA) None.
Definition stagedB : Status := host (entry Samples.RefA Samples.DigestA) (entry Samples.RefB Samples.DigestB).

(** A BootcNode that should run image B, as the controller created it. *)
Definition wanted (state : string) : BootcNode :=
  Samples.bootcNode "w1" Samples.RefB state None None [] None.

Definition pass (w : DWorld) (issued : bool) := run dsim (DReconcile "w1" (mkDState (dw_bn w) issued)) w.
Definition wpass (w : DWorld) : DWorld := (pass w false).1.1.

(** Stage, report Staged, and reboot when approved. *)
Definition w0 : DWorld :=
  mkDWorld 0 (wanted DesiredImageStateStaged) (Ok onA) op0 None (Ok tt).
Definition w1 : DWorld :=
  mkDWorld 60 (dw_bn (wpass w0)) (Ok stagedB) op0 None (Ok tt).
Definition w2 : DWorld :=
  mkDWorld 120 (setDesiredImageState DesiredImageStateBooted (dw_bn (wpass w1))) (Ok stagedB) op0 None (Ok tt).

Example daemonPass_story :
  so_image (dw_op (wpass w0)) = Samples.RefB ∧
  classifyNode (dw_bn (wpass w0)) = Ok nodeStateStaging ∧
  classifyNode (dw_bn (wpass w1)) = Ok nodeStateStaged ∧
  classifyNode (dw_bn (wpass w2)) = Ok nodeStateRebooting ∧
  rebootIssued (pass w2 false).2.1 = true ∧
  (pass (wpass w2) true).1.2 = [].
Proof. vm_compute. done. Qed.

(** A theorem about a daemon function, applied to its run against the host. *)
Lemma wpg_dsim {S : Type} {A : Set} (m : dgo S A) s w o Φ :
  run dsim (m s) w = o → wpg m s [] Φ → Φ o.1.2 o.2.1 o.2.2.
Proof.
  intros E H. destruct o as [[w' t] [s' r]]. by apply (wpg_run dsim m s w w' t s' r Φ H).
Qed.

Lemma rebooted_exists h : existsb rebootOk h = true → rebooted h.
Proof. intros (e & Hin & Hok)%existsb_exists. exists e. split; [by apply list_elem_of_In|done]. Qed.

Definition ds1 : DState := mkDState (dw_bn w1) false.
Definition ds2 : DState := mkDState (dw_bn w2) false.
Definition pass1 := run dsim (DReconcile "w1" ds1) w1.
Definition pass2 := run dsim (DReconcile "w1" ds2) w2.

Lemma daemon_protocol_witness :
  existsb rebootOk pass2.1.2 = true ∧ guarded daemon_allowed pass2.1.2 ∧
  rebootIssued pass2.2.1 = true.
Proof.
  assert (existsb rebootOk pass2.1.2 = true) as Hr by (vm_compute; reflexivity).
  split; [exact Hr|].
  destruct (wpg_dsim (DReconcile "w1") ds2 w2 pass2 _ eq_refl (daemon_protocol "w1" ds2)) as (Hg & Hi & _).
  split; [exact Hg|]. exact (Hi (rebooted_exists pass2.1.2 Hr)).
Defined.

(** The status patches of a history. *)
Definition patchOf (e : ev dresp) : option (BootcNode * BootcNode) :=
  match ev_req e with DPatchStatus base new => Some (base, new) | _ => None end.

Lemma patchOf_elem (h : dhistory) base new : (base, new) ∈ omap patchOf h → ∃ x, Ev (DPatchStatus base new) x ∈ h.
Proof.
  intros (e & Hin & He)%list_elem_of_omap. destruct e as [r x]. unfold patchOf in He. simpl in He.
  destruct r; try done. injection He as -> ->. by exists x.
Qed.

Lemma daemon_report_classified_witness :
  ∃ base new, (base, new) ∈ omap patchOf pass1.1.2 ∧
    classifyNode new = Ok nodeStateStaged ∧ reported pass1.1.2 base new.
Proof.
  assert (∃ base new, omap patchOf pass1.1.2 = [(base, new)] ∧
    classifyNode new = Ok nodeStateStaged) as (base & new & Hin & Hc).
  { eexists _, _. split; vm_compute; reflexivity. }
  assert ((base, new) ∈ omap patchOf pass1.1.2) as Hin' by (rewrite Hin; apply list_elem_of_here).
  exists base, new. split; [exact Hin'|]. split; [exact Hc|].
  destruct (patchOf_elem _ _ _ Hin') as [x Hx].
  exact (proj2 (wpg_dsim (DReconcile "w1") ds1 w1 pass1 _ eq_refl (daemon_report_classified "w1" ds1) base new x Hx)).
Defined.

(** ** Passes that surprise *)

Definition idleSince (b : BootcNode) : option (option Z) :=
  c_lastTransitionTime <$> FindStatusCondition (bns_Conditions (bn_status b)) NodeIdle.

(** The reboot command fails and is retried later: every pass sets Idle to True
    and back to False, so the time since which the node is rebooting starts anew,
    and the controller's reboot timeout does not fire although the first attempt
    is long ago. *)
Definition stuck : DWorld :=
  mkDWorld 0 (dw_bn w2) (Ok stagedB) op0 None (Err (ErrString "exit status 1")).
Definition stuckLater : DWorld := at_time 1000 (wpass stuck).

Example reboot_clock_restarts :
  idleSince (dw_bn (wpass stuck)) = Some (Some 0%Z) ∧
  idleSince (dw_bn (wpass stuckLater)) = Some (Some 1000%Z) ∧
  classifyNode (dw_bn (wpass stuckLater)) = Ok nodeStateRebooting ∧
  rebootTimedOut (dw_bn (wpass stuck)) 600 1100 = true ∧
  rebootTimedOut (dw_bn (wpass stuckLater)) 600 1100 = false.
Proof. vm_compute. done. Qed.

(** Image B is being staged when the target goes back to what the host runs: the
    pass reports an idle node, but the staging of B goes on, and B is what the
    next reboot would boot. *)
Definition backToA : DWorld :=
  mkDWorld 0 (Samples.bootcNode "w1" Samples.RefA DesiredImageStateStaged None None [] None) (Ok onA)
    (mkStageOp Samples.RefB (Some 0) None 0) None (Ok tt).

Example staging_survives_revert :
  classifyNode (dw_bn (wpass backToA)) = Ok nodeStateUpToDate ∧
  so_image (dw_op (wpass backToA)) = Samples.RefB ∧ so_cancel (dw_op (wpass backToA)) = Some 0.
Proof. vm_compute. done. Qed.

(** Staging B failed, then the target went back to A and on to C: the first pass
    for C reports the failure of B and stages nothing. *)
Definition failedB : DWorld :=
  mkDWorld 0 (Samples.bootcNode "w1" Samples.RefA DesiredImageStateStaged None None [] None) (Ok onA)
    (mkStageOp "" None (Some (ErrString "no space left")) 0) None (Ok tt).
Definition thenC : DWorld :=
  withBn (Samples.bootcNode "w1" Samples.RefC DesiredImageStateStaged None None [] None) (wpass failedB).

Example failure_outlives_revert :
  classifyNode (dw_bn (wpass failedB)) = Ok nodeStateUpToDate ∧
  classifyNode (dw_bn (wpass thenC)) = Ok nodeStateDegraded ∧ so_image (dw_op (wpass thenC)) = "".
Proof. vm_compute. done. Qed.

(** Staging B succeeded, but the cached status is still the old one: the pass that
    the completion triggers stages B again. *)
Definition stale : DWorld :=
  mkDWorld 0 (wanted DesiredImageStateStaged) (Ok onA) (runEnd (acquire op0 Samples.RefB 0).1 false None) None (Ok tt).

Example restages_on_stale_status :
  so_image (dw_op stale) = "" ∧ so_image (dw_op (wpass stale)) = Samples.RefB.
Proof. vm_compute. done. Qed.

(** ** The watcher *)

#[export] Instance hostlib : HostLib := {| Unmarshal s :=
  if s =s "A" then Ok onA else if s =s "B" then Ok stagedB else Err (ErrString "invalid character") |}.

(** The host, as what [bootc status] prints. *)
Definition wsim : handler wresp string := λ r w,
  match r return string * wresp r with
  | WExecStatus => (w, Ok w)
  | WTrySend _ _ => (w, true)
  | WStat _ => (w, true)
  | WNewWatcher => (w, Ok 1)
  | WAdd _ _ => (w, Ok tt)
  | WCloseFs _ => (w, tt)
  | WNewTicker _ => (w, 2)
  | WStopTicker _ => (w, tt)
  | WCloseReady => (w, tt)
  end.

Definition watcher0 : StatusWatcher := mkWatcher 0 "/ostree" "/composefs" "w1" true (Some onA) true.
Definition wrun := run wsim (refreshAndNotify watcher0) "B".

Lemma wpg_wsim {A : Set} (m : wgo StatusWatcher A) s w o Φ :
  run wsim (m s) w = o → wpg m s [] Φ → Φ o.1.2 o.2.1 o.2.2.
Proof.
  intros E H. destruct o as [[w' t] [s' r]]. by apply (wpg_run wsim m s w w' t s' r Φ H).
Qed.

Lemma watcher_notifies_witness :
  started watcher0 = true ∧ cached wrun.2.1 = Some stagedB ∧ length wrun.1.2 = 2 ∧ wrun.2.2 = Ok tt.
Proof.
  split; [reflexivity|]. split; [vm_compute; reflexivity|]. split; [vm_compute; reflexivity|].
  exact (proj1 (wpg_wsim refreshAndNotify watcher0 "B" wrun _ eq_refl (watcher_notifies watcher0 eq_refl))).
Defined.

(** A run of [Start]: fsnotify breaks, the next tick finds the new status, the
    context is cancelled. *)
Example watcher_story :
  let o := run wsim (Start [Tick; FsError (ErrString "overflow"); Tick; CtxDone]
                       (mkLoop (setCached None watcher0) None None None None None)) "B" in
  o.2.2 = Ok true ∧ cached (watcher o.2.1) = Some stagedB ∧
  (ev_req <$> o.1.2) =
    [WStat "/ostree"; WNewWatcher; WAdd 1 "/ostree"; WCloseReady; WCloseFs 1;
     WNewTicker DefaultPollInterval; WExecStatus; WTrySend "w1" (Some stagedB, true); WStopTicker 2].
Proof. vm_compute. done. Qed.
End DaemonWitness.
