(* ===== verification/Watches.v ===== *)
(** * Watches: which pools an event wakes

    The event side of [bootcnodepool_controller.go]: the functions that map a
    Node, a Secret or a Karpenter NodeClaim to the pools to reconcile, the
    predicates that drop irrelevant events before them, and the discovery of the
    NodeClaim resource.  A [reconcile.Request] for a pool is its name. *)

From S2P Require Import Prelude Effects Types Library LibModel Client Samples Sim Karpenter Classify PoolStatus Slots Utf8 Events Drain Reconcile.

(** [client.Object]: what a watch delivers, by its dynamic type. *)
Inductive clientObject : Set :=
| ObjNode (n : Node)
| ObjSecret (s : Secret)
| ObjOther (goType : string).

(** controller-runtime's typed events. *)
Inductive watchEvent : Set :=
| CreateEvent (obj : clientObject)
| UpdateEvent (old new : clientObject)
| DeleteEvent (obj : clientObject)
| GenericEvent (obj : clientObject).

(** The kind in the owner references the controller compares with. *)
Definition kindPool : string := "BootcNodePool".
Definition SecretTypeDockerConfigJson : string := "kubernetes.io/dockerconfigjson".

(** ** Predicates *)

(** [nodeLabelsChanged]. *)
Definition nodeLabelsChanged (oldNode newNode : Node) : bool :=
  negb (bool_decide (om_labels (node_meta oldNode) = om_labels (node_meta newNode))).

(** [nodeReadyConditionChanged]. *)
Definition nodeReadyConditionChanged (oldNode newNode : Node) : bool :=
  negb (nodeReadyStatus oldNode =s nodeReadyStatus newNode).

(** [nodeUnschedulableChanged]. *)
Definition nodeUnschedulableChanged (oldNode newNode : Node) : bool :=
  xorb (node_unschedulable oldNode) (node_unschedulable newNode).

(** [karpenterRebootTaintChanged]. *)
Definition karpenterRebootTaintChanged (oldNode newNode : Node) : bool :=
  xorb (hasKarpenterRebootTaint oldNode) (hasKarpenterRebootTaint newNode).

(** [osNotReadyTaintChanged]. *)
Definition osNotReadyTaintChanged (oldNode newNode : Node) : bool :=
  xorb (nodeHasOsNotReadyTaint oldNode) (nodeHasOsNotReadyTaint newNode).

(** [nodePredicates]. *)
Definition nodePredicates (e : watchEvent) : bool :=
  match e with
  | CreateEvent _ | DeleteEvent _ | GenericEvent _ => true
  | UpdateEvent (ObjNode oldNode) (ObjNode newNode) =>
      nodeLabelsChanged oldNode newNode || nodeReadyConditionChanged oldNode newNode ||
      nodeUnschedulableChanged oldNode newNode || karpenterRebootTaintChanged oldNode newNode ||
      osNotReadyTaintChanged oldNode newNode
  | UpdateEvent _ _ => true
  end.

(** [secretTypePredicate]; an update is judged by its new object. *)
Definition secretTypePredicate (e : watchEvent) : bool :=
  match e with
  | CreateEvent obj | UpdateEvent _ obj | DeleteEvent obj | GenericEvent obj =>
      match obj with ObjSecret s => secret_type s =s SecretTypeDockerConfigJson | _ => false end
  end.

(** ** Map functions *)

Section Mappers.
Context {L : Lib} {S : Type}.
Local Open Scope go_scope.

(** [nodeSelectorMatchesNode]. *)
Definition nodeSelectorMatchesNode (sel : option LabelSelector) (node : Node) : result bool :=
  match LabelSelectorAsSelector sel with
  | Err e => Err e
  | Ok selector => Ok (selector (om_labels (node_meta node)))
  end.

(** [if !seen[key] { requests = append(requests, key); seen[key] = true }]; the
    set [seen] holds exactly the requests. *)
Definition enqueue (requests : list string) (key : string) : list string :=
  if bool_decide (key ∈ requests) then requests else requests ++ [key].

(** The first loop of [mapNodeToPoolRequests]. *)
Fixpoint selectorLoop (node : Node) (pools : list BootcNodePool) (requests : list string) : list string :=
  match pools with
  | [] => requests
  | pool :: pools =>
      selectorLoop node pools
        (match nodeSelectorMatchesNode (NodeSelector (pool_spec pool)) node with
         | Err _ => requests
         | Ok matches => if matches then enqueue requests (pool_name pool) else requests
         end)
  end.

(** The second loop. *)
Fixpoint ownerLoop (refs : list OwnerReference) (requests : list string) : list string :=
  match refs with
  | [] => requests
  | ref :: refs =>
      ownerLoop refs (if ref_kind ref =s kindPool then enqueue requests (ref_name ref) else requests)
  end.

(** [mapNodeToPoolRequests]. *)
Definition mapNodeToPoolRequests (obj : clientObject) : ctl S (list string) :=
  match obj with
  | ObjNode node =>
      pools <- call ListPools ;;
      match pools with
      | Err _ => ret []
      | Ok pools =>
          let requests := selectorLoop node pools [] in
          bn <- call (GetBootcNode (node_name node)) ;;
          match bn with
          | Err _ => ret requests
          | Ok bootcNode => ret (ownerLoop (om_ownerReferences (bn_meta bootcNode)) requests)
          end
      end
  | _ => ret []
  end.

(** The condition of [mapSecretToPoolRequests]. *)
Definition refersTo (secret : Secret) (pool : BootcNodePool) : bool :=
  match bnp_PullSecretRef (pool_spec pool) with
  | None => false
  | Some ref =>
      (psr_name ref =s om_name (secret_meta secret)) &&
      (psr_namespace ref =s om_namespace (secret_meta secret))
  end.

(** [mapSecretToPoolRequests]. *)
Definition mapSecretToPoolRequests (obj : clientObject) : ctl S (list string) :=
  match obj with
  | ObjSecret secret =>
      pools <- call ListPools ;;
      match pools with
      | Err _ => ret []
      | Ok pools => ret (List.map pool_name (List.filter (refersTo secret) pools))
      end
  | _ => ret []
  end.

(** [mapNodeClaimToPoolRequests]: every error is logged and drops the event. *)
Definition mapNodeClaimToPoolRequests (obj : claimObject) : ctl S (list string) :=
  match NodeNameFromObject obj with
  | (_, _, Some _) => ret []
  | (nodeName, _, None) =>
      if nodeName =s "" then ret []
      else
        bn <- call (GetBootcNode nodeName) ;;
        match bn with
        | Err _ => ret []
        | Ok bn =>
            match GetControllerOf (bn_meta bn) with
            | None => ret []
            | Some owner => if negb (ref_kind owner =s kindPool) then ret [] else ret [ref_name owner]
            end
        end
  end.
End Mappers.

(** [isKarpenterInstalled]: what the REST mapper answers decides; only "no match"
    means that Karpenter is not there. *)
Definition isKarpenterInstalled (noMatch : error → bool) (mapping : result unit) : result bool :=
  match mapping with
  | Ok _ => Ok true
  | Err e => if noMatch e then Ok false else Err (ErrWrap "discovering Karpenter NodeClaim" e)
  end.

(** ** Wiring *)

(** What the controller watches, as the builder is told: the kind of object, who is
    enqueued for an event, and the predicate that filters the events. *)
Inductive enqueuer : Set :=
| EnqueueForObject
| EnqueueForControllerOwner (kind : string)
| EnqueueMapped (mapper : string).

Record watch : Set := mkWatch { w_kind : string; w_enqueue : enqueuer; w_predicate : option (watchEvent → bool) }.

Record Controller : Set := mkController {
  ct_name : string;
  ct_recorder : string;
  ct_channel : nat;                        (* capacity of the channel it makes *)
  ct_drains : gmap string drainStatus;
  ct_watches : list watch
}.

Definition baseWatches : list watch :=
  [mkWatch "BootcNodePool" EnqueueForObject None;
   mkWatch "BootcNode" (EnqueueForControllerOwner kindPool) None;
   mkWatch "Node" (EnqueueMapped "mapNodeToPoolRequests") (Some nodePredicates);
   mkWatch "Secret" (EnqueueMapped "mapSecretToPoolRequests") (Some secretTypePredicate);
   mkWatch "drainCh" EnqueueForObject None].

(** [SetupWithManager]; [complete] is the builder's [Complete]. *)
Definition SetupWithManager (noMatch : error → bool) (mapping : result unit) (complete : Controller → result unit)
    : result Controller :=
  match isKarpenterInstalled noMatch mapping with
  | Err e => Err e
  | Ok karpenterInstalled =>
      let watches :=
        if karpenterInstalled
        then baseWatches ++ [mkWatch (nc_kind NewNodeClaim) (EnqueueMapped "mapNodeClaimToPoolRequests") None]
        else baseWatches in
      let c := mkController "bootcnodepool" "bootc-operator" 100 ∅ watches in
      match complete c with Ok _ => Ok c | Err e => Err e end
  end.

(** [SetupWithManager] of the daemon's reconciler: changes of the spec, the end of a
    staging, and a changed host status; [generationChanged] stands for
    [predicate.GenerationChangedPredicate]. *)
Definition DSetupWithManager (generationChanged : watchEvent → bool) (complete : Controller → result unit) : result Controller :=
  let c := mkController "bootcnode" "" 1 ∅
    [mkWatch "BootcNode" EnqueueForObject (Some generationChanged);
     mkWatch "stageDone" EnqueueForObject None;
     mkWatch "StatusWatcher.Events" EnqueueForObject None] in
  match complete c with Ok _ => Ok c | Err e => Err e end.

(** Karpenter is optional: without its resource the controller starts and watches
    everything else; NodeClaims are watched exactly when the resource is there; an
    error of the discovery other than "no match" stops the start. *)
Lemma SetupWithManager_karpenter noMatch mapping complete c :
  SetupWithManager noMatch mapping complete = Ok c →
  baseWatches `prefix_of` ct_watches c ∧ ct_drains c = ∅ ∧
  (NodeClaimKind ∈ w_kind <$> ct_watches c ↔ mapping = Ok tt) ∧
  (∀ e, mapping = Err e → noMatch e = true).
Proof.
  unfold SetupWithManager, isKarpenterInstalled. destruct mapping as [[]|e]; [|destruct (noMatch e) eqn:En; [|done]];
    (destruct (complete _); [|done]); intros [= <-]; simpl; split_and!; try done; try naive_solver.
  - by eexists.
  - split; [done|]. intros _. set_solver.
  - split; [|done]. intros Hin%list_elem_of_In. simpl in Hin. by intuition.
Qed.

(** ** Lemmas *)

Lemma elem_of_enqueue requests key k : k ∈ enqueue requests key ↔ k ∈ requests ∨ k = key.
Proof. unfold enqueue. case_bool_decide; set_solver. Qed.

Lemma NoDup_enqueue requests key : NoDup requests → NoDup (enqueue requests key).
Proof.
  intros H. unfold enqueue. case_bool_decide as E; [done|].
  apply NoDup_app. split_and!; [done|set_solver|apply NoDup_singleton].
Qed.

#[export] Hint Rewrite elem_of_enqueue : bootc_simpl.
#[export] Hint Resolve NoDup_enqueue : bootc.

Section MapperLemmas.
Context {L : Lib} {S : Type}.
Implicit Types (h : history) (s : S).

(** The pool selects the node. *)
Definition selects (pool : BootcNodePool) (node : Node) : Prop :=
  nodeSelectorMatchesNode (NodeSelector (pool_spec pool)) node = Ok true.

(** The BootcNode names a pool as its owner. *)
Definition owned_by (bn : BootcNode) (name : string) : Prop :=
  ∃ ref, ref ∈ om_ownerReferences (bn_meta bn) ∧ ref_kind ref = kindPool ∧ ref_name ref = name.

Lemma selectorLoop_spec node pools requests :
  (NoDup requests → NoDup (selectorLoop node pools requests)) ∧
  ∀ k, k ∈ selectorLoop node pools requests ↔
       k ∈ requests ∨ ∃ pool, pool ∈ pools ∧ pool_name pool = k ∧ selects pool node.
Proof.
  revert requests. induction pools as [|pool pools IH]; intros requests; simpl; [set_solver|].
  set (requests' := match nodeSelectorMatchesNode _ node with Ok _ => _ | Err _ => _ end).
  assert (NoDup requests → NoDup requests') as Hd.
  { subst requests'. repeat split_match; auto with bootc. }
  assert (∀ k, k ∈ requests' ↔ k ∈ requests ∨ pool_name pool = k ∧ selects pool node) as Hr.
  { intros k. subst requests'. unfold selects.
    destruct (nodeSelectorMatchesNode _ node) as [[]|e]; rewrite ?elem_of_enqueue; naive_solver. }
  destruct (IH requests') as [H1 H2]. split; [auto|]. intros k. rewrite H2, Hr. set_solver.
Qed.

Lemma ownerLoop_spec refs requests :
  (NoDup requests → NoDup (ownerLoop refs requests)) ∧
  ∀ k, k ∈ ownerLoop refs requests ↔
       k ∈ requests ∨ ∃ ref, ref ∈ refs ∧ ref_kind ref = kindPool ∧ ref_name ref = k.
Proof.
  revert requests. induction refs as [|ref refs IH]; intros requests; simpl; [set_solver|].
  destruct (ref_kind ref =s kindPool) eqn:Ek.
  - apply seq_b_true in Ek. destruct (IH (enqueue requests (ref_name ref))) as [H1 H2].
    split; [auto with bootc|]. intros k. rewrite H2, elem_of_enqueue. set_solver.
  - apply seq_b_false in Ek. destruct (IH requests) as [H1 H2]. split; [done|]. intros k. rewrite H2. set_solver.
Qed.

(** The answers of an event, for comparing events. *)
Definition listed (e : event) : option (result (list BootcNodePool)) :=
  let '(Ev r x) := e in match r return resp r → option (result (list BootcNodePool)) with ListPools => λ x, Some x | _ => λ _, None end x.
Definition fetched_bn (e : event) : option (result BootcNode) :=
  let '(Ev r x) := e in match r return resp r → option (result BootcNode) with GetBootcNode _ => λ x, Some x | _ => λ _, None end x.

Lemma listed_inj x y : (Ev ListPools x : event) = Ev ListPools y → x = y.
Proof. intros H%(f_equal listed). by injection H. Qed.

(** What [mapNodeToPoolRequests] returns for a Node, whatever it is answered. *)
Definition node_requests (node : Node) h (requests : list string) : Prop :=
  NoDup requests ∧
  ((∀ pools, Ev ListPools (Ok pools) ∉ h) → requests = []) ∧
  ∀ pools, Ev ListPools (Ok pools) ∈ h → ∀ k, k ∈ requests ↔
    (∃ pool, pool ∈ pools ∧ pool_name pool = k ∧ selects pool node) ∨
    (∃ bn, Ev (GetBootcNode (node_name node)) (Ok bn) ∈ h ∧ owned_by bn k).

Lemma wpg_mapNodeToPoolRequests node s :
  wpg (mapNodeToPoolRequests (ObjNode node)) s [] (λ h s' r,
    s' = s ∧ ∃ requests, r = Ok requests ∧ node_requests node h requests).
Proof.
  unfold mapNodeToPoolRequests. go_step. go_step. destruct x as [pools|e]; cycle 1.
  { go_step. split; [done|]. eexists. split; [done|]. split_and!; [apply NoDup_nil_2|done|].
    by intros pools Hin%list_elem_of_singleton%listed_inj. }
  go_step. apply (wpg_call (resp := resp) (GetBootcNode _)). intros x.
  destruct (selectorLoop_spec node pools []) as [Hd Hs]. specialize (Hd (NoDup_nil_2 )).
  assert (∀ pools', Ev ListPools (Ok pools') ∈ ([] ++ [Ev ListPools (Ok pools)]) ++ [Ev (GetBootcNode (node_name node)) x] →
    pools' = pools) as Hp.
  { intros pools' Hin. apply elem_of_app in Hin as [Hin|Hin]; apply list_elem_of_singleton in Hin.
    - apply listed_inj in Hin. by injection Hin.
    - by apply (f_equal listed) in Hin. }
  assert (∀ y, Ev (GetBootcNode (node_name node)) y ∈ ([] ++ [Ev ListPools (Ok pools)]) ++ [Ev (GetBootcNode (node_name node)) x] →
    y = x) as Hb.
  { intros y Hin. apply elem_of_app in Hin as [Hin|Hin]; apply list_elem_of_singleton, (f_equal fetched_bn) in Hin; [done|].
    by injection Hin. }
  destruct x as [bn|e]; go_step; (split; [done|]; eexists; split; [done|]).
  - destruct (ownerLoop_spec (om_ownerReferences (bn_meta bn)) (selectorLoop node pools [])) as [Hd' Hs'].
    split_and!; [auto|by intros Hno; destruct (Hno pools); set_solver|].
    intros pools' ->%Hp k. rewrite Hs', Hs. unfold owned_by. split.
    + intros [[Hk|Hk]|Hk]; [by apply elem_of_nil in Hk|by left|right; exists bn; set_solver].
    + intros [Hk|(bn' & Hin & Hk)]; [auto|]. right.
      apply Hb in Hin as [= ->]. done.
  - split_and!; [done|by intros Hno; destruct (Hno pools); set_solver|].
    intros pools' ->%Hp k. rewrite Hs. split.
    + intros [Hk|Hk]; [by apply elem_of_nil in Hk|by left].
    + intros [Hk|(bn' & Hin & Hk)]; [auto|]. by apply Hb in Hin.
Qed.

(** A selector that changes its mind about a node does so because of the labels. *)
Lemma match_change_labels sel old new :
  nodeSelectorMatchesNode sel old ≠ nodeSelectorMatchesNode sel new →
  nodePredicates (UpdateEvent (ObjNode old) (ObjNode new)) = true.
Proof.
  intros Hne. simpl. unfold nodeLabelsChanged. case_bool_decide as E; [|done].
  destruct Hne. unfold nodeSelectorMatchesNode. by rewrite E.
Qed.

(** C34. Node events reach the pools.  Whatever the API server answers, the
    requests for a Node are exactly, and each once, the listed pools whose
    selector matches it and the pools that own its BootcNode.  So a change of
    membership is never missed: when an update changes whether a pool selects the
    node, the update passes the predicates, and the pool is woken when the node
    joins, and also when it leaves provided the pool owns the node's BootcNode
    (which it does since it joined). *)
Theorem node_event_wakes_pools node s :
  wpg (mapNodeToPoolRequests (ObjNode node)) s [] (λ h s' r,
    s' = s ∧ ∃ requests, r = Ok requests ∧ node_requests node h requests ∧
    ∀ pools pool old, Ev ListPools (Ok pools) ∈ h → pool ∈ pools →
      nodeSelectorMatchesNode (NodeSelector (pool_spec pool)) old ≠
        nodeSelectorMatchesNode (NodeSelector (pool_spec pool)) node →
      nodePredicates (UpdateEvent (ObjNode old) (ObjNode node)) = true ∧
      (selects pool node → pool_name pool ∈ requests) ∧
      (selects pool old →
       (∃ bn, Ev (GetBootcNode (node_name node)) (Ok bn) ∈ h ∧ owned_by bn (pool_name pool)) →
       pool_name pool ∈ requests)).
Proof.
  eapply wpg_mono; [|apply wpg_mapNodeToPoolRequests]. intros h s' r (-> & requests & -> & Hr).
  split; [done|]. exists requests. split_and!; [done|done|]. destruct Hr as (_ & _ & Hr).
  intros pools pool old Hin Hpool Hne. specialize (Hr pools Hin). split_and!; [by eapply match_change_labels| |].
  - intros Hs. apply Hr. left. eauto.
  - intros _ Hbn. apply Hr. by right.
Qed.

(** The pool's spec names this Secret as its pull secret, by name and namespace. *)
Definition pullsWith (secret : Secret) (pool : BootcNodePool) : Prop :=
  ∃ ref, bnp_PullSecretRef (pool_spec pool) = Some ref ∧
    psr_name ref = om_name (secret_meta secret) ∧ psr_namespace ref = om_namespace (secret_meta secret).

Lemma refersTo_spec secret pool : refersTo secret pool = true ↔ pullsWith secret pool.
Proof.
  unfold refersTo, pullsWith. destruct (bnp_PullSecretRef (pool_spec pool)) as [ref|].
  - rewrite andb_true_iff, !seq_b_true. split; [intros [??]; by exists ref|]. by intros (? & [= <-] & ? & ?).
  - split; [done|]. by intros (? & ? & _).
Qed.

(** C35. Secret events reach the pools.  When the pools can be listed, the requests
    for a Secret are exactly the names of the listed pools whose pull secret
    reference has the Secret's name and namespace, and no other pool is woken;
    otherwise there are none. A pool whose pass would read this Secret (see
    [fetchPullSecretData]) is among them. *)
Theorem secret_event_wakes_pools `{Config} secret s :
  wpg (mapSecretToPoolRequests (ObjSecret secret)) s [] (λ h s' r,
    s' = s ∧ ∃ requests, r = Ok requests ∧
    ((∀ pools, Ev ListPools (Ok pools) ∉ h) → requests = []) ∧
    ∀ (pools : list BootcNodePool), Ev ListPools (Ok pools) ∈ h →
      (∀ k, k ∈ requests ↔ ∃ pool ref, pool ∈ pools ∧ pool_name pool = k ∧
         bnp_PullSecretRef (pool_spec pool) = Some ref ∧
         psr_name ref = om_name (secret_meta secret) ∧
         psr_namespace ref = om_namespace (secret_meta secret)) ∧
      ∀ pool (s2 : S), pool ∈ pools → wpg (fetchPullSecretData pool) s2 [] (λ h2 _ _,
        ∀ x, Ev (GetSecret (om_namespace (secret_meta secret)) (om_name (secret_meta secret))) x ∈ h2 →
             pool_name pool ∈ requests)).
Proof.
  unfold mapSecretToPoolRequests. go_step. go_step. destruct x as [pools|e]; go_step; (split; [done|]); eexists;
    (split; [done|]); cycle 1.
  { split; [done|]. by intros pools Hin%list_elem_of_singleton%listed_inj. }
  split; [by intros Hno; destruct (Hno pools); set_solver|]. intros pools' Hin%list_elem_of_singleton%listed_inj. injection Hin as ->.
  assert (∀ k, k ∈ List.map pool_name (List.filter (refersTo secret) pools) ↔
    ∃ pool, pool ∈ pools ∧ pool_name pool = k ∧ pullsWith secret pool) as Hk.
  { intros k. rewrite (list_elem_of_fmap pool_name). setoid_rewrite elem_of_filter_b.
    setoid_rewrite refersTo_spec. split.
    - intros (pool & -> & ? & ?). by exists pool.
    - intros (pool & ? & <- & ?). by exists pool. }
  split.
  { intros k. rewrite Hk. split.
    - intros (pool & ? & ? & ref & ?). by exists pool, ref.
    - intros (pool & ref & ? & ? & ?). exists pool. split_and!; [done..|by exists ref]. }
  intros pool s2 Hpool. unfold fetchPullSecretData.
  destruct (bnp_PullSecretRef (pool_spec pool)) as [ref|] eqn:Er; [|by go_step; intros x Hin%elem_of_nil].
  split_match; [by go_step; intros x Hin%elem_of_nil|]. go_step. go_step. apply wpg_callE. intros y.
  assert (∀ x, Ev (GetSecret (om_namespace (secret_meta secret)) (om_name (secret_meta secret))) x ∈
    [] ++ [Ev (GetSecret (psr_namespace ref) (psr_name ref)) y] →
    pool_name pool ∈ List.map pool_name (List.filter (refersTo secret) pools)) as Hgoal.
  { intros x Hin%list_elem_of_singleton%(f_equal ev_req). injection Hin as En Em. apply Hk. exists pool.
    split_and!; [done..|]. by exists ref. }
  destruct y as [sec|e]; cbv [id]; [|done]. split_match; go_step; exact Hgoal.
Qed.

(** The only pool a NodeClaim wakes is the controller of its node's BootcNode. *)
Lemma claim_requests obj s :
  wpg (mapNodeClaimToPoolRequests obj) s [] (λ h s' r,
    s' = s ∧ ∃ requests, r = Ok requests ∧ ∀ k, k ∈ requests →
    requests = [k] ∧ ∃ node claim bn ref,
      NodeNameFromObject obj = (node, claim, None) ∧ Ev (GetBootcNode node) (Ok bn) ∈ h ∧
      GetControllerOf (bn_meta bn) = Some ref ∧ ref_kind ref = kindPool ∧ ref_name ref = k).
Proof.
  unfold mapNodeClaimToPoolRequests.
  assert (∀ h, wpg (ret [] : ctl S (list string)) s h (λ h s' r, s' = s ∧ ∃ requests, r = Ok requests ∧ ∀ k, k ∈ requests →
    requests = [k] ∧ ∃ node claim bn ref,
      NodeNameFromObject obj = (node, claim, None) ∧ Ev (GetBootcNode node) (Ok bn) ∈ h ∧
      GetControllerOf (bn_meta bn) = Some ref ∧ ref_kind ref = kindPool ∧ ref_name ref = k)) as Hnil.
  { intros h. go_step. split; [done|]. exists []. split; [done|]. by intros k Hk%elem_of_nil. }
  destruct (NodeNameFromObject obj) as [[node claim] [e|]] eqn:Eo; [apply Hnil|].
  destruct (node =s ""); [apply Hnil|].
  go_step. apply (wpg_call (resp := resp) (GetBootcNode _)). intros x.
  destruct x as [bn|e]; [|apply Hnil].
  destruct (GetControllerOf (bn_meta bn)) as [ref|] eqn:Er; [|apply Hnil].
  destruct (ref_kind ref =s kindPool) eqn:Ek; simpl; [|apply Hnil]. go_step. split; [done|]. eexists. split; [done|].
  intros k ->%list_elem_of_singleton. split; [done|]. exists node, claim, bn, ref.
  split_and!; [done|set_solver|done|by apply seq_b_true|done].
Qed.
End MapperLemmas.

Module WatchesWitness.
Import LibModel.

(** Node "w1" loses its worker label while pool "workers" owns its BootcNode. *)
Definition labelled : Node := Samples.node "w1" None.
Definition unlabelled : Node := setNodeLabels None labelled.
Definition world0 : World :=
  mkWorld 0 {["workers" := Samples.pool None]} {["w1" := unlabelled]}
    {["w1" := Samples.upToDateNode "w1" None]} ∅ ∅ ∅ ∅.
Definition requestsOf (obj : clientObject) (w : World) := (run sim (mapNodeToPoolRequests obj tt) w).2.2.

(** The update passes the predicates, neither the old nor the new labels matter
    for the owner, and an unrelated update is dropped. *)
Example leaving_node_wakes_owner :
  nodePredicates (UpdateEvent (ObjNode labelled) (ObjNode unlabelled)) = true ∧
  requestsOf (ObjNode unlabelled) world0 = Ok ["workers"] ∧
  nodePredicates (UpdateEvent (ObjNode labelled) (ObjNode (setNodeAnnotations (GoMap.set None "a" "b") labelled))) = false.
Proof. vm_compute. done. Qed.

Lemma node_event_wakes_pools_witness :
  requestsOf (ObjNode unlabelled) world0 = Ok ["workers"] ∧
  ∃ requests, requestsOf (ObjNode unlabelled) world0 = Ok requests ∧
    node_requests unlabelled (run sim (mapNodeToPoolRequests (ObjNode unlabelled) tt) world0).1.2 requests.
Proof.
  split; [vm_compute; reflexivity|].
  destruct (wpg_sim _ _ world0 _ (node_event_wakes_pools unlabelled tt)) as [_ (_ & requests & H1 & H2 & _)].
  exists requests. split; [exact H1|exact H2].
Defined.
End WatchesWitness.
