(* ===== verification/PullSecret.v ===== *)
(** * PullSecret: the namespaces pools may take pull secrets from

    [internal/controller/pullsecret.go]: the allow list the controller is started
    with, and the restriction of its Secret cache to the same namespaces. *)

From Stdlib Require Import Ascii.
From S2P Require Import Prelude Types Library LibModel Strings.

Section PullSecret.
Context {L : Lib}.

(** The loop of [ParsePullSecretNamespaces]. *)
Fixpoint parseLoop (pieces namespaces : list string) : result (list string) :=
  match pieces with
  | [] => Ok namespaces
  | piece :: pieces =>
      let ns := TrimSpace piece in
      if (ns =s "") || bool_decide (ns ∈ namespaces) then parseLoop pieces namespaces
      else
        let errs := IsDNS1123Label ns in
        if (0 <? length errs) then
          Err (ErrString ("invalid namespace " +:+ quoted ns +:+ ": " +:+ join "; " errs))
        else parseLoop pieces (namespaces ++ [ns])
  end.

(** [ParsePullSecretNamespaces]. *)
Definition ParsePullSecretNamespaces (value operatorNamespace : string) : result (list string) :=
  parseLoop (operatorNamespace :: Split ","%char value) [].
End PullSecret.

(** [SecretCacheByObject]: the namespaces of the Secret informer; their
    configurations are all empty. *)
Definition SecretCacheByObject (namespaces : list string) : gmap string unit :=
  foldl (λ config ns, <[ns := tt]> config) ∅ namespaces.

(** ** Lemmas *)

Lemma cache_lookup namespaces ns : is_Some (SecretCacheByObject namespaces !! ns) ↔ ns ∈ namespaces.
Proof.
  unfold SecretCacheByObject.
  assert (∀ m : gmap string unit, is_Some (foldl (λ config ns, <[ns := tt]> config) m namespaces !! ns) ↔
    is_Some (m !! ns) ∨ ns ∈ namespaces) as H.
  { induction namespaces as [|n l IH]; intros m; simpl; [set_solver|].
    rewrite IH, elem_of_cons. destruct (decide (n = ns)) as [->|Hne].
    - rewrite lookup_insert_eq. naive_solver.
    - rewrite lookup_insert_ne by done. naive_solver. }
  rewrite H, lookup_empty. split; [intros [[? ?]|?]; done|by right].
Qed.

Section Facts.
Context {L : Lib}.

(** The texts in [pieces] that name a namespace. *)
Definition named (pieces : list string) (ns : string) : Prop :=
  ns ≠ "" ∧ ∃ piece, piece ∈ pieces ∧ TrimSpace piece = ns.

Definition valid (ns : string) : Prop := ns ≠ "" ∧ IsDNS1123Label ns = [].

Lemma named_cons piece pieces ns :
  named (piece :: pieces) ns ↔ TrimSpace piece = ns ∧ ns ≠ "" ∨ named pieces ns.
Proof. unfold named. set_solver. Qed.

(** The loop, for what was collected before it. *)
Lemma parseLoop_spec pieces namespaces :
  Forall valid namespaces → NoDup namespaces →
  match parseLoop pieces namespaces with
  | Ok l => Forall valid l ∧ NoDup l ∧ (∃ t, l = namespaces ++ t) ∧
            ∀ ns, ns ∈ l ↔ ns ∈ namespaces ∨ named pieces ns
  | Err _ => ∃ ns, named pieces ns ∧ ¬ valid ns
  end.
Proof.
  revert namespaces. induction pieces as [|piece pieces IH]; intros namespaces Hv Hd; simpl.
  { split_and!; [done|done|by exists []; rewrite app_nil_r|]. intros ns. unfold named. set_solver. }
  set (ns := TrimSpace piece).
  destruct ((ns =s "") || bool_decide (ns ∈ namespaces)) eqn:Eskip.
  - specialize (IH namespaces Hv Hd). destruct (parseLoop pieces namespaces) as [l|e].
    + destruct IH as (H1 & H2 & H3 & H4). split_and!; [done..|]. intros k. rewrite H4, named_cons.
      apply orb_true_iff in Eskip as [E%seq_b_true|E%bool_decide_eq_true_1]; set_solver.
    + destruct IH as (k & Hk & Hn). exists k. rewrite named_cons. auto.
  - apply orb_false_iff in Eskip as [E1%seq_b_false E2%bool_decide_eq_false_1].
    destruct (IsDNS1123Label ns) as [|err errs] eqn:Elab; simpl.
    + assert (valid ns) as Hns by done.
      specialize (IH (namespaces ++ [ns]) ltac:(by apply Forall_app; split; [|apply Forall_singleton])
        ltac:(apply NoDup_app; split_and!; [done|set_solver|apply NoDup_singleton])).
      destruct (parseLoop pieces (namespaces ++ [ns])) as [l|e].
      * destruct IH as (H1 & H2 & [t ->] & H4). split_and!; [done|done|exists (ns :: t); by rewrite <- app_assoc|].
        intros k. rewrite H4, named_cons. set_solver.
      * destruct IH as (k & Hk & Hn). exists k. rewrite named_cons. auto.
    + exists ns. rewrite named_cons. split; [auto|]. unfold valid. rewrite Elab. naive_solver.
Qed.

(** The characters of a label are no white space and no comma. *)
Lemma label_char_plain a : label_char a = true → spaceEdge a = false ∧ a ≠ ","%char.
Proof.
  destruct (label_char a && (spaceEdge a || bool_decide (a = ","%char))) eqn:E.
  { exfalso. revert a E.
    assert (forallb (λ n, let a := ascii_of_nat n in
      negb (label_char a && (spaceEdge a || bool_decide (a = ","%char)))) (seq 0 256) = true) as Hall
      by (vm_compute; reflexivity).
    intros a E. rewrite forallb_forall in Hall.
    specialize (Hall (nat_of_ascii a)). cbv zeta in Hall. rewrite ascii_nat_embedding, E in Hall.
    apply Bool.negb_true_iff in Hall; [done|]. apply in_seq. pose proof (nat_ascii_bounded a). lia. }
  intros Ha. rewrite Ha in E. simpl in E. apply orb_false_iff in E as [E1 E2].
  split; [done|]. by apply bool_decide_eq_false_1 in E2.
Qed.

Context {HL : LibLaws L}.

Lemma valid_plain ns : valid ns → TrimSpace ns = ns ∧ ","%char ∉ bytes_of ns.
Proof.
  intros [_ Hl%dns_label_chars]. rewrite forallb_forall in Hl.
  assert (∀ a, a ∈ bytes_of ns → spaceEdge a = false ∧ a ≠ ","%char) as Hp.
  { intros a Ha%list_elem_of_In. by apply label_char_plain, Hl. }
  split; [apply trimSpace_id; intros a Ha; by apply Hp|]. intros Ha. by destruct (Hp _ Ha).
Qed.

(** Parsing a list of distinct labels gives the list. *)
Lemma parseLoop_valid l namespaces :
  Forall valid (namespaces ++ l) → NoDup (namespaces ++ l) → parseLoop l namespaces = Ok (namespaces ++ l).
Proof.
  revert namespaces. induction l as [|ns l IH]; intros namespaces Hv Hd; [by rewrite app_nil_r|].
  assert (valid ns) as Hns by (rewrite Forall_forall in Hv; apply Hv; set_solver).
  assert (ns ∉ namespaces) as Hnew by (apply NoDup_app in Hd as (_ & Hd & _); set_solver).
  simpl. destruct (valid_plain ns Hns) as [-> _]. destruct Hns as [Hne Hlab].
  rewrite (proj2 (seq_b_false _ _) Hne), bool_decide_false by done. rewrite Hlab. simpl.
  rewrite IH; rewrite <- app_assoc; done.
Qed.

(** C36. The allow list.  [ParsePullSecretNamespaces] succeeds exactly when every
    non-empty entry, white space trimmed, is a namespace name.  Then the list holds
    exactly these entries and the operator's own namespace, each once, the
    operator's first; the Secret cache is restricted to exactly the list; and
    writing the list down with commas and parsing it gives it back. *)
Theorem pull_secret_namespaces value operatorNamespace :
  let pieces := operatorNamespace :: Split ","%char value in
  (is_ok (ParsePullSecretNamespaces value operatorNamespace) = true ↔ ∀ ns, named pieces ns → valid ns) ∧
  ∀ l, ParsePullSecretNamespaces value operatorNamespace = Ok l →
    NoDup l ∧ (∀ ns, ns ∈ l ↔ named pieces ns) ∧
    (TrimSpace operatorNamespace ≠ "" → head l = Some (TrimSpace operatorNamespace)) ∧
    (∀ ns, is_Some (SecretCacheByObject l !! ns) ↔ ns ∈ l) ∧
    ParsePullSecretNamespaces (join "," l) "" = Ok l.
Proof.
  intros pieces. unfold ParsePullSecretNamespaces. fold pieces.
  pose proof (parseLoop_spec pieces [] (Forall_nil_2 _) (NoDup_nil_2)) as Hspec.
  destruct (parseLoop pieces []) as [l|e] eqn:Ep; cycle 1.
  { destruct Hspec as (ns & Hn & Hv). split; [|done]. split; [done|]. intros H. by destruct Hv, (H ns Hn). }
  destruct Hspec as (Hv & Hd & _ & Hin).
  assert (∀ ns, ns ∈ l ↔ named pieces ns) as Hin'. { intros ns. rewrite Hin. set_solver. }
  split. { split; [|done]. intros _ ns Hns%Hin'. rewrite Forall_forall in Hv. by apply Hv. }
  intros l' [= <-]. split_and!; [done|done| |apply cache_lookup|].
  - intros Hop. unfold pieces in Ep. cbn [parseLoop] in Ep. cbv zeta in Ep.
    rewrite (proj2 (seq_b_false _ _) Hop), bool_decide_false in Ep by set_solver. cbn [orb] in Ep.
    destruct (0 <? _) eqn:El; [done|]. cbn [app] in Ep.
    pose proof (parseLoop_spec (Split ","%char value) [TrimSpace operatorNamespace]) as Hs. rewrite Ep in Hs.
    destruct Hs as (_ & _ & [t ->] & _); [|apply NoDup_singleton|done].
    apply Forall_singleton. split; [done|]. apply Nat.ltb_ge in El. by destruct (IsDNS1123Label _); [|simpl in El; lia].
  - assert (Forall (λ p, ","%char ∉ bytes_of p) l) as Hc.
    { eapply Forall_impl; [done|]. intros ns Hns. by apply valid_plain. }
    assert (∀ ps, parseLoop ("" :: ps) [] = parseLoop ps []) as Hskip by done. rewrite Hskip.
    destruct l as [|ns l]; [done|]. rewrite Split_join by done. by apply parseLoop_valid.
Qed.
End Facts.

Module PullSecretWitness.
Import LibModel.

Definition flag : string := " team-a, bootc-operator ,,team-b ".

Lemma pull_secret_namespaces_witness :
  ParsePullSecretNamespaces flag "bootc-operator" = Ok ["bootc-operator"; "team-a"; "team-b"] ∧
  is_ok (ParsePullSecretNamespaces "Team A" "bootc-operator") = false ∧
  ParsePullSecretNamespaces (join "," ["bootc-operator"; "team-a"; "team-b"]) "" = Ok ["bootc-operator"; "team-a"; "team-b"].
Proof.
  assert (ParsePullSecretNamespaces flag "bootc-operator" = Ok ["bootc-operator"; "team-a"; "team-b"]) as H
    by (vm_compute; reflexivity).
  split; [exact H|]. split; [vm_compute; reflexivity|].
  destruct (pull_secret_namespaces flag "bootc-operator") as [_ Hl]. exact (proj2 (proj2 (proj2 (proj2 (Hl _ H))))).
Defined.
End PullSecretWitness.
