(* ===== verification/Executor.v ===== *)
(** * Executor: bootc on the host

    [HostExecutor] of [internal/bootc/executor.go]: the commands the daemon runs
    on the host through nsenter, and what it makes of their results.  The requests
    are the methods of [exec.Cmd]; a command started under a context that may be
    cancelled first answers whether it exited or the context ended. *)

From Stdlib Require Import Ascii.
From S2P Require Import Prelude Effects Strings Bootc.

(** How a command under the caller's context ends. *)
Inductive ended : Set := Exited (err : option error) | CtxDone.

Inductive xreq : Set :=
| XRun (cmd : list string) (timeout : Z)      (* Run, under a context of its own *)
| XOutput (cmd : list string) (timeout : Z)   (* Output, under a context of its own *)
| XOutputCtx (cmd : list string)              (* Output, under the caller's context *)
| XCombined (cmd : list string)               (* CombinedOutput, under the caller's context *)
| XStart (cmd : list string)                  (* Run with a Cancel function *)
| XWait                                       (* ... its result after Cancel was called *)
| XCtxErr.                                    (* ctx.Err() *)

(** After [Cancel] the command does not report success: os/exec then returns the
    context's error. *)
Definition xresp (r : xreq) : Set :=
  match r with
  | XRun _ _ => option error
  | XOutput _ _ => result string
  | XOutputCtx _ => result string
  | XCombined _ => string * option error
  | XStart _ => ended
  | XWait => error
  | XCtxErr => option error
  end.

Abbreviation xgo := (go xresp).
Abbreviation xhistory := (trace xresp).

Definition newline : ascii := ascii_of_nat 10.

Definition stopArgs : list string := ["systemctl"; "stop"; stageUnitName].
Definition cursorArgs : list string := ["journalctl"; "--show-cursor"; "-n"; "0"; "-o"; "cat"].
Definition journalArgs (unit cursor : string) : list string :=
  ["journalctl"; "-o"; "cat"; "--no-pager"; "-u"; unit] ++
  (if cursor =s "" then [] else ["--after-cursor=" +:+ cursor]).
Definition stageArgs (image : string) : list string :=
  ["systemd-run"; "--wait"; "--collect"; "--unit"; stageUnitName] ++ bootcSwitchArgs image.

(** What [journalCursor] makes of the output of journalctl. *)
Definition parseCursor (out : string) : string :=
  match CutPrefix "-- cursor: " (TrimSpace out) with Some after => after | None => "" end.

(** What [copyJournalUnitLogs] keeps of the journal. *)
Definition errorLines (out : string) : string :=
  join (String newline "")
    (List.filter (λ line, negb (line =s "") && HasPrefix line "error:") (Split newline (TrimSpace out))).

Section Executor.
Context {S : Type}.
Local Open Scope go_scope.

(** [HostExecutor.Status]. *)
Definition ExecStatus : xgo S string :=
  out <- call (XOutputCtx (nsenterCmd bootcStatusArgs)) ;;
  match out with
  | Err e => throw (ErrWrap "running bootc status" e)
  | Ok out => ret out
  end.

(** [stopStageUnit]. *)
Definition stopStageUnit : xgo S unit :=
  _ <- call (XRun (nsenterCmd stopArgs) (30 * GoInt.Second)%Z) ;; ret tt.

(** [journalCursor]. *)
Definition journalCursor : xgo S string :=
  out <- call (XOutput (nsenterCmd cursorArgs) (10 * GoInt.Second)%Z) ;;
  match out with
  | Err _ => ret ""
  | Ok out => ret (parseCursor out)
  end.

(** [copyJournalUnitLogs]. *)
Definition copyJournalUnitLogs (unit cursor : string) : xgo S string :=
  out <- call (XOutput (nsenterCmd (journalArgs unit cursor)) (10 * GoInt.Second)%Z) ;;
  match out with
  | Err _ => ret ""
  | Ok out => ret (errorLines out)
  end.

(** [cmd.Run()] for a command whose [Cancel] stops the unit. *)
Definition runStage (cmd : list string) : xgo S (option error) :=
  e <- call (XStart cmd) ;;
  match e with
  | Exited err => ret err
  | CtxDone => stopStageUnit ;;; w <- call XWait ;; ret (Some w)
  end.

(** [HostExecutor.Stage]. *)
Definition Stage (image : string) : xgo S unit :=
  stopStageUnit ;;;
  cursor <- journalCursor ;;
  r <- runStage (nsenterCmd (stageArgs image)) ;;
  match r with
  | None => ret tt
  | Some err =>
      c <- call XCtxErr ;;
      match c with
      | Some ce => throw ce
      | None =>
          journalOutput <- copyJournalUnitLogs stageUnitName cursor ;;
          if negb (journalOutput =s "")
          then throw (ErrWrap ("running bootc switch: " +:+ journalOutput) err)
          else throw (ErrWrap "running bootc switch" err)
      end
  end.

(** [HostExecutor.Reboot]. *)
Definition ExecReboot : xgo S unit :=
  x <- call (XCombined (nsenterCmd systemctlRebootArgs)) ;;
  match x with
  | (out, Some e) => throw (ErrWrap ("running systemctl reboot: " +:+ out) e)
  | (_, None) => ret tt
  end.

(** [HostExecutor.ApplyUpdate]. *)
Definition ExecApplyUpdate (softReboot : bool) : xgo S unit :=
  x <- call (XCombined (nsenterCmd (bootcApplyUpdateArgs softReboot))) ;;
  match x with
  | (out, Some e) => throw (ErrWrap ("running bootc apply: " +:+ out) e)
  | (_, None) => ret tt
  end.
End Executor.

(** ** What [Stage] does to the host *)

Lemma filter_forall {A : Type} (f : A → bool) (P : A → Prop) (l : list A) :
  (∀ x, x ∈ l → P x) → Forall P (List.filter f l).
Proof. intros H. apply Forall_forall. intros x [_ Hx]%elem_of_filter_b. by apply H. Qed.

(** Every line the error message quotes from the journal is an error line. *)
Lemma errorLines_spec out line :
  errorLines out ≠ "" → line ∈ Split newline (errorLines out) →
  HasPrefix line "error:" = true ∧ line ∈ Split newline (TrimSpace out).
Proof.
  unfold errorLines. set (keep := λ line, negb (line =s "") && HasPrefix line "error:").
  set (lines := List.filter keep (Split newline (TrimSpace out))). intros Hne Hin.
  destruct (decide (lines = [])) as [E|Hl]; [by rewrite E in Hne|].
  rewrite Split_join in Hin; [|done|].
  - apply elem_of_filter_b in Hin as [Hk Hin]. by apply andb_true_iff in Hk as [_ Hk].
  - apply filter_forall. intros x. apply Split_pieces.
Qed.

Section StageSafety.
Context {S : Type} (image : string).
Implicit Types (h : xhistory) (s : S).

Definition startAns (e : ev xresp) : option ended :=
  let '(Ev r x) := e in match r return xresp r → option ended with XStart _ => λ x, Some x | _ => λ _, None end x.

(** The switch command failed, or was cancelled and then failed. *)
Definition stage_failed h (err : error) : Prop :=
  (∃ cmd, Ev (XStart cmd) (Exited (Some err)) ∈ h) ∨ Ev XWait err ∈ h.

Definition stage_allowed h (r : xreq) : Prop :=
  match r with
  | XRun cmd _ => cmd = nsenterCmd stopArgs
  | XOutput cmd _ =>
      cmd = nsenterCmd cursorArgs ∨
      (∃ cursor, cmd = nsenterCmd (journalArgs stageUnitName cursor)) ∧
      Ev XCtxErr None ∈ h ∧ ∃ err, stage_failed h err
  | XStart cmd =>
      cmd = nsenterCmd (stageArgs image) ∧
      (∃ t x, Ev (XRun (nsenterCmd stopArgs) t) x ∈ h) ∧
      ∀ cmd' x, Ev (XStart cmd') x ∉ h
  | XWait => ∃ h1 cmd t x, h = h1 ++ [Ev (XStart cmd) CtxDone; Ev (XRun (nsenterCmd stopArgs) t) x]
  | XCtxErr => ∃ err, stage_failed h err
  | XOutputCtx _ | XCombined _ => False
  end.

(** [bootc switch] is started once. *)
Lemma started_once h cmd cmd' x x' :
  guarded stage_allowed h → Ev (XStart cmd) x ∈ h → Ev (XStart cmd') x' ∈ h → x = x'.
Proof.
  intros Hg Hx Hx'.
  assert (∀ cmd1 cmd2 x1 x2 h1 h2, h = h1 ++ Ev (XStart cmd1) x1 :: h2 → Ev (XStart cmd2) x2 ∉ h1) as Hno.
  { intros cmd1 cmd2 x1 x2 h1 h2 E. destruct (Hg h1 (Ev (XStart cmd1) x1) h2 E) as (_ & _ & H). apply H. }
  pose proof Hx as Hin. apply list_elem_of_split in Hin as (h1 & h2 & E).
  rewrite E in Hx'. apply elem_of_app in Hx' as [Hx'|[He|Hx']%elem_of_cons].
  - by destruct (Hno _ _ _ _ _ _ E Hx').
  - apply (f_equal startAns) in He. by injection He.
  - apply list_elem_of_split in Hx' as (h3 & h4 & E'). rewrite E' in E.
    destruct (Hno cmd' cmd x' x (h1 ++ Ev (XStart cmd) x :: h3) h4); [by rewrite E, <- app_assoc|set_solver].
Qed.

(** What [Stage] reports. *)
Definition stage_error h (e : error) : Prop :=
  Ev XCtxErr (Some e) ∈ h ∨
  Ev XCtxErr None ∈ h ∧ ∃ err journal,
    stage_failed h err ∧
    e = ErrWrap (if journal =s "" then "running bootc switch" else "running bootc switch: " +:+ journal) err ∧
    (journal ≠ "" → ∀ line, line ∈ Split newline journal → HasPrefix line "error:" = true).

Lemma wpg_copyJournal cursor s h err Φ :
  guarded stage_allowed h → Ev XCtxErr None ∈ h → stage_failed h err →
  (∀ h' journal, guarded stage_allowed h' → (∃ t, h' = h ++ t) →
     (journal ≠ "" → ∀ line, line ∈ Split newline journal → HasPrefix line "error:" = true) →
     Φ h' s (Ok journal)) →
  wpg (copyJournalUnitLogs stageUnitName cursor) s h Φ.
Proof.
  intros Hg Hc Hf HΦ. unfold copyJournalUnitLogs. go_step.
  apply (wpg_call (resp := xresp) (XOutput _ _)). intros x.
  assert (guarded stage_allowed (h ++ [Ev (XOutput (nsenterCmd (journalArgs stageUnitName cursor)) (10 * GoInt.Second)%Z) x])).
  { apply guarded_snoc; [done|]. right. split_and!; [by eexists|done|by eexists]. }
  destruct x as [out|e]; go_step; apply HΦ; [done|by eexists| |done|by eexists|done].
  intros Hne line Hin. by apply errorLines_spec in Hin as [? _].
Qed.

(** The end of [Stage], once the command failed. *)
Lemma wpg_stageFailed cursor err s h :
  guarded stage_allowed h → stage_failed h err →
  wpg (gbind (call XCtxErr) (λ c,
    match c with
    | Some ce => throw ce
    | None =>
        gbind (copyJournalUnitLogs stageUnitName cursor) (λ journalOutput,
          if negb (journalOutput =s "")
          then throw (ErrWrap ("running bootc switch: " +:+ journalOutput) err)
          else throw (ErrWrap "running bootc switch" err))
    end) : xgo S unit) s h (λ h' _ r,
    guarded stage_allowed h' ∧ (∃ t, h' = h ++ t) ∧ ∃ e, r = Err e ∧ stage_error h' e).
Proof.
  intros Hg Hf. go_step. apply (wpg_call (resp := xresp) XCtxErr). intros c.
  assert (guarded stage_allowed (h ++ [Ev XCtxErr c])) as Hg' by (apply guarded_snoc; [done|by eexists]).
  assert (stage_failed (h ++ [Ev XCtxErr c]) err) as Hf'.
  { destruct Hf as [[cmd Hin]|Hin]; [left; exists cmd|right]; set_solver. }
  destruct c as [ce|].
  { go_step. split_and!; [done|by eexists|]. exists ce. split; [done|]. left. set_solver. }
  go_step. eapply (wpg_copyJournal cursor); [done|set_solver|done|]. intros h' journal Hgj [t ->] Hlines.
  assert (stage_error ((h ++ [Ev XCtxErr None]) ++ t)
    (ErrWrap (if journal =s "" then "running bootc switch" else "running bootc switch: " +:+ journal) err)) as He.
  { right. split; [set_solver|]. exists err, journal. split_and!; [|done|done].
    destruct Hf' as [[cmd Hin]|Hin]; [left; exists cmd|right]; set_solver. }
  destruct (journal =s "") eqn:Ej; simpl; go_step; (split_and!; [done|by exists ([Ev XCtxErr None] ++ t); rewrite app_assoc|]);
    eexists; (split; [done|]); exact He.
Qed.

(** The command, run to its end under the caller's context. *)
Lemma wpg_runStage s h Φ :
  guarded stage_allowed h → (∃ t x, Ev (XRun (nsenterCmd stopArgs) t) x ∈ h) → (∀ cmd x, Ev (XStart cmd) x ∉ h) →
  (∀ h' z r, guarded stage_allowed h' → Ev (XStart (nsenterCmd (stageArgs image))) z ∈ h' →
     (r = None ↔ z = Exited None) → (∀ err, r = Some err → stage_failed h' err) → Φ h' s (Ok r)) →
  wpg (runStage (nsenterCmd (stageArgs image))) s h Φ.
Proof.
  intros Hg Hstop Hone HΦ. unfold runStage. go_step. apply (wpg_call (resp := xresp) (XStart _)). intros z.
  set (e := Ev (XStart _) z). assert (guarded stage_allowed (h ++ [e])) as Hg1 by by apply guarded_snoc.
  destruct z as [err|].
  { go_step. apply (HΦ _ (Exited err)); [done|set_solver|split; congruence|]. intros err' ->. left.
    exists (nsenterCmd (stageArgs image)). set_solver. }
  go_step. unfold stopStageUnit. go_step. apply (wpg_call (resp := xresp) (XRun _ _)). intros u. set (e2 := Ev (XRun _ _) u).
  assert (guarded stage_allowed ((h ++ [e]) ++ [e2])) as Hg2 by by apply guarded_snoc.
  go_step. go_step. apply (wpg_call (resp := xresp) XWait). intros w. go_step.
  apply (HΦ _ CtxDone); [|set_solver|done|intros err [= <-]; right; set_solver].
  apply guarded_snoc; [done|]. exists h, (nsenterCmd (stageArgs image)), (30 * GoInt.Second)%Z, u. by rewrite <- app_assoc.
Qed.

(** C24. Staging on the host.  In every run of [HostExecutor.Stage], whatever the
    host does: the only commands are stopping the staging unit, reading the
    journal and, once and only after the unit was stopped, [bootc switch] under
    that unit with the image as its single last argument; when the context is
    cancelled the unit is stopped again before the command is awaited; [Stage]
    succeeds exactly when the command exits with success; otherwise it reports
    the context's error if there is one, and else the command's, quoting from the
    journal, which is read only in this case, nothing but error lines. *)
Theorem stage_on_host s :
  wpg (Stage image) s [] (λ h _ r,
    guarded stage_allowed h ∧
    (r = Ok tt ↔ ∃ cmd, Ev (XStart cmd) (Exited None) ∈ h) ∧
    ∀ e, r = Err e → stage_error h e).
Proof.
  unfold Stage. go_step. unfold stopStageUnit at 1. go_step. apply (wpg_call (resp := xresp) (XRun _ _)). intros x.
  set (h1 := [] ++ [_]). assert (guarded stage_allowed h1) as H1 by (by apply guarded_snoc; [apply guarded_nil|]).
  go_step. go_step. unfold journalCursor. go_step. apply (wpg_call (resp := xresp) (XOutput _ _)). intros y.
  set (h2 := h1 ++ [_]). assert (guarded stage_allowed h2) as H2 by (apply guarded_snoc; [done|by left]).
  assert (∃ cursor, wpg (match y with Err _ => ret "" | Ok out => ret (parseCursor out) end : xgo S string) s h2
    (λ h' s' r, h' = h2 ∧ s' = s ∧ r = Ok cursor)) as [cursor Hcursor] by (destruct y; eexists; by go_step).
  eapply wpg_mono; [|exact Hcursor]. intros h' s' r (-> & -> & ->). go_step.
  apply wpg_runStage; [done|exists (30 * GoInt.Second)%Z, x; set_solver| |].
  { intros cmd' x' Hin. apply elem_of_cons in Hin as [Hin|Hin%list_elem_of_singleton]; by apply (f_equal ev_req) in Hin. }
  intros h3 z [err|] H3 Hz Hr Hf.
  - eapply wpg_mono; [|by apply (wpg_stageFailed cursor err), Hf].
    intros h' s' r (Hg & [t ->] & e & -> & He). split_and!; [done| |by intros e' [= <-]]. split; [done|]. intros [cmd Hin].
    assert (z = Exited None) as E%Hr; [|done]. eapply started_once; [done| |done]. set_solver.
  - go_step. split_and!; [done| |done]. split; [|done]. intros _. rewrite (proj1 Hr eq_refl) in Hz. by eexists.
Qed.
End StageSafety.

(** What journalctl prints is read back: the cursor without the marker and the
    line end. *)
Lemma cursor_roundtrip cursor :
  cursor ≠ "" → (∀ a, last (bytes_of cursor) = Some a → spaceEdge a = false) →
  parseCursor ("-- cursor: " +:+ cursor +:+ String newline "") = cursor.
Proof.
  intros Hne Hc. unfold parseCursor.
  change ("-- cursor: " +:+ cursor +:+ String newline "") with (("-- cursor: " +:+ cursor) +:+ String newline "").
  rewrite trimSpace_line.
  - by rewrite (proj2 (CutPrefix_spec _ _ _) eq_refl).
  - intros a [Ha|Ha]; [injection Ha as <-; vm_compute; reflexivity|]. apply Hc. rewrite <- Ha.
    change (bytes_of ("-- cursor: " +:+ cursor)) with (bytes_of "-- cursor: " ++ bytes_of cursor).
    rewrite last_app. destruct (last (bytes_of cursor)) eqn:El; [done|]. apply last_None in El. by destruct cursor.
  - done.
Qed.

Module ExecutorWitness.

(** A host that fails to switch. *)
Definition journal : string := "Fetching layers" +:+ String newline "error: no space left" +:+ String newline "".
Definition host : handler xresp unit := λ r w,
  match r return unit * xresp r with
  | XRun _ _ => (w, Some (ErrString "unit not loaded"))
  | XOutput cmd _ => (w, Ok (if bool_decide (cmd = nsenterCmd cursorArgs) then "-- cursor: s=1;i=2" +:+ String newline "" else journal))
  | XOutputCtx _ => (w, Ok "{}")
  | XCombined _ => (w, ("", None))
  | XStart _ => (w, Exited (Some (ErrString "exit status 1")))
  | XWait => (w, ErrString "context canceled")
  | XCtxErr => (w, None)
  end.
Definition failing := run host (Stage "quay.io/example/myos@sha256:bbbb" tt) tt.

Example failing_story :
  failing.2.2 = Err (ErrWrap "running bootc switch: error: no space left" (ErrString "exit status 1")) ∧
  length failing.1.2 = 5 ∧
  nth_error (ev_req <$> failing.1.2) 4 =
    Some (XOutput (nsenterCmd (journalArgs stageUnitName "s=1;i=2")) (10 * GoInt.Second)%Z).
Proof. vm_compute. done. Qed.

Lemma stage_on_host_witness :
  length failing.1.2 = 5 ∧ guarded (stage_allowed "quay.io/example/myos@sha256:bbbb") failing.1.2.
Proof.
  split; [vm_compute; reflexivity|].
  assert (run host (Stage "quay.io/example/myos@sha256:bbbb" tt) tt = (failing.1.1, failing.1.2, (failing.2.1, failing.2.2))) as Hrun
    by (vm_compute; reflexivity).
  exact (proj1 (wpg_run host _ tt tt _ _ _ _ _ (stage_on_host "quay.io/example/myos@sha256:bbbb" tt) Hrun)).
Defined.
End ExecutorWitness.
