(* ===== verification/Registry.v ===== *)
(** * Registry: resolving tags

    [internal/registry/resolver.go]: the [TagResolver] the controller is started
    with.  go-containerregistry parses references and talks to the registry: the
    parser and the classification of its errors are parameters, fetching a
    manifest is the request. *)

From S2P Require Import Prelude Effects.

(** [authn.AuthConfig] and [authn.Authenticator]. *)
Record AuthConfig : Set := mkAuthConfig {
  Username : string; Password : string; Auth : string; IdentityToken : string; RegistryToken : string }.
Inductive Authenticator : Set := Anonymous | FromConfig (cfg : AuthConfig).

(** [name.Reference], through what the resolver uses of it. *)
Record Reference : Set := mkReference {
  RegistryStr : string;
  DigestStr : option string;   (* the digest of a [name.Digest] *)
  PlainHTTP : bool             (* parsed with [name.Insecure] *)
}.

(** [dockerConfigJSON]. *)
Record dockerConfigJSON : Set := mkDockerConfig { Auths : gmap string AuthConfig }.

Class RegistryLib : Type := {
  ParseReference : string → bool → result Reference;
  UnmarshalDockerConfig : string → result dockerConfigJSON;
  (** [errors.As] to [tls.CertificateVerificationError], [errors.Is] to [http.ErrSchemeMismatch] *)
  IsCertificateError : error → bool;
  IsSchemeMismatch : error → bool
}.

(** [remote.Get]: the reference, the keychain option, and the digest of the
    descriptor it answers. *)
Inductive rreq : Set := RemoteGet (ref : Reference) (keychain : option dockerConfigJSON).
Definition rresp (r : rreq) : Set := result string.
Abbreviation rgo := (go rresp).
Abbreviation rhistory := (trace rresp).

(** [dockerConfigJSON.Resolve]. *)
Definition keychainResolve (k : dockerConfigJSON) (registry : string) : Authenticator :=
  match Auths k !! registry with
  | Some cfg => FromConfig cfg
  | None => Anonymous
  end.

Section Resolver.
Context {RL : RegistryLib} {S : Type} (AllowInsecure : bool).
Local Open Scope go_scope.

(** [keychainFromDockerConfig]. *)
Definition keychainFromDockerConfig (data : string) : result dockerConfigJSON :=
  match UnmarshalDockerConfig data with
  | Ok cfg => Ok cfg
  | Err e => Err (ErrWrap "unmarshaling docker config" e)
  end.

(** The keychain option [Resolve] passes to the registry. *)
Definition keychainOf (auth : option string) : result (option dockerConfigJSON) :=
  match auth with
  | None | Some "" => Ok None
  | Some data => match keychainFromDockerConfig data with Ok k => Ok (Some k) | Err e => Err e end
  end.

(** [GGCRResolver.Resolve]; a nil slice is [None]. *)
Definition GGCRResolve (ref : string) (auth : option string) : rgo S string :=
  parsed <- wrapf ("parsing reference " +:+ quoted ref) (lift (ParseReference ref false)) ;;
  match DigestStr parsed with
  | Some d => ret d
  | None =>
      keychain <- wrapf ("parsing auth for " +:+ quoted ref) (lift (keychainOf auth)) ;;
      desc <- call (resp := rresp) (RemoteGet parsed keychain) ;;
      final <- match desc : result string with
               | Err e =>
                   if (IsCertificateError e || IsSchemeMismatch e) && AllowInsecure then
                     insecure <- wrapf ("parsing reference " +:+ quoted ref) (lift (ParseReference ref true)) ;;
                     again <- call (resp := rresp) (RemoteGet insecure keychain) ;;
                     ret (again : result string)
                   else ret (Err e)
               | Ok d => ret (Ok d)
               end ;;
      match final with
      | Err e => throw (ErrWrap ("fetching manifest for " +:+ quoted ref) e)
      | Ok digest => ret digest
      end
  end.

(** ** The credentials of a request *)

(** Who the request authenticates as: [remote.Get] asks the keychain it was given
    for the registry of the reference, and is anonymous without one. *)
Definition presented (ref : Reference) (keychain : option dockerConfigJSON) : Authenticator :=
  match keychain with None => Anonymous | Some k => keychainResolve k (RegistryStr ref) end.

(** Who it should authenticate as, from the contents of the pull secret: without
    any, anonymously; otherwise as the entry of the decoded docker config for
    exactly this registry, and anonymously where it has none. *)
Inductive entitled (auth : option string) (registry : string) : Authenticator → Prop :=
| en_none : auth = None ∨ auth = Some "" → entitled auth registry Anonymous
| en_listed data cfg c :
    auth = Some data → data ≠ "" → UnmarshalDockerConfig data = Ok cfg →
    Auths cfg !! registry = Some c → entitled auth registry (FromConfig c)
| en_unlisted data cfg :
    auth = Some data → data ≠ "" → UnmarshalDockerConfig data = Ok cfg →
    Auths cfg !! registry = None → entitled auth registry Anonymous.

Lemma keychain_entitled auth keychain ref :
  keychainOf auth = Ok keychain → entitled auth (RegistryStr ref) (presented ref keychain).
Proof.
  unfold keychainOf, keychainFromDockerConfig. intros Hk.
  destruct auth as [[|ch data]|]; [by injection Hk as <-; apply en_none; right| |by injection Hk as <-; apply en_none; left].
  destruct (UnmarshalDockerConfig (String ch data)) as [cfg|e] eqn:Eu; [|done]. injection Hk as <-.
  simpl. unfold keychainResolve. destruct (Auths cfg !! RegistryStr ref) eqn:El; [by eapply en_listed|by eapply en_unlisted].
Qed.

(** The pull secret is there but cannot be decoded. *)
Definition undecodable (auth : option string) : Prop :=
  ∃ data e, auth = Some data ∧ data ≠ "" ∧ UnmarshalDockerConfig data = Err e.

Lemma keychain_fails auth : is_ok (keychainOf auth) = false ↔ undecodable auth.
Proof.
  unfold keychainOf, keychainFromDockerConfig, undecodable. destruct auth as [[|ch data]|].
  - split; [done|]. by intros (? & ? & [= <-] & ? & _).
  - destruct (UnmarshalDockerConfig (String ch data)) as [cfg|e] eqn:Eu; simpl.
    + split; [done|]. intros (? & ? & [= <-] & _ & ?). congruence.
    + split; [|done]. intros _. by exists (String ch data), e.
  - split; [done|]. by intros (? & ? & ? & _).
Qed.

(** What [Resolve] may ask for a reference: the reference as parsed, first over
    TLS; then over plain HTTP, only if that is allowed and the first attempt failed
    for that reason; both times as who the pull secret entitles to, and at most
    twice. *)
Definition registry_allowed (ref : string) (auth : option string) (h : rhistory) (r : rreq) : Prop :=
  let '(RemoteGet asked keychain) := r in
  entitled auth (RegistryStr asked) (presented asked keychain) ∧
  ((h = [] ∧ ParseReference ref false = Ok asked ∧ DigestStr asked = None) ∨
   (AllowInsecure = true ∧ ParseReference ref true = Ok asked ∧
    ∃ first e, h = [Ev (RemoteGet first keychain) (Err e)] ∧
      (IsCertificateError e = true ∨ IsSchemeMismatch e = true))).

End Resolver.

Module RegistryWitness.

(** A registry without TLS. *)
#[export] Instance registryLib : RegistryLib := {|
  ParseReference s insecure := Ok (mkReference "registry.local" None insecure);
  UnmarshalDockerConfig _ := Ok (mkDockerConfig {["registry.local" := mkAuthConfig "user" "secret" "" "" ""]});
  IsCertificateError _ := false;
  IsSchemeMismatch e := bool_decide (e = ErrString "http: server gave HTTP response to HTTPS client")
|}.

Definition registry : handler rresp unit := λ r w,
  (w, let '(RemoteGet ref _) := r in
      if PlainHTTP ref then Ok "sha256:bbbb" else Err (ErrString "http: server gave HTTP response to HTTPS client")).

Definition resolved (allow : bool) := run registry (GGCRResolve allow "registry.local/os:latest" (Some "{}") tt) tt.

Example insecure_only_when_allowed :
  (resolved true).2.2 = Ok "sha256:bbbb" ∧ length (resolved true).1.2 = 2 ∧
  is_ok (resolved false).2.2 = false ∧ length (resolved false).1.2 = 1.
Proof. vm_compute. done. Qed.
End RegistryWitness.
