(* ===== verification/Main.v ===== *)
(** * Main: starting the two processes

    [cmd/controller/main.go], [cmd/daemon/main.go] and [internal/version]: from
    flags and environment to a running manager.  Command line parsing is the
    [flag] package's: the values of the flags are an argument.  An exit with status
    1 is an error. *)

From Stdlib Require Import Ascii.
From S2P Require Import Prelude Effects Types Library LibModel Strings Client Events Reconcile PullSecret.

Definition namespacePath : string := "/var/run/secrets/kubernetes.io/serviceaccount/namespace".
Definition DefaultOstreePath : string := "/proc/1/root/ostree/bootc".
Definition DefaultComposefsPath : string := "/proc/1/root/sysroot/state/deploy".

(** [version.String]. *)
Definition versionString (Version GitCommit : string) : string :=
  if GitCommit =s "" then Version
  else if GitCommit =s "dirty" then Version +:+ " (dirty)"
  else Version +:+ " (commit " +:+ GitCommit +:+ ")".

(** [logWriter.Write] with its prefix: what is logged, and the count it returns. *)
Definition logWrite (prefix p : string) : string * nat := (prefix +:+ TrimSpace p, String.length p).
Definition drainOutPrefix (nodeName : string) : string := "Draining " +:+ nodeName +:+ ": stdout: ".
Definition drainErrPrefix (nodeName : string) : string := "Draining " +:+ nodeName +:+ ": stderr: ".

(** The flags of the controller, with their defaults. *)
Record Flags : Set := mkFlags {
  probeAddr : string;
  tagResolutionInterval : Z;
  allowInsecureRegistry : bool;
  pullSecretNamespacesFlag : string;
  enableLeaderElection : bool;
  showVersion : bool
}.
Definition defaultFlags : Flags := mkFlags ":8081" (5 * GoInt.Minute)%Z false "" false false.

(** What the controller's manager is created with; the namespaces are those of the
    Secret cache. *)
Record ManagerOptions : Set := mkManagerOptions {
  mo_probeAddr : string;
  mo_leaderElection : bool;
  mo_leaderElectionID : string;
  mo_secretNamespaces : gmap string unit
}.

(** The plain fields of the reconciler the controller sets up. *)
Record Setup : Set := mkSetup {
  su_eventNamespace : string;
  su_allowInsecure : bool;
  su_tagResolutionInterval : Z;
  su_pullSecretNamespaces : list string
}.

(** The daemon: the name its BootcNode cache is restricted to, its watcher and its
    reconciler. *)
Record WatcherSetup : Set := mkWatcherSetup {
  ws_pollInterval : Z; ws_ostreePath : string; ws_composefsPath : string; ws_nodeName : string }.

Inductive mreq : Set :=
| Getenv (key : string)
| ReadFile (path : string)
| Println (line : string)
| NewManager (opts : ManagerOptions)
| NewClientset
| SetupController (c : Setup)
| AddHealthzCheck
| AddReadyzCheck
| NewDaemonManager (cachedBootcNode : string)
| AddWatcher (w : WatcherSetup)
| SetupDaemon (nodeName hostRoot : string)
| StartManager.

Definition mresp (r : mreq) : Set :=
  match r with
  | Getenv _ => string
  | ReadFile _ => result string
  | Println _ => unit
  | _ => result unit
  end.

Abbreviation mgo := (go mresp).
Abbreviation mhistory := (trace mresp).

Section Main.
Context {L : Lib} (Version GitCommit : string).
Local Open Scope go_scope.

Definition exit1 {A : Set} : mgo unit A := throw (ErrString "exit status 1").

(** [if err := ...; err != nil { os.Exit(1) }]. *)
Definition orExit (r : mreq) (f : mresp r → result unit) : mgo unit unit :=
  x <- call r ;;
  match f x with Ok _ => ret tt | Err _ => exit1 end.

(** [detectNamespace]. *)
Definition detectNamespace : mgo unit string :=
  ns <- call (Getenv "POD_NAMESPACE") ;;
  if negb ((ns : string) =s "") then ret (ns : string)
  else
    data <- call (ReadFile namespacePath) ;;
    match data with
    | Ok data => ret (TrimSpace data)
    | Err _ => ret ""
    end.

(** [main] of the controller. *)
Definition controllerMain (flags : Flags) : mgo unit unit :=
  if showVersion flags then _ <- call (Println (versionString Version GitCommit)) ;; ret tt
  else
    operatorNamespace <- detectNamespace ;;
    match ParsePullSecretNamespaces (pullSecretNamespacesFlag flags) operatorNamespace with
    | Err _ => exit1
    | Ok pullSecretNamespaces =>
        if bool_decide (length pullSecretNamespaces = 0) then exit1
        else
          orExit (NewManager (mkManagerOptions (probeAddr flags) (enableLeaderElection flags)
                    "bootc-operator.bootc.dev" (SecretCacheByObject pullSecretNamespaces))) id ;;;
          orExit NewClientset id ;;;
          orExit (SetupController (mkSetup operatorNamespace (allowInsecureRegistry flags)
                    (tagResolutionInterval flags) pullSecretNamespaces)) id ;;;
          orExit AddHealthzCheck id ;;;
          orExit AddReadyzCheck id ;;;
          orExit StartManager id
    end.

(** [main] of the daemon. *)
Definition daemonMain (pollInterval : Z) (showVersion : bool) : mgo unit unit :=
  if showVersion then _ <- call (Println (versionString Version GitCommit)) ;; ret tt
  else
    nodeName <- call (Getenv "NODE_NAME") ;;
    if (nodeName : string) =s "" then exit1
    else
      orExit (NewDaemonManager (nodeName : string)) id ;;;
      orExit (AddWatcher (mkWatcherSetup pollInterval DefaultOstreePath DefaultComposefsPath nodeName)) id ;;;
      orExit (SetupDaemon nodeName "/proc/1/root") id ;;;
      orExit StartManager id.

(** ** What a started process is configured with *)

(** The namespace the controller found out to run in. *)
Definition detected (h : mhistory) (ns : string) : Prop :=
  Ev (Getenv "POD_NAMESPACE") ns ∈ h ∧ ns ≠ "" ∨
  Ev (Getenv "POD_NAMESPACE") "" ∈ h ∧
  ((∃ data, Ev (ReadFile namespacePath) (Ok data) ∈ h ∧ ns = TrimSpace data) ∨
   (∃ e, Ev (ReadFile namespacePath) (Err e) ∈ h ∧ ns = "")).

Definition setup_allowed (flags : Flags) (h : mhistory) (c : Setup) : Prop :=
  let pieces := su_eventNamespace c :: Split ","%char (pullSecretNamespacesFlag flags) in
  detected h (su_eventNamespace c) ∧
  su_pullSecretNamespaces c ≠ [] ∧
  (∀ ns, ns ∈ su_pullSecretNamespaces c ↔ named pieces ns) ∧
  (∀ ns, ns ∈ su_pullSecretNamespaces c → valid ns) ∧
  (∃ opts, Ev (NewManager opts) (Ok tt) ∈ h ∧
     ∀ ns, is_Some (mo_secretNamespaces opts !! ns) ↔ ns ∈ su_pullSecretNamespaces c) ∧
  su_allowInsecure c = allowInsecureRegistry flags ∧
  su_tagResolutionInterval c = tagResolutionInterval flags.

Definition controller_allowed (flags : Flags) (h : mhistory) (r : mreq) : Prop :=
  match r with
  | Getenv _ | ReadFile _ | NewManager _ | NewClientset | AddHealthzCheck | AddReadyzCheck => showVersion flags = false
  | Println _ => showVersion flags = true
  | SetupController c => setup_allowed flags h c
  | StartManager =>
      (∃ c, Ev (SetupController c) (Ok tt) ∈ h) ∧ Ev AddHealthzCheck (Ok tt) ∈ h ∧ Ev AddReadyzCheck (Ok tt) ∈ h
  | NewDaemonManager _ | AddWatcher _ | SetupDaemon _ _ => False
  end.

Definition daemon_start_allowed (showVersion : bool) (h : mhistory) (r : mreq) : Prop :=
  match r with
  | Getenv _ => showVersion = false
  | Println _ => showVersion = true
  | NewDaemonManager n => n ≠ "" ∧ Ev (Getenv "NODE_NAME") n ∈ h
  | AddWatcher w => ws_nodeName w ≠ "" ∧ Ev (NewDaemonManager (ws_nodeName w)) (Ok tt) ∈ h
  | SetupDaemon n hostRoot => ∃ w, ws_nodeName w = n ∧ Ev (AddWatcher w) (Ok tt) ∈ h ∧ Ev (NewDaemonManager n) (Ok tt) ∈ h
  | StartManager => ∃ n hostRoot, n ≠ "" ∧ Ev (SetupDaemon n hostRoot) (Ok tt) ∈ h
  | _ => False
  end.

(** A step of the start-up: it goes on only when the call succeeded. *)
Lemma wpg_orExit {A : Set} (P : mhistory → mreq → Prop) (Φ : mhistory → unit → result A → Prop) r f (k : mgo unit A) h :
  guarded P h → P h r →
  (∀ x, guarded P (h ++ [Ev r x]) → f x = Ok tt → wpg k tt (h ++ [Ev r x]) Φ) →
  (∀ x e, guarded P (h ++ [Ev r x]) → Φ (h ++ [Ev r x]) tt (Err e)) →
  wpg (gbind (orExit r f) (λ _, k)) tt h Φ.
Proof.
  intros Hg Hr Hk He. go_step. unfold orExit. go_step. apply (wpg_call (resp := mresp) r). intros x.
  assert (guarded P (h ++ [Ev r x])) as Hg' by by apply guarded_snoc.
  destruct (f x) as [[]|e] eqn:Ef; [go_step; by apply Hk|]. unfold exit1. go_step. by apply He.
Qed.

Lemma wpg_lastExit P r f h :
  guarded P h → P h r → wpg (orExit r f) tt h (λ h' _ _, guarded P h').
Proof.
  intros Hg Hr. unfold orExit. go_step. apply (wpg_call (resp := mresp) r). intros x.
  destruct (f x) as [[]|e]; unfold exit1; go_step; by apply guarded_snoc.
Qed.

Lemma wpg_detectNamespace flags :
  showVersion flags = false →
  wpg detectNamespace tt [] (λ h _ r,
    guarded (controller_allowed flags) h ∧ ∃ ns, r = Ok ns ∧ detected h ns).
Proof.
  intros Hv. unfold detectNamespace. go_step. apply (wpg_call (resp := mresp) (Getenv _)). intros ns.
  assert (guarded (controller_allowed flags) ([] ++ [Ev (Getenv "POD_NAMESPACE") ns])) as Hg
    by (by apply guarded_snoc; [apply guarded_nil|]).
  change string in ns. destruct (ns =s "") eqn:En; cbn [negb].
  - apply seq_b_true in En as ->. go_step. apply (wpg_call (resp := mresp) (ReadFile _)). intros x.
    destruct x as [data|e]; go_step; (split; [by apply guarded_snoc|]); eexists; (split; [done|]); right;
      (split; [set_solver|]); [left; exists data|right; exists e]; split; set_solver.
  - apply seq_b_false in En. go_step. split; [done|]. exists ns. split; [done|]. left. split; [set_solver|done].
Qed.

Lemma detected_app h t ns : detected h ns → detected (h ++ t) ns.
Proof.
  intros [[H Hn]|[H [(d & Hd & ->)|(e & He & ->)]]]; [left; set_solver|right; split; [set_solver|]..];
    [left; exists d|right; exists e]; set_solver.
Qed.

(** The reconciler's configuration as the other files see it. *)
Definition configOf (c : Setup) : Config := {|
  EventNamespace := su_eventNamespace c;
  TagResolutionInterval := su_tagResolutionInterval c;
  PullSecretNamespaces := su_pullSecretNamespaces c
|}.

(** With the parsed list, the cache and the reconciler are set up alike. *)
Lemma parsed_setup flags ns l h :
  ParsePullSecretNamespaces (pullSecretNamespacesFlag flags) ns = Ok l → l ≠ [] → detected h ns →
  Ev (NewManager (mkManagerOptions (probeAddr flags) (enableLeaderElection flags)
        "bootc-operator.bootc.dev" (SecretCacheByObject l))) (Ok tt) ∈ h →
  setup_allowed flags h (mkSetup ns (allowInsecureRegistry flags) (tagResolutionInterval flags) l).
Proof.
  intros Hp Hne Hd Hm. pose proof (parseLoop_spec (ns :: Split ","%char (pullSecretNamespacesFlag flags)) []
    (Forall_nil_2 _) (NoDup_nil_2)) as Hs.
  unfold ParsePullSecretNamespaces in Hp. rewrite Hp in Hs. destruct Hs as (Hv & _ & _ & Hin).
  split_and!; simpl; [done|done| | | |done|done].
  - intros k. rewrite Hin. set_solver.
  - intros k Hk. rewrite Forall_forall in Hv. by apply Hv.
  - eexists. split; [done|]. apply cache_lookup.
Qed.

Lemma controllerMain_safe flags :
  wpg (controllerMain flags) tt [] (λ h _ _, guarded (controller_allowed flags) h).
Proof.
  unfold controllerMain. destruct (showVersion flags) eqn:Hver.
  { go_step. apply (wpg_call (resp := mresp) (Println _)). intros x. go_step. by apply guarded_snoc; [apply guarded_nil|]. }
  go_step. eapply wpg_mono; [|by apply wpg_detectNamespace]. intros h [] r (Hg & ns & -> & Hd).
  destruct (ParsePullSecretNamespaces _ ns) as [l|e] eqn:Ep; [|unfold exit1; by go_step].
  case_bool_decide as El; [unfold exit1; by go_step|].
  assert (l ≠ []) as Hl by by intros ->.
  apply (wpg_orExit (controller_allowed flags)); [done|done| |done]. intros [[]|e1] H1 Ho1; [|done].
  apply (wpg_orExit (controller_allowed flags)); [done|done| |done]. intros [[]|e2] H2 Ho2; [|done].
  apply (wpg_orExit (controller_allowed flags)); [done| | |done].
  { apply parsed_setup; [done|done|by apply detected_app, detected_app|]. set_solver. }
  intros [[]|e3] H3 Ho3; [|done].
  apply (wpg_orExit (controller_allowed flags)); [done|done| |done]. intros [[]|e4] H4 Ho4; [|done].
  apply (wpg_orExit (controller_allowed flags)); [done|done| |done]. intros [[]|e5] H5 Ho5; [|done].
  apply wpg_lastExit; [done|]. split_and!; [|set_solver|set_solver].
  exists (mkSetup ns (allowInsecureRegistry flags) (tagResolutionInterval flags) l). set_solver.
Qed.

(** The pull secrets a pass reads are in the allowed namespaces. *)
Lemma fetch_allowed `{Config} {S : Type} pool (s : S) :
  wpg (fetchPullSecretData pool) s [] (λ h _ _,
    ∀ ns n x, Ev (GetSecret ns n) x ∈ h → ns ∈ PullSecretNamespaces).
Proof.
  unfold fetchPullSecretData. destruct (bnp_PullSecretRef (pool_spec pool)) as [ref|]; [|go_step; set_solver].
  case_bool_decide as Ein; simpl; [|go_step; set_solver]. go_step. go_step. apply wpg_callE. intros y.
  assert (∀ ns n x, Ev (GetSecret ns n) x ∈ [] ++ [Ev (GetSecret (psr_namespace ref) (psr_name ref)) y] →
    ns ∈ PullSecretNamespaces) as Hgoal.
  { intros ns n x Hin%list_elem_of_singleton%(f_equal ev_req). by injection Hin as -> ->. }
  destruct y as [sec|e]; cbv [id]; [|done]. split_match; go_step; exact Hgoal.
Qed.

Lemma daemonMain_safe pollInterval version :
  wpg (daemonMain pollInterval version) tt [] (λ h _ _, guarded (daemon_start_allowed version) h).
Proof.
  unfold daemonMain. destruct version.
  { go_step. apply (wpg_call (resp := mresp) (Println _)). intros x. go_step. by apply guarded_snoc; [apply guarded_nil|]. }
  go_step. apply (wpg_call (resp := mresp) (Getenv _)). intros n. change string in n. set (h1 := [] ++ [_]).
  assert (guarded (daemon_start_allowed false) h1) as H1 by (by apply guarded_snoc; [apply guarded_nil|]).
  destruct (n =s "") eqn:En; [unfold exit1; by go_step|]. apply seq_b_false in En.
  apply (wpg_orExit (daemon_start_allowed false)); [done|split; [done|set_solver]| |done]. intros [[]|e2] H2 Ho2; [|done].
  apply (wpg_orExit (daemon_start_allowed false)); [done|split; [done|simpl; set_solver]| |done]. intros [[]|e3] H3 Ho3; [|done].
  apply (wpg_orExit (daemon_start_allowed false)); [done| | |done].
  { exists (mkWatcherSetup pollInterval DefaultOstreePath DefaultComposefsPath n). split_and!; [done|set_solver|set_solver]. }
  intros [[]|e4] H4 Ho4; [|done].
  apply wpg_lastExit; [done|]. exists n, "/proc/1/root". split; [done|set_solver].
Qed.

(** C37. A running operator is configured consistently.  Whatever flags, environment
    and cluster: the controller starts its manager only after the reconciler and
    both health checks are set up; the reconciler's allow list is not empty, holds
    exactly the valid namespaces of the flag and the operator's own, and the
    manager's Secret cache covers exactly that list, so that every pull secret a
    pass asks for (see [fetchPullSecretData]) is in a cached namespace.  The daemon
    starts only with a node name, and its BootcNode cache, its status watcher and
    its reconciler agree on it. *)
Theorem started_configured flags pollInterval version :
  wpg (controllerMain flags) tt [] (λ h _ _,
    guarded (controller_allowed flags) h ∧
    ∀ c, (∃ x, Ev (SetupController c) x ∈ h) →
      ∃ opts, Ev (NewManager opts) (Ok tt) ∈ h ∧
      ∀ pool (s : unit), wpg (fetchPullSecretData (C := configOf c) pool) s [] (λ h2 _ _,
        ∀ ns n x, Ev (GetSecret ns n) x ∈ h2 → is_Some (mo_secretNamespaces opts !! ns))) ∧
  wpg (daemonMain pollInterval version) tt [] (λ h _ _, guarded (daemon_start_allowed version) h).
Proof.
  split; [|apply daemonMain_safe]. eapply wpg_mono; [|apply controllerMain_safe].
  intros h [] r Hg. split; [done|]. intros c [x Hin].
  apply list_elem_of_split in Hin as (h1 & h2 & ->).
  destruct (Hg h1 _ h2 eq_refl) as (_ & _ & _ & _ & (opts & Ho & Hc) & _). exists opts. split; [set_solver|].
  intros pool s. eapply wpg_mono; [|apply (fetch_allowed (H := configOf c))].
  intros h3 ? ? H3 ns n y Hy. apply Hc. by apply (H3 ns n y).
Qed.
End Main.

Module MainWitness.
Import LibModel.

(** A pod in namespace "bootc-operator" of a cluster that accepts everything. *)
Definition cluster : handler mresp unit := λ r w,
  (w, match r return mresp r with
      | Getenv k => if k =s "POD_NAMESPACE" then "bootc-operator" else "worker-1"
      | ReadFile _ => Err (ErrString "no such file")
      | Println _ => tt
      | NewManager _ | NewClientset | SetupController _ | AddHealthzCheck | AddReadyzCheck
      | NewDaemonManager _ | AddWatcher _ | SetupDaemon _ _ | StartManager => Ok tt
      end).
Definition teamFlags : Flags := mkFlags ":8081" (5 * GoInt.Minute)%Z false "team-a" false false.

Example start_story :
  let o := run cluster (controllerMain "dev" "" teamFlags tt) tt in
  o.2.2 = Ok tt ∧ length o.1.2 = 7 ∧
  nth_error (ev_req <$> o.1.2) 3 =
    Some (SetupController (mkSetup "bootc-operator" false (5 * GoInt.Minute)%Z ["bootc-operator"; "team-a"])).
Proof. vm_compute. done. Qed.

(** Without a namespace and without the flag the controller refuses to start. *)
Example refuses_without_namespace :
  (run (λ r w, match r return unit * mresp r with
               | Getenv _ => (w, "")
               | r => cluster r w
               end) (controllerMain "dev" "" defaultFlags tt) tt).2.2 = Err (ErrString "exit status 1").
Proof. vm_compute. done. Qed.
End MainWitness.
