(* ===== verification/RolloutCalm.v ===== *)
(** * RolloutCalm: the effect of a pass on a calm cluster

    A pass of [driveRollout] in which nothing goes wrong: every call succeeds,
    nobody else writes, the Nodes are Ready and Karpenter leaves them alone, and
    the drains started by earlier passes have finished.  Then the pass succeeds,
    and its effect on every single BootcNode is known exactly. *)

From S2P Require Import Prelude Effects Types Library LibModel Client Samples Sim Image Karpenter Classify PoolStatus Slots Utf8 Events Drain Rollout RolloutSafety RolloutCapacity RolloutHalt.

(** ** Calm answers *)

Section Answers.
Context {L : Lib}.

(** Ready, not being deleted, without a Karpenter disruption taint. *)
Definition calm_node (node : Node) : Prop :=
  nodeReadyStatus node = ConditionTrue ∧ om_deletionTimestamp (node_meta node) = None ∧
  existsb disruptionTaint (node_taints node) = false.

(** Neither being deleted nor in a lifecycle operation. *)
Definition calm_claim (c : NodeClaim) : Prop :=
  om_deletionTimestamp (nc_meta c) = None ∧ anyConditionTrue c lifecycleConditions = Ok false.

Definition calm (e : event) : Prop :=
  quiet e ∧
  let '(Ev r x) := e in
  match r return resp r → Prop with
  | GetNode _ => λ x, ∃ node, x = Ok node ∧ calm_node node
  | GetNodeClaim _ => λ x, ∃ c, x = Ok c ∧ calm_claim c
  | PatchNode _ _ => λ x, is_ok x = true
  | PatchBootcNode _ _ => λ x, is_ok x = true
  | PatchNodeClaim _ _ => λ x, is_ok x = true
  | PollDrain _ => λ x, x = Some None
  | _ => λ _, True
  end x.

End Answers.

Abbreviation calm_history h := (Forall calm h).

Section Calm.
Context {L : Lib}.
Implicit Types (h t : history).

Lemma calm_quiet h : calm_history h → quiet_history h.
Proof. intros H. eapply Forall_impl; [exact H|]. by intros e []. Qed.

Lemma calm_last h e : calm_history (h ++ [e]) → calm e.
Proof. rewrite Forall_app, Forall_singleton. by intros []. Qed.

Lemma calm_in h e : calm_history h → e ∈ h → calm e.
Proof. rewrite Forall_forall. auto. Qed.

Definition wpg_calm {S : Type} {A : Set} := @wpg_forall _ resp S A calm.

(** A step that succeeds, and what comes after it. *)
Lemma wpg_then {S : Type} {B : Set} (m : ctl S unit) (f : unit → ctl S B) s h (Q : history → S → Prop)
    (Ψ : history → S → result B → Prop) :
  wpg m s h (λ h' s' r, calm_history h' → r = Ok tt ∧ Q h' s') →
  (∀ h' s', calm_history h' → Q h' s' → wpg (f tt) s' h' (λ h2 s2 r, calm_history h2 → Ψ h2 s2 r)) →
  wpg (gbind m f) s h (λ h2 s2 r, calm_history h2 → Ψ h2 s2 r).
Proof.
  intros Hm Hf. go_step. eapply wpg_mono; [|exact Hm]. intros h' s' [[]|e] H.
  - apply wpg_calm. intros Hc. apply Hf; [done|]. by destruct (H Hc).
  - intros Hc. by destruct (H Hc).
Qed.

Lemma wpg_wrapf_then {S : Type} pre (m : ctl S unit) s h (Q : history → S → Prop) :
  wpg m s h (λ h' s' r, calm_history h' → r = Ok tt ∧ Q h' s') →
  wpg (wrapf pre m) s h (λ h' s' r, calm_history h' → r = Ok tt ∧ Q h' s').
Proof. intros Hm. go_step. eapply wpg_mono; [|exact Hm]. intros h' s' [[]|e] Hr Hc; by destruct (Hr Hc). Qed.

(** Beside what holds in any case. *)
Lemma wpg_calm_and {S : Type} (m : ctl S unit) s h (Q P : history → S → Prop) :
  wpg m s h (λ h' s' r, calm_history h' → r = Ok tt ∧ Q h' s') → wpg m s h (λ h' s' _, P h' s') →
  wpg m s h (λ h' s' r, calm_history h' → r = Ok tt ∧ Q h' s' ∧ P h' s').
Proof.
  intros H1 H2. eapply wpg_mono; [|apply wpg_and; [exact H1|exact H2]].
  intros h' s' r [Hr HP] Hc. by destruct (Hr Hc).
Qed.

(** ** Programs that cannot fail on a calm cluster *)

Definition succeeds {S : Type} {A : Set} (m : ctl S A) : Prop :=
  ∀ s h, wpg m s h (λ h' _ r, calm_history h' → is_ok r = true).

Section Succeeds.
Context {S : Type}.

Lemma succeeds_ret {A : Set} (a : A) : succeeds (ret a : ctl S A).
Proof. intros s h. by go_step. Qed.
Lemma succeeds_gets {A : Set} (f : S → A) : succeeds (gets f).
Proof. intros s h. by go_step. Qed.
Lemma succeeds_modify (f : S → S) : succeeds (modify f : ctl S unit).
Proof. intros s h. by go_step. Qed.
Lemma succeeds_call r : succeeds (call r : ctl S (resp r)).
Proof. intros s h. by go_step. Qed.

Lemma succeeds_bind {A B : Set} (m : ctl S A) (f : A → ctl S B) :
  succeeds m → (∀ a, succeeds (f a)) → succeeds (gbind m f).
Proof.
  intros Hm Hf s h. go_step. eapply wpg_mono; [|apply Hm]. intros h' s' [a|e] H; [apply Hf|done].
Qed.

Lemma succeeds_wrapf {A : Set} pre (m : ctl S A) : succeeds m → succeeds (wrapf pre m).
Proof. intros Hm s h. go_step. eapply wpg_mono; [|apply Hm]. by intros h' s' []. Qed.

Lemma succeeds_callE {A : Set} r (f : resp r → result A) :
  (∀ x, calm (Ev r x) → is_ok (f x) = true) → succeeds (callE r f : ctl S A).
Proof. intros H s h. apply wpg_callE. intros x Hc. apply H. by eapply calm_last. Qed.
End Succeeds.

#[local] Hint Resolve succeeds_ret succeeds_gets succeeds_modify succeeds_call : bootc.

Ltac succeed :=
  repeat match goal with
  | |- succeeds (gbind _ _) => apply succeeds_bind; [|intros ?]
  | |- succeeds (wrapf _ _) => apply succeeds_wrapf
  | |- succeeds (if ?b then _ else _) => destruct b
  | |- succeeds (match ?x with _ => _ end) => destruct x
  | |- succeeds (callE _ id) => apply succeeds_callE; by intros ? [_ ?]
  | |- succeeds _ => solve [auto with bootc]
  end.

Lemma calm_getKarpenterNodeClaim {S : Type} node (s : S) h :
  wpg (getKarpenterNodeClaim node) s h (λ h' s' r, s' = s ∧ (calm_history h' →
    match r with
    | Ok (None, karpenterClaimNoRef) => isNodeOwnedByKarpenterNodeClaim node = false
    | Ok (Some c, karpenterClaimFound) => calm_claim c
    | _ => False
    end)).
Proof.
  apply wpg_getKarpenterNodeClaim.
  - intros Ef. split; [done|]. intros _. apply not_true_iff_false. intros (r & Hin & Hr)%existsb_exists.
    by rewrite (List.find_none _ _ Ef r Hin) in Hr.
  - intros ref [c|e] _; simpl.
    + split; [done|]. intros Hc%calm_last. by destruct Hc as [_ (c' & [= <-] & ?)].
    + repeat split_match; (split; [done|]); intros Hc%calm_last; by destruct Hc as [_ (c' & ? & _)].
Qed.

Lemma calm_undisrupted {S : Type} node (s : S) h :
  wpg (isKarpenterDisruptionActive node) s h (λ h' s' r, s' = s ∧
    (calm_node node → calm_history h' → ∃ claim, r = Ok (mkKDS false false claim))).
Proof.
  unfold isKarpenterDisruptionActive, calm_node.
  destruct (om_deletionTimestamp (node_meta node)); [go_step; split; [done|]; naive_solver|].
  destruct (existsb disruptionTaint _); [go_step; split; [done|]; naive_solver|].
  go_step. eapply wpg_mono; [|apply calm_getKarpenterNodeClaim].
  intros h2 s2 [[[c|] []]|e] [-> Hc]; try go_step; try (split; [done|]; intros _ Hh; by destruct (Hc Hh)).
  - destruct (om_deletionTimestamp (nc_meta c)) eqn:Ed.
    { go_step. split; [done|]. intros _ Hh. destruct (Hc Hh) as [? _]. congruence. }
    go_step. go_step. destruct (anyConditionTrue c lifecycleConditions) as [[]|e] eqn:Ea; try go_step.
    all: split; [done|]; intros _ Hh; destruct (Hc Hh) as [_ ?]; try congruence. eauto.
  - split; [done|]. eauto.
Qed.

Lemma succeeds_slotClaim node prefetched : succeeds (slotClaim node prefetched).
Proof.
  unfold slotClaim. destruct (isNodeOwnedByKarpenterNodeClaim node) eqn:Eo; [|auto with bootc].
  destruct prefetched; [auto with bootc|]. intros s h. go_step. go_step.
  eapply wpg_mono; [|apply calm_getKarpenterNodeClaim].
  intros h' s' [[[c|] []]|e] [_ H]; simpl; try go_step; try done; intros Hc; specialize (H Hc); done.
Qed.

Lemma succeeds_patchBN b b' : succeeds (patchBN b b').
Proof. unfold patchBN. succeed. Qed.
Lemma succeeds_patchNode n n' : succeeds (patchNode n n').
Proof. unfold patchNode. succeed. Qed.
#[local] Hint Resolve succeeds_slotClaim succeeds_patchBN succeeds_patchNode : bootc.

Lemma succeeds_assignRebootSlot prefetched : succeeds (assignRebootSlot prefetched).
Proof.
  unfold assignRebootSlot, patchClaimIfChanged. apply succeeds_bind; [succeed|intros bn].
  apply succeeds_bind; [succeed|intros node]. apply succeeds_bind; [succeed|intros claim].
  destruct (slotPlan _ _ _) as [[b' n'] c']. succeed.
Qed.

Lemma succeeds_freeRebootSlot prefetched : succeeds (freeRebootSlot prefetched).
Proof.
  unfold freeRebootSlot, restoreNodeState, restoreNodeClaimState.
  apply succeeds_bind; [|intros _; succeed]. apply succeeds_bind; [succeed|intros bn].
  apply succeeds_bind; [succeed|intros node]. destruct (restoredNode _ _) as [n' ch].
  succeed.
  all: try (unfold removeClaimAnnotations; destruct (removeOwnedAnnotation _ _ _ _) as [m1 c1];
    destruct (removeOwnedAnnotation _ _ _ _) as [m2 c2]; succeed).
  all: intros s h; eapply wpg_mono; [|apply calm_getKarpenterNodeClaim];
    intros h' s' [[[c|] []]|e] [_ H] Hc; specialize (H Hc); done.
Qed.

Lemma succeeds_removeTaint : succeeds removeOsNotReadyTaintAndAnnotation.
Proof.
  unfold removeOsNotReadyTaintAndAnnotation. apply succeeds_bind; [succeed|intros bn].
  apply succeeds_bind; [succeed|intros node]. destruct (removeOsNotReadyTaint _). succeed.
Qed.
End Calm.

(** ** The steps of a pass, one BootcNode at a time *)

Section Steps.
Context {L : Lib} {HL : LibLaws L} {C : Config}.
Implicit Types (h t : history) (s : CState) (bn b : BootcNode) (k : string).

Definition approved bn : bool := DesiredImageState (bn_spec bn) =s DesiredImageStateBooted.

(** [b'] is [b] with the approval [ap] and, if [sl], a slot; what else the
    annotations say is left open. *)
Definition becomes (sl ap : bool) b b' : Prop :=
  bn_name b' = bn_name b ∧ bn_status b' = bn_status b ∧
  DesiredImage (bn_spec b') = DesiredImage (bn_spec b) ∧ isSlotted b' = sl ∧ approved b' = ap.

Lemma becomes_refl b : becomes (isSlotted b) (approved b) b b.
Proof. done. Qed.

Lemma becomes_trans sl1 ap1 sl2 ap2 b1 b2 b3 :
  becomes sl1 ap1 b1 b2 → becomes sl2 ap2 b2 b3 → becomes sl2 ap2 b1 b3.
Proof. intros (? & ? & ? & _ & _) (? & ? & ? & ? & ?). split_and!; congruence. Qed.

(** The classification does not look at slots and approvals. *)
Lemma becomes_classify sl ap b b' : becomes sl ap b b' → classifyNode b' = classifyNode b.
Proof. intros (_ & Hst & Hd & _). unfold classifyNode. by rewrite Hst, Hd. Qed.

Lemma quiet_becomes t base new got :
  quiet_history t → Ev (PatchBootcNode base new) (Ok got) ∈ t →
  bn_status new = bn_status base → DesiredImage (bn_spec new) = DesiredImage (bn_spec base) →
  becomes (isSlotted new) (approved new) base got.
Proof.
  intros Hq Hin Hst Hd. rewrite Forall_forall in Hq. destruct (Hq _ Hin) as [Hh Hq'].
  destruct (Hh got eq_refl) as [Hn _]. destruct (Hq' got eq_refl) as (Ha & Hs & Hst').
  unfold becomes, approved. rewrite Hs, Hst', !isSlotted_spec. unfold GoMap.has. by rewrite (Ha _).
Qed.

(** A step that replaces the BootcNode [k] only. *)
Record replaced k (Q : BootcNode → BootcNode → Prop) s s' : Prop := {
  rp_owned : ∃ b b', cs_owned s !! k = Some b ∧ cs_owned s' = <[k := b']> (cs_owned s) ∧ Q b b';
  rp_pool : cs_pool s' = cs_pool s;
  rp_drains : cs_drains s' = cs_drains s
}.

(** Reading the Node and asking about Karpenter raises no objection. *)
Lemma calm_fetch_checked {A : Set} bn pre (f : Node → karpenterDisruptionStatus → ctl CState A) s h
    (Ψ : history → CState → result A → Prop) :
  (∀ t node claim, wpg (f node (mkKDS false false claim)) s (h ++ t)
     (λ h' s' r, calm_history h' → Ψ h' s' r)) →
  wpg (node <- fetchNode bn ;;
       kds <- wrapf pre (isKarpenterDisruptionActive node) ;; f node kds)%go s h
    (λ h' s' r, calm_history h' → Ψ h' s' r).
Proof.
  intros H. go_step. apply wpg_fetchNode.
  2:{ intros e e' Hc%calm_last. by destruct Hc as [_ (? & ? & _)]. }
  intros node. apply wpg_calm. intros Hn%calm_last. destruct Hn as [_ (n & [= <-] & Hn)].
  go_step. go_step. eapply wpg_mono; [|apply wpg_and; [apply calm_undisrupted|apply wpg_history]].
  intros h1 s1 [kds|e] [[-> Hk] [t ->]]; simpl.
  - apply wpg_calm. intros Hc. destruct (Hk Hn Hc) as [claim [= ->]]. rewrite <- app_assoc. apply H.
  - intros Hc. by destruct (Hk Hn Hc).
Qed.

(** A candidate gets its slot, or keeps it. *)
Lemma candidate_true k s h :
  is_Some (cs_owned s !! k) →
  wpg (processCandidate k) s h (λ h' _ r, calm_history h' → r = Ok true).
Proof.
  intros [bn Hbn]. unfold processCandidate. go_step. apply wpg_deref; [|by rewrite Hbn]. intros b _.
  apply calm_fetch_checked. intros t node claim. simpl. go_step. go_step. apply wpg_onPair.
  eapply wpg_mono; [|apply succeeds_assignRebootSlot].
  intros h3 s3 [[]|e] Hok; simpl; [|intros Hc; by specialize (Hok Hc)].
  go_step. split_match; [unfold requeue, modifyRS|]; go_step; by go_step.
Qed.

Lemma candidate_calm k s h :
  is_Some (cs_owned s !! k) →
  wpg (processCandidate k) s h (λ h' s' r, calm_history h' →
    r = Ok true ∧ replaced k (λ b b', becomes true (approved b) b b') s s' ∧ same_rs (cs_rs s) (cs_rs s')).
Proof.
  intros Hk. eapply wpg_mono; [|apply wpg_and; [by apply candidate_true|
    apply (wpg_processCandidate k s h (λ h' s' r, calm_history h' → r = Ok true →
      replaced k (λ b b', becomes true (approved b) b b') s s' ∧ same_rs (cs_rs s) (cs_rs s')))]].
  - intros h' s' r [Hr Hrest] Hc. specialize (Hr Hc). destruct (Hrest Hc Hr). done.
  - intros Hn. by destruct Hk as [b Hb]; rewrite Hb in Hn.
  - intros bn t s' r _ _ _ _ Hr _ ?. done.
  - intros bn t node claim b' n' c' ta s' b1 r Hbn _ _ _ _ Hplan _ _ Hok (Hp & Hd & Hrs) Ho Hc ->.
    destruct (Hok eq_refl) as [_ Hba]. split; [|done]. split; [|done|done]. exists bn, b1.
    split_and!; [done|done|]. destruct Hplan as [Hpb Hps _ _ _ _ _].
    assert (isSlotted b' = true) as Hb' by (rewrite isSlotted_spec; apply GoMap.has_true; rewrite Hps; eauto).
    assert (approved b' = approved bn) as Hap by (by rewrite Hpb).
    rewrite !Forall_app in Hc. destruct Hc as (_ & _ & Hc%calm_quiet).
    unfold bn_after in Hba. destruct (annotationsEqual _ _) eqn:Ea.
    + subst b1. apply annotationsEqual_ext in Ea. assert (isSlotted bn = true) as Hs.
      { rewrite isSlotted_spec in *. unfold GoMap.has in *. by rewrite (Ea _). }
      rewrite <- Hs. apply becomes_refl.
    + rewrite <- Hb', <- Hap. eapply quiet_becomes; [done|done|by rewrite Hpb..].
Qed.

(** The rollout state, up to the number of occupied slots. *)
Definition same_buckets (rs rs' : rolloutState) : Prop := ∃ n, rs' = setOccupied n rs.

Lemma same_buckets_refl rs : same_buckets rs rs.
Proof. exists (occupiedSlots rs). by destruct rs. Qed.

Lemma same_buckets_trans rs1 rs2 rs3 : same_buckets rs1 rs2 → same_buckets rs2 rs3 → same_buckets rs1 rs3.
Proof. intros [n ->] [m ->]. by exists m. Qed.

Lemma replaced_same k (Q : BootcNode → BootcNode → Prop) s b :
  cs_owned s !! k = Some b → Q b b → replaced k Q s s.
Proof. intros Hk HQ. split; [|done|done]. exists b, b. by rewrite insert_id. Qed.

(** The slot of a node that is up to date is freed. *)
Lemma free_calm k s h :
  is_Some (cs_owned s !! k) →
  wpg (freeCompletedSlot k) s h (λ h' s' r, calm_history h' →
    r = Ok tt ∧ replaced k (λ b b', becomes false (approved b) b b') s s' ∧ same_buckets (cs_rs s) (cs_rs s')).
Proof.
  intros [bn Hbn]. unfold freeCompletedSlot. go_step. apply wpg_deref; [|by rewrite Hbn]. intros b Hb.
  fold (isSlotted b). destruct (negb (isSlotted b) && _) eqn:Eu.
  { go_step. intros _. apply andb_true_iff in Eu as [Eu%negb_true_iff _].
    split_and!; [done| |apply same_buckets_refl]. eapply replaced_same; [done|]. rewrite <- Eu. apply becomes_refl. }
  go_step. apply wpg_fetchNode.
  2:{ intros e e' Hc%calm_last. by destruct Hc as [_ (? & ? & _)]. }
  intros node. apply wpg_calm. intros Hn%calm_last. destruct Hn as [_ (n & [= <-] & Hn & _)].
  rewrite Hn, seq_b_refl. cbn [negb]. destruct (isSlotted b) eqn:Es.
  - go_step. go_step. apply wpg_onPair.
    eapply wpg_mono; [|apply wpg_and; [apply succeeds_freeRebootSlot|apply (wpg_freeRebootSlot_sum None b node _
      (λ h' p r, ∃ t, h' = (h ++ [Ev (GetNode (bn_name b)) (Ok node)]) ++ t ∧
        (if is_ok r then Ev (PatchBootcNode b (clearSlotKeys b)) (Ok p.1) ∈ t else p.1 = b)))]].
    2:{ intros t p r _ Hr. by exists t. }
    intros h' [b1 n1] [[]|e] [Hok (t & -> & Hr)]; simpl in *; [|intros Hc; by specialize (Hok Hc)].
    unfold modifyRS. go_step. intros [_ Hc%calm_quiet]%Forall_app.
    split_and!; [done| |by eexists]. split; [|done|done]. exists b, b1. split_and!; [done|done|].
    rewrite <- (clear_not_slotted b). by eapply (quiet_becomes t b (clearSlotKeys b)).
  - destruct (HasAnnotation (bn_meta b) AnnotationOwnsOsNotReadyTaint) eqn:Et; [|done].
    go_step. go_step. apply wpg_onPair.
    eapply wpg_mono; [|apply wpg_and; [apply succeeds_removeTaint|apply (wpg_removeTaint_sum b node _
      (λ h' p r, ∃ t, h' = (h ++ [Ev (GetNode (bn_name b)) (Ok node)]) ++ t ∧
        (p.1 = b ∨ Ev (PatchBootcNode b (clearTaintRecord b)) (Ok p.1) ∈ t)))]].
    2:{ intros t p r _ Hr. by exists t. }
    intros h' [b1 n1] [[]|e] [Hok (t & -> & Hr)]; simpl in *; [|intros Hc; by specialize (Hok Hc)].
    go_step. intros [_ Hc%calm_quiet]%Forall_app.
    split_and!; [done| |apply same_buckets_refl]. split; [|done|done]. exists b, b1. split_and!; [done|done|].
    destruct Hr as [->|Hr]; [rewrite <- Es; apply becomes_refl|].
    rewrite <- Es, <- (taint_slotted b). by eapply (quiet_becomes t b (clearTaintRecord b)).
Qed.

(** A finished drain approves its node. *)
Lemma collect_calm k s h :
  is_Some (cs_owned s !! k) →
  wpg (collectDrainResult k) s h (λ h' s' r, calm_history h' →
    r = Ok tt ∧ cs_pool s' = cs_pool s ∧ cs_drains s' = delete k (cs_drains s) ∧
    ∃ b b', cs_owned s !! k = Some b ∧ cs_owned s' = <[k := b']> (cs_owned s) ∧ becomes (isSlotted b) true b b').
Proof.
  intros [bn Hbn]. apply wpg_collectDrainResult.
  - intros Hc%calm_last. by destruct Hc as [_ ?].
  - intros res c t s' _ Hno Hc. exfalso. apply (Hno bn); [|done].
    assert (calm (Ev (PollDrain k) (Some res))) as [_ [= Hr]] by (eapply calm_in; [exact Hc|set_solver]). done.
  - intros b c x s' Hb Hc. destruct x as [got|e].
    + split_and!; [done..|]. exists b, got. split_and!; [done|done|].
      eapply (quiet_becomes _ b (setDesiredImageState DesiredImageStateBooted b)); [by eapply calm_quiet|set_solver|done|done].
    + assert (calm (Ev (PatchBootcNode b (setDesiredImageState DesiredImageStateBooted b)) (Err e))) as [_ ?]
        by (eapply calm_in; [exact Hc|set_solver]). done.
Qed.

(** Every slotted node that is not approved is being drained afterwards. *)
Lemma drain_calm k s h :
  (∀ b, cs_owned s !! k = Some b → bn_name b = k) → is_Some (cs_owned s !! k) →
  wpg (drainCandidate k) s h (λ h' s' r, calm_history h' →
    r = Ok tt ∧ cs_pool s' = cs_pool s ∧ cs_owned s' = cs_owned s ∧
    ∃ b, cs_owned s !! k = Some b ∧
      dom (cs_drains s') = dom (cs_drains s) ∪ (if isSlotted b && negb (approved b) then {[k]} else ∅)).
Proof.
  intros Hname [bn Hbn]. unfold drainCandidate. go_step. apply wpg_deref; [|by rewrite Hbn]. intros b Hb.
  specialize (Hname b Hb). fold (isSlotted b) (approved b).
  destruct (isSlotted b) eqn:Es; cbn [negb andb].
  2:{ go_step. intros _. split_and!; [done..|]. exists b. split; [done|]. rewrite Es. simpl. set_solver. }
  destruct (approved b) eqn:Ea.
  { go_step. intros _. split_and!; [done..|]. exists b. split; [done|]. rewrite Es, Ea. simpl. set_solver. }
  apply calm_fetch_checked. intros t node claim. simpl. unfold ensureDrain. go_step. go_step.
  rewrite Hname. destruct (cs_drains s !! k) as [d|] eqn:Ed.
  { go_step. intros _. split_and!; [done..|]. exists b. split; [done|]. rewrite Es, Ea. simpl.
    apply elem_of_dom_2 in Ed. set_solver. }
  do 6 go_step. apply (wpg_call (resp := resp) (StartDrain _ _ _)). intros y _.
  split_and!; [by destruct y|done..|]. exists b. split; [done|]. rewrite Es, Ea. simpl. rewrite dom_insert_L. set_solver.
Qed.

(** ** Loops over BootcNodes *)

(** The BootcNodes [ks] were replaced as [Q] says, the others are the same. *)
Definition replaced_all (ks : list string) (Q : BootcNode → BootcNode → Prop) (o o' : gmap string BootcNode) : Prop :=
  (∀ k, k ∉ ks → o' !! k = o !! k) ∧
  (∀ k b, k ∈ ks → o !! k = Some b → ∃ b', o' !! k = Some b' ∧ Q b b').

Lemma replaced_all_nil Q o : replaced_all [] Q o o.
Proof. split; [done|]. by intros k b Hk%elem_of_nil. Qed.

Lemma replaced_all_snoc ks k Q o o1 b b' :
  k ∉ ks → replaced_all ks Q o o1 → o1 !! k = Some b → Q b b' → replaced_all (ks ++ [k]) Q o (<[k := b']> o1).
Proof.
  intros Hk [H1 H2] Hb HQ. split.
  - intros j Hj. rewrite elem_of_app, list_elem_of_singleton in Hj.
    rewrite lookup_insert_ne by naive_solver. apply H1. naive_solver.
  - intros j bj Hj Hbj. destruct (decide (j = k)) as [->|Hne].
    + rewrite lookup_insert_eq. rewrite H1 in Hb by done. simplify_eq. eauto.
    + rewrite lookup_insert_ne by done. apply H2; [|done]. set_solver.
Qed.

Lemma replaced_all_some ks Q o o' k : replaced_all ks Q o o' → is_Some (o !! k) → is_Some (o' !! k).
Proof.
  intros [H1 H2] [b Hb]. destruct (decide (k ∈ ks)) as [Hk|Hk].
  - destruct (H2 k b Hk Hb) as (b' & -> & _). eauto.
  - rewrite H1 by done. eauto.
Qed.

(** What is carried along besides: the pool, the drains, and a preorder on the
    rollout state. *)
Lemma forEach_replaced {X : Set} (R : rolloutState → rolloutState → Prop) `{!PreOrder R} (f : string → ctl CState X)
    Q (l : list string) s h :
  NoDup l → (∀ k, k ∈ l → is_Some (cs_owned s !! k)) →
  (∀ k s h, is_Some (cs_owned s !! k) → wpg (f k) s h (λ h' s' r, calm_history h' →
     is_ok r = true ∧ replaced k Q s s' ∧ R (cs_rs s) (cs_rs s'))) →
  wpg (forEach l (λ k, gbind (f k) (λ _, ret tt))) s h (λ h' s' r, calm_history h' →
    r = Ok tt ∧ replaced_all l Q (cs_owned s) (cs_owned s') ∧ cs_pool s' = cs_pool s ∧
    cs_drains s' = cs_drains s ∧ R (cs_rs s) (cs_rs s')).
Proof.
  intros Hnd Hl Hf.
  apply (wpg_forEach (λ done h' s', calm_history h' → replaced_all done Q (cs_owned s) (cs_owned s') ∧
    cs_pool s' = cs_pool s ∧ cs_drains s' = cs_drains s ∧ R (cs_rs s) (cs_rs s'))).
  - intros done k rest s1 h1 -> HI. apply NoDup_app in Hnd as (_ & Hd & _).
    assert (k ∉ done) as Hk by (intros Hin; apply (Hd k Hin); set_solver).
    eapply wpg_mono with (Φ := λ h' s' r, calm_history h' → r = Ok tt ∧
      replaced_all (done ++ [k]) Q (cs_owned s) (cs_owned s') ∧
      cs_pool s' = cs_pool s ∧ cs_drains s' = cs_drains s ∧ R (cs_rs s) (cs_rs s')).
    { intros h2 s2 [[]|e] H2 Hc; destruct (H2 Hc) as [Heq ?]; done. }
    apply wpg_calm. intros Hc1. destruct (HI Hc1) as (Hr & Hp & Hdr & HR).
    go_step. eapply wpg_mono; [|apply Hf].
    2:{ eapply replaced_all_some; [exact Hr|]. apply Hl. set_solver. }
    intros h2 s2 [x|e] H2; [go_step|]; intros Hc; destruct (H2 Hc) as (Hok & [(b & b' & Hb & Ho & HQ) Hp2 Hd2] & HR2); [|done].
    split_and!; [done| |congruence..|by etransitivity]. rewrite Ho. by eapply replaced_all_snoc.
  - intros _. split_and!; [apply replaced_all_nil|done..].
  - intros h' s' H Hc. by destruct (H Hc).
Qed.

#[global] Instance same_buckets_preorder : PreOrder same_buckets.
Proof. split; [exact same_buckets_refl|exact same_buckets_trans]. Qed.

Lemma wpg_forEach_ret (f : string → ctl CState unit) l s h Φ :
  wpg (forEach l (λ k, gbind (f k) (λ _, ret tt))) s h Φ → wpg (forEach l f) s h Φ.
Proof.
  revert s h. induction l as [|k l IH]; intros s h; simpl; [done|]. unfold wpg, gbind. rewrite !wp_bind.
  intros H. eapply wp_mono; [|exact H]. intros h' [s' [[]|e]]; simpl; [|done].
  intros H'. by apply IH.
Qed.

#[local] Instance same_rs_preorder : PreOrder same_rs.
Proof. apply _. Qed.

(** The candidates without a slot: a part of them, at least the first if there is
    capacity, gets one. *)
Lemma assignLoop_calm l (a av : Z) s h :
  NoDup l → (∀ k, k ∈ l → is_Some (cs_owned s !! k)) →
  wpg (assignLoop l a av) s h (λ h' s' r, calm_history h' →
    r = Ok tt ∧ cs_pool s' = cs_pool s ∧ cs_drains s' = cs_drains s ∧ same_rs (cs_rs s) (cs_rs s') ∧
    ∃ l1 l2, l = l1 ++ l2 ∧ ((a < av)%Z → l1 = [] → l = []) ∧
      replaced_all l1 (λ b b', becomes true (approved b) b b') (cs_owned s) (cs_owned s')).
Proof.
  revert a s h. induction l as [|k l IH]; intros a s h Hnd Hl; simpl.
  { go_step. intros _. split_and!; [done..|]. exists [], []. split_and!; [done..|apply replaced_all_nil]. }
  destruct (Z.leb_spec av a) as [Hle|Hlt].
  { go_step. intros _. split_and!; [done..|]. exists [], (k :: l). split_and!; [done|lia|apply replaced_all_nil]. }
  apply NoDup_cons in Hnd as [Hk Hnd]. go_step. eapply wpg_mono; [|apply candidate_calm, Hl; set_solver].
  intros h1 s1 [b|e] H1; [|intros Hc; by destruct (H1 Hc)].
  apply wpg_calm. intros Hc1. destruct (H1 Hc1) as ([= ->] & [(b0 & b1 & Hb0 & Ho & HQ) Hp1 Hd1] & Hrs1).
  eapply wpg_mono; [|apply (IH _ s1 h1 Hnd)].
  2:{ intros j Hj. rewrite Ho, lookup_insert_ne by (intros ->; done). apply Hl. set_solver. }
  intros h2 s2 r H2 Hc. destruct (H2 Hc) as (-> & Hp2 & Hd2 & Hrs2 & l1 & l2 & -> & _ & Hr1 & Hr2).
  split_and!; [done|congruence..|by etransitivity|]. exists (k :: l1), l2. split_and!; [done|done|].
  assert (k ∉ l1) as Hk1 by set_solver. split.
  - intros j [Hjk Hj]%not_elem_of_cons. rewrite Hr1 by done. rewrite Ho. by rewrite lookup_insert_ne.
  - intros j b [->|Hj]%elem_of_cons Hb.
    + rewrite Hr1, Ho, lookup_insert_eq by done. simplify_eq. eauto.
    + apply Hr2; [done|]. rewrite Ho, lookup_insert_ne; [done|]. by intros ->.
Qed.

(** The loop that starts the drains. *)
Lemma drainLoop_calm l s h :
  (∀ k b, cs_owned s !! k = Some b → bn_name b = k) → (∀ k, k ∈ l → is_Some (cs_owned s !! k)) →
  wpg (forEach l drainCandidate) s h (λ h' s' r, calm_history h' →
    r = Ok tt ∧ cs_pool s' = cs_pool s ∧ cs_owned s' = cs_owned s ∧
    ∀ k, k ∈ dom (cs_drains s') ↔ k ∈ dom (cs_drains s) ∨
      (k ∈ l ∧ ∃ b, cs_owned s !! k = Some b ∧ isSlotted b = true ∧ approved b = false)).
Proof.
  intros Hname Hl. apply (wpg_forEach (λ done h' s', calm_history h' →
    cs_pool s' = cs_pool s ∧ cs_owned s' = cs_owned s ∧
    ∀ k, k ∈ dom (cs_drains s') ↔ k ∈ dom (cs_drains s) ∨
      (k ∈ done ∧ ∃ b, cs_owned s !! k = Some b ∧ isSlotted b = true ∧ approved b = false))).
  - intros done k rest s1 h1 -> HI.
    eapply wpg_mono with (Φ := λ h' s' r, calm_history h' → r = Ok tt ∧
      cs_pool s' = cs_pool s ∧ cs_owned s' = cs_owned s ∧
      ∀ j, j ∈ dom (cs_drains s') ↔ j ∈ dom (cs_drains s) ∨
        (j ∈ done ++ [k] ∧ ∃ b, cs_owned s !! j = Some b ∧ isSlotted b = true ∧ approved b = false)).
    { intros h2 s2 [[]|e] H2 Hc; destruct (H2 Hc) as [Heq ?]; done. }
    apply wpg_calm. intros Hc1. destruct (HI Hc1) as (Hp & Ho & Hd).
    eapply wpg_mono; [|apply drain_calm; rewrite Ho; [apply Hname|apply Hl; set_solver]].
    intros h2 s2 r H2 Hc. destruct (H2 Hc) as (-> & Hp2 & Ho2 & b & Hb & Hd2). rewrite Ho in Hb.
    split_and!; [done|congruence|congruence|]. intros j. rewrite Hd2, elem_of_union, Hd, elem_of_app, list_elem_of_singleton.
    split.
    + intros [[Hj|[Hj Hbj]]|Hj]; [by left|right; split; [by left|done]|].
      destruct (isSlotted b && negb (approved b)) eqn:Ee; [|by apply elem_of_empty in Hj].
      apply elem_of_singleton in Hj as ->. apply andb_true_iff in Ee as [? ?%negb_true_iff].
      right. split; [by right|by exists b].
    + intros [Hj|[[Hj| ->] (b' & Hb' & Hs & Ha)]]; [by left; left|left; right; split; [done|by exists b']|].
      right. simplify_eq. rewrite Hs, Ha. simpl. by apply elem_of_singleton.
  - intros _. split_and!; [done..|]. set_solver.
  - intros h' s' H Hc. by destruct (H Hc).
Qed.

(** A step that gives slots to some and takes none. *)
Definition slots_more b b' : Prop :=
  becomes (isSlotted b') (approved b) b b' ∧ (isSlotted b = true → isSlotted b' = true).

Lemma slots_more_refl b : slots_more b b.
Proof. split; [apply becomes_refl|done]. Qed.

Lemma slots_more_becomes b b' : becomes true (approved b) b b' → slots_more b b'.
Proof. intros H. split; [|by intros _; apply H]. by replace (isSlotted b') with true by (symmetry; apply H). Qed.

Lemma slots_more_trans b1 b2 b3 : slots_more b1 b2 → slots_more b2 b3 → slots_more b1 b3.
Proof.
  intros [H1 H1'] [H2 H2']. split; [|auto]. replace (approved b1) with (approved b2) by apply H1. by eapply becomes_trans.
Qed.

(** Replacing some of [ks] in two goes. *)
Lemma replaced_twice (l1 l2 ks : list string) o o1 o2 k b :
  replaced_all l1 (λ b b', becomes true (approved b) b b') o o1 →
  replaced_all l2 (λ b b', becomes true (approved b) b b') o1 o2 →
  (∀ k, k ∈ l1 ∨ k ∈ l2 → k ∈ ks) → o !! k = Some b →
  ∃ b', o2 !! k = Some b' ∧ slots_more b b' ∧ (k ∉ ks → b' = b).
Proof.
  intros [H1 H1'] [H2 H2'] Hks Hb.
  assert (∃ b1, o1 !! k = Some b1 ∧ slots_more b b1 ∧ (k ∉ ks → b1 = b)) as (b1 & Hb1 & Hm1 & Hn1).
  { destruct (decide (k ∈ l1)) as [Hk|Hk].
    - destruct (H1' k b Hk Hb) as (b1 & ? & ?). exists b1. split_and!; [done|by apply slots_more_becomes|naive_solver].
    - exists b. rewrite H1 by done. split_and!; [done|apply slots_more_refl|done]. }
  destruct (decide (k ∈ l2)) as [Hk|Hk].
  - destruct (H2' k b1 Hk Hb1) as (b2 & ? & ?). exists b2.
    split_and!; [done|by eapply slots_more_trans, slots_more_becomes|naive_solver].
  - exists b1. rewrite H2 by done. done.
Qed.

(** The effect of [advance]. *)
Definition advanced mu s s' : Prop :=
  cs_pool s' = cs_pool s ∧
  (∀ k b, cs_owned s !! k = Some b →
     ∃ b', cs_owned s' !! k = Some b' ∧ slots_more b b' ∧ (k ∉ staged (cs_rs s) → b' = b)) ∧
  (∀ k, cs_owned s !! k = None → cs_owned s' !! k = None) ∧
  (∀ k, k ∈ dom (cs_drains s') ↔ k ∈ dom (cs_drains s) ∨
     (k ∈ staged (cs_rs s) ∧ ∃ b', cs_owned s' !! k = Some b' ∧ isSlotted b' = true ∧ approved b' = false)) ∧
  ((occupiedSlots (cs_rs s) < mu)%Z → (∃ k, k ∈ staged (cs_rs s) ∧ slotted (cs_owned s) k = false) →
     ∃ k, k ∈ staged (cs_rs s) ∧ slotted (cs_owned s) k = false ∧ slotted (cs_owned s') k = true).

Lemma advance_calm mu s h :
  NoDup (staged (cs_rs s)) → (∀ k, k ∈ staged (cs_rs s) → is_Some (cs_owned s !! k)) →
  (∀ k b, cs_owned s !! k = Some b → bn_name b = k) →
  resolveMaxUnavailable (cs_pool s) (Z.of_nat (nodeCount (cs_rs s))) = Ok mu →
  wpg advance s h (λ h' s' r, calm_history h' → r = Ok tt ∧ advanced mu s s').
Proof.
  intros Hnd Hin Hname Hmu. unfold advance. do 6 go_step. rewrite Hmu. do 2 go_step.
  pose proof (λ k, partition_members (cs_owned s) (staged (cs_rs s)) k) as Hmem.
  pose proof (partition_NoDup (cs_owned s) _ Hnd) as [Hsl Hun].
  destruct (partitionSlottedNodes _ _) as [sl un] eqn:Ep. simpl in Hmem, Hsl, Hun.
  assert (∀ k, k ∈ sl ↔ slotted (cs_owned s) k = true ∧ k ∈ staged (cs_rs s)) as Hmsl by (intros k; apply Hmem).
  assert (∀ k, k ∈ un ↔ slotted (cs_owned s) k = false ∧ k ∈ staged (cs_rs s)) as Hmun by (intros k; apply Hmem).
  clear Hmem Ep.
  eapply wpg_then; [apply (forEach_replaced same_rs processCandidate (λ b b', becomes true (approved b) b b'));
    [exact Hsl|intros k [_ Hk]%Hmsl; auto|]|].
  { intros k s1 h1 Hk. eapply wpg_mono; [|by apply candidate_calm]. intros h2 s2 r H2 Hc. by destruct (H2 Hc) as (-> & ?). }
  intros h1 s1 _ (Hr1 & Hp1 & Hd1 & Hrs1).
  eapply wpg_then; [apply assignLoop_calm; [exact Hun|]|].
  { intros k [_ Hk]%Hmun. eapply replaced_all_some; eauto. }
  intros h2 s2 _ (Hp2 & Hd2 & Hrs2 & l1 & l2 & Hl & Hne & Hr2).
  assert (∀ k, k ∈ l1 → k ∈ un) as Hl1 by (intros k Hk; rewrite Hl; apply elem_of_app; by left).
  assert (∀ k b, cs_owned s !! k = Some b →
    ∃ b', cs_owned s2 !! k = Some b' ∧ slots_more b b' ∧ (k ∉ staged (cs_rs s) → b' = b)) as Howned.
  { intros k b Hb. eapply (replaced_twice sl l1); eauto.
    intros j [Hj|Hj%Hl1]; [by apply Hmsl in Hj as []|by apply Hmun in Hj as []]. }
  eapply (wpg_then _ _ _ _ (λ _ s', cs_owned s' = cs_owned s2 ∧ cs_pool s' = cs_pool s ∧ cs_drains s' = cs_drains s)).
  { unfold requeueKarpenter. go_step. go_step. destruct (existsb _ _); [unfold requeue, modifyRS|]; go_step; intros _;
      (split; [done|]); simpl; split_and!; congruence. }
  intros h3 s3 _ (Ho3 & Hp3 & Hd3). eapply wpg_mono; [|apply drainLoop_calm; rewrite Ho3].
  - intros h4 s4 r H4 Hc. destruct (H4 Hc) as (-> & Hp4 & Ho4 & Hd4). split; [done|].
    unfold advanced. rewrite Ho4, Ho3. split_and!; [congruence|done| | |].
    + intros k Hk. rewrite (proj1 Hr2), (proj1 Hr1); [done|..].
      * intros [_ Hj]%Hmsl. destruct (Hin k Hj) as [? ?]. congruence.
      * intros [_ Hj]%Hl1%Hmun. destruct (Hin k Hj) as [? ?]. congruence.
    + intros k. rewrite Hd4, Hd3. by rewrite Ho3.
    + intros Hocc (k & Hk & Hks). destruct l1 as [|k1 l1].
      * assert (un = []) as Hu by (apply Hne; [lia|done]). assert (k ∈ un) as Hku by by apply Hmun.
        rewrite Hu in Hku. by apply elem_of_nil in Hku.
      * assert (k1 ∈ un) as Hk1 by (apply Hl1, elem_of_cons; by left). apply Hmun in Hk1 as [Hk1 Hk1'].
        exists k1. split_and!; [done|done|]. assert (k1 ∉ sl) as Hns by (rewrite Hmsl; naive_solver congruence).
        destruct (Hin k1 Hk1') as [b Hb].
        destruct (proj2 Hr2 k1 b) as (b' & Hb' & Hbec); [apply elem_of_cons; by left|by rewrite (proj1 Hr1)|].
        unfold slotted. rewrite Hb'. apply Hbec.
  - intros k b Hb. destruct (cs_owned s !! k) as [b0|] eqn:Eb.
    + destruct (Howned k b0 Eb) as (b' & Hb' & [(Hn & _) _] & _). simplify_eq. rewrite Hn. by apply Hname.
    + rewrite (proj1 Hr2), (proj1 Hr1) in Hb; [congruence|..].
      * intros [_ Hj]%Hmsl. destruct (Hin k Hj) as [? ?]. congruence.
      * intros [_ Hj]%Hl1%Hmun. destruct (Hin k Hj) as [? ?]. congruence.
  - intros k Hk. destruct (Hin k Hk) as [b Hb]. destruct (Howned k b Hb) as (b' & -> & _). eauto.
Qed.
End Steps.

(** ** The pass *)

Section Pass.
Context {L : Lib} {HL : LibLaws L} {C : Config} `{MapOrder}.
Implicit Types (h t : history) (s : CState) (bn b : BootcNode) (k : string).

(** Where a healthy rollout keeps its nodes: none is Degraded or seen in the
    middle of a reboot; an approved node has its slot, or is done; and the drains
    are those of the staged nodes that wait in a slot for their approval. *)
Definition orderly_node (draining : bool) b : Prop :=
  match classifyNode b with
  | Ok nodeStateUpToDate => draining = false
  | Ok nodeStatePending | Ok nodeStateStaging => draining = false ∧ approved b = false
  | Ok nodeStateStaged =>
      (approved b = true → isSlotted b = true) ∧
      (draining = true → isSlotted b = true ∧ approved b = false)
  | _ => False
  end.

Definition drainsOn (drains : gmap string drainStatus) k : bool := bool_decide (is_Some (drains !! k)).

Record orderly (owned : gmap string BootcNode) (drains : gmap string drainStatus) : Prop := {
  or_node k b : owned !! k = Some b → bn_name b = k ∧ orderly_node (drainsOn drains k) b;
  or_drains k : is_Some (drains !! k) → is_Some (owned !! k)
}.

Lemma orderly_classified owned drains k b :
  orderly owned drains → owned !! k = Some b →
  ∃ st, classifyNode b = Ok st ∧ st ≠ nodeStateDegraded ∧ st ≠ nodeStateRebooting.
Proof.
  intros Ho Hk. destruct (or_node _ _ Ho k b Hk) as [_ Hn]. unfold orderly_node in Hn.
  destruct (classifyNode b) as [[]|]; eauto; done.
Qed.

(** The drains that finished are collected. *)
Definition collected drains b b' k : Prop :=
  becomes (isSlotted b) (approved b || drainsOn drains k) b b'.

Lemma collect_all_calm s h :
  orderly (cs_owned s) (cs_drains s) →
  wpg collectDrainResults s h (λ h' s' r, calm_history h' → r = Ok tt ∧
    (cs_pool s' = cs_pool s ∧ cs_drains s' = ∅ ∧ dom (cs_owned s') = dom (cs_owned s) ∧
     ∀ k b, cs_owned s !! k = Some b → ∃ b', cs_owned s' !! k = Some b' ∧ collected (cs_drains s) b b' k)).
Proof.
  intros Hord. unfold collectDrainResults. go_step. go_step.
  pose proof (NoDup_rangeKeys 3 (cs_drains s)) as Hnd.
  pose proof (λ k, elem_of_rangeKeys 3 (cs_drains s) k) as Hin.
  set (l := rangeKeys 3 (cs_drains s)) in *.
  apply (wpg_forEach (λ done h' s', calm_history h' → cs_pool s' = cs_pool s ∧
    replaced_all done (λ b b', becomes (isSlotted b) true b b') (cs_owned s) (cs_owned s') ∧
    ∀ k, cs_drains s' !! k = if decide (k ∈ done) then None else cs_drains s !! k)).
  - intros done k rest s1 h1 Hl HI. rewrite Hl in Hnd. apply NoDup_app in Hnd as (_ & Hd & _).
    assert (k ∉ done) as Hk by (intros Hk; apply (Hd k Hk); set_solver).
    assert (k ∈ l) as Hkl by (rewrite Hl; set_solver).
    eapply wpg_mono with (Φ := λ h' s' r, calm_history h' → r = Ok tt ∧ cs_pool s' = cs_pool s ∧
      replaced_all (done ++ [k]) (λ b b', becomes (isSlotted b) true b b') (cs_owned s) (cs_owned s') ∧
      ∀ j, cs_drains s' !! j = if decide (j ∈ done ++ [k]) then None else cs_drains s !! j).
    { intros h2 s2 [[]|e] H2 Hc; destruct (H2 Hc) as [Heq ?]; done. }
    apply wpg_calm. intros Hc1. destruct (HI Hc1) as (Hp & Hr & Hdr).
    eapply wpg_mono; [|apply collect_calm; eapply replaced_all_some; [exact Hr|by apply (or_drains _ _ Hord), Hin]].
    intros h2 s2 r H2 Hc. destruct (H2 Hc) as (-> & Hp2 & Hd2 & b & b' & Hb & Ho & HQ).
    split_and!; [done|congruence|rewrite Ho; by eapply replaced_all_snoc|].
    intros j. rewrite Hd2, lookup_delete, Hdr. repeat case_decide; set_solver.
  - intros _. split_and!; [done|apply replaced_all_nil|]. intros k. by rewrite decide_False by (by intros ?%elem_of_nil).
  - intros h' s' HI Hc. destruct (HI Hc) as (Hp & Hr & Hd). split_and!; [done|done| | |].
    + apply map_empty. intros k. rewrite Hd. case_decide as Hk; [done|]. rewrite Hin in Hk.
      by apply eq_None_not_Some.
    + apply set_eq. intros k. rewrite !elem_of_dom. split; [|by apply (replaced_all_some _ _ _ _ _ Hr)].
      destruct (decide (k ∈ l)) as [Hk|Hk]; [intros _; by apply (or_drains _ _ Hord), Hin|by rewrite (proj1 Hr)].
    + intros k b Hb. unfold collected, drainsOn. destruct (decide (k ∈ l)) as [Hk|Hk].
      * destruct (proj2 Hr k b Hk Hb) as (b' & ? & ?). exists b'. rewrite Hin in Hk.
        rewrite bool_decide_true, orb_true_r by done. done.
      * exists b. rewrite (proj1 Hr) by done. rewrite Hin in Hk. rewrite bool_decide_false, orb_false_r by done.
        split; [done|apply becomes_refl].
Qed.

(** The buckets of a pass without trouble. *)
Record sorted_out (owned : gmap string BootcNode) (rs : rolloutState) : Prop := {
  so_upToDate k : k ∈ upToDate rs ↔ ∃ b, owned !! k = Some b ∧ classifyNode b = Ok nodeStateUpToDate;
  so_staged k : k ∈ staged rs ↔ ∃ b, owned !! k = Some b ∧ classifyNode b = Ok nodeStateStaged;
  so_nodup : NoDup (upToDate rs) ∧ NoDup (staged rs);
  so_healthy : degraded rs = [] ∧ rebootTimedOutNodes rs = [];
  so_count : nodeCount rs = size owned
}.

Lemma classify_calm s h :
  (∀ k b, cs_owned s !! k = Some b →
     ∃ st, classifyNode b = Ok st ∧ st ≠ nodeStateDegraded ∧ st ≠ nodeStateRebooting) →
  wpg classifyPass s h (λ h' s' r, calm_history h' → r = Ok tt ∧
    (cs_pool s' = cs_pool s ∧ cs_owned s' = cs_owned s ∧ cs_drains s' = cs_drains s ∧
     sorted_out (cs_owned s) (cs_rs s'))).
Proof.
  intros Hst. unfold classifyPass. do 6 go_step.
  pose proof (timeouts_shape (cs_owned s) (resolveRebootTimeout (cs_pool s)) x) as Hsh. cbv zeta in Hsh.
  destruct (applyRebootTimeouts _ _ _ _) as [rs rq]. simpl in Hsh.
  destruct Hsh as (out & Hdeg & Hto & Hup & Hsd & _ & Hcnt & _ & Hout).
  assert (∀ st, (st = nodeStateDegraded ∨ st = nodeStateRebooting) → bucket (buildRolloutState (cs_owned s)) st = []) as Hnone.
  { intros st Hbad. apply elem_of_nil_inv. intros k (b & Hb & Hc)%elem_of_bucket.
    destruct (Hst k b Hb) as (st' & Hst' & ? & ?). naive_solver congruence. }
  assert (out = []) as ->.
  { apply elem_of_nil_inv. intros k Hk%Hout. change (k ∈ bucket (buildRolloutState (cs_owned s)) nodeStateRebooting) in Hk.
    rewrite Hnone in Hk by auto. by apply elem_of_nil in Hk. }
  rewrite app_nil_r in Hdeg. change (degraded (buildRolloutState (cs_owned s))) with
    (bucket (buildRolloutState (cs_owned s)) nodeStateDegraded) in Hdeg. rewrite Hnone in Hdeg by auto.
  do 2 go_step. rewrite Hdeg. simpl. go_step. intros _. split_and!; [done..|]. simpl. split; simpl.
  - rewrite Hup. intros k. apply (elem_of_bucket (cs_owned s) nodeStateUpToDate).
  - rewrite Hsd. intros k. apply (elem_of_bucket (cs_owned s) nodeStateStaged).
  - rewrite Hup, Hsd. split; [apply (bucket_NoDup _ nodeStateUpToDate)|apply (bucket_NoDup _ nodeStateStaged)].
  - done.
  - change (nodeCount (setRequeue rq rs)) with (nodeCount rs). rewrite Hcnt. apply build_nodeCount.
Qed.

(** The effect of a pass on the BootcNodes and the drains. *)
Record calm_pass (mu : Z) (owned : gmap string BootcNode) (drains : gmap string drainStatus)
    (owned' : gmap string BootcNode) (drains' : gmap string drainStatus) : Prop := {
  cp_dom : dom owned' = dom owned;
  cp_node k b : owned !! k = Some b → ∃ b', owned' !! k = Some b' ∧
    becomes (isSlotted b') (approved b || drainsOn drains k) b b' ∧
    match classifyNode b with
    | Ok nodeStateUpToDate => isSlotted b' = false
    | Ok nodeStateStaged => isSlotted b = true → isSlotted b' = true
    | _ => isSlotted b' = isSlotted b
    end;
  cp_drains k : drainsOn drains' k = true ↔ ∃ b', owned' !! k = Some b' ∧
    classifyNode b' = Ok nodeStateStaged ∧ isSlotted b' = true ∧ approved b' = false;
  cp_capacity :
    (∀ k b, owned !! k = Some b → isSlotted b = true → classifyNode b = Ok nodeStateUpToDate) →
    (∃ k b, owned !! k = Some b ∧ classifyNode b = Ok nodeStateStaged) → (0 < mu)%Z →
    ∃ k b b', owned !! k = Some b ∧ owned' !! k = Some b' ∧ classifyNode b = Ok nodeStateStaged ∧
      isSlotted b = false ∧ isSlotted b' = true
}.

Lemma slots_none (owned : gmap string BootcNode) : (∀ k, slotted owned k = false) → slots owned = 0.
Proof. intros Hn. unfold slots. apply count_0. auto. Qed.

(** Freeing the completed slots. *)
Lemma freeAll_calm s h :
  sorted_out (cs_owned s) (cs_rs s) →
  wpg freeCompletedSlots s h (λ h' s' r, calm_history h' → r = Ok tt ∧
    (cs_pool s' = cs_pool s ∧ cs_drains s' = cs_drains s ∧ same_buckets (cs_rs s) (cs_rs s') ∧
     replaced_all (upToDate (cs_rs s)) (λ b b', becomes false (approved b) b b') (cs_owned s) (cs_owned s'))).
Proof.
  intros Hs. unfold freeCompletedSlots. go_step. go_step. apply wpg_forEach_ret.
  eapply wpg_mono; [|apply (forEach_replaced same_buckets freeCompletedSlot (λ b b', becomes false (approved b) b b'))].
  - intros h' s' r Hr Hc. destruct (Hr Hc) as (-> & ? & ? & ? & ?). done.
  - apply Hs.
  - intros k (b & Hb & _)%(so_upToDate _ _ Hs). eauto.
  - intros k s1 h1 Hk. eapply wpg_mono; [|by apply free_calm]. intros h2 s2 r H2 Hc. by destruct (H2 Hc) as (-> & ?).
Qed.

(** The parts of a pass, put together. *)
Section Compose.
Context (mu : Z) (s0 s1 s3 s4 : CState) (rs : rolloutState).
Hypothesis (Hord : orderly (cs_owned s0) (cs_drains s0)).
Hypothesis (Hcol : ∀ k b, cs_owned s0 !! k = Some b →
  ∃ b', cs_owned s1 !! k = Some b' ∧ collected (cs_drains s0) b b' k).
Hypothesis (Hdom1 : dom (cs_owned s1) = dom (cs_owned s0)).
Hypothesis (Hsort : sorted_out (cs_owned s1) rs).
Hypothesis (Hfree : replaced_all (upToDate rs) (λ b b', becomes false (approved b) b b') (cs_owned s1) (cs_owned s3)).
Hypothesis (Hstaged : staged (cs_rs s3) = staged rs) (Hd3 : cs_drains s3 = ∅).
Hypothesis (Hadv : advanced mu s3 s4).
Hypothesis (Hocc : occupiedSlots (cs_rs s3) = Z.of_nat (slots (cs_owned s3))).

Lemma compose_node k b : cs_owned s0 !! k = Some b → ∃ b1 b3 b4,
  cs_owned s1 !! k = Some b1 ∧ cs_owned s3 !! k = Some b3 ∧ cs_owned s4 !! k = Some b4 ∧
  collected (cs_drains s0) b b1 k ∧ becomes (isSlotted b3) (approved b1) b1 b3 ∧ slots_more b3 b4 ∧
  (classifyNode b = Ok nodeStateUpToDate → isSlotted b3 = false) ∧
  (classifyNode b ≠ Ok nodeStateUpToDate → b3 = b1) ∧
  (classifyNode b ≠ Ok nodeStateStaged → b4 = b3).
Proof.
  intros Hb. destruct (Hcol k b Hb) as (b1 & Hb1 & Hc1).
  pose proof (becomes_classify _ _ _ _ Hc1) as Hcl.
  assert (k ∈ upToDate rs ↔ classifyNode b = Ok nodeStateUpToDate) as Hup.
  { rewrite (so_upToDate _ _ Hsort), <- Hcl. naive_solver. }
  assert (k ∈ staged (cs_rs s3) ↔ classifyNode b = Ok nodeStateStaged) as Hst.
  { rewrite Hstaged, (so_staged _ _ Hsort), <- Hcl. naive_solver. }
  destruct Hadv as (_ & Hnode & _). destruct Hfree as [Hf1 Hf2].
  destruct (decide (k ∈ upToDate rs)) as [Hk|Hk].
  - destruct (Hf2 k b1 Hk Hb1) as (b3 & Hb3 & Hf). destruct (Hnode k b3 Hb3) as (b4 & Hb4 & Hm & Hsame).
    assert (isSlotted b3 = false) as Hs3 by apply Hf. rewrite <- Hs3 in Hf.
    exists b1, b3, b4. split_and!; try done; [naive_solver|]. intros Hn. apply Hsame. by rewrite Hst.
  - destruct (Hnode k b1) as (b4 & Hb4 & Hm & Hsame); [by rewrite Hf1|].
    exists b1, b1, b4. rewrite Hf1 by done. split_and!; try done; [naive_solver|].
    intros Hn. apply Hsame. by rewrite Hst.
Qed.

Lemma compose_none k : cs_owned s0 !! k = None → cs_owned s4 !! k = None.
Proof.
  intros Hk. apply Hadv. destruct Hfree as [Hf _]. rewrite Hf.
  - apply not_elem_of_dom. rewrite Hdom1. by apply not_elem_of_dom.
  - rewrite (so_upToDate _ _ Hsort). intros (b & Hb & _). apply elem_of_dom_2 in Hb.
    rewrite Hdom1 in Hb. by apply not_elem_of_dom in Hk.
Qed.

Lemma compose_classify k b b4 : cs_owned s0 !! k = Some b → cs_owned s4 !! k = Some b4 →
  becomes (isSlotted b4) (approved b || drainsOn (cs_drains s0) k) b b4 ∧ classifyNode b4 = classifyNode b.
Proof.
  intros Hb Hb4. destruct (compose_node k b Hb) as (b1 & b3 & b4' & _ & _ & Hb4' & Hc1 & Hf & [Hm _] & _).
  simplify_eq. assert (becomes (isSlotted b4) (approved b || drainsOn (cs_drains s0) k) b b4) as Hbec.
  { replace (approved b || drainsOn (cs_drains s0) k) with (approved b3).
    - eapply becomes_trans; [|exact Hm]. eapply becomes_trans; [exact Hc1|exact Hf].
    - transitivity (approved b1); [apply Hf|apply Hc1]. }
  split; [done|by eapply becomes_classify].
Qed.

Lemma compose_drains k : drainsOn (cs_drains s4) k = true ↔ ∃ b', cs_owned s4 !! k = Some b' ∧
  classifyNode b' = Ok nodeStateStaged ∧ isSlotted b' = true ∧ approved b' = false.
Proof.
  unfold drainsOn. rewrite bool_decide_eq_true, <- elem_of_dom. destruct Hadv as (_ & _ & _ & Hd & _).
  rewrite Hd, Hd3, dom_empty_L, Hstaged, (so_staged _ _ Hsort). split.
  - intros [[]%elem_of_empty|[(b1 & Hb1 & Hc1) (b4 & Hb4 & Hs & Ha)]]. exists b4. split_and!; [done| |done|done].
    assert (is_Some (cs_owned s0 !! k)) as [b Hb].
    { apply elem_of_dom. rewrite <- Hdom1. by eapply elem_of_dom_2. }
    destruct (compose_classify k b b4 Hb Hb4) as [_ ->]. destruct (Hcol k b Hb) as (b1' & Hb1' & Hc).
    simplify_eq. by rewrite <- (becomes_classify _ _ _ _ Hc).
  - intros (b4 & Hb4 & Hc4 & Hs & Ha). right. split; [|eauto].
    destruct (cs_owned s0 !! k) as [b|] eqn:Eb; [|by rewrite (compose_none k Eb) in Hb4].
    destruct (compose_classify k b b4 Eb Hb4) as [_ Hcl]. destruct (Hcol k b Eb) as (b1 & Hb1 & Hc).
    exists b1. split; [done|]. rewrite (becomes_classify _ _ _ _ Hc). congruence.
Qed.

Lemma compose_capacity :
  (∀ k b, cs_owned s0 !! k = Some b → isSlotted b = true → classifyNode b = Ok nodeStateUpToDate) →
  (∃ k b, cs_owned s0 !! k = Some b ∧ classifyNode b = Ok nodeStateStaged) → (0 < mu)%Z →
  ∃ k b b', cs_owned s0 !! k = Some b ∧ cs_owned s4 !! k = Some b' ∧ classifyNode b = Ok nodeStateStaged ∧
    isSlotted b = false ∧ isSlotted b' = true.
Proof.
  intros Hslots (k & b & Hb & Hc) Hmu.
  assert (∀ j, slotted (cs_owned s3) j = false) as Hnone.
  { intros j. unfold slotted. destruct (cs_owned s3 !! j) as [b3'|] eqn:E3; [|done]. fold (isSlotted b3').
    destruct (cs_owned s0 !! j) as [bj|] eqn:Ej.
    - destruct (compose_node j bj Ej) as (b1 & b3 & b4 & _ & H3 & _ & Hc1 & _ & _ & Hu & Hn & _). simplify_eq.
      assert (classifyNode bj = Ok nodeStateUpToDate ∨ classifyNode bj ≠ Ok nodeStateUpToDate) as [He|He];
        [destruct (classifyNode bj) as [[]|]; by auto|auto|]. rewrite (Hn He).
      apply not_true_iff_false. intros Hs. apply He, (Hslots j); [done|]. rewrite <- Hs. symmetry. apply Hc1.
    - exfalso. destruct Hadv as (_ & Hnode & _). destruct (Hnode j b3' E3) as (b4 & Hb4 & _).
      by rewrite (compose_none j Ej) in Hb4. }
  destruct Hadv as (_ & _ & _ & _ & Hcap). rewrite Hocc, (slots_none _ Hnone) in Hcap.
  destruct Hcap as (j & Hj & Hj3 & Hj4); [lia| |].
  { exists k. split; [|done]. rewrite Hstaged, (so_staged _ _ Hsort). destruct (Hcol k b Hb) as (b1 & Hb1 & Hc1).
    exists b1. split; [done|]. by rewrite (becomes_classify _ _ _ _ Hc1). }
  rewrite Hstaged, (so_staged _ _ Hsort) in Hj. destruct Hj as (b1 & Hb1 & Hcb1).
  assert (is_Some (cs_owned s0 !! j)) as [bj Hbj].
  { apply elem_of_dom. rewrite <- Hdom1. by eapply elem_of_dom_2. }
  destruct (compose_node j bj Hbj) as (b1' & b3 & b4 & Hb1' & Hb3 & Hb4 & Hc1 & _ & _ & _ & Hn & _). simplify_eq.
  assert (classifyNode bj = Ok nodeStateStaged) as Hcj by (by rewrite <- (becomes_classify _ _ _ _ Hc1)).
  exists j, bj, b4. split_and!; [done|done|done| |].
  - apply not_true_iff_false. intros Hs. specialize (Hslots j bj Hbj Hs). congruence.
  - unfold slotted in Hj4. by rewrite Hb4 in Hj4.
Qed.

Lemma compose_pass : calm_pass mu (cs_owned s0) (cs_drains s0) (cs_owned s4) (cs_drains s4).
Proof.
  split; [| |apply compose_drains|apply compose_capacity].
  - apply set_eq. intros k. rewrite !elem_of_dom. destruct (cs_owned s0 !! k) as [b|] eqn:Eb.
    + destruct (compose_node k b Eb) as (b1 & b3 & b4 & _ & _ & -> & _). by split; eauto.
    + rewrite (compose_none k Eb). done.
  - intros k b Hb. destruct (compose_node k b Hb) as (b1 & b3 & b4 & _ & _ & Hb4 & Hc1 & Hf & [_ Hm] & Hu & Hn & Hsm).
    exists b4. split; [done|]. split; [by eapply compose_classify|].
    assert (isSlotted b1 = isSlotted b) as Hsl by apply Hc1.
    destruct (classifyNode b) as [[]|e] eqn:Ec;
      try (rewrite Hsm by done; rewrite Hn by done; done).
    + rewrite Hsm by done. auto.
    + rewrite Hn in Hm by done. rewrite Hsl in Hm. done.
Qed.
End Compose.

(** When the slots of the finished nodes are freed, none is unhealthy. *)
Lemma freed_healthy owned rs owned' rs' digest :
  sorted_out owned rs → same_buckets rs rs' →
  replaced_all (upToDate rs) (λ b b', becomes false (approved b) b b') owned owned' →
  findUnhealthySlots owned' rs' digest = [].
Proof.
  intros Hsort [occ Hrs] Hfree. destruct (so_healthy _ _ Hsort) as [Hdeg Hto].
  unfold findUnhealthySlots. rewrite Hrs. simpl. rewrite Hdeg, Hto. simpl. rewrite app_nil_r, <- (app_nil_l []). f_equal.
  replace (List.filter _ _) with (@nil string); [done|]. symmetry. apply elem_of_nil_inv. intros k.
  rewrite elem_of_filter_b. intros [Hs Hk]. pose proof Hk as (b & Hb & _)%(so_upToDate _ _ Hsort).
  destruct (proj2 Hfree k b Hk Hb) as (b' & Hb' & Hbec).
  unfold slotted in Hs. rewrite Hb' in Hs. fold (isSlotted b') in Hs. destruct Hbec as (_ & _ & _ & ? & _). congruence.
Qed.

(** A calm pass over an orderly cluster succeeds, and has the effect described by
    [calm_pass]. *)
Lemma driveRollout_calm mu s0 :
  orderly (cs_owned s0) (cs_drains s0) →
  resolveMaxUnavailable (cs_pool s0) (Z.of_nat (size (cs_owned s0))) = Ok mu →
  wpg driveRollout s0 [] (λ h s r, calm_history h →
    is_ok r = true ∧ cs_pool s = cs_pool s0 ∧
    calm_pass mu (cs_owned s0) (cs_drains s0) (cs_owned s) (cs_drains s)).
Proof.
  intros Hord Hmu. unfold driveRollout.
  eapply wpg_then; [apply wpg_wrapf_then, wpg_calm_and; [by apply collect_all_calm|apply (collect_all_before s0)]|].
  intros h1 s1 _ [(Hp1 & Hd1 & Hdom1 & Hn1) Hb1]. cbv beta in Hb1.
  eapply wpg_then; [apply wpg_calm_and; [apply classify_calm|by apply (classify_pass s0)]|].
  { intros k b1 Hk. assert (is_Some (cs_owned s0 !! k)) as [b Hb].
    { apply elem_of_dom. rewrite <- Hdom1. by eapply elem_of_dom_2. }
    destruct (Hn1 k b Hb) as (b' & Hb' & Hc). simplify_eq. rewrite (becomes_classify _ _ _ _ Hc).
    by eapply orderly_classified. }
  intros h2 s2 _ [(Hp2 & Ho2 & Hd2 & Hsort) Hc2].
  eapply wpg_then; [apply wpg_wrapf_then, wpg_calm_and; [apply freeAll_calm; by rewrite Ho2|]|].
  { unfold freeCompletedSlots. go_step. go_step. apply (wpg_forEach_inv (classified s0)); [|done|done].
    intros k s h _ H'. eapply wpg_mono; [|by apply free_classified]. by intros ?? []. }
  intros h3 s3 Hcalm3 [(Hp3 & Hd3 & [occ Hrs3] & Hfree) [Hbg Hcnt Hnd Hocc]].
  assert (findUnhealthySlots (cs_owned s3) (cs_rs s3) (TargetDigest (pool_status (cs_pool s3))) = []) as Hhealthy.
  { rewrite <- Ho2 in Hsort. eapply freed_healthy; [exact Hsort|by exists occ|exact Hfree]. }
  go_step. go_step. go_step. go_step. go_step. go_step. rewrite Hhealthy. simpl.
  eapply wpg_then; [apply (advance_calm mu)|].
  - done.
  - intros k Hk. rewrite Hrs3 in Hk. simpl in Hk. apply (so_staged _ _ Hsort) in Hk as (b & Hb & _).
    rewrite <- Ho2 in Hb. eapply replaced_all_some; eauto.
  - intros k b3 Hb3. assert (is_Some (cs_owned s2 !! k)) as [b2 Hb2].
    { destruct (decide (k ∈ upToDate (cs_rs s2))) as [Hk|Hk]; [|rewrite <- (proj1 Hfree k Hk); eauto].
      apply (so_upToDate _ _ Hsort) in Hk as (b & Hb & _). rewrite Ho2. eauto. }
    assert (is_Some (cs_owned s0 !! k)) as [b Hb].
    { apply elem_of_dom. rewrite <- Hdom1, <- Ho2. by eapply elem_of_dom_2. }
    destruct (Hn1 k b Hb) as (b1 & Hb1' & Hc). rewrite <- Ho2 in Hb1'. simplify_eq.
    transitivity (bn_name b2).
    { destruct (decide (k ∈ upToDate (cs_rs s2))) as [Hk|Hk].
      - destruct (proj2 Hfree k b2 Hk Hb2) as (b' & Hb' & Hbec). simplify_eq. apply Hbec.
      - rewrite (proj1 Hfree k Hk) in Hb3. by simplify_eq. }
    transitivity (bn_name b); [apply Hc|by apply (or_node _ _ Hord)].
  - rewrite Hp3, Hp2, Hp1, Hcnt. done.
  - intros h4 s4 _ Hadv. go_step. intros _. split_and!; [done|destruct Hadv as (Hp4 & _); congruence|].
    eapply (compose_pass mu s0 s1 s3 s4 (cs_rs s2)); try done.
    + by rewrite Ho2 in Hfree.
    + by rewrite Hrs3.
    + congruence.
    + apply Hocc. by apply calm_quiet.
Qed.
End Pass.
