(* ===== verification/DaemonCalm.v ===== *)
(** * DaemonCalm: what a daemon achieves on a healthy host

    The progress side of [DaemonSafety]: on a host that answers, a pass reports
    the state of the host, starts staging the desired image when it is not there,
    and reboots once the image is staged and the reboot approved.  [node_phase]
    lets the host act on a pass and the daemon look again. *)

From S2P Require Import Prelude Effects Types Library LibModel Client Samples Image Karpenter Classify StageOp Bootc Daemon DaemonSafety.

(** ** Answers of a healthy host *)

(** The host shows [st], stores and hands out the BootcNode [bn], has no stage in
    flight nor a failed one, and obeys. *)
Definition serves (bn : BootcNode) (st : Status) (e : ev dresp) : Prop :=
  let '(Ev r x) := e in
  match r return dresp r → Prop with
  | DGetBootcNode _ => λ x, x = Ok bn
  | DPatchStatus _ new => λ x, x = Ok new
  | DGetStatus => λ x, x = Ok st
  | DTakeErr => λ x, x = None
  | DIsInFlight _ => λ x, x = false
  | DReboot => λ x, x = Ok tt
  | DApplyUpdate _ => λ x, x = Ok tt
  | _ => λ _, True
  end x.

Abbreviation served bn st h := (Forall (serves bn st) h).

Section DaemonCalm.
Context {L : Lib} {HL : LibLaws L} {D : DConfig}.
Implicit Types (h t : dhistory) (s : DState) (bn : BootcNode).

Lemma served_in bn st h e : served bn st h → e ∈ h → serves bn st e.
Proof. rewrite Forall_forall. auto. Qed.

Lemma served_last bn st h e : served bn st (h ++ [e]) → serves bn st e.
Proof. rewrite Forall_app, Forall_singleton. by intros []. Qed.

(** The pull secret never stands in the way. *)
Lemma syncPullSecret_ok bn s h : wpg (syncPullSecret bn) s h (λ _ s' r, s' = s ∧ r = Ok tt).
Proof.
  unfold syncPullSecret. destruct (bns_PullSecretRef (bn_spec bn)) as [ref|]; [|by go_step].
  go_step. apply (wpg_call (resp := dresp) (DGetSecret _ _)). intros [secret|e]; [|by go_step].
  destruct (GoMap.lookup _ _) as [data|]; [|by go_step]. go_step. go_step. unfold writeAuthFile.
  repeat (go_step || (apply wpg_dcallE; intros [?|?]; cbv [id]) || split_match); done.
Qed.

(** A healthy host gives no reason for trouble. *)
Lemma served_untroubled bn st h ref d :
  served bn st h → wants bn ref d → is_Some (bootedInfo st) → ¬ trouble h bn.
Proof.
  intros Hs Hw Hb [(e & He)|[(st' & He & Hn)|[Hn|(e & He)]]].
  - by apply (served_in _ _ _ _ Hs) in He.
  - apply (served_in _ _ _ _ Hs) in He. simpl in He. simplify_eq. rewrite Hn in Hb. by destruct Hb.
  - by apply (Hn ref d).
  - by apply (served_in _ _ _ _ Hs) in He.
Qed.

Lemma served_status bn st h st' : served bn st h → hostStatus h st' → st' = st.
Proof. intros Hs He. apply (served_in _ _ _ _ Hs) in He. by injection He. Qed.

Lemma served_read bn st h b : served bn st h → daemon_read h b → b = bn.
Proof. intros Hs He. apply (served_in _ _ _ _ Hs) in He. by injection He. Qed.

Lemma wants_unique bn ref d ref' d' : wants bn ref d → wants bn ref' d' → ref' = ref ∧ d' = d.
Proof. intros [? ?] [? ?]. split; congruence. Qed.

(** Staging is asked for. *)
Definition acquires h (image : string) : Prop := Ev (DAcquire image) tt ∈ h.

(** It is asked for, as is a reboot, only in the state that calls for it. *)
Lemma acquire_sound bn st ref d h image :
  guarded daemon_allowed h → served bn st h → wants bn ref d → acquires h image →
  report bn st d = nodeStateStaging ∧ image = named_String ref.
Proof.
  intros Hg Hs Hw Hin. apply list_elem_of_split in Hin as (h1 & h2 & Heq).
  pose proof (Hg _ _ _ Heq) as (_ & _ & b & ref' & d' & st' & Hr & Hw' & -> & Hst & Hb & Hsd). simpl in *.
  rewrite Heq in Hs. apply Forall_app in Hs as [Hs _].
  apply (served_read _ _ _ _ Hs) in Hr as ->. apply (served_status _ _ _ _ Hs) in Hst as ->.
  destruct (wants_unique _ _ _ _ _ Hw Hw') as [-> ->]. unfold report. by rewrite Hb, Hsd.
Qed.

Lemma reboot_sound bn st ref d h :
  guarded daemon_allowed h → served bn st h → wants bn ref d → rebooted h →
  report bn st d = nodeStateRebooting.
Proof.
  intros Hg Hs Hw (e & Hin & Hok). apply list_elem_of_split in Hin as (h1 & h2 & Heq).
  pose proof (Hg _ _ _ Heq) as Hal. rewrite Heq in Hs. apply Forall_app in Hs as [Hs _].
  assert (∃ b soft, reboot_due h1 b soft) as (b & soft & Hr & Hap & _ & (ref' & d' & st' & Hw' & Hst & Hb & Hsd) & _).
  { destruct e as [[] x]; try done; simpl in Hal; [destruct Hal as [b ?]; eauto|].
    destruct Hal as (_ & b & ?). eauto. }
  apply (served_read _ _ _ _ Hs) in Hr as ->. apply (served_status _ _ _ _ Hs) in Hst as ->.
  destruct (wants_unique _ _ _ _ _ Hw Hw') as [-> ->]. unfold report. rewrite Hb, Hsd, Hap. done.
Qed.

Lemma acquires_staging bn st ref d s h :
  wants bn ref d → restatus bn (ds_bn s) → is_Some (bootedInfo st) → report bn st d = nodeStateStaging →
  wpg reconcileBootcNode s h (λ h' _ _, served bn st h' → acquires h' (named_String ref)).
Proof.
  intros [Hp Hd] [_ Hsp] Hb Hrep. unfold report in Hrep.
  destruct (InfoMatchesDigest (bootedInfo st) d) eqn:Eb; [done|].
  destruct (InfoMatchesDigest (stagedInfo st) d) eqn:Es; cbn [negb] in Hrep.
  { by destruct (DesiredImageState (bn_spec bn) =s DesiredImageStateBooted). }
  unfold reconcileBootcNode, populateBootcFields. go_step. go_step. go_step. go_step. apply wpg_dcallE. intros x.
  destruct x as [st'|e]; cbv [id]; [|go_step; by intros Hx%served_last].
  go_step. apply wpg_forall. intros [= ->]%served_last.
  go_step. go_step. cbn [ds_bn setBn bn_status setBNStatus Booted bn_spec].
  fold (bootedInfo st). destruct (bootedInfo st) as [i|] eqn:Ei; [|by destruct Hb].
  rewrite Hsp, Hp, Hd, Eb. go_step. apply (wpg_call (resp := dresp) DTakeErr). intros e.
  apply wpg_forall. intros He%served_last. simpl in He. subst e.
  go_step. eapply wpg_mono; [|apply syncPullSecret_ok]. intros h1 s1 r [-> ->].
  unfold classifyAction. cbn [ds_bn setBn bn_status setBNStatus Staged bn_spec].
  fold (stagedInfo st). rewrite Es. cbn [negb]. go_step. go_step.
  apply (wpg_call (resp := dresp) (DIsInFlight _)). intros b. go_step.
  apply wpg_forall. intros He%served_last. simpl in He. subst b.
  go_step. unfold act. go_step. go_step. go_step. apply (wpg_call (resp := dresp) (DAcquire _)). intros [].
  go_step. apply wpg_setCondition. intros y bn' _ _ _. go_step. go_step. intros _. unfold acquires. set_solver.
Qed.

(** The end of a pass: reboot when it is due, and only then. *)
Lemma reboot_calm bn st res s h :
  wpg (rebootIfNeeded res ;;; ret (rr_requeue res))%go s h (λ h' s' r, served bn st h' →
    is_ok r = true ∧ ds_bn s' = ds_bn s ∧ (needsReboot res = true → rebooted h') ∧ ∃ t, h' = h ++ t).
Proof.
  unfold rebootIfNeeded. go_step. destruct (needsReboot res) eqn:En.
  2:{ go_step. go_step. intros _. split_and!; [done|done|done|]. exists []. by rewrite app_nil_r. }
  assert (∀ (r : dreq) (x : dresp r), rebootOk (Ev r x) = true → rebooted (h ++ [Ev r x])) as Hreb.
  { intros r x Hok. exists (Ev r x). split; [set_solver|done]. }
  go_step. destruct (softReboot res); go_step; apply wpg_dcallE; intros [[]|e]; cbv [id]; try go_step; try go_step;
    intros Hs; pose proof (served_last _ _ _ _ Hs) as Hx; try done;
    (split_and!; [done|done|intros _; by apply Hreb|by eexists]).
Qed.

(** The rest of the pass once the status is complete. *)
Lemma store_calm bn st res s h :
  restatus bn (ds_bn s) →
  wpg ((if bool_decide (bn_status (ds_bn s) = bn_status bn) then ret tt
        else got <- wrapf "patching BootcNode status" (dcallE (DPatchStatus bn (ds_bn s)) id) ;;
             modify (setBn got)) ;;;
       rebootIfNeeded res ;;; ret (rr_requeue res))%go s h (λ h' s' r, served bn st h' →
    is_ok r = true ∧ ds_bn s' = ds_bn s ∧ (needsReboot res = true → rebooted h') ∧ ∃ t, h' = h ++ t).
Proof.
  intros Hre. go_step. case_bool_decide; [go_step; apply reboot_calm|].
  go_step. go_step. apply wpg_dcallE. intros [got|e]; cbv [id]; [|by intros Hs%served_last].
  go_step. apply wpg_forall. intros [= ->]%served_last.
  eapply wpg_mono; [|apply reboot_calm]. intros h' s' r Hr Hs. destruct (Hr Hs) as (? & Hbn & ? & t & ->).
  split_and!; [done|by rewrite Hbn|done|]. rewrite <- app_assoc. by eexists.
Qed.

(** Nothing but the backoff of a failed stage makes [reconcileBootcNode] fail. *)
Lemma reconcile_total bn st s h :
  wpg reconcileBootcNode s h (λ h' _ r, served bn st h' → is_ok r = true).
Proof.
  unfold reconcileBootcNode, populateBootcFields. go_step. go_step. go_step. go_step. apply wpg_dcallE.
  intros [st'|e]; cbv [id]; go_step; [|done]. go_step. go_step. split_match; [|by go_step].
  split_match; [|by go_step]. split_match; [|by go_step]. split_match.
  { go_step. apply (wpg_call (resp := dresp) DReset). intros []. by go_step. }
  go_step. apply (wpg_call (resp := dresp) DTakeErr). intros e.
  apply wpg_forall. intros He%served_last. simpl in He. subst e.
  go_step. eapply wpg_mono; [|apply syncPullSecret_ok]. intros h1 s1 r [-> ->].
  go_step. eapply wpg_mono with (Φ := λ _ _ r, is_ok r = true).
  - intros h2 s2 [act0|e] Ha; [|done]. go_step. eapply wpg_mono with (Φ := λ _ _ r, is_ok r = true).
    { intros h3 s3 [res|e] Hr; [by go_step|done]. }
    unfold act. go_step. go_step. destruct act0.
    { go_step. apply (wpg_call (resp := dresp) (DAcquire _)). intros []. go_step. apply wpg_setCondition. intros. by go_step. }
    all: go_step; apply wpg_setCondition; intros; by go_step.
  - unfold classifyAction. split_match; [|split_match; by go_step].
    go_step. apply (wpg_call (resp := dresp) (DIsInFlight _)). intros b. by go_step.
Qed.

Lemma fetched_calm bn st ref d s h :
  guarded prep_allowed h → daemon_read h bn → wants bn ref d → is_Some (bootedInfo st) →
  wpg (reconcileFetched bn) s h (λ h' s' r, served bn st h' →
    is_ok r = true ∧ restatus bn (ds_bn s') ∧ classifyNode (ds_bn s') = Ok (report bn st d) ∧
    (report bn st d = nodeStateRebooting → rebooted h') ∧
    (report bn st d = nodeStateStaging → acquires h' (named_String ref))).
Proof.
  intros Hsafe Hrd Hw Hb. unfold reconcileFetched. go_step. go_step. go_step.
  apply wpg_setCondition. intros x bn1 Hsi Hidle _. cbn [ds_bn setBn] in Hsi.
  set (s1 := setBn bn1 _). set (h1 := h ++ [_]). assert (guarded prep_allowed h1) as H1 by (by apply guarded_snoc).
  assert (restatus bn (ds_bn s1)) as Hre1 by (destruct Hsi as [[Hm Hs] _]; by split).
  go_step. eapply wpg_mono; [|apply wpg_and; [apply (wpg_reconcileBootcNode bn s1 h1 (λ h' s' r,
      ∀ rr, r = Ok rr → outcome bn h' s' rr.1 rr.2)); [done|unfold daemon_read, h1 in *; set_solver|done|done|auto]|
    apply wpg_and; [apply (reconcile_total bn st)|apply (wpg_impl reconcileBootcNode s1 h1 (report bn st d = nodeStateStaging)); intros Hrep; by apply (acquires_staging bn st ref d)]]].
  intros h2 s2 r (Ho & Hok & Hacq).
  destruct r as [[res err]|e]; [|intros Hs; by specialize (Hok Hs)].
  apply wpg_forall. intros Hs2. destruct (Ho _ eq_refl) as [Hre2 Hout]. simpl in Hout.
  specialize (Ho _ eq_refl). simpl in Ho.
  destruct Hout as [(_ & _ & Ht)|(ref' & d' & st' & Hw' & Hst & _ & -> & _ & _ & _ & Hn & _)].
  { by destruct (served_untroubled _ _ _ _ _ Hs2 Hw Hb). }
  assert (st' = st) as -> by (by apply (served_status _ _ _ _ Hs2)).
  assert (d' = d) as -> by (destruct Hw as [? ?], Hw' as [? ?]; congruence).
  go_step. eapply wpg_conclude; [exact Ho|]. intros y s3 _ Hre3 Hrep _.
  go_step. go_step. eapply wpg_mono; [|by apply store_calm].
  intros h4 s4 r Hr Hs4. destruct (Hr Hs4) as (Hok4 & -> & Hreb & t & ->). split_and!; [done|done| | |].
  - destruct Hrep as [[Ht _]|(ref1 & d1 & st1 & Hw1 & Hst1 & ->)].
    { by destruct (served_untroubled _ _ _ _ _ Hs2 Hw Hb). }
    assert (st1 = st) as -> by (by apply (served_status _ _ _ _ Hs2)).
    assert (d1 = d) as -> by (destruct Hw as [? ?], Hw1 as [? ?]; congruence). done.
  - intros Hr'. apply Hreb. rewrite Hn. by apply bool_decide_eq_true.
  - intros Hr'. specialize (Hacq Hr' Hs2). unfold acquires in *. set_solver.
Qed.

(** What a pass on a healthy host achieves: it reports the state the host is in,
    and asks for a reboot or for staging exactly in the states that call for it. *)
Lemma daemon_achieves bn st ref d s :
  wants bn ref d → is_Some (bootedInfo st) → rebootIssued s = false →
  wpg (DReconcile NodeName) s [] (λ h s' r, served bn st h →
    is_ok r = true ∧ restatus bn (ds_bn s') ∧ classifyNode (ds_bn s') = Ok (report bn st d) ∧
    (rebooted h ↔ report bn st d = nodeStateRebooting) ∧
    (∀ image, acquires h image ↔ report bn st d = nodeStateStaging ∧ image = named_String ref)).
Proof.
  intros Hw Hb Hi.
  eapply wpg_mono with (Φ := λ h s' r, (served bn st h →
    is_ok r = true ∧ restatus bn (ds_bn s') ∧ classifyNode (ds_bn s') = Ok (report bn st d) ∧
    (report bn st d = nodeStateRebooting → rebooted h) ∧
    (report bn st d = nodeStateStaging → acquires h (named_String ref))) ∧ guarded daemon_allowed h).
  { intros h s' r [Hc Hg] Hs. destruct (Hc Hs) as (? & ? & ? & Hreb & Hacq). split_and!; [done|done|done| |].
    - split; [|done]. intros Hr. eapply reboot_sound; eauto.
    - intros image. split; [|intros [? ->]; auto]. intros Hin. eapply acquire_sound; eauto. }
  apply wpg_and; [|apply daemon_guarded].
  unfold DReconcile. go_step. go_step. rewrite seq_b_refl, Hi. cbn [negb].
  go_step. apply (wpg_call (resp := dresp) (DGetBootcNode _)). intros x.
  destruct x as [b|e].
  - apply wpg_forall. intros Hs. pose proof (served_last bn st [] _ Hs) as [= ->].
    eapply fetched_calm; [|unfold daemon_read; set_solver|done|done].
    by apply (guarded_snoc _ []); [apply guarded_nil|].
  - split_match; go_step; intros Hs; by pose proof (served_last bn st [] _ Hs).
Qed.
End DaemonCalm.

(** ** The daemon and its host

    A pass on the node [n], its effect on the host, and a second pass that reports
    the outcome.  A reboot ends the daemon, so each pass starts with the flag
    [rebootIssued] unset. *)

Definition nodeConfig (n : string) : DConfig := {| NodeName := n; HostRoot := "" |}.

Section Phase.
Context {L : Lib} {HL : LibLaws L}.
Implicit Types (h : dhistory) (b : BootcNode) (st : Status).

Definition daemon_pass (n : string) b st h b' : Prop :=
  ∃ s s' r, rebootIssued s = false ∧ runs (DReconcile (D := nodeConfig n) n s) h (s', r) ∧
    served b st h ∧ b' = ds_bn s'.

(** A reboot boots the staged image, a finished stage has staged the image asked
    for; otherwise the images stay what they are. *)
Definition host_acts h st st' : Prop :=
  (rebooted h → bootedInfo st' = stagedInfo st) ∧
  (¬ rebooted h → bootedInfo st' = bootedInfo st) ∧
  (∀ image ref d, acquires h image → ParseNamed image = Ok ref → named_digest ref = Some d →
     InfoMatchesDigest (stagedInfo st') d = true) ∧
  (¬ rebooted h → (∀ image, ¬ acquires h image) → stagedInfo st' = stagedInfo st).

Definition node_phase (n : string) b st b' st' : Prop :=
  ∃ h1 b1 h2, daemon_pass n b st h1 b1 ∧ host_acts h1 st st' ∧ daemon_pass n b1 st' h2 b'.

Lemma daemon_pass_reports n b st h b' ref d :
  wants b ref d → is_Some (bootedInfo st) → daemon_pass n b st h b' →
  restatus b b' ∧ classifyNode b' = Ok (report b st d) ∧
  (rebooted h ↔ report b st d = nodeStateRebooting) ∧
  (∀ image, acquires h image ↔ report b st d = nodeStateStaging ∧ image = named_String ref).
Proof.
  intros Hw Hb (s & s' & r & Hi & Hr & Hs & ->).
  pose proof (daemon_achieves (D := nodeConfig n) b st ref d s Hw Hb Hi) as Hd.
  destruct (wp_runs _ _ _ _ Hd Hr Hs) as (_ & ? & ? & ? & ?). done.
Qed.

Lemma wants_restatus b b' ref d : restatus b b' → wants b ref d → wants b' ref d.
Proof. intros [_ Hs] [? ?]. split; [by rewrite Hs|done]. Qed.

Lemma report_restatus b b' st d : restatus b b' → report b' st d = report b st d.
Proof. intros [_ Hs]. unfold report. by rewrite Hs. Qed.

(** The state of a node after the phase, from the state of its host before. *)
Definition phase_result b (st : nodeState) : nodeState :=
  match st with
  | nodeStateRebooting => nodeStateUpToDate
  | nodeStateStaging =>
      if DesiredImageState (bn_spec b) =s DesiredImageStateBooted then nodeStateRebooting else nodeStateStaged
  | st => st
  end.

Lemma host_acts_report b st st' h ref d :
  wants b ref d → is_Some (bootedInfo st) →
  (rebooted h ↔ report b st d = nodeStateRebooting) →
  (∀ image, acquires h image ↔ report b st d = nodeStateStaging ∧ image = named_String ref) →
  host_acts h st st' →
  is_Some (bootedInfo st') ∧ report b st' d = phase_result b (report b st d).
Proof.
  intros [Hp Hd] Hb Hreb Hacq (H1 & H2 & H3 & H4).
  pose proof (parse_canonical _ _ Hp) as Hcan.
  destruct (report b st d) eqn:Er; simpl.
  all: try (assert (¬ rebooted h) as Hn by (rewrite Hreb; done); specialize (H2 Hn); rewrite <- H2 in Hb).
  all: try (assert (∀ image, ¬ acquires h image) as Ha by (intros image; rewrite Hacq; by intros [? _]);
    specialize (H4 Hn Ha); split; [done|]; rewrite <- Er; unfold report; by rewrite H2, H4).
  - split; [done|]. specialize (H3 (named_String ref) ref d). rewrite Hcan in H3. rewrite Hcan in Hacq.
    unfold report in *. rewrite H2. rewrite H3; [|by apply Hacq|done|done].
    destruct (InfoMatchesDigest (bootedInfo st) d); [done|]. done.
  - specialize (H1 (proj2 Hreb eq_refl)). unfold report in *. rewrite H1.
    destruct (InfoMatchesDigest (bootedInfo st) d); [done|].
    destruct (InfoMatchesDigest (stagedInfo st) d) eqn:Es; [|done]. split; [|done].
    destruct (stagedInfo st); [eauto|done].
Qed.

(** A phase leaves metadata and spec alone and brings the node one state further. *)
Lemma node_phase_reports n b st b' st' ref d :
  wants b ref d → is_Some (bootedInfo st) → node_phase n b st b' st' →
  restatus b b' ∧ is_Some (bootedInfo st') ∧ report b st' d = phase_result b (report b st d) ∧
  classifyNode b' = Ok (report b st' d).
Proof.
  intros Hw Hb (h1 & b1 & h2 & Hp1 & Hact & Hp2).
  destruct (daemon_pass_reports _ _ _ _ _ _ _ Hw Hb Hp1) as (Hre1 & _ & Hreb & Hacq).
  destruct (host_acts_report _ _ _ _ _ _ Hw Hb Hreb Hacq Hact) as [Hb' Hrep].
  assert (wants b1 ref d) as Hw1 by (by eapply wants_restatus).
  destruct (daemon_pass_reports _ _ _ _ _ _ _ Hw1 Hb' Hp2) as (Hre2 & Hc & _).
  rewrite (report_restatus b b1) in Hc by done. split_and!; [by etransitivity|done|done|done].
Qed.
End Phase.
