(* ===== verification/Cluster.v ===== *)
(** * Cluster: the rollout, end to end

    The pool controller and the daemons of its nodes, composed.  A cluster is what
    the API server stores (the pool, its BootcNodes), the controller's drains, and
    the hosts.  A [round] is one pass of [driveRollout], after which every daemon
    gets to work on its host ([node_phase]) and the drains have time to finish.
    The theorem: on a healthy cluster every sequence of rounds updates all nodes,
    within a number of rounds that is linear in the number of nodes, and never
    takes more than maxUnavailable of them out of service. *)

From stdpp Require Import relations.
From S2P Require Import Prelude Effects Types Library LibModel Client Samples Sim Image Karpenter Classify PoolStatus Slots Utf8 Events Drain Rollout RolloutSafety RolloutCapacity StageOp Bootc Daemon DaemonSafety RolloutCalm DaemonCalm.

Record Cluster : Set := mkCluster {
  c_pool : BootcNodePool;
  c_owned : gmap string BootcNode;
  c_drains : gmap string drainStatus;
  c_hosts : gmap string Status
}.

Section Cluster.
Context {L : Lib} {HL : LibLaws L} {C : Config} `{MapOrder}.
Implicit Types (c : Cluster) (k : string) (b : BootcNode) (st : Status).

Definition passState c : CState := mkCState (c_pool c) (c_owned c) (c_drains c) emptyRolloutState.

(** One round. *)
Definition round c c' : Prop :=
  ∃ h s r, runs (driveRollout (passState c)) h (s, r) ∧ Forall calm h ∧
    c_pool c' = cs_pool s ∧ c_drains c' = cs_drains s ∧ dom (c_owned c') = dom (cs_owned s) ∧
    ∀ k b st, cs_owned s !! k = Some b → c_hosts c !! k = Some st →
      ∃ b' st', c_owned c' !! k = Some b' ∧ c_hosts c' !! k = Some st' ∧ node_phase k b st b' st'.

(** The host is where the BootcNode says it is. *)
Definition host_agrees b st : Prop :=
  ∃ ref d, wants b ref d ∧ is_Some (bootedInfo st) ∧
    match classifyNode b with
    | Ok nodeStateUpToDate => InfoMatchesDigest (bootedInfo st) d = true
    | Ok nodeStateStaged => InfoMatchesDigest (bootedInfo st) d = false ∧ InfoMatchesDigest (stagedInfo st) d = true
    | _ => True
    end.

Record healthy c : Prop := {
  he_orderly : orderly (c_owned c) (c_drains c);
  he_hosts k b : c_owned c !! k = Some b → ∃ st, c_hosts c !! k = Some st ∧ host_agrees b st
}.

(** All done: every host runs the image its BootcNode asks for, no node holds a
    slot and none is being drained. *)
Definition updated c : Prop :=
  c_drains c = ∅ ∧
  ∀ k b, c_owned c !! k = Some b → isSlotted b = false ∧
    ∃ st ref d, c_hosts c !! k = Some st ∧ wants b ref d ∧ InfoMatchesDigest (bootedInfo st) d = true.

(** ** The rank of a node: how many rounds it needs once it has a slot *)

Definition rank_of (draining : bool) b : nat :=
  match classifyNode b with
  | Ok nodeStateUpToDate => if isSlotted b then 1 else 0
  | Ok nodeStateStaged =>
      if isSlotted b then if approved b then 2 else if draining then 3 else 4 else 5
  | _ => 6
  end.

(** What a pass and a phase do to one node. *)
Section Node.
Context (draining draining' : bool) (b b1 b2 : BootcNode) (st st' : Status) (n : string).
Hypothesis (Hord : orderly_node draining b) (Hag : host_agrees b st).
Hypothesis (Hbec : becomes (isSlotted b1) (approved b || draining) b b1).
Hypothesis (Hslot : match classifyNode b with
  | Ok nodeStateUpToDate => isSlotted b1 = false
  | Ok nodeStateStaged => isSlotted b = true → isSlotted b1 = true
  | _ => isSlotted b1 = isSlotted b
  end).
Hypothesis (Hdr : draining' = true ↔ classifyNode b1 = Ok nodeStateStaged ∧ isSlotted b1 = true ∧ approved b1 = false).
Hypothesis (Hphase : node_phase n b1 st b2 st').

Lemma becomes_wants ref d : wants b ref d → wants b1 ref d.
Proof. destruct Hbec as (_ & _ & Hd & _). intros [? ?]. split; [by rewrite Hd|done]. Qed.

Lemma node_classified : classifyNode b1 = classifyNode b.
Proof. by eapply becomes_classify. Qed.

(** The state the host is in when its daemon gets to work. *)
Lemma node_before ref d : wants b ref d → is_Some (bootedInfo st) →
  match classifyNode b with
  | Ok nodeStateUpToDate => InfoMatchesDigest (bootedInfo st) d = true
  | Ok nodeStateStaged => InfoMatchesDigest (bootedInfo st) d = false ∧ InfoMatchesDigest (stagedInfo st) d = true
  | _ => True
  end →
  match classifyNode b with
  | Ok nodeStateUpToDate => report b1 st d = nodeStateUpToDate
  | Ok nodeStateStaged => report b1 st d = if approved b1 then nodeStateRebooting else nodeStateStaged
  | _ => approved b1 = false
  end.
Proof.
  intros Hw Hb Hst. unfold orderly_node in Hord. destruct Hbec as (_ & _ & _ & _ & Hap). unfold report.
  fold (approved b1). destruct (classifyNode b) as [[]|]; try done.
  - by rewrite Hst.
  - destruct Hord as [-> Ha]. by rewrite Hap, Ha.
  - destruct Hord as [-> Ha]. by rewrite Hap, Ha.
  - destruct Hst as [-> ->]. done.
Qed.

(** Where the phase leaves the node. *)
Lemma node_after ref d : wants b ref d → is_Some (bootedInfo st) →
  restatus b1 b2 ∧ is_Some (bootedInfo st') ∧ classifyNode b2 = Ok (report b1 st' d) ∧
  report b1 st' d = phase_result b1 (report b1 st d).
Proof.
  intros Hw Hb. pose proof (becomes_wants _ _ Hw) as Hw1.
  destruct (node_phase_reports _ _ _ _ _ _ _ Hw1 Hb Hphase) as (? & ? & ? & ?). done.
Qed.

Lemma report_agrees ref d : wants b ref d → restatus b1 b2 → is_Some (bootedInfo st') →
  classifyNode b2 = Ok (report b1 st' d) → host_agrees b2 st'.
Proof.
  intros Hw Hre Hb Hc. exists ref, d. split_and!; [by eapply wants_restatus, becomes_wants|done|].
  rewrite Hc. unfold report. destruct (InfoMatchesDigest (bootedInfo st') d), (InfoMatchesDigest (stagedInfo st') d); try done;
    simpl; by destruct (_ =s _).
Qed.

Lemma restatus_same : restatus b1 b2 → isSlotted b2 = isSlotted b1 ∧ approved b2 = approved b1.
Proof. intros [Hm Hs]. unfold isSlotted, approved. by rewrite Hm, Hs. Qed.

(** No node loses ground, and only a staged node that got no slot stands still. *)
Lemma node_round :
  restatus b1 b2 ∧ orderly_node draining' b2 ∧ host_agrees b2 st' ∧
  rank_of draining' b2 ≤ rank_of draining b ∧
  (rank_of draining' b2 = rank_of draining b →
     rank_of draining b = 0 ∨ (classifyNode b = Ok nodeStateStaged ∧ isSlotted b = false ∧ isSlotted b1 = false)).
Proof.
  destruct Hag as (ref & d & Hw & Hb & Hst). pose proof (node_before ref d Hw Hb Hst) as Hbef.
  destruct (node_after ref d Hw Hb) as (Hre & Hb' & Hc2 & Hrep).
  pose proof (report_agrees ref d Hw Hre Hb' Hc2) as Hag2. pose proof (restatus_same Hre) as [Hs2 Ha2].
  pose proof node_classified as Hc1. split; [done|].
  rewrite Hrep in Hc2. unfold orderly_node, rank_of in *. rewrite Hc1 in Hdr. rewrite Hc2, Hs2, Ha2.
  destruct (classifyNode b) as [[]|] eqn:Ec; try done.
  - (* up to date *)
    rewrite Hbef, Hslot. simpl. destruct draining'; [by destruct Hdr as [[? _] _]|].
    split_and!; [done|done|..]; destruct (isSlotted b); lia.
  - (* pending *)
    assert (draining' = false) as -> by (destruct draining'; [by destruct Hdr as [[? _] _]|done]).
    fold (approved b1) in *. unfold phase_result, report, approved in *. rewrite Hbef in *. simpl.
    destruct (InfoMatchesDigest (bootedInfo st) d), (InfoMatchesDigest (stagedInfo st) d); simpl;
      (split_and!; intros; destruct (isSlotted b1); first [done|lia]).
  - (* staging *)
    assert (draining' = false) as -> by (destruct draining'; [by destruct Hdr as [[? _] _]|done]).
    unfold phase_result, report, approved in *. rewrite Hbef in *. simpl.
    destruct (InfoMatchesDigest (bootedInfo st) d), (InfoMatchesDigest (stagedInfo st) d); simpl;
      (split_and!; intros; destruct (isSlotted b1); first [done|lia]).
  - (* staged *)
    rewrite Hbef. destruct Hord as [Hap Hdrain]. destruct Hbec as (_ & _ & _ & _ & Hap1).
    destruct (approved b1) eqn:Ea1; simpl.
    + assert (draining' = false) as -> by (destruct draining'; [by destruct Hdr as [[_ [_ ?]] _]|done]).
      split_and!; [done|done|..]; destruct (isSlotted b1), (isSlotted b), (approved b), draining; simpl in *; naive_solver lia.
    + symmetry in Hap1. apply orb_false_iff in Hap1 as [Hb0 Hd0]. rewrite Hb0, Hd0 in *.
      destruct (isSlotted b1) eqn:Es1.
      * assert (draining' = true) as -> by (by apply Hdr). split_and!; [done|done|done|..]; destruct (isSlotted b); lia.
      * assert (isSlotted b = false) as Hs0 by (destruct (isSlotted b); [by specialize (Hslot eq_refl)|done]).
        rewrite Hs0. split_and!; [done| |done|lia|by right]. intros ->. by destruct Hdr as [[_ [? _]] _].
Qed.
End Node.

(** ** Sums over the nodes *)

Definition rankAt c k : nat := from_option (rank_of (drainsOn (c_drains c) k)) 0 (c_owned c !! k).
Definition total c : nat := sum_list_with (rankAt c) (elements (dom (c_owned c))).

Lemma slots_dom (owned : gmap string BootcNode) : slots owned = count (slotted owned) (elements (dom owned)).
Proof.
  unfold slots. apply count_perm, list.NoDup_Permutation; [apply NoDup_fst_map_to_list|apply NoDup_elements|].
  intros k. rewrite elem_of_elements, elem_of_dom, list_elem_of_fmap. split.
  - intros ([k' b] & -> & Hin%elem_of_map_to_list). eauto.
  - intros [b Hb]. exists (k, b). split; [done|]. by apply elem_of_map_to_list.
Qed.

(** ** One round *)

(** The pass of a round, and what the daemons find. *)
Lemma round_pass mu c c' :
  healthy c → resolveMaxUnavailable (c_pool c) (Z.of_nat (size (c_owned c))) = Ok mu → round c c' →
  ∃ s, c_pool c' = c_pool c ∧ c_drains c' = cs_drains s ∧ dom (c_owned c') = dom (c_owned c) ∧
    calm_pass mu (c_owned c) (c_drains c) (cs_owned s) (cs_drains s) ∧
    (Z.of_nat (slots (cs_owned s)) <= Z.max (Z.of_nat (slots (c_owned c))) mu)%Z ∧
    ∀ k b st, cs_owned s !! k = Some b → c_hosts c !! k = Some st →
      ∃ b' st', c_owned c' !! k = Some b' ∧ c_hosts c' !! k = Some st' ∧ node_phase k b st b' st'.
Proof.
  intros [Hord _] Hmu (h & s & r & Hrun & Hcalm & Hp & Hd & Hdom & Hph). exists s.
  destruct (wp_runs _ _ _ _ (driveRollout_calm mu (passState c) Hord Hmu) Hrun Hcalm) as (_ & Hpool & Hcp).
  pose proof (wp_runs _ _ _ _ (driveRollout_within (passState c)) Hrun) as [_ Hb].
  specialize (Hb (calm_quiet _ Hcalm)). unfold unavailableLimit in Hb. cbn in Hb. rewrite Hmu in Hb.
  split_and!; [by rewrite Hp|done| |done|done|done]. rewrite Hdom. apply Hcp.
Qed.

Section Round.
Context (mu : Z) (c c' : Cluster) (s : CState).
Hypothesis (Hh : healthy c).
Hypothesis (Hdr : c_drains c' = cs_drains s) (Hdom : dom (c_owned c') = dom (c_owned c)).
Hypothesis (Hcp : calm_pass mu (c_owned c) (c_drains c) (cs_owned s) (cs_drains s)).
Hypothesis (Hph : ∀ k b st, cs_owned s !! k = Some b → c_hosts c !! k = Some st →
  ∃ b' st', c_owned c' !! k = Some b' ∧ c_hosts c' !! k = Some st' ∧ node_phase k b st b' st').

(** Every node goes through [node_round]. *)
Lemma round_node k b : c_owned c !! k = Some b → ∃ b1 b2 st',
  cs_owned s !! k = Some b1 ∧ c_owned c' !! k = Some b2 ∧ c_hosts c' !! k = Some st' ∧
  bn_name b2 = k ∧ restatus b1 b2 ∧ orderly_node (drainsOn (c_drains c') k) b2 ∧ host_agrees b2 st' ∧
  rank_of (drainsOn (c_drains c') k) b2 ≤ rank_of (drainsOn (c_drains c) k) b ∧
  (rank_of (drainsOn (c_drains c') k) b2 = rank_of (drainsOn (c_drains c) k) b →
     rank_of (drainsOn (c_drains c) k) b = 0 ∨
     (classifyNode b = Ok nodeStateStaged ∧ isSlotted b = false ∧ isSlotted b1 = false)).
Proof.
  intros Hb. destruct (he_hosts _ Hh k b Hb) as (st & Hst & Hag).
  destruct (or_node _ _ (he_orderly _ Hh) k b Hb) as [Hname Hon].
  destruct (cp_node _ _ _ _ _ Hcp k b Hb) as (b1 & Hb1 & Hbec & Hslot).
  destruct (Hph k b1 st Hb1 Hst) as (b2 & st' & Hb2 & Hst' & Hphase).
  assert (drainsOn (c_drains c') k = true ↔
    classifyNode b1 = Ok nodeStateStaged ∧ isSlotted b1 = true ∧ approved b1 = false) as Hd.
  { rewrite Hdr, (cp_drains _ _ _ _ _ Hcp k). rewrite Hb1. naive_solver. }
  destruct (node_round _ _ b b1 b2 st st' k Hon Hag Hbec Hslot Hd Hphase) as (Hre & Hon2 & Hag2 & Hle & Heq).
  exists b1, b2, st'. split_and!; try done. unfold bn_name. rewrite (proj1 Hre).
  transitivity (bn_name b); [|done]. apply Hbec.
Qed.

Lemma round_known k b2 : c_owned c' !! k = Some b2 → is_Some (c_owned c !! k).
Proof. intros Hb. apply elem_of_dom. rewrite <- Hdom. by eapply elem_of_dom_2. Qed.

Lemma round_healthy : healthy c'.
Proof.
  split; [split|].
  - intros k b2 Hb2. destruct (round_known k b2 Hb2) as [b Hb].
    destruct (round_node k b Hb) as (b1 & b2' & st' & _ & Hb2' & _ & Hn & _ & Ho & _). simplify_eq. done.
  - intros k Hk. assert (drainsOn (c_drains c') k = true) as Hd by (by apply bool_decide_eq_true).
    rewrite Hdr, (cp_drains _ _ _ _ _ Hcp k) in Hd. destruct Hd as (b1 & Hb1 & _).
    apply elem_of_dom. rewrite Hdom, <- (cp_dom _ _ _ _ _ Hcp). by eapply elem_of_dom_2.
  - intros k b2 Hb2. destruct (round_known k b2 Hb2) as [b Hb].
    destruct (round_node k b Hb) as (b1 & b2' & st' & _ & Hb2' & Hst' & _ & _ & _ & Hag & _). simplify_eq. eauto.
Qed.

(** The daemons do not touch the slots. *)
Lemma round_slots : slots (c_owned c') = slots (cs_owned s).
Proof.
  rewrite !slots_dom, Hdom, (cp_dom _ _ _ _ _ Hcp). apply count_ext. intros k Hk%elem_of_elements%elem_of_dom.
  destruct Hk as [b Hb]. destruct (round_node k b Hb) as (b1 & b2 & st' & Hb1 & Hb2 & _ & _ & Hre & _).
  unfold slotted. by rewrite Hb1, Hb2, (proj1 Hre).
Qed.

Lemma round_rank k : k ∈ elements (dom (c_owned c)) → rankAt c' k ≤ rankAt c k.
Proof.
  intros [b Hb]%elem_of_elements%elem_of_dom.
  destruct (round_node k b Hb) as (b1 & b2 & st' & _ & Hb2 & _ & _ & _ & _ & _ & Hle & _).
  unfold rankAt. by rewrite Hb, Hb2.
Qed.

(** The total rank goes down until everything is done. *)
Lemma round_total : (0 < mu)%Z → total c = 0 ∨ total c' < total c.
Proof.
  intros Hmu. destruct (decide (total c = 0)) as [?|Hpos]; [by left|right].
  unfold total. rewrite Hdom. apply sum_lt; [exact round_rank|].
  destruct (decide (Exists (λ k, rankAt c' k < rankAt c k) (elements (dom (c_owned c))))) as [He|He].
  { by apply Exists_exists in He. }
  exfalso. apply not_Exists_Forall in He; [|apply _]. rewrite Forall_forall in He.
  assert (∀ k b b1, c_owned c !! k = Some b → cs_owned s !! k = Some b1 →
    rank_of (drainsOn (c_drains c) k) b = 0 ∨
    (classifyNode b = Ok nodeStateStaged ∧ isSlotted b = false ∧ isSlotted b1 = false)) as Hstill.
  { intros k b b1 Hb Hb1. destruct (round_node k b Hb) as (b1' & b2 & st' & Hb1' & Hb2 & _ & _ & _ & _ & _ & Hlek & Heq).
    simplify_eq. apply Heq. assert (k ∈ elements (dom (c_owned c))) as Hk by (apply elem_of_elements; by eapply elem_of_dom_2).
    specialize (He k Hk). unfold rankAt in He. simpl in He. rewrite Hb, Hb2 in He. simpl in He. lia. }
  destruct (cp_capacity _ _ _ _ _ Hcp) as (k & b & b1 & Hb & Hb1 & Hc & Hs0 & Hs1); [| |done|].
  - intros k b Hb Hs. destruct (cp_node _ _ _ _ _ Hcp k b Hb) as (b1 & Hb1 & _).
    destruct (Hstill k b b1 Hb Hb1) as [Hr|(_ & ? & _)]; [|congruence]. unfold rank_of in Hr. rewrite Hs in Hr.
    destruct (classifyNode b) as [[]|]; try done. by destruct (approved b), (drainsOn (c_drains c) k).
  - destruct (sum_pos _ _ Hpos) as (k & [b Hb]%elem_of_elements%elem_of_dom & Hr). unfold rankAt in Hr. rewrite Hb in Hr.
    destruct (cp_node _ _ _ _ _ Hcp k b Hb) as (b1 & Hb1 & _).
    destruct (Hstill k b b1 Hb Hb1) as [?|(? & _)]; [done|]. by exists k, b.
  - destruct (Hstill k b b1 Hb Hb1) as [Hr|(_ & _ & ?)]; [|congruence]. unfold rank_of in Hr. by rewrite Hc, Hs0 in Hr.
Qed.
End Round.

(** A cluster of total rank 0 is updated. *)
Lemma total_updated c : healthy c → total c = 0 → updated c.
Proof.
  intros Hh Ht. assert (∀ k b, c_owned c !! k = Some b →
    classifyNode b = Ok nodeStateUpToDate ∧ isSlotted b = false ∧ drainsOn (c_drains c) k = false) as Hdone.
  { intros k b Hb. assert (rankAt c k = 0) as Hr by (eapply sum_0; [exact Ht|apply elem_of_elements; by eapply elem_of_dom_2]).
    destruct (or_node _ _ (he_orderly _ Hh) k b Hb) as [_ Ho].
    unfold rankAt in Hr. rewrite Hb in Hr. simpl in Hr. unfold rank_of, orderly_node in *.
    destruct (classifyNode b) as [[]|]; try done; [by destruct (isSlotted b)|].
    by destruct (isSlotted b), (approved b), (drainsOn (c_drains c) k). }
  split.
  - apply map_empty. intros k. apply eq_None_not_Some. intros Hk.
    destruct (or_drains _ _ (he_orderly _ Hh) k Hk) as [b Hb]. destruct (Hdone k b Hb) as (_ & _ & Hd).
    by apply bool_decide_eq_false in Hd.
  - intros k b Hb. destruct (Hdone k b Hb) as (Hc & Hs & _). split; [done|].
    destruct (he_hosts _ Hh k b Hb) as (st & Hst & ref & d & Hw & _ & Hm). rewrite Hc in Hm. by exists st, ref, d.
Qed.

Lemma total_bound c : total c ≤ 6 * size (c_owned c).
Proof.
  unfold total. rewrite <- size_dom. apply sum_bound. intros k _. unfold rankAt.
  destruct (c_owned c !! k) as [b|]; simpl; [|lia]. unfold rank_of.
  destruct (classifyNode b) as [[]|]; try lia; destruct (isSlotted b), (approved b), (drainsOn (c_drains c) k); lia.
Qed.

(** What is done stays done. *)
Lemma round_total_0 mu c c' :
  healthy c → resolveMaxUnavailable (c_pool c) (Z.of_nat (size (c_owned c))) = Ok mu → round c c' →
  total c = 0 → total c' = 0.
Proof.
  intros Hh Hmu Hr Ht. destruct (round_pass mu c c' Hh Hmu Hr) as (s & Hp & Hd & Hdom & Hcp & Hb & Hph).
  assert (total c' ≤ total c); [|lia]. unfold total. rewrite Hdom. apply sum_le.
  by eapply round_rank.
Qed.

Lemma round_keeps mu c c' :
  healthy c → resolveMaxUnavailable (c_pool c) (Z.of_nat (size (c_owned c))) = Ok mu → (0 < mu)%Z → round c c' →
  healthy c' ∧ resolveMaxUnavailable (c_pool c') (Z.of_nat (size (c_owned c'))) = Ok mu ∧
  (Z.of_nat (slots (c_owned c')) <= Z.max (Z.of_nat (slots (c_owned c))) mu)%Z ∧ (total c = 0 ∨ total c' < total c).
Proof.
  intros Hh Hmu Hpos Hr. destruct (round_pass mu c c' Hh Hmu Hr) as (s & Hp & Hd & Hdom & Hcp & Hb & Hph).
  split_and!.
  - by eapply round_healthy.
  - rewrite Hp. rewrite <- (size_dom (c_owned c')), Hdom, size_dom. done.
  - by erewrite round_slots.
  - by eapply round_total.
Qed.

(** Any number of rounds. *)
Lemma rounds_keep mu n c c' :
  healthy c → resolveMaxUnavailable (c_pool c) (Z.of_nat (size (c_owned c))) = Ok mu → (0 < mu)%Z →
  nsteps round n c c' →
  healthy c' ∧ (Z.of_nat (slots (c_owned c')) <= Z.max (Z.of_nat (slots (c_owned c))) mu)%Z ∧
  total c' ≤ total c - n.
Proof.
  intros Hh Hmu Hpos Hn. induction Hn as [c|n c c1 c2 Hr _ IH]; [split_and!; [done|lia|lia]|].
  destruct (round_keeps mu c c1 Hh Hmu Hpos Hr) as (Hh1 & Hmu1 & Hs1 & Ht1).
  destruct (IH Hh1 Hmu1) as (? & ? & ?). split_and!; [done|lia|].
  destruct Ht1 as [Ht0|?]; [|lia]. pose proof (round_total_0 mu c c1 Hh Hmu Hr Ht0). lia.
Qed.

(** C2. The rollout converges.  Let a pool's cluster be healthy: no node Degraded or
    seen in the middle of a reboot, no approval without its slot, and every host
    in the state its BootcNode reports.  Let [maxUnavailable] allow at least one
    node.  Then whatever order the controller visits its nodes in, and however
    often it sees them unchanged, after any number of rounds the number of nodes
    in a reboot slot is within the larger of [maxUnavailable] and the number at
    the start; and after six rounds per node every host runs the image its
    BootcNode asks for, all slots are given back and no drain is left. *)
Theorem rollout_converges mu n c c' :
  healthy c → resolveMaxUnavailable (c_pool c) (Z.of_nat (size (c_owned c))) = Ok mu → (0 < mu)%Z →
  nsteps round n c c' →
  (Z.of_nat (slots (c_owned c')) <= Z.max (Z.of_nat (slots (c_owned c))) mu)%Z ∧
  (6 * size (c_owned c) ≤ n → updated c').
Proof.
  intros Hh Hmu Hpos Hn. destruct (rounds_keep mu n c c' Hh Hmu Hpos Hn) as (Hh' & Hs & Ht). split; [done|].
  intros Hle. apply total_updated; [done|]. pose proof (total_bound c). lia.
Qed.
End Cluster.
