(* ===== verification/ClusterWitness.v ===== *)
(** * ClusterWitness: a rollout from beginning to end

    A simulated cluster of two nodes, one of which has not even staged its image:
    twelve rounds of the controller against the simulated API server and of the
    daemons against simulated hosts, each checked to be a [round]. *)

From stdpp Require Import relations.
From S2P Require Import Prelude Effects Types Library LibModel Client Samples Sim Image Karpenter Classify PoolStatus Slots Utf8 Events Drain Rollout RolloutSafety RolloutCapacity RolloutWitness StageOp Bootc Daemon DaemonSafety Watcher DaemonWitness RolloutCalm DaemonCalm Cluster.

Module ClusterWitness.
Import LibModel.
Import RolloutWitness.
Import DaemonWitness (dsim, DWorld, mkDWorld, entry, host, op0, onA, stagedB).
#[local] Existing Instance idOrder.

(** ** Checking the environment *)

Definition calmNodeb (node : Node) : bool :=
  (nodeReadyStatus node =s ConditionTrue) && bool_decide (om_deletionTimestamp (node_meta node) = None) &&
  negb (existsb disruptionTaint (node_taints node)).

(** The part of [calm] that can be computed; claims do not occur. *)
Definition calmb (e : event) : bool :=
  let '(Ev r x) := e in
  match r return resp r → bool with
  | GetNode _ => λ x, match x with Ok node => calmNodeb node | Err _ => false end
  | GetNodeClaim _ => λ _, false
  | PatchNode _ _ => λ x, is_ok x
  | PatchBootcNode _ _ => λ x, is_ok x
  | PatchNodeClaim _ _ => λ x, is_ok x
  | PollDrain _ => λ x, bool_decide (x = Some None)
  | _ => λ _, true
  end x.

Lemma calmb_ok e : quiet e → calmb e = true → calm e.
Proof.
  intros Hq Hc. split; [done|]. destruct e as [[] x]; try done; simpl in *.
  - destruct x as [node|]; [|done]. exists node. split; [done|]. unfold calmNodeb in Hc.
    apply andb_true_iff in Hc as [[H1 H2]%andb_true_iff H3]. split_and!; [by apply seq_b_true|by apply bool_decide_eq_true in H2|].
    by apply negb_true_iff.
  - by apply bool_decide_eq_true in Hc.
Qed.

Lemma calm_run {A} (p : prog resp A) w :
  forallb calmb (run sim p w).1.2 = true → Forall calm (run sim p w).1.2.
Proof.
  rewrite forallb_forall. intros Hc. pose proof (run_quiet p w) as Hq. rewrite Forall_forall in *.
  intros e He. apply calmb_ok; [auto|]. by apply Hc, list_elem_of_In.
Qed.

Definition servesb (bn : BootcNode) (st : Status) (e : ev dresp) : bool :=
  let '(Ev r x) := e in
  match r return dresp r → bool with
  | DGetBootcNode _ => λ x, match x with Ok b => bool_decide (b = bn) | Err _ => false end
  | DPatchStatus _ new => λ x, match x with Ok b => bool_decide (b = new) | Err _ => false end
  | DGetStatus => λ x, match x with Ok s => bool_decide (s = st) | Err _ => false end
  | DTakeErr => λ x, bool_decide (x = None)
  | DIsInFlight _ => λ x, negb x
  | DReboot => λ x, is_ok x
  | DApplyUpdate _ => λ x, is_ok x
  | _ => λ _, true
  end x.

Lemma servesb_ok bn st e : servesb bn st e = true → serves bn st e.
Proof.
  destruct e as [[] x]; simpl; try done;
    try (destruct x as [?|]; [|done]; intros ?%bool_decide_eq_true; by subst).
  - by intros ?%negb_true_iff.
  - by destruct x as [[]|].
  - by destruct x as [[]|].
Qed.

(** ** The daemons *)

(** A pass of the daemon of node [n] against its simulated host. *)
Definition dpass (n : string) (b : BootcNode) (st : Status) :=
  run dsim (DReconcile (D := nodeConfig n) n (mkDState b false)) (mkDWorld 0 b (Ok st) op0 None (Ok tt)).

Lemma dpass_ok n b st :
  forallb (servesb b st) (dpass n b st).1.2 = true →
  daemon_pass n b st (dpass n b st).1.2 (ds_bn (dpass n b st).2.1).
Proof.
  rewrite forallb_forall. intros Hs. exists (mkDState b false), (dpass n b st).2.1, (dpass n b st).2.2.
  split_and!; [done| | |done].
  - pose proof (run_runs dsim (DReconcile (D := nodeConfig n) n (mkDState b false)) (mkDWorld 0 b (Ok st) op0 None (Ok tt))) as Hr.
    unfold dpass. by destruct (run dsim _ _).2.
  - apply Forall_forall. intros e He. by apply servesb_ok, Hs, list_elem_of_In.
Qed.

Definition acquired (h : dhistory) : list string :=
  List.flat_map (λ e, match ev_req e with DAcquire i => [i] | _ => [] end) h.

Definition stagedEntry (image : string) : option BootEntry :=
  match ParseNamed image with
  | Ok ref => entry image (default "" (named_digest ref))
  | Err _ => None
  end.

(** What the host makes of a pass. *)
Definition hostAct (h : dhistory) (st : Status) : Status :=
  if existsb rebootOk h then host (sb_Staged (st_Status st)) None
  else match acquired h with
       | [] => st
       | image :: _ => host (sb_Booted (st_Status st)) (stagedEntry image)
       end.

Lemma rebooted_existsb h : rebooted h ↔ existsb rebootOk h = true.
Proof.
  rewrite existsb_exists. unfold rebooted. setoid_rewrite list_elem_of_In. done.
Qed.

Lemma acquires_acquired h image : acquires h image → image ∈ acquired h.
Proof.
  intros Hin. apply list_elem_of_In, List.in_flat_map. exists (Ev (DAcquire image) tt).
  split; [by apply list_elem_of_In|]. by left.
Qed.

Lemma hostAct_ok h st :
  (length (acquired h) <=? 1) && (negb (existsb rebootOk h) || (length (acquired h) =? 0)) = true →
  host_acts h st (hostAct h st).
Proof.
  rewrite andb_true_iff. intros [Hlen Hor]. unfold host_acts, hostAct. rewrite rebooted_existsb.
  split_and!.
  - by intros ->.
  - intros Hn%not_true_iff_false. rewrite Hn. by destruct (acquired h).
  - intros image ref d Hin%acquires_acquired Hp Hd. destruct (acquired h) as [|i [|]]; [by apply elem_of_nil in Hin| |done].
    apply list_elem_of_singleton in Hin as ->. simpl in Hor. rewrite orb_false_r in Hor. apply negb_true_iff in Hor as ->.
    unfold stagedInfo, host, stagedEntry. simpl in *. rewrite Hp, Hd. simpl. by rewrite seq_b_refl.
  - intros Hn%not_true_iff_false Ha. rewrite Hn. destruct (acquired h) as [|i l] eqn:Ea; [done|].
    destruct (Ha i). assert (i ∈ acquired h) as Hi by (rewrite Ea; set_solver).
    apply list_elem_of_In, List.in_flat_map in Hi as ([r x] & Hin & Hi). destruct r; try done. simpl in Hi.
    destruct Hi as [->|[]]. destruct x. by apply list_elem_of_In.
Qed.

(** The phase of one node: the result, if the simulated environment kept to the
    rules. *)
Definition phase (n : string) (b : BootcNode) (st : Status) : option (BootcNode * Status) :=
  let o1 := dpass n b st in
  let h1 := o1.1.2 in
  let st' := hostAct h1 st in
  let o2 := dpass n (ds_bn o1.2.1) st' in
  if forallb (servesb b st) h1 && forallb (servesb (ds_bn o1.2.1) st') o2.1.2 &&
     ((length (acquired h1) <=? 1) && (negb (existsb rebootOk h1) || (length (acquired h1) =? 0)))
  then Some (ds_bn o2.2.1, st') else None.

Lemma phase_ok n b st b' st' : phase n b st = Some (b', st') → node_phase n b st b' st'.
Proof.
  unfold phase. destruct (_ && _) eqn:E; [|done]. intros [= <- <-].
  apply andb_true_iff in E as [[E1 E2]%andb_true_iff E3]. eexists _, _, _.
  split_and!; [by apply dpass_ok|by apply hostAct_ok|by apply dpass_ok].
Qed.

(** ** Rounds *)

Definition phases (owned : gmap string BootcNode) (hosts : gmap string Status) : gmap string (option (BootcNode * Status)) :=
  map_imap (λ k b, Some (st ← hosts !! k; phase k b st)) owned.

(** The world of the pass: the cluster's BootcNodes, every drain finished. *)
Definition worldOf (w : World) (c : Cluster) : World :=
  mkWorld (w_now w) (w_pools w) (w_nodes w) (c_owned c) (w_claims w) (w_secrets w) (w_tags w)
    ((λ _, None) <$> c_drains c).

Definition play (wc : World * Cluster) : option (World * Cluster) :=
  let '(w, c) := wc in
  let o := run sim (driveRollout (passState c)) (worldOf w c) in
  let s := o.2.1 in
  let ph := phases (cs_owned s) (c_hosts c) in
  if forallb calmb o.1.2 && forallb (λ kv, bool_decide (is_Some kv.2)) (map_to_list ph) then
    Some (o.1.1, mkCluster (cs_pool s) (omap (fmap fst) ph) (cs_drains s) (omap (fmap snd) ph))
  else None.

Lemma phases_lookup owned hosts k :
  phases owned hosts !! k = (λ b, st ← hosts !! k; phase k b st) <$> owned !! k.
Proof. unfold phases. rewrite map_lookup_imap. by destruct (owned !! k). Qed.

Lemma play_round w c w' c' : play (w, c) = Some (w', c') → round c c'.
Proof.
  unfold play. set (o := run sim _ _). destruct (forallb calmb o.1.2 && _) eqn:E; [|done].
  intros [= _ <-]. apply andb_true_iff in E as [Hc Hph]. rewrite forallb_forall in Hph.
  assert (∀ k x, phases (cs_owned o.2.1) (c_hosts c) !! k = Some x → is_Some x) as Hall.
  { intros k x Hk. specialize (Hph (k, x)). rewrite bool_decide_eq_true in Hph. apply Hph.
    by apply list_elem_of_In, elem_of_map_to_list. }
  exists o.1.2, o.2.1, o.2.2. split_and!; [|by apply calm_run|done|done| |].
  - pose proof (run_runs sim (driveRollout (passState c)) (worldOf w c)) as Hr. fold o in Hr. by destruct o.2.
  - apply set_eq. intros k. simpl. rewrite !elem_of_dom, lookup_omap, phases_lookup.
    pose proof (Hall k) as Hk. rewrite phases_lookup in Hk.
    destruct (cs_owned o.2.1 !! k) as [b|]; simpl in *; [|done].
    destruct (Hk _ eq_refl) as [[b' st'] ->]. simpl. by split; eauto.
  - intros k b st Hb Hst. simpl. rewrite !lookup_omap, phases_lookup, Hb. simpl.
    pose proof (Hall k) as Hk. rewrite phases_lookup, Hb in Hk. simpl in Hk. rewrite Hst in *. simpl in *.
    destruct (Hk _ eq_refl) as [[b' st'] E]. rewrite E. simpl. exists b', st'. split_and!; [done|done|]. by apply phase_ok.
Qed.

Fixpoint playN (n : nat) (wc : World * Cluster) : option (World * Cluster) :=
  match n with
  | 0 => Some wc
  | S n => play wc ≫= playN n
  end.

Lemma playN_rounds n w c w' c' : playN n (w, c) = Some (w', c') → nsteps round n c c'.
Proof.
  revert w c. induction n as [|n IH]; intros w c; cbn [playN].
  - intros [= _ <-]. constructor.
  - destruct (play (w, c)) as [[w1 c1]|] eqn:E; [|done]. intros Hn.
    eapply nsteps_l; [by eapply play_round|by eapply IH].
Qed.

(** "w1" was just told about image B, "w2" has staged it; one node at a time. *)
Definition cluster0 : Cluster :=
  mkCluster (Samples.pool None)
    (Samples.store [Samples.bootcNode "w1" Samples.RefB DesiredImageStateStaged None None [] None;
                    Samples.stagedNode "w2" None])
    ∅ (list_to_map [("w1", onA); ("w2", stagedB)]).

Definition clusterWorld : World :=
  mkWorld 0 {["workers" := Samples.pool None]}
    (list_to_map [("w1", Samples.node "w1" None); ("w2", Samples.node "w2" None)]) ∅ ∅ ∅ ∅ ∅.

(** Round by round: who holds a slot, who is approved, who is drained. *)
Definition view (c : Cluster) : list (string * bool * bool * bool) :=
  (λ kb, (kb.1, isSlotted kb.2, approved kb.2, drainsOn (c_drains c) kb.1)) <$> map_to_list (c_owned c).

(** "w2" gets the slot, is drained, approved, rebooted and freed; then "w1". *)
Example rollout_story :
  ((λ n, (λ wc, view wc.2) <$> playN n (clusterWorld, cluster0)) <$> [1; 2; 3; 4; 5]) =
  [Some [("w1", false, false, false); ("w2", true, false, true)];
   Some [("w1", false, false, false); ("w2", true, true, false)];
   Some [("w1", true, false, true); ("w2", false, true, false)];
   Some [("w1", true, true, false); ("w2", false, true, false)];
   Some [("w1", false, true, false); ("w2", false, true, false)]].
Proof. vm_compute. reflexivity. Qed.

(** The approval outlives the update: "w2" is done, its slot freed, and it is
    uncordoned.  Should its host come up with the old image (after a [bootc rollback]
    on the host, say), then as soon as the new image is staged again the daemon
    reboots it, without a slot and without a drain. *)
Definition doneNode : option BootcNode := playN 5 (clusterWorld, cluster0) ≫= λ wc, c_owned wc.2 !! "w2".

Example rolled_back_reboots_undrained :
  (λ b, (isSlotted b, existsb rebootOk (dpass "w2" b stagedB).1.2)) <$> doneNode = Some (false, true).
Proof. vm_compute. reflexivity. Qed.

Lemma healthy_cluster0 : healthy cluster0.
Proof.
  split; [split|].
  - intros k b Hk%elem_of_map_to_list%list_elem_of_In. vm_compute in Hk.
    destruct Hk as [[= <- <-]|[[= <- <-]|[]]]; vm_compute; naive_solver.
  - intros k [d Hd]. by vm_compute in Hd.
  - intros k b Hk%elem_of_map_to_list%list_elem_of_In. vm_compute in Hk.
    destruct Hk as [[= <- <-]|[[= <- <-]|[]]]; eexists; (split; [vm_compute; reflexivity|]);
      exists (mkNamed Samples.RefB (Some Samples.DigestB)), Samples.DigestB;
      vm_compute; (split; [done|]); split; done || (eexists; reflexivity).
Qed.

Lemma rollout_converges_witness :
  match playN 12 (clusterWorld, cluster0) with
  | Some (_, c) => (slots (c_owned c) <= 1)%nat ∧ updated c
  | None => False
  end.
Proof.
  destruct (playN 12 (clusterWorld, cluster0)) as [[w c]|] eqn:E; [|by vm_compute in E].
  assert (nsteps round 12 cluster0 c) as Hn by exact (playN_rounds 12 clusterWorld cluster0 w c E).
  destruct (rollout_converges 1 12 cluster0 c healthy_cluster0 eq_refl eq_refl Hn) as [Hs Hu].
  split; [|apply Hu; vm_compute; lia].
  replace (slots (c_owned cluster0)) with 0 in Hs by (vm_compute; reflexivity). lia.
Defined.
End ClusterWitness.
