(* ===== verification/System.v ===== *)
(** * System: controller, daemons and API server, interleaved

    The processes of the operator composed at the level of single requests.  One
    controller works through passes of [Reconcile] for any pools, one daemon per
    node through passes of [DReconcile]; between any two requests of one process
    the others may run, processes may crash and start again, answers may get lost,
    and a daemon may read a version of its BootcNode that is long out of date.
    Only the operator writes BootcNodes.

    The theorem is the operator's promise to the workloads: whenever a host is
    told to reboot, its node was drained before, for that purpose. *)

From S2P Require Import Prelude Effects Types Library LibModel Client Samples Sim Image Karpenter Classify PoolStatus Slots Utf8 Events Drain Rollout RolloutSafety Membership MembershipSafety Reconcile ReconcileSafety StageOp Bootc Daemon DaemonSafety DaemonCalm.

(** ** The state *)

(** An event of the controller, or of the daemon of a node. *)
Inductive gev : Set :=
| CtlEv (e : event)
| NodeEv (n : string) (e : ev dresp).

Abbreviation glog := (list gev).

(** The controller: idle with its drains, or in a pass for the pool [name], with
    the history of the pass and what is left of it. *)
Inductive ctlProc : Type :=
| CtlIdle (drains : gmap string drainStatus)
| CtlPass (name : string) (h : history) (p : prog resp (gmap string drainStatus * result Z)).

(** A daemon: not running or idle with its flag, or in a pass. *)
Inductive nodeProc : Type :=
| NodeIdle_ (issued : bool)
| NodePass (h : dhistory) (p : prog dresp (DState * result Z)).

Record System : Type := mkSystem {
  sy_log : glog;                              (* all events, in order *)
  sy_versions : gmap string (list BootcNode); (* all versions ever stored, the current one first *)
  sy_drains : gset string;                    (* drains started and not collected *)
  sy_ctl : ctlProc;
  sy_node : string → nodeProc
}.

Definition setCtl (p : ctlProc) (y : System) : System :=
  mkSystem (sy_log y) (sy_versions y) (sy_drains y) p (sy_node y).
Definition setNodeProc (n : string) (p : nodeProc) (y : System) : System :=
  mkSystem (sy_log y) (sy_versions y) (sy_drains y) (sy_ctl y)
    (λ m, if decide (m = n) then p else sy_node y m).

(** ** The API server and the drains *)

(** [got] is stored as the new version of the BootcNode [n]. *)
Definition push (n : string) (got : BootcNode) (v : gmap string (list BootcNode)) : gmap string (list BootcNode) :=
  <[n := got :: default [] (v !! n)]> v.

(** A merge patch, applied to the current version: what [base] and [new] agree on
    keeps its stored value. *)
Definition merged (v : gmap string (list BootcNode)) (base new got : BootcNode) : Prop :=
  ∃ cur old, v !! bn_name base = Some (cur :: old) ∧ merge_patch_bn base new got ∧
    (DesiredImageState (bn_spec base) = DesiredImageState (bn_spec new) →
       DesiredImageState (bn_spec got) = DesiredImageState (bn_spec cur)).

(** A write happens, or fails; a write that happened may be answered by an error.
    The versions [v] and the drains [ds] become [v'] and [ds']. *)
Definition written {A : Set} (x : result A) (got : A) : Prop := x = Ok got ∨ ∃ e, x = Err e.

Definition ctl_effect (v : gmap string (list BootcNode)) (ds : gset string) (e : event)
    (v' : gmap string (list BootcNode)) (ds' : gset string) : Prop :=
  let '(Ev r x) := e in
  match r return resp r → Prop with
  | PatchBootcNode base new => λ x, ds' = ds ∧
      ((∃ got, merged v base new got ∧ written x got ∧ v' = push (bn_name base) got v) ∨
       (is_ok x = false ∧ v' = v))
  | CreateBootcNode b => λ x, ds' = ds ∧
      ((∃ got, bn_spec got = bn_spec b ∧ written x got ∧ v' = push (bn_name b) got v) ∨
       (is_ok x = false ∧ v' = v))
  | StartDrain n _ _ => λ _, ds' = {[n]} ∪ ds ∧ v' = v
  | PollDrain n => λ x, v' = v ∧
      match x with None => ds' = ds | Some _ => n ∈ ds ∧ ds' = ds ∖ {[n]} end
  | _ => λ _, ds' = ds ∧ v' = v
  end x.

(** A daemon reads any version there ever was; its patch goes to the status
    subresource. *)
Definition node_effect (v : gmap string (list BootcNode)) (e : ev dresp) (v' : gmap string (list BootcNode)) : Prop :=
  let '(Ev r x) := e in
  match r return dresp r → Prop with
  | DGetBootcNode n => λ x, v' = v ∧ ∀ b, x = Ok b → ∃ old, v !! n = Some old ∧ b ∈ old
  | DPatchStatus base _ => λ x,
      (∃ cur old got, v !! bn_name base = Some (cur :: old) ∧ bn_spec got = bn_spec cur ∧ written x got ∧
         v' = push (bn_name base) got v) ∨
      (is_ok x = false ∧ v' = v)
  | _ => λ _, v' = v
  end x.

(** ** Steps *)

Section Steps.
Context {L : Lib} {C : Config} `{MapOrder}.

Inductive step : System → System → Prop :=
| CtlStart y name drains :
    sy_ctl y = CtlIdle drains →
    step y (setCtl (CtlPass name [] (Reconcile name drains)) y)
| CtlAsk y name h r k x v ds :
    sy_ctl y = CtlPass name h (Vis r k) → honest (Ev r x) → ctl_effect (sy_versions y) (sy_drains y) (Ev r x) v ds →
    step y (mkSystem (sy_log y ++ [CtlEv (Ev r x)]) v ds (CtlPass name (h ++ [Ev r x]) (k x)) (sy_node y))
| CtlDone y name h drains res :
    sy_ctl y = CtlPass name h (Ret (drains, res)) → step y (setCtl (CtlIdle drains) y)
| CtlCrash y : step y (mkSystem (sy_log y) (sy_versions y) ∅ (CtlIdle ∅) (sy_node y))
| NodeStart y n issued b reqName :
    sy_node y n = NodeIdle_ issued →
    step y (setNodeProc n (NodePass [] (DReconcile (D := nodeConfig n) reqName (mkDState b issued))) y)
| NodeAsk y n h r k x v :
    sy_node y n = NodePass h (Vis r k) → node_effect (sy_versions y) (Ev r x) v →
    step y (setNodeProc n (NodePass (h ++ [Ev r x]) (k x))
              (mkSystem (sy_log y ++ [NodeEv n (Ev r x)]) v (sy_drains y) (sy_ctl y) (sy_node y)))
| NodeDone y n h s res :
    sy_node y n = NodePass h (Ret (s, res)) → step y (setNodeProc n (NodeIdle_ (rebootIssued s)) y)
| NodeCrash y n : step y (setNodeProc n (NodeIdle_ false) y).

(** At the beginning no pass is running and no node is approved. *)
Record initial (y : System) : Prop := {
  in_log : sy_log y = [];
  in_versions n l b : sy_versions y !! n = Some l → b ∈ l →
    DesiredImageState (bn_spec b) ≠ DesiredImageStateBooted;
  in_drains : sy_drains y = ∅;
  in_ctl : sy_ctl y = CtlIdle ∅;
  in_node n : sy_node y n = NodeIdle_ false
}.

Inductive reachable : System → Prop :=
| reach_init y : initial y → reachable y
| reach_step y y' : reachable y → step y y' → reachable y'.
End Steps.

(** ** What a log shows *)

Section Evidence.
Context {L : Lib} {HL : LibLaws L} {C : Config} `{MapOrder}.
Implicit Types (l : glog) (n : string) (y : System).

(** A drain of the node [n] was started; one was started and collected with
    success; after that, the node was approved for reboot. *)
Definition startedIn l n : Prop := ∃ pool t x, CtlEv (Ev (StartDrain n pool t) x) ∈ l.
Definition drainedIn l n : Prop :=
  ∃ l1 l2, l = l1 ++ CtlEv (Ev (PollDrain n) (Some None)) :: l2 ∧ startedIn l1 n.
Definition approvedIn l n : Prop :=
  ∃ l1 base new x l2, l = l1 ++ CtlEv (Ev (PatchBootcNode base new) x) :: l2 ∧
    bn_name base = n ∧ approves base new ∧ drainedIn l1 n.

(** The daemon of [n] saw the image its BootcNode asks for staged and not booted,
    and the BootcNode approve the reboot. *)
Definition rebootDueIn l n : Prop :=
  ∃ bn ref d st, NodeEv n (Ev (DGetBootcNode n) (Ok bn)) ∈ l ∧
    DesiredImageState (bn_spec bn) = DesiredImageStateBooted ∧ wants bn ref d ∧
    NodeEv n (Ev DGetStatus (Ok st)) ∈ l ∧
    InfoMatchesDigest (bootedInfo st) d = false ∧ InfoMatchesDigest (stagedInfo st) d = true.

Lemma startedIn_app l l' n : startedIn l n → startedIn (l ++ l') n.
Proof. intros (p & t & x & ?). exists p, t, x. set_solver. Qed.
Lemma drainedIn_app l l' n : drainedIn l n → drainedIn (l ++ l') n.
Proof. intros (l1 & l2 & -> & ?). exists l1, (l2 ++ l'). by rewrite <- app_assoc. Qed.
Lemma approvedIn_app l l' n : approvedIn l n → approvedIn (l ++ l') n.
Proof. intros (l1 & b & b' & x & l2 & -> & ?). exists l1, b, b', x, (l2 ++ l'). by rewrite <- app_assoc. Qed.
#[local] Hint Resolve startedIn_app drainedIn_app approvedIn_app : bootc.

(** What must have happened before an event. *)
Definition justified l (e : gev) : Prop :=
  match e with
  | CtlEv (Ev (PollDrain n) x) => x = Some None → startedIn l n
  | CtlEv (Ev (PatchBootcNode base new) _) => approves base new → drainedIn l (bn_name base)
  | NodeEv _ (Ev (DGetBootcNode m) x) =>
      ∀ b, x = Ok b → DesiredImageState (bn_spec b) = DesiredImageStateBooted → approvedIn l m
  | NodeEv n e => is_reboot (ev_req e) = true → approvedIn l n ∧ rebootDueIn l n
  | _ => True
  end.

Definition justified_log l : Prop := ∀ l1 e l2, l = l1 ++ e :: l2 → justified l1 e.

Lemma justified_snoc l e : justified_log l → justified l e → justified_log (l ++ [e]).
Proof.
  intros Hl He l1 e' l2 Heq. destruct l2 as [|e2 l2 _] using rev_ind.
  - apply app_inj_tail in Heq as [-> ->]. done.
  - rewrite app_comm_cons, app_assoc in Heq. apply app_inj_tail in Heq as [-> ->]. by eapply Hl.
Qed.

(** ** The invariant *)

Definition ctl_ok l (p : ctlProc) : Prop :=
  match p with
  | CtlIdle _ => True
  | CtlPass name h p =>
      honest_history h ∧ (∀ e, e ∈ h → CtlEv e ∈ l) ∧
      wp p h (λ h' _, honest_history h' → guarded (reconcile_allowed name) h')
  end.

Definition node_ok l n (p : nodeProc) : Prop :=
  match p with
  | NodeIdle_ _ => True
  | NodePass h p =>
      (∀ e, e ∈ h → NodeEv n e ∈ l) ∧
      wp p h (λ h' _, guarded (daemon_allowed (D := nodeConfig n)) h')
  end.

Record inv y : Prop := {
  iv_log : justified_log (sy_log y);
  iv_versions n old b : sy_versions y !! n = Some old → b ∈ old →
    DesiredImageState (bn_spec b) = DesiredImageStateBooted → approvedIn (sy_log y) n;
  iv_drains n : n ∈ sy_drains y → startedIn (sy_log y) n;
  iv_ctl : ctl_ok (sy_log y) (sy_ctl y);
  iv_node n : node_ok (sy_log y) n (sy_node y n)
}.

Lemma honest_answer r : ∃ x, honest (Ev r x).
Proof.
  destruct r; try (exists (Err (ErrString "")); done); try (exists tt; done).
  - by exists 0%Z.
  - by exists None.
  - by exists true.
Qed.

Lemma some_answer (r : dreq) : ∃ x : dresp r, True.
Proof.
  destruct r; try (exists (Err (ErrString "")); done); try (exists tt; done).
  - by exists 0%Z.
  - by exists None.
  - by exists true.
Qed.

(** A drain that was collected was started before. *)
Lemma polled_drained l n : justified_log l → CtlEv (Ev (PollDrain n) (Some None)) ∈ l → drainedIn l n.
Proof.
  intros Hl Hin. apply list_elem_of_split in Hin as (l1 & l2 & ->). exists l1, l2. split; [done|].
  by apply (Hl l1 _ l2 eq_refl).
Qed.

(** The next request of the controller's pass is justified. *)
Lemma ctl_justified y name h r k x v ds :
  inv y → sy_ctl y = CtlPass name h (Vis r k) → ctl_effect (sy_versions y) (sy_drains y) (Ev r x) v ds →
  justified (sy_log y) (CtlEv (Ev r x)).
Proof.
  intros Hi Hc He. pose proof (iv_ctl _ Hi) as Hok. rewrite Hc in Hok. destruct Hok as (Hh & Hin & Hwp).
  pose proof (guarded_request honest _ _ _ _ honest_answer Hh Hwp) as Hal.
  destruct r; try done; simpl.
  - intros Hap. destruct Hal as (pool & _ & Ha & _). apply polled_drained; [apply Hi|]. by apply Hin, Ha.
  - intros ->. destruct He as (_ & Hd & _). by apply (iv_drains _ Hi).
Qed.

(** The next request of a daemon's pass is justified. *)
Lemma node_justified y n h r k x v :
  inv y → sy_node y n = NodePass h (Vis r k) → node_effect (sy_versions y) (Ev r x) v →
  justified (sy_log y) (NodeEv n (Ev r x)).
Proof.
  intros Hi Hn He. pose proof (iv_node _ Hi n) as Hok. rewrite Hn in Hok. destruct Hok as (Hin & Hwp).
  assert (daemon_allowed (D := nodeConfig n) h r) as Hal.
  { apply (guarded_request (λ _, True) _ r k); [apply some_answer|by apply Forall_true|].
    eapply wp_mono; [|exact Hwp]. done. }
  assert (∀ bn soft, reboot_due (D := nodeConfig n) h bn soft → approvedIn (sy_log y) n ∧ rebootDueIn (sy_log y) n) as Hdue.
  { intros bn soft (Hr & Hb & _ & (ref & d & st & Hw & Hst & H1 & H2) & _). apply Hin in Hr, Hst. split.
    - pose proof Hr as Hr'. apply list_elem_of_split in Hr' as (l1 & l2 & Heq).
      pose proof (iv_log _ Hi l1 _ l2 Heq bn eq_refl Hb) as Ha. rewrite Heq. by apply approvedIn_app.
    - by exists bn, ref, d, st. }
  destruct r; try done; simpl.
  - intros b -> Hb. destruct He as [_ Hv]. destruct (Hv b eq_refl) as (old & ? & ?). by eapply (iv_versions _ Hi).
  - intros _. destruct Hal as [bn ?]. eauto.
  - intros _. destruct Hal as (_ & bn & ?). eauto.
Qed.

Lemma ctl_ok_app l l' p : ctl_ok l p → ctl_ok (l ++ l') p.
Proof. destruct p; [done|]. intros (? & Hin & ?). split_and!; [done| |done]. intros e He. apply elem_of_app. auto. Qed.

Lemma node_ok_app l l' n p : node_ok l n p → node_ok (l ++ l') n p.
Proof. destruct p; [done|]. intros (Hin & ?). split; [|done]. intros e He. apply elem_of_app. auto. Qed.

Lemma push_in n got v m old b :
  push n got v !! m = Some old → b ∈ old →
  (m = n ∧ b = got) ∨ ∃ old', v !! m = Some old' ∧ b ∈ old'.
Proof.
  unfold push. rewrite lookup_insert. case_decide as Hm; [|eauto]. subst. intros [= <-] [->|Hb]%elem_of_cons; [auto|].
  right. destruct (v !! m); [eauto|by apply elem_of_nil in Hb].
Qed.

(** A version approves a reboot only if a patch did. *)
Lemma ctl_versions y e v ds :
  inv y → justified (sy_log y) (CtlEv e) →
  match ev_req e with
  | CreateBootcNode b => DesiredImageState (bn_spec b) ≠ DesiredImageStateBooted
  | _ => True
  end →
  ctl_effect (sy_versions y) (sy_drains y) e v ds →
  ∀ n old b, v !! n = Some old → b ∈ old → DesiredImageState (bn_spec b) = DesiredImageStateBooted →
    approvedIn (sy_log y ++ [CtlEv e]) n.
Proof.
  intros Hi Hj Hcr He n old b Hn Hb Hap.
  assert (∀ old', sy_versions y !! n = Some old' → b ∈ old' → approvedIn (sy_log y ++ [CtlEv e]) n) as Hold.
  { intros old' H1 H2. apply approvedIn_app. by eapply (iv_versions _ Hi). }
  destruct e as [r x]. destruct r; simpl in He, Hj, Hcr; try (destruct He as [_ He]; subst v; by eapply Hold).
  - destruct He as [_ [(got & Hsp & _ & ->)|[_ ->]]]; [|by eapply Hold].
    apply (push_in _ _ _ _ _ _ Hn) in Hb as [[-> ->]|(old' & ? & ?)]; [|by eapply Hold]. by rewrite Hsp in Hap.
  - destruct He as [_ [(got & (cur & rest & Hcur & (Hname & _ & _ & Hpat) & Hsame) & _ & ->)|[_ ->]]]; [|by eapply Hold].
    apply (push_in _ _ _ _ _ _ Hn) in Hb as [[-> ->]|(old' & ? & ?)]; [|by eapply Hold].
    destruct (decide (DesiredImageState (bn_spec base) = DesiredImageState (bn_spec new))) as [Heq|Hne].
    + apply approvedIn_app. eapply (iv_versions _ Hi _ _ cur); [exact Hcur|set_solver|]. by rewrite <- (Hsame Heq).
    + specialize (Hpat Hne). assert (approves base new) as Happ by (split; congruence).
      exists (sy_log y), base, new, x, []. split_and!; [done|done|done|by apply Hj].
  - destruct He as [-> _]. by eapply Hold.
Qed.

Lemma node_versions y n e v :
  inv y → node_effect (sy_versions y) e v →
  ∀ m old b, v !! m = Some old → b ∈ old → DesiredImageState (bn_spec b) = DesiredImageStateBooted →
    approvedIn (sy_log y ++ [NodeEv n e]) m.
Proof.
  intros Hi He m old b Hm Hb Hap. apply approvedIn_app.
  destruct e as [r x]. destruct r; simpl in He; try (subst v; by eapply (iv_versions _ Hi)).
  - destruct He as [-> _]. by eapply (iv_versions _ Hi).
  - destruct He as [(cur & rest & got & Hcur & Hsp & _ & ->)|[_ ->]]; [|by eapply (iv_versions _ Hi)].
    apply (push_in _ _ _ _ _ _ Hm) in Hb as [[-> ->]|(old' & ? & ?)]; [|by eapply (iv_versions _ Hi)].
    rewrite Hsp in Hap. eapply (iv_versions _ Hi _ _ cur); [exact Hcur|set_solver|done].
Qed.

Lemma ctl_drains y e v ds :
  inv y → ctl_effect (sy_versions y) (sy_drains y) e v ds →
  ∀ n, n ∈ ds → startedIn (sy_log y ++ [CtlEv e]) n.
Proof.
  intros Hi He n Hn.
  assert (n ∈ sy_drains y → startedIn (sy_log y ++ [CtlEv e]) n) as Hold.
  { intros H'. by apply startedIn_app, (iv_drains _ Hi). }
  destruct e as [r x]. destruct r; simpl in He; try (destruct He as [-> _]; by apply Hold).
  - destruct He as [-> _]. apply elem_of_union in Hn as [->%elem_of_singleton|Hn]; [|auto].
    exists pool, timeout, x. set_solver.
  - destruct He as [_ He]. destruct x; [destruct He as [_ ->]; set_solver|subst ds; auto].
Qed.

Lemma system_inv_init y : initial y → inv y.
Proof.
  intros [Hl Hv Hd Hc Hn]. split.
  - rewrite Hl. intros l1 e l2 Heq. by destruct l1.
  - intros n old b H1 H2 H3. by destruct (Hv n old b).
  - intros n. rewrite Hd. by intros ?%elem_of_empty.
  - by rewrite Hc.
  - intros n. by rewrite Hn.
Qed.

(** A node other than [n] is not concerned. *)
Lemma node_ok_set y n p l :
  (∀ m, node_ok l m (sy_node y m)) → node_ok l n p →
  ∀ m, node_ok l m (sy_node (setNodeProc n p y) m).
Proof. intros Hy Hp m. simpl. by case_decide as Hm; [subst|]. Qed.

Lemma inv_ctl_ask y name h r k x v ds :
  inv y → sy_ctl y = CtlPass name h (Vis r k) → honest (Ev r x) →
  ctl_effect (sy_versions y) (sy_drains y) (Ev r x) v ds →
  inv (mkSystem (sy_log y ++ [CtlEv (Ev r x)]) v ds (CtlPass name (h ++ [Ev r x]) (k x)) (sy_node y)).
Proof.
  intros Hi Hc Hx He. pose proof (ctl_justified _ _ _ _ _ _ _ _ Hi Hc He) as Hj.
  pose proof (iv_ctl _ Hi) as Hok. rewrite Hc in Hok. destruct Hok as (Hh & Hin & Hwp).
  pose proof (guarded_request honest _ _ _ _ honest_answer Hh Hwp) as Hal.
  split; simpl.
  - apply justified_snoc; [apply Hi|done].
  - eapply ctl_versions; [done|done| |done]. simpl. destruct r; try done.
    destruct Hal as (pool & _ & _ & ->). done.
  - by eapply ctl_drains.
  - split_and!; [by apply Forall_app; split; [|apply Forall_singleton]| |exact (Hwp x)].
    intros e [He'|He']%elem_of_app; apply elem_of_app; [left; auto|right].
    apply list_elem_of_singleton in He' as ->. by apply list_elem_of_singleton.
  - intros n. apply node_ok_app, Hi.
Qed.

Lemma inv_node_ask y n h r k x v :
  inv y → sy_node y n = NodePass h (Vis r k) → node_effect (sy_versions y) (Ev r x) v →
  inv (setNodeProc n (NodePass (h ++ [Ev r x]) (k x))
         (mkSystem (sy_log y ++ [NodeEv n (Ev r x)]) v (sy_drains y) (sy_ctl y) (sy_node y))).
Proof.
  intros Hi Hn He. pose proof (node_justified _ _ _ _ _ _ _ Hi Hn He) as Hj.
  pose proof (iv_node _ Hi n) as Hok. rewrite Hn in Hok. destruct Hok as (Hin & Hwp).
  split.
  - apply justified_snoc; [apply Hi|done].
  - by eapply node_versions.
  - intros m Hm. by apply startedIn_app, (iv_drains _ Hi).
  - apply ctl_ok_app, Hi.
  - apply node_ok_set; [intros m; apply node_ok_app, Hi|]. split; [|exact (Hwp x)].
    intros e [He'|He']%elem_of_app; apply elem_of_app; [left; auto|right].
    apply list_elem_of_singleton in He' as ->. by apply list_elem_of_singleton.
Qed.

Lemma inv_step y y' : inv y → step y y' → inv y'.
Proof.
  intros Hi Hs. destruct Hs as [y name drains Hc|y name h r k x v ds Hc Hx He|y name h drains res Hc|y
    |y n issued b reqName Hn|y n h r k x v Hn He|y n h s res Hn|y n].
  - split; try apply Hi. split_and!; [constructor|by intros e He%elem_of_nil|].
    pose proof (Reconcile_safe name drains) as Hp. eapply wp_mono; [|exact Hp]. done.
  - by eapply inv_ctl_ask.
  - split; by try apply Hi.
  - split; try apply Hi; [by intros n ?%elem_of_empty|done].
  - split; try apply Hi. apply node_ok_set; [apply Hi|]. split; [by intros e He%elem_of_nil|].
    pose proof (daemon_guarded (D := nodeConfig n) reqName (mkDState b issued)) as Hp. exact Hp.
  - by eapply inv_node_ask.
  - split; try apply Hi. by apply node_ok_set; [apply Hi|].
  - split; try apply Hi. by apply node_ok_set; [apply Hi|].
Qed.

Lemma system_inv y : reachable y → inv y.
Proof. induction 1; [by apply system_inv_init|by eapply inv_step]. Qed.

(** C1. Drained before rebooted.  However the passes of the controller, of the daemons
    and the answers of the API server interleave, whichever process crashes,
    whichever answer is lost and however old the BootcNodes are that the daemons
    read: whenever the daemon of a node tells its host to reboot, then before
    that, in this order, the controller started a drain of this very node,
    collected it with success, and approved the node for reboot; and the daemon
    had read a BootcNode that approves the reboot and a host status that shows the
    image the BootcNode asks for as staged and not as booted. *)
Theorem reboot_only_drained y l1 n e l2 :
  reachable y → sy_log y = l1 ++ NodeEv n e :: l2 → is_reboot (ev_req e) = true →
  (∃ a pool t x b c base new z d,
     l1 = a ++ CtlEv (Ev (StartDrain n pool t) x) :: b ++
          CtlEv (Ev (PollDrain n) (Some None)) :: c ++
          CtlEv (Ev (PatchBootcNode base new) z) :: d ∧
     bn_name base = n ∧ approves base new) ∧
  rebootDueIn l1 n.
Proof.
  intros Hr%system_inv Hl He. pose proof (iv_log _ Hr l1 _ l2 Hl) as Hj.
  assert (approvedIn l1 n ∧ rebootDueIn l1 n) as [Ha Hdue].
  { destruct e as [[] x]; try done; by apply Hj. }
  split; [|done]. destruct Ha as (p1 & base & new & z & d & -> & Hn & Hap & q1 & c & -> & pool & t & x & Hin).
  apply list_elem_of_split in Hin as (a & b & ->).
  exists a, pool, t, x, b, c, base, new, z, d. split; [by rewrite <- !app_assoc|done].
Qed.
End Evidence.
