(* ===== verification/SystemWitness.v ===== *)
(** * SystemWitness: a run of the whole system

    Passes of the controller and of a daemon, computed against the simulated
    cluster and host, replayed as steps of [System]: a node is drained, approved
    and rebooted. *)

From S2P Require Import Prelude Effects Types Library LibModel Client Samples Sim Image Karpenter Classify PoolStatus Slots Utf8 Events Drain Rollout RolloutSafety RolloutWitness Membership MembershipSafety MembershipSync Reconcile ReconcileSafety ReconcileProps ReconcileWitness StageOp Bootc Daemon DaemonSafety Watcher DaemonWitness DaemonCalm RolloutCalm Cluster ClusterWitness System.

Module SystemWitness.
Import LibModel.
#[local] Existing Instance idOrder.
#[local] Existing Instance RolloutWitness.config.

Abbreviation versions := (gmap string (list BootcNode)).

(** ** Replaying a computed pass *)

(** The effect of an event, if it is one the API server could have. *)
Definition applyCtl (v : versions) (ds : gset string) (e : event) : option (versions * gset string) :=
  let '(Ev r x) := e in
  match r return resp r → option (versions * gset string) with
  | PatchBootcNode base new => λ x,
      match x, v !! bn_name base with
      | Ok got, Some (cur :: _) =>
          if bool_decide (DesiredImageState (bn_spec base) = DesiredImageState (bn_spec new) →
                          DesiredImageState (bn_spec got) = DesiredImageState (bn_spec cur))
          then Some (push (bn_name base) got v, ds) else None
      | _, _ => None
      end
  | CreateBootcNode _ => λ _, None
  | StartDrain n _ _ => λ _, Some (v, {[n]} ∪ ds)
  | PollDrain n => λ x,
      match x with
      | None => Some (v, ds)
      | Some _ => if bool_decide (n ∈ ds) then Some (v, ds ∖ {[n]}) else None
      end
  | _ => λ _, Some (v, ds)
  end x.

Lemma applyCtl_ok v ds e v' ds' :
  honest e → applyCtl v ds e = Some (v', ds') → ctl_effect v ds e v' ds'.
Proof.
  destruct e as [r x]. destruct r; simpl; intros Hh; try (by intros [= <- <-]); try done.
  - destruct x as [got|]; [|done]. destruct (v !! bn_name base) as [[|cur old]|] eqn:Ev; try done.
    case_bool_decide as Hs; [|done]. intros [= <- <-]. split; [done|]. left. exists got.
    split_and!; [|by left|done]. exists cur, old. split_and!; [done|by apply Hh|done].
  - destruct x; [|by intros [= <- <-]]. case_bool_decide; [|done]. by intros [= <- <-].
Qed.

Fixpoint applyAll (v : versions) (ds : gset string) (t : history) : option (versions * gset string) :=
  match t with
  | [] => Some (v, ds)
  | e :: t => applyCtl v ds e ≫= λ vd, applyAll vd.1 vd.2 t
  end.

Lemma replay_ctl name p t a h y v ds :
  runs p t a → reachable y → sy_ctl y = CtlPass name h p → honest_history t →
  applyAll (sy_versions y) (sy_drains y) t = Some (v, ds) →
  reachable (mkSystem (sy_log y ++ (CtlEv <$> t)) v ds (CtlIdle a.1) (sy_node y)).
Proof.
  intros Hr. revert h y. induction Hr as [[dr res]|r k x t a _ IH]; intros h y Hy Hc Hh Ha; cbn [applyAll] in Ha.
  - injection Ha as <- <-. rewrite app_nil_r. eapply reach_step; [exact Hy|]. by apply (CtlDone y name h dr res).
  - destruct (applyCtl (sy_versions y) (sy_drains y) (Ev r x)) as [[v1 d1]|] eqn:E; [|done].
    apply Forall_cons in Hh as [Hx Hh]. apply (applyCtl_ok _ _ _ _ _ Hx) in E.
    pose proof (CtlAsk y name h r k x v1 d1 Hc Hx E) as Hs.
    specialize (IH _ _ (reach_step _ _ Hy Hs) eq_refl Hh Ha). simpl in IH. by rewrite <- app_assoc in IH.
Qed.

(** A pass against the simulated cluster, replayed. *)
Lemma replay_reconcile name w y drains v ds :
  reachable y → sy_ctl y = CtlIdle drains →
  applyAll (sy_versions y) (sy_drains y) (ReconcileWitness.reconcile name drains w).1.2 = Some (v, ds) →
  reachable (mkSystem (sy_log y ++ (CtlEv <$> (ReconcileWitness.reconcile name drains w).1.2)) v ds
    (CtlIdle (ReconcileWitness.reconcile name drains w).2.1) (sy_node y)).
Proof.
  intros Hy Hc Ha. pose proof (reach_step _ _ Hy (CtlStart y name drains Hc)) as Hy'.
  refine (replay_ctl name _ _ _ [] _ v ds (run_runs sim _ w) Hy' eq_refl _ Ha).
  apply quiet_honest, run_quiet.
Qed.

(** The same for a daemon. *)
Definition applyNode (v : versions) (e : ev dresp) : option versions :=
  let '(Ev r x) := e in
  match r return dresp r → option versions with
  | DGetBootcNode n => λ x,
      match x with
      | Ok b => if bool_decide (b ∈ default [] (v !! n)) then Some v else None
      | Err _ => Some v
      end
  | DPatchStatus base _ => λ x,
      match x, v !! bn_name base with
      | Ok got, Some (cur :: _) =>
          if bool_decide (bn_spec got = bn_spec cur) then Some (push (bn_name base) got v) else None
      | _, _ => None
      end
  | _ => λ _, Some v
  end x.

Lemma applyNode_ok v e v' : applyNode v e = Some v' → node_effect v e v'.
Proof.
  destruct e as [r x]. destruct r; simpl; try (by intros [= <-]).
  - destruct x as [b|]; [|intros [= <-]; by split]. case_bool_decide as Hb; [|done]. intros [= <-].
    split; [done|]. intros b' [= <-]. destruct (v !! name) as [old|]; [by exists old|by apply elem_of_nil in Hb].
  - destruct x as [got|]; [|done]. destruct (v !! bn_name base) as [[|cur old]|] eqn:Ev; try done.
    case_bool_decide; [|done]. intros [= <-]. left. exists cur, old, got. split_and!; [done|done|by left|done].
Qed.

Fixpoint applyNodes (v : versions) (t : dhistory) : option versions :=
  match t with
  | [] => Some v
  | e :: t => applyNode v e ≫= λ v', applyNodes v' t
  end.

Lemma replay_node n p t a h y v :
  runs p t a → reachable y → sy_node y n = NodePass h p → applyNodes (sy_versions y) t = Some v →
  ∃ y', reachable y' ∧ sy_log y' = sy_log y ++ (NodeEv n <$> t).
Proof.
  intros Hr. revert h y. induction Hr as [[s res]|r k x t a _ IH]; intros h y Hy Hn Ha; cbn [applyNodes] in Ha.
  - exists y. split; [done|]. simpl. by rewrite app_nil_r.
  - destruct (applyNode (sy_versions y) (Ev r x)) as [v1|] eqn:E; [|done]. apply applyNode_ok in E.
    pose proof (NodeAsk y n h r k x v1 Hn E) as Hs.
    destruct (IH (h ++ [Ev r x]) _ (reach_step _ _ Hy Hs)) as (y' & Hy' & Hl); [|exact Ha|].
    { simpl. by rewrite decide_True. }
    exists y'. split; [done|]. rewrite Hl. simpl. by rewrite <- app_assoc.
Qed.

Lemma replay_dpass n b st y v :
  reachable y → sy_node y n = NodeIdle_ false → applyNodes (sy_versions y) (ClusterWitness.dpass n b st).1.2 = Some v →
  ∃ y', reachable y' ∧ sy_log y' = sy_log y ++ (NodeEv n <$> (ClusterWitness.dpass n b st).1.2).
Proof.
  intros Hy Hn Ha. pose proof (reach_step _ _ Hy (NodeStart y n false b n Hn)) as Hy'.
  refine (replay_node n _ _ _ [] _ v (run_runs DaemonWitness.dsim _ _) Hy' _ Ha). simpl. by rewrite decide_True.
Qed.

(** ** A node that is drained, approved and rebooted *)

Definition bn0 : BootcNode := Samples.stagedNode "w1" None.
Definition world0 : World :=
  mkWorld 0 {["workers" := Samples.pool None]} {["w1" := Samples.node "w1" None]} {["w1" := bn0]} ∅ ∅ ∅ ∅.
Definition system0 : System := mkSystem [] {["w1" := [bn0]]} ∅ (CtlIdle ∅) (λ _, NodeIdle_ false).

(** The first pass slots the node and starts its drain, the second collects the
    drain and approves the node, and the daemon reboots the host. *)
Definition pass1 := ReconcileWitness.reconcile "workers" ∅ world0.
Definition pass2 := ReconcileWitness.reconcile "workers" pass1.2.1 (ReconcileWitness.drained "w1" pass1.1.1).
Definition approvedNode : BootcNode := default bn0 (w_bns pass2.1.1 !! "w1").
Definition pass3 := ClusterWitness.dpass "w1" approvedNode DaemonWitness.stagedB.

Definition logged : glog :=
  (CtlEv <$> pass1.1.2) ++ (CtlEv <$> pass2.1.2) ++ (NodeEv "w1" <$> pass3.1.2).

Definition after1 := applyAll {["w1" := [bn0]]} ∅ pass1.1.2.
Definition after2 := after1 ≫= λ vd, applyAll vd.1 vd.2 pass2.1.2.
Definition after3 := after2 ≫= λ vd, applyNodes vd.1 pass3.1.2.

Lemma system0_initial : initial system0.
Proof.
  split; try done. simpl. intros n l b [<- <-]%lookup_singleton_Some ->%list_elem_of_singleton.
  by vm_compute.
Qed.

Lemma logged_reachable : ∃ y, reachable y ∧ sy_log y = logged.
Proof.
  destruct after1 as [[v1 d1]|] eqn:E1; [|by vm_compute in E1].
  destruct after2 as [[v2 d2]|] eqn:E2; [|by vm_compute in E2].
  destruct after3 as [v3|] eqn:E3; [|by vm_compute in E3].
  unfold after3 in E3. rewrite E2 in E3. unfold after2 in E2. rewrite E1 in E2.
  pose proof (replay_reconcile "workers" world0 system0 ∅ v1 d1 (reach_init _ system0_initial) eq_refl E1) as H1.
  pose proof (replay_reconcile "workers" (ReconcileWitness.drained "w1" pass1.1.1) _ pass1.2.1 v2 d2 H1 eq_refl E2) as H2.
  destruct (replay_dpass "w1" approvedNode DaemonWitness.stagedB _ v3 H2 eq_refl E3) as (y & Hy & Hl).
  exists y. split; [exact Hy|]. rewrite Hl. unfold logged. by rewrite (assoc_L (++)).
Qed.

(** The last event is the reboot. *)
Lemma reboot_only_drained_witness :
  ∃ l1 e, logged = l1 ++ [NodeEv "w1" e] ∧ is_reboot (ev_req e) = true ∧
    (∃ a pool t x b c base new z d,
       l1 = a ++ CtlEv (Ev (StartDrain "w1" pool t) x) :: b ++
            CtlEv (Ev (PollDrain "w1") (Some None)) :: c ++
            CtlEv (Ev (PatchBootcNode base new) z) :: d ∧
       bn_name base = "w1" ∧ approves base new) ∧
    rebootDueIn l1 "w1".
Proof.
  destruct logged_reachable as (y & Hy & Hl).
  assert (logged = take (length logged - 1) logged ++ [NodeEv "w1" (Ev DReboot (Ok tt))]) as Hlog
    by (vm_compute; reflexivity).
  exists (take (length logged - 1) logged), (Ev DReboot (Ok tt)). split; [exact Hlog|]. split; [done|].
  apply (reboot_only_drained y _ "w1" (Ev DReboot (Ok tt)) [] Hy); [by rewrite Hl|done].
Defined.
End SystemWitness.
