(* ===== verification/Memory.v ===== *)
(** * Memory: Go objects that point to each other

    The rest of the development treats API objects as values.  In the program
    they are structs in memory that point to other structs, and two of them may
    share parts; the deep copies of [DeepCopy] are what makes treating them as
    values right.  This file has the memory: typed pointers and slices into a heap
    of cells, the value a struct stands for in a heap with the locations it is
    read from, and what it means to copy a struct deeply. *)

From S2P Require Import Prelude.

(** A pointer to a struct of type [A], [None] is nil.  A slice: nil, or a window of
    [len] elements from [off] on into a backing array. *)
Record ptr (A : Type) : Set := Ptr { addr : option positive }.
Arguments Ptr {A} _.
Arguments addr {A} _.

Inductive slice (A : Type) : Set :=
| SNil
| SHdr (arr : positive) (off len cap : nat).
Arguments SNil {A}.
Arguments SHdr {A} _ _ _ _.

Section Memory.
Context {cell : Type}.
Abbreviation heap := (gmap positive cell).
Implicit Types (h : heap) (l : positive) (F : list positive).

(** ** Computing in a heap *)

(** Code that reads and allocates; [None]: an invalid memory access. *)
Definition M (A : Type) : Type := heap → option (A * heap).
#[export] Instance M_ret : MRet M := λ A a h, Some (a, h).
#[export] Instance M_bind : MBind M := λ A B k m h, '(a, h') ← m h; k a h'.

(** The cells that hold an [A]. *)
Class Cell (A : Type) := {
  toCell : A → cell;
  ofCell : cell → option A;
  of_to a : ofCell (toCell a) = Some a
}.

Definition load {A} `{Cell A} (l : positive) : M A := λ h, a ← h !! l ≫= ofCell; Some (a, h).

(** [new], with the contents the code goes on to store there. *)
Definition alloc {A} `{Cell A} (a : A) : M positive := λ h,
  let l := fresh (dom h) in Some (l, <[l := toCell a]> h).
Definition store {A} `{Cell A} (l : positive) (a : A) : M unit := λ h, Some (tt, <[l := toCell a]> h).

(** The two patterns of the generated code, around a method [into] that copies the
    fields of a struct.  For a pointer:
<<
    if in.X != nil { *out = new(T); ( *in).DeepCopyInto( *out) }
>>
    and for a slice:
<<
    if in.X != nil { *out = make([]T, len( *in)); for i := range *in { ... } }
>>
    The location is allocated when its contents are complete; nothing observes the
    order of allocations. *)
Definition copyPtr {A} `{Cell A} (into : A → M A) (p : ptr A) : M (ptr A) :=
  match addr p with
  | None => mret (Ptr None)
  | Some l => a ← load l; out ← into a; l' ← alloc out; mret (Ptr (Some l'))
  end.

Definition copySlice {A} `{Cell (list A)} (into : A → M A) (s : slice A) : M (slice A) :=
  match s with
  | SNil => mret SNil
  | SHdr l off len _ =>
      arr ← load l;
      out ← mapM into (take len (drop off arr));
      l' ← alloc out; mret (SHdr l' 0 len len)
  end.

(** The pattern for a library type that copies itself:
<<
    if in.X != nil { *out = ( *in).DeepCopy() }
>> *)
Definition unlessNil {A} (copy : ptr A → M (ptr A)) (p : ptr A) : M (ptr A) :=
  match addr p with
  | None => mret p
  | Some _ => copy p
  end.

(** ** The value of a struct *)

(** Reading a value, with the locations it was read from. *)
Definition rd (V : Type) : Type := heap → option (V * list positive).
#[export] Instance rd_ret : MRet rd := λ V v _, Some (v, []).
#[export] Instance rd_bind : MBind rd := λ V W k r h,
  '(v, F) ← r h; '(w, G) ← k v h; Some (w, F ++ G).

Definition peek {A} `{Cell A} (l : positive) : rd A := λ h, a ← h !! l ≫= ofCell; Some (a, [l]).
Definition invalid {V} : rd V := λ _, None.

(** The values of type [V] that structs of type [A] stand for. *)
Class Reads (A V : Type) := read : A → rd V.
#[global] Hint Mode Reads ! - : typeclass_instances.

#[export] Instance read_ptr {A V} `{Cell A} `{Reads A V} : Reads (ptr A) (option V) := λ p,
  match addr p with
  | None => mret None
  | Some l => a ← peek l; v ← read a; mret (Some v)
  end.

#[export] Instance read_list {A V} `{Reads A V} : Reads (list A) (list V) := λ xs, mapM read xs.

#[export] Instance read_slice {A V} `{Cell (list A)} `{Reads A V} : Reads (slice A) (list V) := λ s,
  match s with
  | SNil => mret []
  | SHdr l off len _ =>
      arr ← peek l;
      if bool_decide (off + len ≤ length arr)%nat then read (take len (drop off arr)) else invalid
  end.

(** A value depends on the locations it was read from, and these are allocated. *)
Definition framed {V} (r : rd V) : Prop := ∀ h v F, r h = Some (v, F) →
  (∀ l, l ∈ F → is_Some (h !! l)) ∧ ∀ h', (∀ l, l ∈ F → h' !! l = h !! l) → r h' = Some (v, F).

Class Framed A {V} `{Reads A V} : Prop := read_framed (a : A) : framed (read a).

Lemma rd_bind_Some {V W} (r : rd V) (k : V → rd W) h w G :
  (r ≫= k) h = Some (w, G) ↔ ∃ v F1 F2, r h = Some (v, F1) ∧ k v h = Some (w, F2) ∧ G = F1 ++ F2.
Proof.
  unfold mbind, rd_bind. destruct (r h) as [[v F1]|]; simpl; [|naive_solver].
  destruct (k v h) as [[w' F2]|] eqn:E; simpl; naive_solver.
Qed.

Lemma rd_ret_Some {V} (v w : V) h G : (mret v : rd V) h = Some (w, G) ↔ v = w ∧ G = [].
Proof. unfold mret, rd_ret. naive_solver. Qed.

Lemma framed_ret {V} (v : V) : framed (mret v).
Proof. intros h w F [-> ->]%rd_ret_Some. split; [by intros l Hl%elem_of_nil|done]. Qed.

Lemma framed_bind {V W} (r : rd V) (k : V → rd W) : framed r → (∀ v, framed (k v)) → framed (r ≫= k).
Proof.
  intros Hr Hk h w G (v & F1 & F2 & H1 & H2 & ->)%rd_bind_Some.
  destruct (Hr _ _ _ H1) as [D1 M1]. destruct (Hk _ _ _ _ H2) as [D2 M2]. split.
  - intros l [?|?]%elem_of_app; auto.
  - intros h' Hh. apply rd_bind_Some. exists v, F1, F2. split_and!; [apply M1|apply M2|done]; intros l Hl; apply Hh; set_solver.
Qed.

Lemma framed_peek {A} `{Cell A} l : framed (peek l).
Proof.
  intros h a F. unfold peek. destruct (h !! l) as [c|] eqn:El; simpl; [|done].
  destruct (ofCell c) as [a'|] eqn:E; simpl; [|done]. intros [= <- <-]. split.
  - intros l' ->%list_elem_of_singleton. eauto.
  - intros h' Hh. rewrite Hh by set_solver. rewrite El. simpl. by rewrite E.
Qed.

Lemma framed_invalid {V} : framed (invalid (V := V)).
Proof. done. Qed.

#[local] Hint Resolve framed_ret framed_bind framed_peek framed_invalid read_framed : bootc.

#[export] Instance framed_list {A V} `{Reads A V} `{!Framed A} : Framed (list A).
Proof. intros xs. unfold read, read_list. induction xs; simpl; eauto 6 with bootc. Qed.

#[export] Instance framed_ptr {A V} `{Cell A} `{Reads A V} `{!Framed A} : Framed (ptr A).
Proof. intros [[l|]]; unfold read, read_ptr; simpl; eauto 6 with bootc. Qed.

#[export] Instance framed_slice {A V} `{Cell (list A)} `{Reads A V} `{!Framed A} : Framed (slice A).
Proof.
  intros [|l off len cap]; unfold read at 1, read_slice; [apply framed_ret|].
  apply framed_bind; [apply framed_peek|]. intros arr. case_bool_decide; [apply read_framed|apply framed_invalid].
Qed.

(** ** Copying deeply *)

(** The heap grew by fresh locations, [F] among them. *)
Definition grown h h' F : Prop :=
  h ⊆ h' ∧ NoDup F ∧ ∀ l, l ∈ F → h !! l = None ∧ is_Some (h' !! l).

Lemma grown_refl h : grown h h [].
Proof. split_and!; [done|constructor|by intros l Hl%elem_of_nil]. Qed.

Lemma grown_trans h0 h1 h2 F G : grown h0 h1 F → grown h1 h2 G → grown h0 h2 (F ++ G).
Proof.
  intros (S1 & N1 & D1) (S2 & N2 & D2). split_and!.
  - by etrans.
  - apply NoDup_app. split_and!; [done| |done]. intros l H1 H2.
    destruct (D1 l H1) as [_ [c Hc]]. destruct (D2 l H2). congruence.
  - intros l [Hl|Hl]%elem_of_app.
    + destruct (D1 l Hl) as [? [c Hc]]. split; [done|]. exists c. by apply (lookup_weaken _ _ _ _ Hc).
    + destruct (D2 l Hl) as [Hn ?]. split; [|done]. by apply (lookup_weaken_None _ _ _ Hn).
Qed.

Lemma grown_perm h h' F G : F ≡ₚ G → grown h h' F → grown h h' G.
Proof.
  intros Hp (? & ? & Hd). split_and!; [done|by rewrite <- Hp|]. intros l Hl. apply Hd. by rewrite Hp.
Qed.

Lemma grown_sublist h h' F G : F `sublist_of` G → grown h h' G → grown h h' F.
Proof.
  intros Hs (? & Hn & Hd). split_and!; [done|by eapply sublist_NoDup|]. intros l Hl. apply Hd. by eapply elem_of_sublist.
Qed.

Lemma read_mono {A V} `{Reads A V} `{!Framed A} (a : A) h h' v F :
  h ⊆ h' → read a h = Some (v, F) → read a h' = Some (v, F).
Proof.
  intros Hs Hr. destruct (read_framed a _ _ _ Hr) as [Hd Hf]. apply Hf. intros l Hl.
  destruct (Hd l Hl) as [c Hc]. rewrite Hc. by apply (lookup_weaken _ _ _ _ Hc).
Qed.

(** The code after a step sees the heap the step left. *)
Definition runsTo {A} (m : M A) h (Φ : A → heap → Prop) : Prop := ∃ a h', m h = Some (a, h') ∧ Φ a h'.

Lemma runsTo_ret {A} (a : A) h Φ : Φ a h → runsTo (mret a) h Φ.
Proof. by exists a, h. Qed.

Lemma runsTo_load {A B} `{Cell A} l (a : A) (k : A → M B) h0 h Φ :
  h0 ⊆ h → (h0 !! l ≫= ofCell) = Some a → runsTo (k a) h Φ → runsTo (load l ≫= k) h Φ.
Proof.
  intros Hs Hl (b & h' & Hk & HΦ). exists b, h'. split; [|done]. unfold mbind, M_bind, load.
  destruct (h0 !! l) as [c|] eqn:E; [|done]. rewrite (lookup_weaken _ _ _ _ E Hs). simpl in *. by rewrite Hl.
Qed.

Lemma runsTo_alloc {A B} `{Cell A} (a : A) (k : positive → M B) h0 h F Φ :
  grown h0 h F →
  (∀ l h', grown h0 h' (F ++ [l]) → h ⊆ h' → peek l h' = Some (a, [l]) → l ∉ F → runsTo (k l) h' Φ) →
  runsTo (alloc a ≫= k) h Φ.
Proof.
  intros Hg Hk. unfold runsTo, mbind, M_bind, alloc. simpl. set (l := fresh (dom h)).
  assert (h !! l = None) as Hl by (apply not_elem_of_dom, is_fresh).
  apply (Hk l (<[l:=toCell a]> h)).
  - eapply grown_trans; [exact Hg|]. split_and!; [by apply insert_subseteq|by apply NoDup_singleton|].
    intros l' ->%list_elem_of_singleton. split; [done|]. rewrite lookup_insert_eq. eauto.
  - by apply insert_subseteq.
  - unfold peek. rewrite lookup_insert_eq. simpl. by rewrite of_to.
  - intros Hin. destruct Hg as (_ & _ & Hd). destruct (Hd l Hin) as [_ [c Hc]]. congruence.
Qed.

(** [into] copies the struct [a] deeply: where it has a value, [into] succeeds, and
    the copy has the same value, read from locations that are all new and used
    once. *)
Definition copied {A V} `{Reads A V} (into : A → M A) (a : A) : Prop := ∀ h v F,
  read a h = Some (v, F) → runsTo (into a) h (λ a' h', ∃ F', grown h h' F' ∧ read a' h' = Some (v, F')).

Class Copies {A V} `{Reads A V} (into : A → M A) : Prop := copies a : copied into a.

(** A step that copies a part of the struct that was read in [h0]. *)
Lemma runsTo_copy {A V B} `{Reads A V} `{!Framed A} (into : A → M A) a (k : A → M B) h0 h F0 v F Φ :
  copied into a → read a h0 = Some (v, F) → grown h0 h F0 →
  (∀ a' h' F', grown h0 h' (F0 ++ F') → h ⊆ h' → read a' h' = Some (v, F') → runsTo (k a') h' Φ) →
  runsTo (into a ≫= k) h Φ.
Proof.
  intros Hc Hr Hg Hk. apply (read_mono _ _ h) in Hr; [|apply Hg].
  destruct (Hc _ _ _ Hr) as (a' & h' & Hi & F' & Hg' & Hr').
  destruct (Hk a' h' F') as (b & h'' & Hb & HΦ); [by eapply grown_trans|apply Hg'|done|].
  exists b, h''. split; [|done]. unfold mbind, M_bind. by rewrite Hi.
Qed.

(** ** Copies of the parts make a copy of the whole *)

Lemma read_length {A V} `{Reads A V} (xs : list A) h vs F : read xs h = Some (vs, F) → length vs = length xs.
Proof.
  revert vs F. induction xs as [|x xs IH]; intros vs F.
  - by intros [<- _]%rd_ret_Some.
  - intros (v & F1 & F2 & _ & Hr & _)%rd_bind_Some.
    apply rd_bind_Some in Hr as (vs' & F3 & F4 & Hxs & [<- _]%rd_ret_Some & _). simpl. f_equal. by eapply IH.
Qed.

#[export] Instance copies_list {A V} `{Reads A V} `{!Framed A} (into : A → M A) `{!Copies into} : Copies (mapM into).
Proof.
  intros xs. induction xs as [|x xs IH]; intros h vs F Hr.
  - injection Hr as <- <-. apply runsTo_ret. exists []. split; [apply grown_refl|done].
  - apply rd_bind_Some in Hr as (v & F1 & F2 & Hx & Hr & ->).
    apply rd_bind_Some in Hr as (vs' & F3 & F4 & Hxs & [<- ->]%rd_ret_Some & ->).
    eapply runsTo_copy; [apply copies|exact Hx|apply grown_refl|]. intros y h1 G1 Hg1 _ Hy.
    eapply runsTo_copy; [apply IH|exact Hxs|exact Hg1|]. intros ys h2 G2 Hg2 Hs2 Hys.
    apply runsTo_ret. exists (G1 ++ G2). split; [exact Hg2|].
    apply rd_bind_Some. exists v, G1, G2. split_and!; [by apply (read_mono _ _ _ _ _ Hs2)| |done].
    apply rd_bind_Some. exists vs', G2, []. split_and!; [done|by apply rd_ret_Some|by rewrite app_nil_r].
Qed.

Lemma peek_load {A} `{Cell A} l (a : A) h F : peek l h = Some (a, F) → (h !! l ≫= ofCell) = Some a ∧ F = [l].
Proof. unfold peek. destruct (h !! l ≫= ofCell); simpl; naive_solver. Qed.

#[export] Instance copies_ptr {A V} `{Cell A} `{Reads A V} `{!Framed A} (into : A → M A) `{!Copies into} : Copies (copyPtr into).
Proof.
  intros [[l|]] h v F Hr; unfold copyPtr; simpl in *; unfold read, read_ptr in Hr; simpl in Hr.
  - apply rd_bind_Some in Hr as (a & F1 & F2 & [Hl ->]%peek_load & Hr & ->).
    apply rd_bind_Some in Hr as (w & F3 & F4 & Ha & [<- ->]%rd_ret_Some & ->).
    eapply runsTo_load; [reflexivity|exact Hl|]. eapply runsTo_copy; [apply copies|exact Ha|apply grown_refl|].
    intros a' h1 G1 Hg1 _ Ha'. eapply runsTo_alloc; [exact Hg1|]. intros l' h2 Hg2 Hs2 Hl' _.
    apply runsTo_ret. exists ([l'] ++ G1). split; [by eapply grown_perm; [apply Permutation_app_comm|]|].
    apply rd_bind_Some. exists a', [l'], G1. split_and!; [done| |done].
    apply rd_bind_Some. exists w, G1, []. split_and!; [by apply (read_mono _ _ _ _ _ Hs2)|by apply rd_ret_Some|by rewrite app_nil_r].
  - injection Hr as <- <-. apply runsTo_ret. exists []. split; [apply grown_refl|done].
Qed.

#[export] Instance copies_unlessNil {A V} `{Cell A} `{Reads A V} (copy : ptr A → M (ptr A)) `{!Copies copy} : Copies (unlessNil copy).
Proof.
  intros [[l|]] h v F Hr; [exact (copies (into := copy) (Ptr (Some l)) h v F Hr)|].
  apply runsTo_ret. exists []. split; [apply grown_refl|]. by injection Hr as <- <-.
Qed.

#[export] Instance copies_slice {A V} `{Cell (list A)} `{Reads A V} `{!Framed A} (into : A → M A) `{!Copies into} : Copies (copySlice into).
Proof.
  intros [|l off len cap] h vs F Hr; unfold copySlice; unfold read, read_slice in Hr.
  - injection Hr as <- <-. apply runsTo_ret. exists []. split; [apply grown_refl|done].
  - apply rd_bind_Some in Hr as (arr & F1 & F2 & [Hl ->]%peek_load & Hr & ->). case_bool_decide as Hlen; [|done].
    eapply runsTo_load; [reflexivity|exact Hl|]. eapply runsTo_copy; [by apply copies_list|exact Hr|apply grown_refl|].
    intros ys h1 G1 Hg1 _ Hys. eapply runsTo_alloc; [exact Hg1|]. intros l' h2 Hg2 Hs2 Hl' _.
    assert (length ys = len) as Hys_len.
    { apply read_length in Hr, Hys. rewrite <- Hys, Hr, length_take, length_drop. lia. }
    apply runsTo_ret. exists ([l'] ++ G1). split; [by eapply grown_perm; [apply Permutation_app_comm|]|].
    apply rd_bind_Some. exists ys, [l'], G1. split_and!; [done| |done].
    rewrite bool_decide_true by (simpl; lia). rewrite drop_0, take_ge by lia. by apply (read_mono _ _ _ _ _ Hs2).
Qed.

(** A struct without pointers is copied by assignment. *)
Lemma copies_plain {A V} `{Reads A V} (f : A → V) : (∀ a, read a = mret (f a)) → Copies (A := A) mret.
Proof.
  intros Hp a h v F Hr. apply runsTo_ret. exists []. split; [apply grown_refl|].
  rewrite Hp in *. by apply rd_ret_Some in Hr as [<- ->].
Qed.

(** ** Independence *)

(** What a method [copy] promises: nil for nil; else a pointer to a copy with the
    same value, all of whose locations are new and used once, so that writes to the
    copy leave the original as it is, and writes to the original the copy. *)
Record deep_copy {A V} `{Cell A} `{Reads A V} (copy : ptr A → M (ptr A)) : Prop := {
  copy_nil h : copy (Ptr None) h = Some (Ptr None, h);
  copy_deep h l v F : read (Ptr (Some l) : ptr A) h = Some (v, F) →
    ∃ l' h' F', copy (Ptr (Some l)) h = Some (Ptr (Some l'), h') ∧
      read (Ptr (Some l') : ptr A) h' = Some (v, F') ∧
      h ⊆ h' ∧ NoDup F' ∧ (∀ x, x ∈ F' → h !! x = None) ∧
      (∀ h'', (∀ x, x ∉ F' → h'' !! x = h' !! x) → read (Ptr (Some l) : ptr A) h'' = Some (v, F)) ∧
      (∀ h'', (∀ x, x ∉ F → h'' !! x = h' !! x) → read (Ptr (Some l') : ptr A) h'' = Some (v, F'))
}.

Lemma copies_deep {A V} `{Cell A} `{Reads A V} `{!Framed A} (copy : ptr A → M (ptr A)) :
  (∀ h, copy (Ptr None) h = Some (Ptr None, h)) → Copies copy → deep_copy copy.
Proof.
  intros Hnil Hc. split; [exact Hnil|]. intros h l v F Hr.
  destruct (Hc _ _ _ _ Hr) as ([[l'|]] & h' & Hi & F' & (Hs & Hn & Hd) & Hr').
  - pose proof (read_mono _ _ _ _ _ Hs Hr) as Hr1.
    destruct (read_framed _ _ _ _ Hr1) as [_ Hf]. destruct (read_framed _ _ _ _ Hr') as [_ Hf'].
    destruct (read_framed _ _ _ _ Hr) as [Ha _].
    assert (∀ x, x ∈ F → x ∉ F') as Hdisj.
    { intros x H1 H2. destruct (Ha x H1) as [c Hx]. destruct (Hd x H2). congruence. }
    exists l', h', F'. split_and!; [done|done|done|done|by intros x [? _]%Hd| |]; intros h'' Hh; [apply Hf|apply Hf'];
      intros x Hx; apply Hh; [by apply Hdisj|]. intros ?. by eapply Hdisj.
  - injection Hr' as <- _. unfold read, read_ptr in Hr. simpl in Hr.
    apply rd_bind_Some in Hr as (a & F1 & F2 & _ & Hr & _).
    by apply rd_bind_Some in Hr as (? & ? & ? & _ & Hr & _).
Qed.
End Memory.

#[export] Hint Resolve framed_ret framed_bind framed_peek framed_invalid read_framed : bootc.

(** ** Automation *)

(** A struct is framed since its fields are. *)
Ltac framed_struct := intros ?; unfold read;
  repeat (apply framed_bind; [apply read_framed|intros ?]); apply framed_ret.

(** One after the other, the fields with pointers are read and copied; the heap
    grows by the locations of the copies; then the copy is read. *)
Ltac read_fields Hr :=
  first [apply rd_ret_Some in Hr as [<- ->]
        |let H := fresh "Hfield" in
         apply rd_bind_Some in Hr as (? & ? & ? & H & Hr & ->); read_fields Hr].
Ltac copy_field Hg :=
  let Hs := fresh "Hs" in let Hr := fresh "Hr" in
  eapply runsTo_copy; [apply copies| |exact Hg|]; [eassumption|]; clear Hg; intros ? ? ? Hg Hs Hr;
  repeat match goal with
  | H : read ?a ?h1 = Some _, Hs' : ?h1 ⊆ ?h2 |- _ =>
      lazymatch goal with _ : read a h2 = Some _ |- _ => fail | _ => pose proof (read_mono a h1 h2 _ _ Hs' H) end
  end.
Ltac reread := first [by apply rd_ret_Some
  |apply rd_bind_Some; do 3 eexists; split_and!; [eassumption|reread|reflexivity]].
Ltac copied_struct Hg :=
  apply runsTo_ret; eexists; apply and_comm; split; [reread|]; rewrite ?app_nil_r, <- ?app_assoc in *; exact Hg.

Tactic Notation "copy_struct" reference(into) :=
  let Hr := fresh "Hr" in let Hg := fresh "Hg" in
  intros ? ? ? ? Hr; read_fields Hr; lazymatch goal with |- runsTo _ ?h _ => pose proof (grown_refl h) as Hg end; unfold into; cbv zeta;
  repeat copy_field Hg; copied_struct Hg.

