(* ===== verification/DeepCopy.v ===== *)
(** * DeepCopy: the generated deep copies

    [api/v1alpha1/zz_generated.deepcopy.go] and the copies of
    [internal/karpenter/nodeclaim.go]: the API types as structs in memory, their
    [DeepCopyInto], [DeepCopy] and [DeepCopyObject] methods.

    The library types they embed ([ObjectMeta], [LabelSelector], [Condition],
    [Time], [Unstructured]) and their own deep copies are parameters; the laws say
    that those are deep copies. *)

From S2P Require Import Prelude Types Karpenter Memory.

(** ** The structs in memory *)

(** The layout of the library's structs, and of the cells they point to. *)
Class Machinery : Type := {
  MTime : Set; MObjectMeta : Set; MListMeta : Set; MLabelSelector : Set; MCondition : Set;
  MUnstructured : Set; MCell : Set
}.

Record TypeMeta : Set := mkTypeMeta { tm_kind : string; tm_apiVersion : string }.
Record ListMeta : Set := mkListMeta { lm_resourceVersion : string; lm_continue : string; lm_remaining : option Z }.

Section DeepCopy.
Context {K : Machinery}.

Record mImageInfo : Set := mkMImageInfo {
  mi_Image : string;
  mi_ImageDigest : string;
  mi_Version : string;
  mi_Timestamp : ptr MTime;
  mi_Architecture : string;
  mi_SoftRebootCapable : bool;
  mi_Incompatible : bool
}.

Record mBootcNodeSpec : Set := mkMBootcNodeSpec {
  ms_DesiredImage : string;
  ms_DesiredImageState : string;
  ms_PullSecretRef : ptr PullSecretRef;
  ms_PullSecretHash : string;
  ms_RebootPolicy : string
}.

Record mBootcNodeStatus : Set := mkMBootcNodeStatus {
  ms_ObservedGeneration : Z;
  ms_Booted : ptr mImageInfo;
  ms_Staged : ptr mImageInfo;
  ms_Rollback : ptr mImageInfo;
  ms_Conditions : slice MCondition
}.

Record mBootcNode : Set := mkMBootcNode {
  mb_TypeMeta : TypeMeta;
  mb_ObjectMeta : MObjectMeta;
  mb_Spec : mBootcNodeSpec;
  mb_Status : mBootcNodeStatus
}.

Record mBootcNodeList : Set := mkMBootcNodeList {
  ml_TypeMeta : TypeMeta;
  ml_ListMeta : MListMeta;
  ml_Items : slice mBootcNode
}.

Record mImageSpec : Set := mkMImageSpec { mi_Ref : string }.

Record mRolloutSpec : Set := mkMRolloutSpec {
  mr_MaxUnavailable : ptr IntOrString;
  mr_Paused : bool;
  mr_DrainTimeoutSeconds : ptr Z;
  mr_RebootTimeoutSeconds : ptr Z
}.

Record mBootcNodePoolSpec : Set := mkMBootcNodePoolSpec {
  mp_NodeSelector : ptr MLabelSelector;
  mp_Image : mImageSpec;
  mp_Rollout : ptr mRolloutSpec;
  mp_Disruption : ptr DisruptionSpec;
  mp_PullSecretRef : ptr PullSecretRef
}.

Record mBootcNodePoolStatus : Set := mkMBootcNodePoolStatus {
  mp_ObservedGeneration : Z;
  mp_TargetDigest : string;
  mp_NextTagResolutionTime : ptr MTime;
  mp_DeployedDigest : string;
  mp_UpdateAvailable : bool;
  mp_NodeCount : Z;
  mp_UpdatedCount : Z;
  mp_UpdatingCount : Z;
  mp_DegradedCount : Z;
  mp_Conditions : slice MCondition
}.

Record mBootcNodePool : Set := mkMBootcNodePool {
  mp_TypeMeta : TypeMeta;
  mp_ObjectMeta : MObjectMeta;
  mp_Spec : mBootcNodePoolSpec;
  mp_Status : mBootcNodePoolStatus
}.

Record mBootcNodePoolList : Set := mkMBootcNodePoolList {
  mpl_TypeMeta : TypeMeta;
  mpl_ListMeta : MListMeta;
  mpl_Items : slice mBootcNodePool
}.

Record mNodeClaim : Set := mkMNodeClaim { mn_Unstructured : MUnstructured }.

(** What a location holds. *)
Inductive cell : Set :=
| CTime (t : MTime)
| CIntOrString (v : IntOrString)
| CInt32 (z : Z)
| CPullSecretRef (r : PullSecretRef)
| CDisruptionSpec (d : DisruptionSpec)
| CImageInfo (i : mImageInfo)
| CRolloutSpec (r : mRolloutSpec)
| CImageSpec (i : mImageSpec)
| CLabelSelector (s : MLabelSelector)
| CConditions (l : list MCondition)
| CBootcNodeSpec (s : mBootcNodeSpec)
| CBootcNodeStatus (s : mBootcNodeStatus)
| CBootcNode (b : mBootcNode)
| CBootcNodes (l : list mBootcNode)
| CBootcNodeList (l : mBootcNodeList)
| CBootcNodePoolSpec (s : mBootcNodePoolSpec)
| CBootcNodePoolStatus (s : mBootcNodePoolStatus)
| CBootcNodePool (p : mBootcNodePool)
| CBootcNodePools (l : list mBootcNodePool)
| CBootcNodePoolList (l : mBootcNodePoolList)
| CUnstructured (u : MUnstructured)
| CLibrary (c : MCell).

Abbreviation heap := (gmap positive cell).

#[local] Obligation Tactic := first [done|by intros []].

#[export] Program Instance cell_Time : Cell (cell := cell) MTime :=
  {| toCell := CTime; ofCell c := match c with CTime t => Some t | _ => None end |}.
#[export] Program Instance cell_IntOrString : Cell (cell := cell) IntOrString :=
  {| toCell := CIntOrString; ofCell c := match c with CIntOrString v => Some v | _ => None end |}.
#[export] Program Instance cell_Int32 : Cell (cell := cell) Z :=
  {| toCell := CInt32; ofCell c := match c with CInt32 z => Some z | _ => None end |}.
#[export] Program Instance cell_PullSecretRef : Cell (cell := cell) PullSecretRef :=
  {| toCell := CPullSecretRef; ofCell c := match c with CPullSecretRef r => Some r | _ => None end |}.
#[export] Program Instance cell_DisruptionSpec : Cell (cell := cell) DisruptionSpec :=
  {| toCell := CDisruptionSpec; ofCell c := match c with CDisruptionSpec d => Some d | _ => None end |}.
#[export] Program Instance cell_ImageInfo : Cell (cell := cell) mImageInfo :=
  {| toCell := CImageInfo; ofCell c := match c with CImageInfo i => Some i | _ => None end |}.
#[export] Program Instance cell_RolloutSpec : Cell (cell := cell) mRolloutSpec :=
  {| toCell := CRolloutSpec; ofCell c := match c with CRolloutSpec r => Some r | _ => None end |}.
#[export] Program Instance cell_ImageSpec : Cell (cell := cell) mImageSpec :=
  {| toCell := CImageSpec; ofCell c := match c with CImageSpec i => Some i | _ => None end |}.
#[export] Program Instance cell_LabelSelector : Cell (cell := cell) MLabelSelector :=
  {| toCell := CLabelSelector; ofCell c := match c with CLabelSelector s => Some s | _ => None end |}.
#[export] Program Instance cell_Conditions : Cell (cell := cell) (list MCondition) :=
  {| toCell := CConditions; ofCell c := match c with CConditions l => Some l | _ => None end |}.
#[export] Program Instance cell_BootcNodeSpec : Cell (cell := cell) mBootcNodeSpec :=
  {| toCell := CBootcNodeSpec; ofCell c := match c with CBootcNodeSpec s => Some s | _ => None end |}.
#[export] Program Instance cell_BootcNodeStatus : Cell (cell := cell) mBootcNodeStatus :=
  {| toCell := CBootcNodeStatus; ofCell c := match c with CBootcNodeStatus s => Some s | _ => None end |}.
#[export] Program Instance cell_BootcNode : Cell (cell := cell) mBootcNode :=
  {| toCell := CBootcNode; ofCell c := match c with CBootcNode b => Some b | _ => None end |}.
#[export] Program Instance cell_BootcNodes : Cell (cell := cell) (list mBootcNode) :=
  {| toCell := CBootcNodes; ofCell c := match c with CBootcNodes l => Some l | _ => None end |}.
#[export] Program Instance cell_BootcNodeList : Cell (cell := cell) mBootcNodeList :=
  {| toCell := CBootcNodeList; ofCell c := match c with CBootcNodeList l => Some l | _ => None end |}.
#[export] Program Instance cell_BootcNodePoolSpec : Cell (cell := cell) mBootcNodePoolSpec :=
  {| toCell := CBootcNodePoolSpec; ofCell c := match c with CBootcNodePoolSpec s => Some s | _ => None end |}.
#[export] Program Instance cell_BootcNodePoolStatus : Cell (cell := cell) mBootcNodePoolStatus :=
  {| toCell := CBootcNodePoolStatus; ofCell c := match c with CBootcNodePoolStatus s => Some s | _ => None end |}.
#[export] Program Instance cell_BootcNodePool : Cell (cell := cell) mBootcNodePool :=
  {| toCell := CBootcNodePool; ofCell c := match c with CBootcNodePool p => Some p | _ => None end |}.
#[export] Program Instance cell_BootcNodePools : Cell (cell := cell) (list mBootcNodePool) :=
  {| toCell := CBootcNodePools; ofCell c := match c with CBootcNodePools l => Some l | _ => None end |}.
#[export] Program Instance cell_BootcNodePoolList : Cell (cell := cell) mBootcNodePoolList :=
  {| toCell := CBootcNodePoolList; ofCell c := match c with CBootcNodePoolList l => Some l | _ => None end |}.
#[export] Program Instance cell_Unstructured : Cell (cell := cell) MUnstructured :=
  {| toCell := CUnstructured; ofCell c := match c with CUnstructured u => Some u | _ => None end |}.

(** The wrapper has the layout of the object it embeds. *)
#[export] Program Instance cell_NodeClaim : Cell (cell := cell) mNodeClaim :=
  {| toCell c := CUnstructured (mn_Unstructured c);
     ofCell c := match c with CUnstructured u => Some (mkMNodeClaim u) | _ => None end |}.

Abbreviation M := (M (cell := cell)).
Abbreviation Reads := (Reads (cell := cell)).

(** ** The library: the values of its structs, and their deep copies *)

Class MachineryCopy : Type := {
  read_Time :: Reads MTime Z;
  read_ObjectMeta :: Reads MObjectMeta ObjectMeta;
  read_ListMeta :: Reads MListMeta ListMeta;
  read_LabelSelector :: Reads MLabelSelector LabelSelector;
  read_Condition :: Reads MCondition Condition;
  read_Unstructured :: Reads MUnstructured NodeClaim;
  Time_DeepCopy : ptr MTime → M (ptr MTime);
  ObjectMeta_DeepCopyInto : MObjectMeta → M MObjectMeta;
  ListMeta_DeepCopyInto : MListMeta → M MListMeta;
  LabelSelector_DeepCopyInto : MLabelSelector → M MLabelSelector;
  Condition_DeepCopyInto : MCondition → M MCondition;
  Unstructured_DeepCopy : ptr MUnstructured → M (ptr MUnstructured)
}.

Class MachineryLaws {X : MachineryCopy} : Prop := {
  framed_Time :: Framed MTime;
  framed_ObjectMeta :: Framed MObjectMeta;
  framed_ListMeta :: Framed MListMeta;
  framed_LabelSelector :: Framed MLabelSelector;
  framed_Condition :: Framed MCondition;
  framed_Unstructured :: Framed MUnstructured;
  copies_Time :: Copies Time_DeepCopy;
  copies_ObjectMeta :: Copies ObjectMeta_DeepCopyInto;
  copies_ListMeta :: Copies ListMeta_DeepCopyInto;
  copies_LabelSelector :: Copies LabelSelector_DeepCopyInto;
  copies_Condition :: Copies Condition_DeepCopyInto;
  copies_Unstructured :: Copies Unstructured_DeepCopy
}.

Context {X : MachineryCopy}.

(** ** The methods *)

(** [*out = *in], for structs without pointers. *)
Definition PullSecretRef_DeepCopyInto (in_ : PullSecretRef) : M PullSecretRef := mret in_.
Definition DisruptionSpec_DeepCopyInto (in_ : DisruptionSpec) : M DisruptionSpec := mret in_.
Definition ImageSpec_DeepCopyInto (in_ : mImageSpec) : M mImageSpec := mret in_.

Definition ImageInfo_DeepCopyInto (in_ : mImageInfo) : M mImageInfo :=
  let out := in_ in
  t ← unlessNil Time_DeepCopy (mi_Timestamp in_);
  mret (mkMImageInfo (mi_Image out) (mi_ImageDigest out) (mi_Version out) t (mi_Architecture out)
    (mi_SoftRebootCapable out) (mi_Incompatible out)).

Definition BootcNodeSpec_DeepCopyInto (in_ : mBootcNodeSpec) : M mBootcNodeSpec :=
  let out := in_ in
  r ← copyPtr mret (ms_PullSecretRef in_);
  mret (mkMBootcNodeSpec (ms_DesiredImage out) (ms_DesiredImageState out) r (ms_PullSecretHash out) (ms_RebootPolicy out)).

Definition BootcNodeStatus_DeepCopyInto (in_ : mBootcNodeStatus) : M mBootcNodeStatus :=
  let out := in_ in
  booted ← copyPtr ImageInfo_DeepCopyInto (ms_Booted in_);
  staged ← copyPtr ImageInfo_DeepCopyInto (ms_Staged in_);
  rollback ← copyPtr ImageInfo_DeepCopyInto (ms_Rollback in_);
  conditions ← copySlice Condition_DeepCopyInto (ms_Conditions in_);
  mret (mkMBootcNodeStatus (ms_ObservedGeneration out) booted staged rollback conditions).

Definition BootcNode_DeepCopyInto (in_ : mBootcNode) : M mBootcNode :=
  meta ← ObjectMeta_DeepCopyInto (mb_ObjectMeta in_);
  spec ← BootcNodeSpec_DeepCopyInto (mb_Spec in_);
  status ← BootcNodeStatus_DeepCopyInto (mb_Status in_);
  mret (mkMBootcNode (mb_TypeMeta in_) meta spec status).

Definition BootcNodeList_DeepCopyInto (in_ : mBootcNodeList) : M mBootcNodeList :=
  meta ← ListMeta_DeepCopyInto (ml_ListMeta in_);
  items ← copySlice BootcNode_DeepCopyInto (ml_Items in_);
  mret (mkMBootcNodeList (ml_TypeMeta in_) meta items).

Definition RolloutSpec_DeepCopyInto (in_ : mRolloutSpec) : M mRolloutSpec :=
  let out := in_ in
  maxUnavailable ← copyPtr mret (mr_MaxUnavailable in_);
  drainTimeout ← copyPtr mret (mr_DrainTimeoutSeconds in_);
  rebootTimeout ← copyPtr mret (mr_RebootTimeoutSeconds in_);
  mret (mkMRolloutSpec maxUnavailable (mr_Paused out) drainTimeout rebootTimeout).

Definition BootcNodePoolSpec_DeepCopyInto (in_ : mBootcNodePoolSpec) : M mBootcNodePoolSpec :=
  selector ← copyPtr LabelSelector_DeepCopyInto (mp_NodeSelector in_);
  rollout ← copyPtr RolloutSpec_DeepCopyInto (mp_Rollout in_);
  disruption ← copyPtr mret (mp_Disruption in_);
  pullSecretRef ← copyPtr mret (mp_PullSecretRef in_);
  mret (mkMBootcNodePoolSpec selector (mp_Image in_) rollout disruption pullSecretRef).

Definition BootcNodePoolStatus_DeepCopyInto (in_ : mBootcNodePoolStatus) : M mBootcNodePoolStatus :=
  let out := in_ in
  t ← unlessNil Time_DeepCopy (mp_NextTagResolutionTime in_);
  conditions ← copySlice Condition_DeepCopyInto (mp_Conditions in_);
  mret (mkMBootcNodePoolStatus (mp_ObservedGeneration out) (mp_TargetDigest out) t (mp_DeployedDigest out)
    (mp_UpdateAvailable out) (mp_NodeCount out) (mp_UpdatedCount out) (mp_UpdatingCount out) (mp_DegradedCount out)
    conditions).

Definition BootcNodePool_DeepCopyInto (in_ : mBootcNodePool) : M mBootcNodePool :=
  meta ← ObjectMeta_DeepCopyInto (mp_ObjectMeta in_);
  spec ← BootcNodePoolSpec_DeepCopyInto (mp_Spec in_);
  status ← BootcNodePoolStatus_DeepCopyInto (mp_Status in_);
  mret (mkMBootcNodePool (mp_TypeMeta in_) meta spec status).

Definition BootcNodePoolList_DeepCopyInto (in_ : mBootcNodePoolList) : M mBootcNodePoolList :=
  meta ← ListMeta_DeepCopyInto (mpl_ListMeta in_);
  items ← copySlice BootcNodePool_DeepCopyInto (mpl_Items in_);
  mret (mkMBootcNodePoolList (mpl_TypeMeta in_) meta items).

(** [DeepCopy]: nil for nil, else a new struct that [DeepCopyInto] fills. *)
Definition BootcNode_DeepCopy : ptr mBootcNode → M (ptr mBootcNode) := copyPtr BootcNode_DeepCopyInto.
Definition BootcNodeList_DeepCopy : ptr mBootcNodeList → M (ptr mBootcNodeList) := copyPtr BootcNodeList_DeepCopyInto.
Definition BootcNodePool_DeepCopy : ptr mBootcNodePool → M (ptr mBootcNodePool) := copyPtr BootcNodePool_DeepCopyInto.
Definition BootcNodePoolList_DeepCopy : ptr mBootcNodePoolList → M (ptr mBootcNodePoolList) :=
  copyPtr BootcNodePoolList_DeepCopyInto.
Definition BootcNodePoolSpec_DeepCopy : ptr mBootcNodePoolSpec → M (ptr mBootcNodePoolSpec) :=
  copyPtr BootcNodePoolSpec_DeepCopyInto.
Definition BootcNodePoolStatus_DeepCopy : ptr mBootcNodePoolStatus → M (ptr mBootcNodePoolStatus) :=
  copyPtr BootcNodePoolStatus_DeepCopyInto.
Definition BootcNodeSpec_DeepCopy : ptr mBootcNodeSpec → M (ptr mBootcNodeSpec) := copyPtr BootcNodeSpec_DeepCopyInto.
Definition BootcNodeStatus_DeepCopy : ptr mBootcNodeStatus → M (ptr mBootcNodeStatus) :=
  copyPtr BootcNodeStatus_DeepCopyInto.
Definition DisruptionSpec_DeepCopy : ptr DisruptionSpec → M (ptr DisruptionSpec) := copyPtr DisruptionSpec_DeepCopyInto.
Definition ImageInfo_DeepCopy : ptr mImageInfo → M (ptr mImageInfo) := copyPtr ImageInfo_DeepCopyInto.
Definition ImageSpec_DeepCopy : ptr mImageSpec → M (ptr mImageSpec) := copyPtr ImageSpec_DeepCopyInto.
Definition PullSecretRef_DeepCopy : ptr PullSecretRef → M (ptr PullSecretRef) := copyPtr PullSecretRef_DeepCopyInto.
Definition RolloutSpec_DeepCopy : ptr mRolloutSpec → M (ptr mRolloutSpec) := copyPtr RolloutSpec_DeepCopyInto.

(** [NodeClaim.UnstructuredObject]: the embedded struct is at the same address. *)
Definition UnstructuredObject (c : ptr mNodeClaim) : ptr MUnstructured :=
  match addr c with None => Ptr None | Some l => Ptr (Some l) end.

(** [NodeClaim.DeepCopy]. *)
Definition NodeClaim_DeepCopy (c : ptr mNodeClaim) : M (ptr mNodeClaim) :=
  match addr c with
  | None => mret (Ptr None)
  | Some _ =>
      u ← Unstructured_DeepCopy (UnstructuredObject c);
      match addr u with
      | None => λ _, None
      | Some l => obj ← load l; l' ← alloc (mkMNodeClaim obj); mret (Ptr (Some l'))
      end
  end.

(** A [runtime.Object]: the nil interface, or a pointer with its type. *)
Inductive Object : Set :=
| NilObject
| BootcNodeObject (p : ptr mBootcNode)
| BootcNodeListObject (p : ptr mBootcNodeList)
| BootcNodePoolObject (p : ptr mBootcNodePool)
| BootcNodePoolListObject (p : ptr mBootcNodePoolList)
| NodeClaimObject (p : ptr mNodeClaim).

Definition BootcNode_DeepCopyObject (in_ : ptr mBootcNode) : M Object :=
  c ← BootcNode_DeepCopy in_; mret (if bool_decide (addr c = None) then NilObject else BootcNodeObject c).
Definition BootcNodeList_DeepCopyObject (in_ : ptr mBootcNodeList) : M Object :=
  c ← BootcNodeList_DeepCopy in_; mret (if bool_decide (addr c = None) then NilObject else BootcNodeListObject c).
Definition BootcNodePool_DeepCopyObject (in_ : ptr mBootcNodePool) : M Object :=
  c ← BootcNodePool_DeepCopy in_; mret (if bool_decide (addr c = None) then NilObject else BootcNodePoolObject c).
Definition BootcNodePoolList_DeepCopyObject (in_ : ptr mBootcNodePoolList) : M Object :=
  c ← BootcNodePoolList_DeepCopy in_; mret (if bool_decide (addr c = None) then NilObject else BootcNodePoolListObject c).

(** [NodeClaim.DeepCopyObject] returns the pointer as it is. *)
Definition NodeClaim_DeepCopyObject (c : ptr mNodeClaim) : M Object :=
  c' ← NodeClaim_DeepCopy c; mret (NodeClaimObject c').

(** ** Registration (groupversion_info.go)

    A scheme knows kinds of group versions; [AddKnownTypes] takes the kind from the
    name of the Go type, [addToGroupVersion] stands for [metav1.AddToGroupVersion]. *)
Abbreviation scheme := (list ((string * string) * string)).

Definition SchemeGroupVersion : string * string := ("node.bootc.dev", "v1alpha1").

Definition goTypeName (o : Object) : string :=
  match o with
  | NilObject => ""
  | BootcNodeObject _ => "BootcNode"
  | BootcNodeListObject _ => "BootcNodeList"
  | BootcNodePoolObject _ => "BootcNodePool"
  | BootcNodePoolListObject _ => "BootcNodePoolList"
  | NodeClaimObject _ => "NodeClaim"
  end.

(** [&BootcNode{}, ...]: pointers to new structs, whatever their addresses. *)
Definition knownObjects (b bl p pl : positive) : list Object :=
  [BootcNodeObject (Ptr (Some b)); BootcNodeListObject (Ptr (Some bl));
   BootcNodePoolObject (Ptr (Some p)); BootcNodePoolListObject (Ptr (Some pl))].

(** [addKnownTypes]. *)
Definition addKnownTypes (addToGroupVersion : string * string → scheme → scheme) (objects : list Object) (sch : scheme) : scheme :=
  addToGroupVersion SchemeGroupVersion (sch ++ ((λ o, (SchemeGroupVersion, goTypeName o)) <$> objects)).

(** ** The values of the structs *)

#[export] Instance read_IntOrString : Reads IntOrString IntOrString := λ v, mret v.
#[export] Instance read_Int32 : Reads Z Z := λ z, mret z.
#[export] Instance read_PullSecretRef : Reads PullSecretRef PullSecretRef := λ r, mret r.
#[export] Instance read_DisruptionSpec : Reads DisruptionSpec DisruptionSpec := λ d, mret d.
#[export] Instance read_ImageSpec : Reads mImageSpec string := λ i, mret (mi_Ref i).

#[export] Instance read_ImageInfo : Reads mImageInfo ImageInfo := λ i,
  t ← read (mi_Timestamp i);
  mret (mkImageInfo (mi_Image i) (mi_ImageDigest i) (mi_Version i) t (mi_Architecture i)
    (mi_SoftRebootCapable i) (mi_Incompatible i)).

#[export] Instance read_BootcNodeSpec : Reads mBootcNodeSpec BootcNodeSpec := λ s,
  r ← read (ms_PullSecretRef s);
  mret (mkBootcNodeSpec (ms_DesiredImage s) (ms_DesiredImageState s) r (ms_PullSecretHash s) (ms_RebootPolicy s)).

#[export] Instance read_BootcNodeStatus : Reads mBootcNodeStatus BootcNodeStatus := λ s,
  booted ← read (ms_Booted s); staged ← read (ms_Staged s); rollback ← read (ms_Rollback s);
  conditions ← read (ms_Conditions s);
  mret (mkBootcNodeStatus (ms_ObservedGeneration s) booted staged rollback conditions).

#[export] Instance read_BootcNode : Reads mBootcNode (TypeMeta * BootcNode) := λ b,
  meta ← read (mb_ObjectMeta b); spec ← read (mb_Spec b); status ← read (mb_Status b);
  mret (mb_TypeMeta b, mkBootcNode meta spec status).

#[export] Instance read_BootcNodeList : Reads mBootcNodeList (TypeMeta * ListMeta * list (TypeMeta * BootcNode)) := λ l,
  meta ← read (ml_ListMeta l); items ← read (ml_Items l); mret (ml_TypeMeta l, meta, items).

#[export] Instance read_RolloutSpec : Reads mRolloutSpec RolloutSpec := λ r,
  maxUnavailable ← read (mr_MaxUnavailable r); drain ← read (mr_DrainTimeoutSeconds r);
  reboot ← read (mr_RebootTimeoutSeconds r);
  mret (mkRolloutSpec maxUnavailable (mr_Paused r) drain reboot).

#[export] Instance read_BootcNodePoolSpec : Reads mBootcNodePoolSpec BootcNodePoolSpec := λ s,
  selector ← read (mp_NodeSelector s); rollout ← read (mp_Rollout s); disruption ← read (mp_Disruption s);
  ref ← read (mp_PullSecretRef s);
  mret (mkBootcNodePoolSpec selector (mi_Ref (mp_Image s)) rollout disruption ref).

#[export] Instance read_BootcNodePoolStatus : Reads mBootcNodePoolStatus BootcNodePoolStatus := λ s,
  next ← read (mp_NextTagResolutionTime s); conditions ← read (mp_Conditions s);
  mret (mkBootcNodePoolStatus (mp_ObservedGeneration s) (mp_TargetDigest s) next (mp_DeployedDigest s)
    (mp_UpdateAvailable s) (mp_NodeCount s) (mp_UpdatedCount s) (mp_UpdatingCount s) (mp_DegradedCount s) conditions).

#[export] Instance read_BootcNodePool : Reads mBootcNodePool (TypeMeta * BootcNodePool) := λ p,
  meta ← read (mp_ObjectMeta p); spec ← read (mp_Spec p); status ← read (mp_Status p);
  mret (mp_TypeMeta p, mkBootcNodePool meta spec status).

#[export] Instance read_BootcNodePoolList :
    Reads mBootcNodePoolList (TypeMeta * ListMeta * list (TypeMeta * BootcNodePool)) := λ l,
  meta ← read (mpl_ListMeta l); items ← read (mpl_Items l); mret (mpl_TypeMeta l, meta, items).

#[export] Instance read_NodeClaim : Reads mNodeClaim NodeClaim := λ c, read (mn_Unstructured c).
End DeepCopy.

(** ** The methods copy deeply *)

Section Laws.
Context {K : Machinery} {X : MachineryCopy} {HX : MachineryLaws}.
Abbreviation heap := (gmap positive cell).
Abbreviation M := (M (cell := cell)).
Abbreviation Reads := (Reads (cell := cell)).
Abbreviation Cell := (Cell (cell := cell)).
Implicit Types (h : heap) (F : list positive).

#[export] Instance framed_IntOrString : Framed IntOrString.
Proof. framed_struct. Qed.
#[export] Instance framed_Int32 : Framed Z.
Proof. framed_struct. Qed.
#[export] Instance framed_PullSecretRef : Framed PullSecretRef.
Proof. framed_struct. Qed.
#[export] Instance framed_DisruptionSpec : Framed DisruptionSpec.
Proof. framed_struct. Qed.
#[export] Instance framed_ImageSpec : Framed mImageSpec.
Proof. framed_struct. Qed.
#[export] Instance framed_ImageInfo : Framed mImageInfo.
Proof. framed_struct. Qed.
#[export] Instance framed_BootcNodeSpec : Framed mBootcNodeSpec.
Proof. framed_struct. Qed.
#[export] Instance framed_BootcNodeStatus : Framed mBootcNodeStatus.
Proof. framed_struct. Qed.
#[export] Instance framed_BootcNode : Framed mBootcNode.
Proof. framed_struct. Qed.
#[export] Instance framed_BootcNodeList : Framed mBootcNodeList.
Proof. framed_struct. Qed.
#[export] Instance framed_RolloutSpec : Framed mRolloutSpec.
Proof. framed_struct. Qed.
#[export] Instance framed_BootcNodePoolSpec : Framed mBootcNodePoolSpec.
Proof. framed_struct. Qed.
#[export] Instance framed_BootcNodePoolStatus : Framed mBootcNodePoolStatus.
Proof. framed_struct. Qed.
#[export] Instance framed_BootcNodePool : Framed mBootcNodePool.
Proof. framed_struct. Qed.
#[export] Instance framed_BootcNodePoolList : Framed mBootcNodePoolList.
Proof. framed_struct. Qed.
#[export] Instance framed_NodeClaim : Framed mNodeClaim.
Proof. intros c. apply (read_framed (mn_Unstructured c)). Qed.

#[export] Instance copies_IntOrString : Copies (A := IntOrString) mret.
Proof. by eapply copies_plain. Qed.
#[export] Instance copies_Int32 : Copies (A := Z) mret.
Proof. by eapply copies_plain. Qed.
#[export] Instance copies_PullSecretRef : Copies (A := PullSecretRef) mret.
Proof. by eapply copies_plain. Qed.
#[export] Instance copies_DisruptionSpec : Copies (A := DisruptionSpec) mret.
Proof. by eapply copies_plain. Qed.
#[export] Instance copies_ImageSpec : Copies (A := mImageSpec) mret.
Proof. by eapply copies_plain. Qed.

#[export] Instance copies_ImageInfo : Copies ImageInfo_DeepCopyInto.
Proof. copy_struct ImageInfo_DeepCopyInto. Qed.
#[export] Instance copies_BootcNodeSpec : Copies BootcNodeSpec_DeepCopyInto.
Proof. copy_struct BootcNodeSpec_DeepCopyInto. Qed.
#[export] Instance copies_BootcNodeStatus : Copies BootcNodeStatus_DeepCopyInto.
Proof. copy_struct BootcNodeStatus_DeepCopyInto. Qed.
#[export] Instance copies_BootcNode : Copies BootcNode_DeepCopyInto.
Proof. copy_struct BootcNode_DeepCopyInto. Qed.
#[export] Instance copies_BootcNodeList : Copies BootcNodeList_DeepCopyInto.
Proof. copy_struct BootcNodeList_DeepCopyInto. Qed.
#[export] Instance copies_RolloutSpec : Copies RolloutSpec_DeepCopyInto.
Proof. copy_struct RolloutSpec_DeepCopyInto. Qed.
#[export] Instance copies_BootcNodePoolSpec : Copies BootcNodePoolSpec_DeepCopyInto.
Proof. copy_struct BootcNodePoolSpec_DeepCopyInto. Qed.
#[export] Instance copies_BootcNodePoolStatus : Copies BootcNodePoolStatus_DeepCopyInto.
Proof. copy_struct BootcNodePoolStatus_DeepCopyInto. Qed.
#[export] Instance copies_BootcNodePool : Copies BootcNodePool_DeepCopyInto.
Proof. copy_struct BootcNodePool_DeepCopyInto. Qed.
#[export] Instance copies_BootcNodePoolList : Copies BootcNodePoolList_DeepCopyInto.
Proof. copy_struct BootcNodePoolList_DeepCopyInto. Qed.

(** The wrapper and the object it embeds have the same value. *)
Lemma read_UnstructuredObject (c : ptr mNodeClaim) h : read (UnstructuredObject c) h = read c h.
Proof.
  destruct c as [[l|]]; [|done]. unfold read, read_ptr, UnstructuredObject, mbind, rd_bind, peek. simpl.
  destruct (h !! l) as [[]|]; simpl; done.
Qed.

(** What a pointer to [Some v] looks like. *)
Lemma read_Some_ptr {A V} {HC : Cell A} {HR : Reads A V} (p : ptr A) h v F :
  read p h = Some (Some v, F) →
  ∃ l a G, addr p = Some l ∧ (h !! l ≫= ofCell) = Some a ∧ read a h = Some (v, G) ∧ F = l :: G.
Proof.
  destruct p as [[l|]]; [|done]. unfold read at 1, read_ptr. simpl.
  intros (a & F1 & F2 & [Hl ->]%peek_load & Hr & ->)%rd_bind_Some.
  apply rd_bind_Some in Hr as (w & F3 & F4 & Ha & [[= <-] ->]%rd_ret_Some & ->).
  exists l, a, F3. by rewrite app_nil_r.
Qed.

#[export] Instance copies_NodeClaim : Copies NodeClaim_DeepCopy.
Proof.
  intros c h v F Hr. unfold NodeClaim_DeepCopy. destruct (addr c) as [l|] eqn:Hc.
  2: { destruct c as [[]]; [done|]. injection Hr as <- <-. apply runsTo_ret. exists []. split; [apply grown_refl|done]. }
  assert (∃ w, v = Some w) as [w ->].
  { destruct c as [[]]; [|done]. injection Hc as ->. 
    apply rd_bind_Some in Hr as (a & F1 & F2 & _ & Hr & _). 
    apply rd_bind_Some in Hr as (w & F3 & F4 & _ & [<- _]%rd_ret_Some & _). by exists w. }
  rewrite <- read_UnstructuredObject in Hr.
  eapply (runsTo_copy Unstructured_DeepCopy); [apply copies|exact Hr|apply grown_refl|]. intros u h1 G Hg _ Hu.
  apply read_Some_ptr in Hu as (l1 & obj & G1 & -> & Hl1 & Hobj & ->).
  eapply runsTo_load; [reflexivity|exact Hl1|]. eapply runsTo_alloc; [exact Hg|]. intros l2 h2 Hg2 Hs2 Hl2 _.
  apply runsTo_ret. exists (l2 :: G1). split.
  - apply (grown_sublist _ _ _ (l1 :: l2 :: G1)); [by apply sublist_cons|].
    eapply grown_perm; [|exact Hg2]. simpl. f_equiv. by rewrite (comm (++)).
  - apply rd_bind_Some. exists (mkMNodeClaim obj), [l2], G1. split_and!; [exact Hl2| |done].
    apply rd_bind_Some. exists w, G1, []. split_and!; [by apply (read_mono obj _ _ _ _ Hs2)|done|by rewrite app_nil_r].
Qed.

(** C16.  The deep copies are deep: [DeepCopy] of every API type, of the pool and
    node lists and of the Karpenter wrapper returns nil for nil and otherwise a new
    object with the same value that shares no memory with the original, whatever
    the original shares with other objects. *)
Theorem deep_copies :
  deep_copy BootcNode_DeepCopy ∧ deep_copy BootcNodeList_DeepCopy ∧
  deep_copy BootcNodePool_DeepCopy ∧ deep_copy BootcNodePoolList_DeepCopy ∧
  deep_copy BootcNodeSpec_DeepCopy ∧ deep_copy BootcNodeStatus_DeepCopy ∧
  deep_copy BootcNodePoolSpec_DeepCopy ∧ deep_copy BootcNodePoolStatus_DeepCopy ∧
  deep_copy ImageInfo_DeepCopy ∧ deep_copy ImageSpec_DeepCopy ∧ deep_copy PullSecretRef_DeepCopy ∧
  deep_copy DisruptionSpec_DeepCopy ∧ deep_copy RolloutSpec_DeepCopy ∧ deep_copy NodeClaim_DeepCopy.
Proof. split_and!; (apply copies_deep; [done|apply copies_ptr, _ || apply _]). Qed.

(** The kinds of the two resources and of their lists are registered once each, and
    nothing of the scheme is lost, if the library keeps what it is given. *)
Lemma addKnownTypes_kinds add b bl p pl sch :
  (∀ gv s, s `sublist_of` add gv s) →
  sch ++ ((SchemeGroupVersion,.) <$> ["BootcNode"; "BootcNodeList"; "BootcNodePool"; "BootcNodePoolList"])
    `sublist_of` addKnownTypes add (knownObjects b bl p pl) sch.
Proof. intros Hadd. apply Hadd. Qed.

(** Objects for the runtime: the generated methods return the nil interface for a
    nil pointer, the one of the Karpenter wrapper an interface that holds nil. *)
Lemma DeepCopyObject_nil h :
  BootcNode_DeepCopyObject (Ptr None) h = Some (NilObject, h) ∧
  BootcNodePool_DeepCopyObject (Ptr None) h = Some (NilObject, h) ∧
  BootcNodeList_DeepCopyObject (Ptr None) h = Some (NilObject, h) ∧
  BootcNodePoolList_DeepCopyObject (Ptr None) h = Some (NilObject, h) ∧
  NodeClaim_DeepCopyObject (Ptr None) h = Some (NodeClaimObject (Ptr None), h).
Proof. done. Qed.
End Laws.
