(* ===== verification/DeepCopyWitness.v ===== *)
(** * DeepCopyWitness: copying a node in a concrete memory

    An instance of the library's structs in which labels, annotations and raw
    objects are shared cells, and a BootcNode whose labels are shared with its
    pool: the copy has its own. *)

From S2P Require Import Prelude Types Samples Karpenter Memory DeepCopy.

Module DeepCopyWitness.

Abbreviation labels := (gmap string string).

(** Metadata and raw objects point to maps; the scalars of the metadata are kept in
    an [ObjectMeta] whose maps are not used. *)
Record kTime : Set := mkKTime { kt_nanoseconds : Z }.
Record kMeta : Set := mkKMeta { km_scalars : ObjectMeta; km_labels : ptr labels; km_annotations : ptr labels }.
Record kSelector : Set := mkKSelector { ks_labels : ptr labels; ks_exprs : list LabelSelectorRequirement }.
Record kObject : Set := mkKObject { ko_apiVersion : string; ko_kind : string; ko_meta : kMeta; ko_Object : ptr json }.
Inductive kCell : Set := KMap (m : labels) | KJson (j : json).

#[export] Instance machinery : Machinery :=
  {| MTime := kTime; MObjectMeta := kMeta; MListMeta := ListMeta; MLabelSelector := kSelector;
     MCondition := Condition; MUnstructured := kObject; MCell := kCell |}.

#[local] Obligation Tactic := done.
#[export] Program Instance cell_labels : Cell (cell := cell) labels :=
  {| toCell m := CLibrary (KMap m); ofCell c := match c with CLibrary (KMap m) => Some m | _ => None end |}.
#[export] Program Instance cell_json : Cell (cell := cell) json :=
  {| toCell j := CLibrary (KJson j); ofCell c := match c with CLibrary (KJson j) => Some j | _ => None end |}.

Abbreviation M := (M (cell := cell)).
Abbreviation Reads := (Reads (cell := cell)).

(** Values. *)
#[export] Instance read_kTime : Reads kTime Z := λ t, mret (kt_nanoseconds t).
#[export] Instance read_labels : Reads labels labels := λ m, mret m.
#[export] Instance read_json : Reads json json := λ j, mret j.
#[export] Instance read_kMeta : Reads kMeta ObjectMeta := λ m,
  l ← read (km_labels m); a ← read (km_annotations m);
  let s := km_scalars m in
  mret (mkObjectMeta (om_name s) (om_namespace s) (om_uid s) (om_generation s) l a (om_ownerReferences s)
    (om_finalizers s) (om_deletionTimestamp s)).
#[export] Instance read_kSelector : Reads kSelector LabelSelector := λ s,
  l ← read (ks_labels s); mret (mkLabelSelector l (ks_exprs s)).
#[export] Instance read_kObject : Reads kObject NodeClaim := λ o,
  m ← read (ko_meta o); j ← read (ko_Object o);
  mret (mkNodeClaim (ko_apiVersion o) (ko_kind o) m (default JNull j)).

(** Copies. *)
Definition kMeta_copy (m : kMeta) : M kMeta :=
  l ← copyPtr mret (km_labels m); a ← copyPtr mret (km_annotations m); mret (mkKMeta (km_scalars m) l a).
Definition kSelector_copy (s : kSelector) : M kSelector :=
  l ← copyPtr mret (ks_labels s); mret (mkKSelector l (ks_exprs s)).
Definition kObject_copy (o : kObject) : M kObject :=
  m ← kMeta_copy (ko_meta o); j ← copyPtr mret (ko_Object o); mret (mkKObject (ko_apiVersion o) (ko_kind o) m j).

#[export] Instance machinery_copy : MachineryCopy (K := machinery) :=
  {| read_Time := read_kTime; read_ObjectMeta := read_kMeta; read_ListMeta := λ m, mret m;
     read_LabelSelector := read_kSelector; read_Condition := λ c, mret c;
     read_Unstructured := read_kObject;
     Time_DeepCopy := copyPtr (H := cell_Time) mret; ObjectMeta_DeepCopyInto := kMeta_copy; ListMeta_DeepCopyInto := mret;
     LabelSelector_DeepCopyInto := kSelector_copy; Condition_DeepCopyInto := mret;
     Unstructured_DeepCopy := copyPtr (H := cell_Unstructured) kObject_copy |}.

#[local] Instance framed_labels : Framed labels.
Proof. framed_struct. Qed.
#[local] Instance framed_json : Framed json.
Proof. framed_struct. Qed.
#[local] Instance framed_kMeta : Framed kMeta.
Proof. framed_struct. Qed.
#[local] Instance framed_kObject : Framed kObject.
Proof. framed_struct. Qed.
#[local] Instance copies_labels : Copies (A := labels) mret.
Proof. by eapply copies_plain. Qed.
#[local] Instance copies_json : Copies (A := json) mret.
Proof. by eapply copies_plain. Qed.
#[local] Instance copies_kMeta : Copies kMeta_copy.
Proof. copy_struct kMeta_copy. Qed.
#[local] Instance copies_kObject : Copies kObject_copy.
Proof. copy_struct kObject_copy. Qed.

#[local] Instance framed_kTime : Framed kTime.
Proof. framed_struct. Qed.
#[local] Instance copies_kTime : Copies (A := kTime) mret.
Proof. by eapply copies_plain. Qed.
#[local] Instance copies_kSelector : Copies kSelector_copy.
Proof. copy_struct kSelector_copy. Qed.

#[export] Instance machinery_laws : MachineryLaws.
Proof. split; try apply _; try framed_struct; try (by eapply copies_plain). Qed.

(** ** A node that shares its labels *)

Definition scalars (name uid : string) : ObjectMeta := mkObjectMeta name "" uid 1 None None [] [] None.
Definition status (name : string) : mBootcNodeStatus :=
  mkMBootcNodeStatus 1 (Ptr (Some 5%positive)) (Ptr (Some 5%positive)) (Ptr None) (SHdr 7 1 1 2).
Definition inMemory (name : string) : mBootcNode :=
  mkMBootcNode (mkTypeMeta "BootcNode" "node.bootc.dev/v1alpha1")
    (mkKMeta (scalars name (name +:+ "-uid")) (Ptr (Some 3%positive)) (Ptr (Some 4%positive)))
    (mkMBootcNodeSpec Samples.RefB DesiredImageStateStaged (Ptr (Some 8%positive)) "" RebootPolicyRebootOnly)
    (status name).

(** "w1" and "w2" share their labels and annotations, and everything they point to;
    the booted and the staged image of each are the same struct, and the conditions
    are the second half of an array. *)
Definition heap0 : gmap positive cell := list_to_map
  [(1, CBootcNode (inMemory "w1")); (2, CBootcNode (inMemory "w2"));
   (3, CLibrary (KMap {["role" := "worker"]})); (4, CLibrary (KMap {[AnnotationInRebootSlot := ""]}));
   (5, CImageInfo (mkMImageInfo Samples.RefA Samples.DigestA "" (Ptr (Some 6)) "amd64" false false));
   (6, CTime (mkKTime 0)); (7, CConditions [Samples.isDegraded; Samples.idle ConditionTrue NodeReasonIdle 0]);
   (8, CPullSecretRef (mkPullSecretRef "pull" "bootc-operator"))]%positive.

Definition w1 : ptr mBootcNode := Ptr (Some 1%positive).
Definition valueOf (p : ptr mBootcNode) (h : gmap positive cell) : option BootcNode :=
  match read p h with Some (Some (_, b), _) => Some b | _ => None end.

(** A write through the labels of "w2" reaches "w1", but not a copy of "w1". *)
Definition relabelled (h : gmap positive cell) : gmap positive cell := <[3%positive := CLibrary (KMap ∅)]> h.

Example labels_shared :
  (om_labels ∘ bn_meta <$> valueOf w1 heap0) = Some (Some {["role" := "worker"]}) ∧
  (om_labels ∘ bn_meta <$> valueOf w1 (relabelled heap0)) = Some (Some ∅) ∧
  (match BootcNode_DeepCopy w1 heap0 with
   | Some (c, h) => om_labels ∘ bn_meta <$> valueOf c (relabelled h)
   | None => None
   end) = Some (Some {["role" := "worker"]}).
Proof. vm_compute. split_and!; reflexivity. Qed.

Lemma deep_copies_witness :
  ∃ v F l' h' F', read w1 heap0 = Some (Some v, F) ∧
    BootcNode_DeepCopy w1 heap0 = Some (Ptr (Some l'), h') ∧
    read (Ptr (Some l') : ptr mBootcNode) h' = Some (Some v, F') ∧ NoDup F' ∧ length F' = 9 ∧
    read (Ptr (Some l') : ptr mBootcNode) (relabelled h') = Some (Some v, F').
Proof.
  destruct (read w1 heap0) as [[[v|] F]|] eqn:Hr; [|by vm_compute in Hr|by vm_compute in Hr].
  destruct deep_copies as [Hc _]. destruct (copy_deep _ Hc heap0 1%positive _ _ Hr)
    as (l' & h' & F' & Hd & Hr' & _ & Hn & _ & _ & Hi).
  exists v, F, l', h', F'. split_and!; [done|done|done|done| |].
  - revert Hr'. vm_compute in Hd. injection Hd as <- <-. intros Hr'.
    apply (f_equal (λ r, length <$> (snd <$> r))) in Hr'. vm_compute in Hr'. by injection Hr'.
  - apply Hi. intros x Hx. unfold relabelled. rewrite lookup_insert_ne; [done|]. intros <-. apply Hx.
    apply (f_equal (fmap snd)) in Hr. vm_compute in Hr. injection Hr as <-. apply list_elem_of_In. simpl. tauto.
Defined.
End DeepCopyWitness.
