(* ===== verification/Schema.v ===== *)
(** * Schema: the constraints on the API types

    The kubebuilder markers of [api/v1alpha1] as predicates: what the API server
    checks before it stores a BootcNode or a BootcNodePool.  A typing discipline
    for programs shows that the controller and the daemon keep to it: as long as
    the objects they are given are valid, so are the objects they send. *)

From Stdlib Require Import Ascii.
From S2P Require Import Prelude Effects Types Library LibModel Client.

(** ** Validity *)

(** [+kubebuilder:validation:MinLength=1]. *)
Definition nonempty (s : string) : bool := negb (s =s "").

(** [+kubebuilder:validation:Enum=RebootOnly;AllowSoftReboot]; the field is left
    out when empty. *)
Definition validRebootPolicy (p : string) : bool :=
  bool_decide (p ∈ [""; RebootPolicyRebootOnly; RebootPolicyAllowSoftReboot]).

(** [+kubebuilder:validation:Enum=Staged;Booted]. *)
Definition validDesiredImageState (s : string) : bool :=
  bool_decide (s ∈ [DesiredImageStateStaged; DesiredImageStateBooted]).

Definition validPullSecretRef (r : PullSecretRef) : bool := nonempty (psr_name r) && nonempty (psr_namespace r).

Definition optionally {A : Type} (p : A → bool) (o : option A) : bool :=
  match o with Some a => p a | None => true end.

Definition validBootcNodeSpec (sp : BootcNodeSpec) : bool :=
  nonempty (DesiredImage sp) && validDesiredImageState (DesiredImageState sp) &&
  optionally validPullSecretRef (bns_PullSecretRef sp) && validRebootPolicy (bns_RebootPolicy sp).

(** [+kubebuilder:validation:Minimum=0] on an int32. *)
Definition validCount (z : Z) : bool := (0 <=? z)%Z && (z <=? GoInt.maxInt32)%Z.

Definition validRolloutSpec (r : RolloutSpec) : bool :=
  optionally validCount (DrainTimeoutSeconds r) && optionally validCount (RebootTimeoutSeconds r).

Definition validBootcNodePoolSpec (sp : BootcNodePoolSpec) : bool :=
  bool_decide (is_Some (NodeSelector sp)) && nonempty (ImageRef sp) && optionally validRolloutSpec (Rollout sp) &&
  optionally (λ d, validRebootPolicy (RebootPolicy d)) (Disruption sp) &&
  optionally validPullSecretRef (bnp_PullSecretRef sp).

(** [metav1.Condition]: the status is an enum, the reason matches
    [^[A-Za-z]([A-Za-z0-9_,:]*[A-Za-z0-9_])?$], the transition time is required, the
    generation is not negative.  The limit on the message is not part of this
    predicate. *)
Definition inRange (lo hi : N) (a : ascii) : bool := (lo <=? N_of_ascii a)%N && (N_of_ascii a <=? hi)%N.
Definition letter (a : ascii) : bool := inRange 65 90 a || inRange 97 122 a.
Definition wordChar (a : ascii) : bool := letter a || inRange 48 57 a || (N_of_ascii a =? 95)%N.
Definition reasonChar (a : ascii) : bool := wordChar a || (N_of_ascii a =? 44)%N || (N_of_ascii a =? 58)%N.

Definition validReason (s : string) : bool :=
  let l := String.list_ascii_of_string s in
  optionally letter (head l) && forallb reasonChar l && optionally wordChar (last l) &&
  negb (length l =? 0) && (length l <=? 1024).

Definition validCondition (c : Condition) : bool :=
  nonempty (c_type c) && bool_decide (c_status c ∈ [ConditionTrue; ConditionFalse; ConditionUnknown]) &&
  validReason (c_reason c) && bool_decide (is_Some (c_lastTransitionTime c)) && (0 <=? c_observedGeneration c)%Z.

(** [+listType=map], [+listMapKey=type]. *)
Definition validConditions (l : list Condition) : bool :=
  forallb validCondition l && bool_decide (NoDup (c_type <$> l)).

Definition validBootcNodePoolStatus (st : BootcNodePoolStatus) : bool :=
  validCount (NodeCount st) && validCount (UpdatedCount st) && validCount (UpdatingCount st) &&
  validCount (DegradedCount st) && validConditions (Conditions st).

Definition validBootcNode (b : BootcNode) : bool :=
  validBootcNodeSpec (bn_spec b) && validConditions (bns_Conditions (bn_status b)).

Definition validPool (p : BootcNodePool) : bool :=
  validBootcNodePoolSpec (pool_spec p) && validBootcNodePoolStatus (pool_status p).

(** ** Setting a condition *)

Section Conditions.
Context {L : Lib} {HL : LibLaws L}.

Lemma validConditions_spec l :
  validConditions l = true ↔ (∀ c, c ∈ l → validCondition c = true) ∧ NoDup (c_type <$> l).
Proof.
  unfold validConditions. rewrite andb_true_iff, forallb_forall, bool_decide_eq_true.
  by setoid_rewrite list_elem_of_In.
Qed.

(** A condition that is set replaces the one of its type or is added; it takes over
    the transition time or gets the current one. *)
Lemma set_valid now cs c :
  validConditions cs = true → c_lastTransitionTime c = None →
  validCondition (mkCondition (c_type c) (c_status c) (c_reason c) (c_message c) (Some now) (c_observedGeneration c)) = true →
  validConditions (SetStatusCondition now cs c) = true.
Proof.
  rewrite !validConditions_spec. intros [Hv Hd] Ht Hc. split; [|by apply set_types].
  intros c' [?| ->]%set_in; [auto|]. revert Hc. unfold validCondition. simpl. rewrite Ht. simpl.
  rewrite !andb_true_iff, !bool_decide_eq_true. intros ((((H1 & H2) & H3) & _) & H5). split_and!; [done|done|done| |done].
  destruct (FindStatusCondition cs (c_type c)) as [o|] eqn:Ho; [|done]. split_match; [|done].
  apply find_in in Ho as [Ho _]. specialize (Hv o Ho). unfold validCondition in Hv.
  rewrite !andb_true_iff, !bool_decide_eq_true in Hv. tauto.
Qed.
End Conditions.

(** ** Typed programs

    [typed p Φ]: every request of [p] is valid, provided that the answers to the
    earlier ones were, and then the result satisfies [Φ]. *)

Section Typed.
Context {R : Set} {resp : R → Set}.
Context (ok : R → Prop) (good : ev resp → Prop).

Fixpoint typed {A : Type} (p : prog resp A) (Φ : A → Prop) : Prop :=
  match p with
  | Ret a => Φ a
  | Vis r k => ok r ∧ ∀ x, good (Ev r x) → typed (k x) Φ
  end.

Lemma typed_bind {A B} (p : prog resp A) (k : A → prog resp B) Φ :
  typed p (λ a, typed (k a) Φ) → typed (pbind p k) Φ.
Proof. induction p as [a|r c IH]; simpl; [done|]. intros [Hr Hp]. split; [done|]. auto. Qed.

Lemma typed_mono {A} (p : prog resp A) (Φ Ψ : A → Prop) : (∀ a, Φ a → Ψ a) → typed p Φ → typed p Ψ.
Proof. intros Hm. induction p as [a|r c IH]; simpl; [apply Hm|]. intros [Hr Hp]. split; [done|]. auto. Qed.

(** What typing means for the history of a run. *)
Lemma typed_wp {A} (p : prog resp A) h Φ :
  (Forall good h → typed p Φ) → guarded (λ h r, Forall good h → ok r) h →
  wp p h (λ h' _, guarded (λ h r, Forall good h → ok r) h').
Proof.
  revert h. induction p as [a|r c IH]; intros h Ht Hg; simpl; [done|]. intros x. apply IH.
  - intros [Hh Hx]%Forall_app. apply Forall_cons in Hx as [Hx _]. destruct (Ht Hh) as [_ Hk]. by apply Hk.
  - apply guarded_snoc; [done|]. intros Hh. by destruct (Ht Hh).
Qed.

Section Go.
Context {S : Type} (I : S → Prop).
Abbreviation go := (go resp).

(** A Go function keeps the invariant [I] of its state and returns a [V]. *)
Definition tg {A : Set} (m : go S A) (V : A → Prop) : Prop :=
  ∀ s, I s → typed (m s) (λ sr, I sr.1 ∧ ∀ a, sr.2 = Ok a → V a).

Lemma tg_mono {A : Set} (m : go S A) (V W : A → Prop) : tg m V → (∀ a, V a → W a) → tg m W.
Proof. intros Hm HV s Hs. eapply typed_mono; [|by apply Hm]. intros [s' r] [? Hr]. split; [done|]. eauto. Qed.

Lemma tg_ret {A : Set} (a : A) (V : A → Prop) : V a → tg (ret a) V.
Proof. intros Ha s Hs. split; [done|]. by intros ? [= <-]. Qed.
Lemma tg_throw {A : Set} e (V : A → Prop) : tg (throw e) V.
Proof. intros s Hs. by split. Qed.
Lemma tg_bind {A B : Set} (m : go S A) (f : A → go S B) (V : A → Prop) (W : B → Prop) :
  tg m V → (∀ a, V a → tg (f a) W) → tg (gbind m f) W.
Proof.
  intros Hm Hf s Hs. apply typed_bind. eapply typed_mono; [|by apply Hm]. intros [s' [a|e]] [Hs' Hr]; simpl in *.
  - apply Hf; [by apply Hr|done].
  - by split.
Qed.
Lemma tg_call r : ok r → tg (call r) (λ x, good (Ev r x)).
Proof. intros Hr s Hs. split; [done|]. intros x Hx. split; [done|]. by intros ? [= <-]. Qed.
Lemma tg_gets {A : Set} (f : S → A) : tg (gets f) (λ a, ∃ s, I s ∧ a = f s).
Proof. intros s Hs. split; [done|]. intros a [= <-]. eauto. Qed.
Lemma tg_modify (f : S → S) : (∀ s, I s → I (f s)) → tg (modify f) (λ _, True).
Proof. intros Hf s Hs. split; [by apply Hf|done]. Qed.
Lemma tg_try {A : Set} (m : go S A) (V : A → Prop) : tg m V → tg (try m) (λ r, ∀ a, r = Ok a → V a).
Proof. intros Hm s Hs. apply typed_bind. eapply typed_mono; [|by apply Hm]. intros [s' r] [? Hr]. split; [done|]. by intros ? [= <-]. Qed.
Lemma tg_lift {A : Set} (r : result A) : tg (lift r) (λ a, r = Ok a).
Proof. destruct r; [by apply tg_ret|apply tg_throw]. Qed.
Lemma tg_wrapf {A : Set} pre (m : go S A) V : tg m V → tg (wrapf pre m) V.
Proof.
  intros Hm s Hs. apply typed_bind. eapply typed_mono; [|by apply Hm].
  intros [s' [a|e]] [? Hr]; (split; [done|]); simpl in *; [|done]. intros ? [= <-]. auto.
Qed.
Lemma tg_forEach {X : Type} (l : list X) (f : X → go S unit) :
  (∀ x, x ∈ l → tg (f x) (λ _, True)) → tg (forEach l f) (λ _, True).
Proof.
  induction l as [|x l IH]; intros Hf; simpl; [by apply tg_ret|].
  eapply tg_bind; [apply Hf; set_solver|]. intros _ _. apply IH. intros y Hy. apply Hf. set_solver.
Qed.
End Go.

Lemma tg_zoom {S T : Type} {A : Set} (I : S → Prop) (J : T → Prop) get put (m : go resp T A) V :
  (∀ s, I s → J (get s)) → (∀ s t, I s → J t → I (put t s)) → tg J m V → tg I (zoom get put m) V.
Proof.
  intros Hg Hp Hm s Hs. apply typed_bind. eapply typed_mono; [|apply Hm, Hg, Hs].
  intros [t r] [Ht Hr]. split; [by apply Hp|done].
Qed.
End Typed.

Create HintDb typing discriminated.

(** Work through the program: [tg_prim] for its first part, whatever that returns. *)
Ltac tg_prim := first
  [ by eauto with typing
  | apply tg_call; try done
  | apply tg_gets
  | apply tg_modify
  | apply tg_lift
  | by apply tg_ret
  | apply tg_throw
  | apply tg_wrapf; tg_prim
  | apply tg_try; tg_prim ].
Ltac tg_bind := eapply tg_bind; [tg_prim|intros ? ?].
