(* ===== verification/SchemaController.v ===== *)
(** * SchemaController: the controller sends valid objects

    The controller, function by function, in the typing discipline of [Schema]. *)

From S2P Require Import Prelude Effects Types Library LibModel Client Samples Sim Image Karpenter Classify PoolStatus Slots Utf8 Events Drain Rollout RolloutSafety Membership MembershipSafety Reconcile Schema.

(** ** Requests and answers *)

(** The objects of a request are valid. *)
Definition validRequest (r : req) : Prop :=
  match r with
  | UpdatePool p | UpdatePoolStatus p => validPool p = true
  | CreateBootcNode b => validBootcNode b = true
  | PatchBootcNode _ new => validBootcNode new = true
  | _ => True
  end.

(** The objects of an answer are valid, as the API server checked when it stored
    them. *)
Definition validAnswer (e : event) : Prop :=
  let '(Ev r x) := e in
  match r return resp r → Prop with
  | GetPool _ | UpdatePool _ | UpdatePoolStatus _ => λ x, ∀ p, x = Ok p → validPool p = true
  | ListPools => λ x, ∀ l p, x = Ok l → p ∈ l → validPool p = true
  | GetBootcNode _ | CreateBootcNode _ | PatchBootcNode _ _ => λ x, ∀ b, x = Ok b → validBootcNode b = true
  | ListBootcNodes => λ x, ∀ l b, x = Ok l → b ∈ l → validBootcNode b = true
  | _ => λ _, True
  end x.

Abbreviation T := (tg validRequest validAnswer).
Abbreviation unit_ := (λ _ : unit, True).

Section Typing.
Context {L : Lib} {HL : LibLaws L} {C : Config}.
Local Open Scope go_scope.

(** ** Any state *)

Section AnyState.
Context {S : Type} (I : S → Prop).

Lemma T_callE {A : Set} r (f : resp r → result A) :
  validRequest r → T I (callE r f) (λ a, ∃ x, validAnswer (Ev r x) ∧ f x = Ok a).
Proof.
  intros Hr. unfold callE. eapply tg_bind; [by apply tg_call|]. intros x Hx.
  eapply tg_mono; [apply tg_lift|]. eauto.
Qed.

Lemma T_getKarpenterNodeClaim node : T I (getKarpenterNodeClaim node) (λ _, True).
Proof.
  unfold getKarpenterNodeClaim. split_match; [|by apply tg_ret]. tg_bind.
  repeat split_match; by apply tg_ret || apply tg_throw.
Qed.

Lemma T_isKarpenterDisruptionActive node : T I (isKarpenterDisruptionActive node) (λ _, True).
Proof.
  unfold isKarpenterDisruptionActive. repeat (split_match; [by apply tg_ret|]).
  eapply tg_bind; [apply T_getKarpenterNodeClaim|]. intros [claim res] _.
  repeat split_match; try (by apply tg_ret); try apply tg_throw. tg_bind. split_match; by apply tg_ret.
Qed.

Lemma T_recordEvent o r t reason action note : T I (recordEvent o r t reason action note) unit_.
Proof. intros s Hs. split; [done|]. intros x _. by split. Qed.

Lemma T_recordPoolEvents pool previous changed : T I (recordPoolEvents pool previous changed) unit_.
Proof.
  unfold recordPoolEvents.
  repeat (eapply tg_bind; [instantiate (1 := unit_); split_match; [apply T_recordEvent|by apply tg_ret]|intros _ _]).
  repeat split_match; try apply T_recordEvent; by apply tg_ret.
Qed.
End AnyState.

(** ** A BootcNode and its Node *)

Definition validPair (s : BootcNode * Node) : Prop := validBootcNode s.1 = true.
#[local] Hint Resolve T_callE T_getKarpenterNodeClaim T_isKarpenterDisruptionActive T_recordEvent T_recordPoolEvents : typing.

(** The spec and the status decide. *)
Lemma valid_setBNMeta m b : validBootcNode (setBNMeta m b) = validBootcNode b.
Proof. done. Qed.

Lemma T_patchBN base new : validBootcNode new = true → T validPair (patchBN base new) unit_.
Proof.
  intros Hn. unfold patchBN. eapply tg_bind; [by apply T_callE|]. intros got (x & Hx & Hg).
  apply tg_modify. intros s Hs. by apply Hx.
Qed.

Lemma T_patchNode base new : T validPair (patchNode base new) unit_.
Proof. unfold patchNode. eapply tg_bind; [by apply T_callE|]. intros got _. by apply tg_modify. Qed.

Lemma slotPlan_bn bn node claim : ∃ m, (slotPlan bn node claim).1.1 = setBNMeta m bn.
Proof. unfold slotPlan. repeat split_match; eexists; reflexivity. Qed.

Lemma T_claimPatch c c' pre : T validPair (_ <- wrapf pre (callE (PatchNodeClaim c c') id) ;; ret tt) unit_.
Proof. eapply tg_bind; [apply tg_wrapf; by apply T_callE|]. intros _ _. by apply tg_ret. Qed.

Lemma T_assignRebootSlot claim : T validPair (assignRebootSlot claim) unit_.
Proof.
  unfold assignRebootSlot. eapply tg_bind; [apply tg_gets|]. intros bn (s & Hs & ->). tg_bind.
  eapply (tg_bind _ _ _ _ _ (λ _, True)).
  { unfold slotClaim. repeat split_match; try (by apply tg_ret).
    eapply tg_bind; [apply tg_wrapf, T_getKarpenterNodeClaim|]. intros [c []] _; try (by apply tg_ret). apply tg_throw. }
  intros c _. destruct (slotPlan_bn s.1 a c) as [m Hm]. destruct (slotPlan s.1 a c) as [[b' n'] c']. simpl in Hm. subst b'.
  eapply tg_bind; [instantiate (1 := unit_); split_match; [by apply tg_ret|by apply tg_wrapf, T_patchBN]|intros _ _].
  eapply tg_bind; [instantiate (1 := unit_); unfold patchClaimIfChanged|intros _ _].
  { repeat split_match; try (by apply tg_ret). apply T_claimPatch. }
  split_match; [by apply tg_ret|by apply tg_wrapf, T_patchNode].
Qed.

Lemma T_restoreNodeState claim : T validPair (restoreNodeState claim) unit_.
Proof.
  unfold restoreNodeState. tg_bind. tg_bind. destruct (restoredNode a a0) as [modified changed].
  eapply tg_bind; [instantiate (1 := unit_); split_match; [by apply tg_wrapf, T_patchNode|by apply tg_ret]|intros _ _].
  apply tg_wrapf. unfold restoreNodeClaimState. tg_bind. tg_bind. split_match; [by apply tg_ret|].
  eapply (tg_bind _ _ _ _ _ (λ _, True)).
  { split_match; [by apply tg_ret|]. eapply tg_bind; [apply tg_wrapf, T_getKarpenterNodeClaim|].
    intros ? _. by apply tg_ret. }
  intros c _. split_match; [|by apply tg_ret]. unfold removeClaimAnnotations.
  repeat split_match; try (by apply tg_ret). apply T_claimPatch.
Qed.

Lemma T_freeRebootSlot claim : T validPair (freeRebootSlot claim) unit_.
Proof.
  unfold freeRebootSlot. eapply tg_bind; [apply T_restoreNodeState|]. intros _ _.
  eapply tg_bind; [apply tg_gets|]. intros bn (s & Hs & ->). by apply tg_wrapf, T_patchBN.
Qed.

Lemma T_removeOsNotReadyTaintAndAnnotation : T validPair removeOsNotReadyTaintAndAnnotation unit_.
Proof.
  unfold removeOsNotReadyTaintAndAnnotation. eapply tg_bind; [apply tg_gets|]. intros bn (s & Hs & ->). tg_bind.
  destruct (removeOsNotReadyTaint a) as [modified removed].
  eapply tg_bind; [instantiate (1 := unit_); split_match; [by apply tg_wrapf, T_patchNode|by apply tg_ret]|intros _ _].
  split_match; [by apply tg_wrapf, T_patchBN|by apply tg_ret].
Qed.

Lemma T_ensureManagedLabel managed : T (λ _, True) (ensureManagedLabel managed) unit_.
Proof.
  unfold ensureManagedLabel. tg_bind. split_match; [by apply tg_ret|].
  eapply tg_bind; [by apply T_callE|]. intros got _. by apply tg_modify.
Qed.

(** ** The owned BootcNodes *)

Definition validOwned (owned : gmap string BootcNode) : Prop := ∀ k b, owned !! k = Some b → validBootcNode b = true.

Lemma validOwned_insert k b owned : validBootcNode b = true → validOwned owned → validOwned (<[k := b]> owned).
Proof. intros Hb Ho k' b'. rewrite lookup_insert. case_decide; [by intros [= <-]|apply Ho]. Qed.

Lemma T_recordNodeEvent pool k : T validOwned (recordNodeEvent pool k) unit_.
Proof.
  unfold recordNodeEvent. eapply tg_bind; [apply tg_gets|]. intros entry (owned & Ho & ->).
  destruct (owned !! k) as [node|] eqn:Hk; [|by apply tg_ret].
  destruct (nodeEvent node (observed node)) as [[observation reason] note]. split_match; [by apply tg_ret|].
  eapply tg_bind; [instantiate (1 := unit_); split_match; [apply T_recordEvent|by apply tg_ret]|intros _ _].
  eapply tg_bind; [apply tg_call; exact (Ho k node Hk)|]. intros x Hx. split_match; [|by apply tg_ret].
  apply tg_modify. intros owned' Ho'. apply validOwned_insert; [by apply Hx|done].
Qed.

Lemma T_recordNodeEvents `{MapOrder} pool : T validOwned (recordNodeEvents pool) unit_.
Proof. unfold recordNodeEvents. tg_bind. apply tg_forEach. intros k _. apply T_recordNodeEvent. Qed.

(** ** The pass *)

Definition validState (s : CState) : Prop := validPool (cs_pool s) = true ∧ validOwned (cs_owned s).
Abbreviation P := (T validState).

Lemma validState_owned k b s : validBootcNode b = true → validState s → validState (setOwned k b s).
Proof. intros Hb [? ?]. split; [done|by apply validOwned_insert]. Qed.

Lemma P_lookup k : P (gets (λ s, cs_owned s !! k)) (λ o, ∀ b, o = Some b → validBootcNode b = true).
Proof. eapply tg_mono; [apply tg_gets|]. intros o (s & [_ Ho] & ->) b. apply Ho. Qed.
Lemma P_pool : P (gets cs_pool) (λ p, validPool p = true).
Proof. eapply tg_mono; [apply tg_gets|]. by intros p (s & [? _] & ->). Qed.
Lemma P_owned : P (gets cs_owned) validOwned.
Proof. eapply tg_mono; [apply tg_gets|]. by intros p (s & [_ ?] & ->). Qed.
Lemma P_deref k : P (deref k) (λ b, validBootcNode b = true).
Proof.
  unfold deref. eapply tg_bind; [apply P_lookup|]. intros o Ho.
  destruct o; [apply tg_ret; by apply Ho|apply tg_throw].
Qed.
Lemma P_modifyRS f : P (modifyRS f) unit_.
Proof. by apply tg_modify. Qed.
Lemma P_requeue d : P (requeue d) unit_.
Proof. apply P_modifyRS. Qed.
#[local] Hint Resolve P_lookup P_pool P_owned P_deref P_modifyRS P_requeue : typing.

(** Conditions of the pool. *)
Lemma valid_setConditions cs p :
  validPool p = true → validConditions cs = true → validPool (setConditions cs p) = true.
Proof.
  unfold validPool, validBootcNodePoolStatus. simpl. rewrite !andb_true_iff. tauto.
Qed.

Lemma pool_conditions_valid p : validPool p = true → validConditions (pool_conditions p) = true.
Proof. unfold validPool, validBootcNodePoolStatus, pool_conditions. rewrite !andb_true_iff. tauto. Qed.

Lemma valid_report now type status reason message p :
  validPool p = true → nonempty type = true → validReason reason = true →
  status ∈ [ConditionTrue; ConditionFalse; ConditionUnknown] →
  validPool (setConditions (SetStatusCondition now (pool_conditions p)
    (mkCondition type status reason message None 0)) p) = true.
Proof.
  intros Hp Ht Hr Hs. apply valid_setConditions; [done|]. apply set_valid; [by apply pool_conditions_valid|done|].
  unfold validCondition. simpl. rewrite !andb_true_iff, !bool_decide_eq_true. done.
Qed.

Lemma valid_setPoolDegraded now reason message p :
  validPool p = true → validReason reason = true → validPool (setPoolDegraded now reason message p) = true.
Proof.
  intros Hp Hr. unfold setPoolDegraded. repeat split_match; try done; (apply valid_report; [done|done|done|set_solver]).
Qed.

Lemma valid_clear now reason p : validPool p = true → validPool (clearPoolDegradedReason now reason p) = true.
Proof.
  intros Hp. unfold clearPoolDegradedReason. repeat split_match; try done.
  apply valid_report; [done|done|done|set_solver].
Qed.

Lemma valid_clampCount n : validCount (clampCount n) = true.
Proof.
  unfold validCount, clampCount. apply andb_true_iff. rewrite !Z.leb_le.
  destruct (Z.ltb_spec n 0), (Z.ltb_spec GoInt.maxInt32 n); unfold GoInt.maxInt32 in *; lia.
Qed.

Lemma valid_syncPoolStatus now p rs : validPool p = true → validPool (syncPoolStatus now p rs) = true.
Proof.
  intros Hp. unfold syncPoolStatus. set (p' := setPoolStatus _ p). assert (validPool p' = true) as Hp'.
  { pose proof (pool_conditions_valid p Hp) as Hc. unfold pool_conditions in Hc. revert Hp. unfold validPool, validBootcNodePoolStatus. simpl.
    rewrite !valid_clampCount, Hc, !andb_true_iff. tauto. }
  unfold syncUpToDateCondition. repeat split_match; (apply valid_report; [done|done|done|set_solver]).
Qed.

Lemma P_setPool (f : Z → BootcNodePool → BootcNodePool) :
  (∀ now p, validPool p = true → validPool (f now p) = true) →
  P (now <- call Now ;; modify (λ s, setPool (f now (cs_pool s)) s)) unit_.
Proof.
  intros Hf. eapply (tg_bind _ _ _ _ _ (λ _, True)).
  { eapply tg_mono; [by apply tg_call|done]. }
  intros now _. apply tg_modify. intros s [? ?]. split; [by apply Hf|done].
Qed.

Lemma P_degradePool reason message : validReason reason = true → P (degradePool reason message) unit_.
Proof. intros Hr. apply (P_setPool (λ now, setPoolDegraded now reason message)). intros. by apply valid_setPoolDegraded. Qed.
Lemma P_clearDegraded reason : P (clearDegraded reason) unit_.
Proof. apply (P_setPool (λ now, clearPoolDegradedReason now reason)). intros. by apply valid_clear. Qed.
Lemma P_fetchNode bn : P (fetchNode bn) (λ _, True).
Proof. unfold fetchNode. apply tg_wrapf. eapply tg_mono; [by apply T_callE|done]. Qed.
#[local] Hint Resolve P_clearDegraded P_fetchNode : typing.

(** Drains. *)
Lemma P_ensureDrain bn : P (ensureDrain bn) unit_.
Proof.
  unfold ensureDrain. tg_bind. split_match; [by apply tg_ret|]. tg_bind.
  eapply tg_bind; [by apply tg_modify|]. intros _ _. tg_bind. intros s Hs. split; [done|]. intros x _. by split.
Qed.

Lemma valid_approve b : validBootcNode b = true → validBootcNode (setDesiredImageState DesiredImageStateBooted b) = true.
Proof. unfold validBootcNode, validBootcNodeSpec. simpl. rewrite !andb_true_iff. tauto. Qed.

Lemma P_collectDrainResult n : P (collectDrainResult n) unit_.
Proof.
  unfold collectDrainResult. tg_bind. split_match; [|by apply tg_ret].
  eapply tg_bind; [by apply tg_modify|]. intros _ _. tg_bind. tg_bind. tg_bind. tg_bind.
  repeat split_match; try (by apply tg_ret); [apply T_recordEvent|].
  eapply tg_bind; [apply tg_wrapf, T_callE, valid_approve; auto|]. intros got (x & Hx & Hg).
  apply tg_modify. intros s Hs. apply validState_owned; [by apply Hx|done].
Qed.

Lemma P_recordDrainStalls `{MapOrder} : P recordDrainStalls (λ _, True).
Proof.
  unfold recordDrainStalls. tg_bind. tg_bind. tg_bind. tg_bind. destruct (stallLoop _ _ _ _ _ _) as [[drains' stalled] next].
  eapply tg_bind; [by apply tg_modify|]. intros _ _.
  eapply tg_bind; [apply tg_forEach; intros; apply T_recordEvent|]. intros _ _. by apply tg_ret.
Qed.

(** Slots. *)
Lemma P_onPair k bn node m : validBootcNode bn = true → T validPair m unit_ → P (onPair k bn node m) (λ _, True).
Proof.
  intros Hb Hm s Hs. apply typed_bind. eapply typed_mono; [|by apply Hm]. intros [[b' n'] r] [Hb' _].
  split; [by apply validState_owned|done].
Qed.

Lemma P_freeCompletedSlot k : P (freeCompletedSlot k) unit_.
Proof.
  unfold freeCompletedSlot. tg_bind. split_match; [by apply tg_ret|]. tg_bind.
  repeat split_match; try (by apply tg_ret).
  - eapply tg_bind; [apply tg_wrapf, P_onPair; [done|apply T_freeRebootSlot]|]. intros _ _. apply P_modifyRS.
  - eapply tg_bind; [apply tg_wrapf, P_onPair; [done|apply T_removeOsNotReadyTaintAndAnnotation]|]. intros _ _. by apply tg_ret.
Qed.

Lemma P_processCandidate k : P (processCandidate k) (λ _, True).
Proof.
  unfold processCandidate. tg_bind. tg_bind.
  eapply tg_bind; [apply tg_wrapf, T_isKarpenterDisruptionActive|]. intros kds _. split_match.
  - eapply tg_bind; [apply P_requeue|]. intros _ _. by apply tg_ret.
  - eapply tg_bind; [apply tg_wrapf, P_onPair; [done|apply T_assignRebootSlot]|]. intros node' _.
    eapply tg_bind; [instantiate (1 := unit_); split_match; [apply P_requeue|by apply tg_ret]|intros _ _]. by apply tg_ret.
Qed.

Lemma P_assignLoop l a b : P (assignLoop l a b) unit_.
Proof.
  revert a. induction l as [|k l IH]; intros a; simpl; [by apply tg_ret|]. split_match; [by apply tg_ret|].
  eapply tg_bind; [apply P_processCandidate|]. intros r _. apply IH.
Qed.

Lemma P_drainCandidate k : P (drainCandidate k) unit_.
Proof.
  unfold drainCandidate. tg_bind. repeat (split_match; [by apply tg_ret|]). tg_bind.
  eapply tg_bind; [apply tg_wrapf, T_isKarpenterDisruptionActive|]. intros kds _.
  split_match; [apply P_requeue|apply P_ensureDrain].
Qed.

Lemma P_advance : P advance unit_.
Proof.
  unfold advance. tg_bind. tg_bind. tg_bind. tg_bind. destruct (partitionSlottedNodes _ _) as [slotted unslotted].
  eapply tg_bind; [apply tg_forEach; intros k _; eapply tg_bind; [apply P_processCandidate|intros _ _; by apply tg_ret]|intros _ _].
  eapply tg_bind; [apply P_assignLoop|intros _ _].
  eapply tg_bind; [instantiate (1 := unit_)|intros _ _; apply tg_forEach; intros; apply P_drainCandidate].
  unfold requeueKarpenter. tg_bind. split_match; [apply P_requeue|by apply tg_ret].
Qed.

Lemma P_driveRollout `{MapOrder} : P driveRollout (λ _, True).
Proof.
  unfold driveRollout. eapply tg_bind; [apply tg_wrapf; unfold collectDrainResults; tg_bind; apply tg_forEach; intros; apply P_collectDrainResult|intros _ _].
  eapply tg_bind; [instantiate (1 := unit_)|intros _ _].
  { unfold classifyPass. tg_bind. tg_bind. tg_bind. destruct (applyRebootTimeouts _ _ _ _) as [rs rq].
    eapply tg_bind; [by apply tg_modify|]. intros _ _. split_match; [by apply P_degradePool|by apply tg_ret]. }
  eapply tg_bind; [apply tg_wrapf; unfold freeCompletedSlots; tg_bind; apply tg_forEach; intros; apply P_freeCompletedSlot|intros _ _].
  do 3 tg_bind. eapply tg_bind; [instantiate (1 := unit_); split_match; [by apply P_degradePool|apply P_advance]|intros _ _].
  eapply tg_mono; [apply tg_gets|done].
Qed.

(** Membership. *)
Lemma desiredImage_nonempty pool image : desiredImageFromPool pool = Ok image → nonempty image = true.
Proof.
  unfold desiredImageFromPool. split_match; [|done]. intros [= <-]. unfold nonempty. apply negb_true_iff, seq_b_false.
  destruct (named_String _); discriminate.
Qed.

Lemma pool_ref_valid p : validPool p = true → optionally validPullSecretRef (bnp_PullSecretRef (pool_spec p)) = true.
Proof. unfold validPool, validBootcNodePoolSpec. rewrite !andb_true_iff. tauto. Qed.

Lemma effectiveRebootPolicy_valid p : validPool p = true → validRebootPolicy (effectiveRebootPolicy p) = true.
Proof.
  unfold validPool, validBootcNodePoolSpec, effectiveRebootPolicy. rewrite !andb_true_iff.
  intros [[[[_ _] Hd] _] _]. destruct (Disruption (pool_spec p)); [|done]. by split_match.
Qed.

Lemma valid_syncedSpec pool image bn :
  validPool pool = true → validBootcNode bn = true → desiredImageFromPool pool = Ok image →
  validBootcNode (setBNSpec (syncedSpec pool image (bn_spec bn)) bn) = true.
Proof.
  intros Hp Hb Hi. revert Hb. unfold validBootcNode, validBootcNodeSpec, syncedSpec. simpl.
  rewrite (desiredImage_nonempty _ _ Hi), (pool_ref_valid _ Hp), (effectiveRebootPolicy_valid _ Hp), !andb_true_iff.
  intros [[[[_ Hs] _] _] Hc]. split_and!; try done. by split_match.
Qed.

Lemma P_syncBootcNodeSpec pool k bn :
  validPool pool = true → validBootcNode bn = true → P (syncBootcNodeSpec pool k bn) unit_.
Proof.
  intros Hp Hb. unfold syncBootcNodeSpec. eapply tg_bind; [apply tg_lift|]. intros image Hi.
  split_match; [|by apply tg_ret]. eapply tg_bind; [by apply tg_wrapf, T_callE, valid_syncedSpec|].
  intros got (x & Hx & Hg). apply tg_modify. intros s Hs. apply validState_owned; [by apply Hx|done].
Qed.

Section Local.
Context {S : Type} (I : S → Prop).

Lemma T_onNode node m : T (λ _, True) m unit_ → T I (onNode node m) (λ _, True).
Proof. intros Hm s Hs. apply typed_bind. eapply typed_mono; [|by apply Hm]. intros [n r] _. by split. Qed.

Lemma T_onCopies bn node m : validBootcNode bn = true → T validPair m unit_ → T I (onCopies bn node m) (λ _, True).
Proof. intros Hb Hm s Hs. apply typed_bind. eapply typed_mono; [|by apply Hm]. intros [n r] _. by split. Qed.

Lemma T_createBootcNode pool node : validPool pool = true → T I (createBootcNode pool node) (λ b, validBootcNode b = true).
Proof.
  intros Hp. unfold createBootcNode. eapply tg_bind; [apply tg_lift|]. intros image Hi.
  eapply tg_bind; [apply tg_wrapf, tg_lift|]. intros m _. eapply tg_bind; [apply tg_wrapf, T_callE|].
  { simpl. unfold validBootcNode, validBootcNodeSpec. simpl.
    by rewrite (desiredImage_nonempty _ _ Hi), (pool_ref_valid _ Hp), (effectiveRebootPolicy_valid _ Hp). }
  intros got (x & Hx & Hg). eapply tg_bind; [apply tg_wrapf, T_onNode, T_ensureManagedLabel|]. intros _ _.
  apply tg_ret. by apply Hx.
Qed.

Lemma T_listAllBootcNodes : T I listAllBootcNodes validOwned.
Proof.
  unfold listAllBootcNodes. eapply tg_bind; [by apply tg_wrapf, T_callE|]. intros l (x & Hx & Hl).
  apply tg_ret. intros k b Hk. unfold id in Hl. subst x.
  apply (Hx l b eq_refl). by apply byName_elem in Hk as [? _].
Qed.
End Local.

Lemma P_removeBootcNode bn : validBootcNode bn = true → P (removeBootcNode bn) unit_.
Proof.
  intros Hb. unfold removeBootcNode. tg_bind.
  eapply tg_bind; [instantiate (1 := unit_); split_match|intros _ _].
  { tg_bind. by apply tg_modify. }
  { by apply tg_ret. }
  tg_bind. eapply tg_bind; [instantiate (1 := unit_); repeat split_match|intros _ _];
    try (by apply tg_ret); try apply tg_throw.
  { eapply tg_bind; [apply tg_wrapf, T_onCopies; [done|apply T_restoreNodeState]|]. intros node' _.
    eapply tg_bind; [apply tg_wrapf, T_onNode, T_ensureManagedLabel|]. intros _ _. by apply tg_ret. }
  tg_bind. repeat split_match; by apply tg_ret || apply tg_throw.
Qed.

Lemma T_onC {A : Set} (m : ctl CState A) V : P m V → T (λ s : CState * gset string, validState s.1) (onC m) V.
Proof. apply tg_zoom; [done|]. by intros s t. Qed.

Lemma T_adoptNode pool allBN matching k :
  validPool pool = true → T (λ s : CState * gset string, validState s.1) (adoptNode pool allBN matching k) unit_.
Proof.
  intros Hp. unfold adoptNode. split_match; [|by apply tg_ret].
  eapply tg_bind; [apply tg_gets|]. intros o (s & [_ Ho] & ->). destruct (cs_owned s.1 !! k) as [bn|] eqn:Hk.
  - eapply tg_bind; [apply tg_wrapf, T_onNode, T_ensureManagedLabel|]. intros _ _.
    apply tg_wrapf, T_onC, P_syncBootcNodeSpec; [done|by eapply Ho].
  - eapply tg_bind; [by apply tg_try, T_createBootcNode|]. intros [bn|e] Hr.
    + apply T_onC, tg_modify. intros s' Hs'. apply validState_owned; [by apply Hr|done].
    + repeat split_match; try apply tg_throw; try (by apply tg_ret). by apply tg_modify.
Qed.

Lemma P_adoptNodes `{MapOrder} pool allBN matching :
  validPool pool = true → P (adoptNodes pool allBN matching) (λ _, True).
Proof.
  intros Hp s Hs. apply typed_bind.
  eapply typed_mono; [|apply (tg_forEach _ _ (λ s : CState * gset string, validState s.1)); [|exact Hs]].
  - intros [[s' conflicts] r] [Hs' _]. by split.
  - intros k _. by apply T_adoptNode.
Qed.

Lemma P_dropNode matching k : P (dropNode matching k) unit_.
Proof.
  unfold dropNode. split_match; [by apply tg_ret|]. tg_bind.
  eapply tg_bind; [by apply tg_wrapf, P_removeBootcNode|]. intros _ _. apply tg_modify. intros s [? Ho].
  split; [done|]. simpl. intros k' b [_ Hk]%lookup_delete_Some. by eapply Ho.
Qed.

Lemma P_syncMembership `{MapOrder} : P syncMembership unit_.
Proof.
  unfold syncMembership. tg_bind.
  eapply (tg_bind _ _ _ _ _ (λ _, True)).
  { apply tg_wrapf. unfold listMatchingNodes. split_match; [|apply tg_throw]. apply tg_wrapf.
    eapply tg_mono; [by apply T_callE|done]. }
  intros nodes _. eapply tg_bind; [apply tg_wrapf, T_listAllBootcNodes|]. intros allBN Hall.
  eapply tg_bind; [apply tg_modify|intros _ _].
  { intros s [? ?]. split; [done|]. simpl. intros k b [Hk _]%map_lookup_filter_Some. by eapply Hall. }
  eapply tg_bind; [by apply P_adoptNodes|]. intros conflicting _. tg_bind.
  eapply tg_bind; [apply tg_forEach; intros; apply P_dropNode|]. intros _ _.
  split_match; [by apply P_degradePool|by apply tg_ret].
Qed.

Lemma P_handlePoolDeletion `{MapOrder} : P handlePoolDeletion unit_.
Proof.
  unfold handlePoolDeletion. tg_bind. split_match; [by apply tg_ret|].
  eapply tg_bind; [apply tg_wrapf, T_listAllBootcNodes|]. intros allBN Hall.
  eapply tg_bind; [apply tg_forEach|intros _ _].
  { intros k _. repeat split_match; try (by apply tg_ret). apply tg_wrapf, P_removeBootcNode. by eapply Hall. }
  eapply tg_bind; [by apply tg_call|]. intros x Hx. repeat split_match; try (by apply tg_ret); try apply tg_throw.
  apply tg_modify. intros s [? ?]. split; [by apply Hx|done].
Qed.

(** Reconcile. *)
Lemma P_fetchPullSecretData {S : Type} (I : S → Prop) pool : T I (fetchPullSecretData pool) (λ _, True).
Proof.
  unfold fetchPullSecretData. repeat split_match; try (by apply tg_ret); try apply tg_throw.
  eapply tg_bind; [by apply tg_wrapf, T_callE|]. intros secret _. split_match; by apply tg_ret || apply tg_throw.
Qed.

Lemma P_modifyPool (f : BootcNodePool → BootcNodePool) :
  (∀ p, validPool p = true → validPool (f p) = true) → P (modify (λ s, setPool (f (cs_pool s)) s)) unit_.
Proof. intros Hf. apply tg_modify. intros s [? ?]. split; [by apply Hf|done]. Qed.

Lemma P_resolveTag now data : P (resolveTag now data) (λ _, True).
Proof.
  unfold resolveTag. tg_bind. tg_bind. eapply (tg_bind _ _ _ _ _ (λ _, True)).
  { split_match.
    - eapply tg_bind; [by apply (P_modifyPool (setTargetDigest _))|]. intros _ _.
      eapply tg_bind; [apply P_clearDegraded|]. intros _ _. by apply tg_ret.
    - eapply tg_bind; [by apply P_degradePool|]. intros _ _. by apply tg_ret. }
  intros changed _. eapply tg_bind; [by apply (P_modifyPool (setNextTagResolutionTime _))|]. intros _ _. by apply tg_ret.
Qed.

Lemma P_resolveTargetDigest data : P (resolveTargetDigest data) (λ _, True).
Proof.
  unfold resolveTargetDigest. tg_bind. split_match; [|apply tg_throw]. split_match.
  - eapply tg_bind; [by apply (P_modifyPool (λ p, setNextTagResolutionTime None (setTargetDigest _ p)))|]. intros _ _.
    eapply tg_bind; [apply P_clearDegraded|]. intros _ _. by apply tg_ret.
  - tg_bind. repeat split_match; try apply P_resolveTag. by apply tg_ret.
Qed.

Lemma P_writeStatus previous changed : P (writeStatus previous changed) unit_.
Proof.
  unfold writeStatus, updatePoolStatus. apply tg_wrapf. tg_bind. split_match; [by apply tg_ret|].
  eapply tg_bind; [by apply T_callE|]. intros got (x & Hx & Hg).
  eapply tg_bind; [apply tg_modify|intros _ _; apply T_recordPoolEvents].
  intros s [? ?]. split; [by apply Hx|done].
Qed.

Lemma P_failed previous pre e : P (failed previous pre e) (λ _, True).
Proof.
  unfold failed, setInvalidSpecCondition. split_match; [|apply tg_throw].
  eapply tg_bind; [by apply P_degradePool|]. intros _ _. eapply tg_bind; [apply P_writeStatus|]. intros _ _. by apply tg_ret.
Qed.

Lemma P_rolloutPass `{MapOrder} previous rq changed : P (rolloutPass previous rq changed) (λ _, True).
Proof.
  unfold rolloutPass. do 4 (eapply tg_bind; [apply P_clearDegraded|]; intros _ _).
  eapply tg_bind; [apply tg_try, P_syncMembership|]. intros [[]|e] _; [|apply P_failed]. tg_bind.
  eapply tg_bind; [apply (tg_zoom _ _ validState validOwned); [by intros s [_ ?]|by intros s t [? _]|apply T_recordNodeEvents]|].
  intros _ _. eapply tg_bind; [apply tg_try, P_driveRollout|]. intros [rs|e] _; [|apply P_failed].
  eapply tg_bind; [apply P_recordDrainStalls|]. intros stall _. tg_bind.
  eapply tg_bind; [apply (P_modifyPool (λ p, syncPoolStatus _ p rs)); intros; by apply valid_syncPoolStatus|]. intros _ _.
  eapply tg_bind; [apply P_writeStatus|]. intros _ _. by apply tg_ret.
Qed.

Lemma P_reconcilePool `{MapOrder} : P reconcilePool (λ _, True).
Proof.
  unfold reconcilePool. tg_bind. split_match.
  - eapply tg_bind; [apply P_handlePoolDeletion|]. intros _ _. by apply tg_ret.
  - split_match.
    { eapply tg_bind; [by apply tg_wrapf, T_callE|]. intros _ _. by apply tg_ret. }
    eapply tg_bind; [apply tg_try, P_fetchPullSecretData|]. intros [data|e] _.
    + eapply tg_bind; [apply P_clearDegraded|]. intros _ _.
      eapply tg_bind; [apply tg_try, P_resolveTargetDigest|]. intros [[rq changed]|e] _; [|apply P_failed]. tg_bind.
      split_match; [|apply P_rolloutPass]. eapply tg_bind; [apply P_writeStatus|]. intros _ _. by apply tg_ret.
    + eapply tg_bind; [by apply P_degradePool|]. intros _ _. eapply tg_bind; [apply P_writeStatus|]. intros _ _. by apply tg_ret.
Qed.

Lemma Reconcile_typed `{MapOrder} name : T (λ _, True) (Reconcile name) (λ _, True).
Proof.
  unfold Reconcile. eapply tg_bind; [by apply tg_call|]. intros [pool|e] Hx.
  - intros drains _. apply typed_bind. eapply typed_mono; [|apply P_reconcilePool].
    + intros [s r] _. by split.
    + split; [by apply Hx|]. simpl. by intros k b Hk%lookup_empty_Some.
  - split_match; by apply tg_ret || apply tg_throw.
Qed.

(** C15. The controller sends valid objects.  In every pass, whatever fails and
    whatever the answers: as long as the objects the API server returned are valid
    by the schemas of the two custom resources, so is every BootcNode the pass
    creates or patches, every pool it updates and every status it writes (image,
    enums, pull secret, counters between 0 and the largest int32, conditions with
    valid status, reason and transition time and at most one per type). *)
Theorem Reconcile_valid `{MapOrder} name drains :
  wpg (Reconcile name) drains [] (λ h _ _,
    guarded (λ h r, Forall validAnswer h → validRequest r) h).
Proof.
  eapply typed_wp; [|apply guarded_nil]. intros _. by apply Reconcile_typed.
Qed.
End Typing.
