(* ===== verification/SchemaDaemon.v ===== *)
(** * SchemaDaemon: the daemon sends valid objects

    The daemon's reconciler in the typing discipline of [Schema]; the witnesses for
    both processes; and what the discipline does not cover, the length of a
    message. *)

From S2P Require Import Prelude Effects Types Library LibModel Client Samples Sim Image Karpenter Classify PoolStatus Slots Utf8 Events Drain Rollout RolloutSafety RolloutWitness Membership Reconcile ReconcileSafety ReconcileProps ReconcileWitness StageOp Bootc Daemon DaemonSafety Watcher DaemonWitness Schema SchemaController.

(** What the API server validates of a status, and the generation it maintains. *)
Definition validReport (b : BootcNode) : bool :=
  validConditions (bns_Conditions (bn_status b)) && (0 <=? om_generation (bn_meta b))%Z.

Definition validDRequest (r : dreq) : Prop :=
  match r with
  | DPatchStatus _ new => validReport new = true
  | _ => True
  end.

Definition validDAnswer (e : ev dresp) : Prop :=
  let '(Ev r x) := e in
  match r return dresp r → Prop with
  | DGetBootcNode _ | DPatchStatus _ _ => λ x, ∀ b, x = Ok b → validReport b = true
  | _ => λ _, True
  end x.

Abbreviation DT := (tg validDRequest validDAnswer (λ s, validReport (ds_bn s) = true)).

Section Typing.
Context {L : Lib} {HL : LibLaws L} {D : DConfig}.
Local Open Scope go_scope.

Lemma DT_dcallE {A : Set} r (f : dresp r → result A) :
  validDRequest r → DT (dcallE r f) (λ a, ∃ x, validDAnswer (Ev r x) ∧ f x = Ok a).
Proof.
  intros Hr. unfold dcallE. eapply tg_bind; [by apply tg_call|]. intros x Hx.
  eapply tg_mono; [apply tg_lift|]. eauto.
Qed.

(** Requests without objects. *)
Lemma DT_plain {A : Set} pre r (f : dresp r → result A) : validDRequest r → DT (wrapf pre (dcallE r f)) (λ _, True).
Proof. intros Hr. apply tg_wrapf. by eapply tg_mono; [apply DT_dcallE|]. Qed.
#[local] Hint Resolve DT_plain : typing.

Lemma DT_setCondition type status reason message :
  nonempty type = true → status ∈ [ConditionTrue; ConditionFalse; ConditionUnknown] → validReason reason = true →
  DT (setCondition type status reason message) (λ _, True).
Proof.
  intros Ht Hs Hr. unfold setCondition. tg_bind. apply tg_modify. intros s. unfold validReport. simpl.
  rewrite !andb_true_iff. intros [Hc Hg]. split; [|done]. apply set_valid; [done|done|].
  unfold validCondition. simpl. rewrite !andb_true_iff, !bool_decide_eq_true. done.
Qed.

Lemma DT_writeAuthFile data : DT (writeAuthFile data) (λ _, True).
Proof.
  unfold writeAuthFile. eapply tg_bind; [by apply DT_plain|intros _ _].
  eapply tg_bind; [by apply DT_plain|intros tmp _]. tg_bind.
  split_match; [|tg_bind; tg_bind; apply tg_throw]; tg_bind.
  split_match; [|tg_bind; apply tg_throw]; tg_bind. split_match; [by apply tg_ret|tg_bind; apply tg_throw].
Qed.

Lemma DT_syncPullSecret bn : DT (syncPullSecret bn) (λ _, True).
Proof.
  unfold syncPullSecret. split_match; [|by apply tg_ret]. tg_bind. repeat split_match; try (by apply tg_ret).
  eapply tg_bind; [apply tg_try, DT_writeAuthFile|]. intros ? _. by apply tg_ret.
Qed.

Lemma DT_report type status reason message :
  nonempty type = true → status ∈ [ConditionTrue; ConditionFalse; ConditionUnknown] → validReason reason = true →
  ∀ r : reconcileResult, DT (setCondition type status reason message ;;; ret r) (λ _, True).
Proof. intros Ht Hs Hr r. eapply tg_bind; [by apply DT_setCondition|]. intros _ _. by apply tg_ret. Qed.

Lemma DT_act action image : DT (act action image) (λ _, True).
Proof.
  unfold act. tg_bind. destruct action; try (apply DT_report; [done|set_solver|done]). tg_bind.
  apply DT_report; [done|set_solver|done].
Qed.

Lemma DT_reconcileBootcNode : DT reconcileBootcNode (λ _, True).
Proof.
  unfold reconcileBootcNode. eapply tg_bind; [apply tg_try; instantiate (1 := λ _, True)|].
  { unfold populateBootcFields. eapply tg_bind; [by apply DT_plain|]. intros st _. by apply tg_modify. }
  intros [[]|e] _; [|by apply tg_ret]. tg_bind. repeat (split_match; try (by apply tg_ret)).
  - tg_bind. by apply tg_ret.
  - tg_bind. split_match.
    + eapply tg_bind; [by apply DT_dcallE|]. intros delay _. by apply tg_ret.
    + eapply tg_bind; [apply DT_syncPullSecret|intros _ _].
      eapply (tg_bind _ _ _ _ _ (λ _, True)).
      { unfold classifyAction. repeat split_match; try (by apply tg_ret). tg_bind. by apply tg_ret. }
      intros action _. eapply tg_bind; [apply DT_act|]. intros res _. by apply tg_ret.
Qed.

Lemma DT_rebootIfNeeded res : DT (rebootIfNeeded res) (λ _, True).
Proof.
  unfold rebootIfNeeded. split_match; [|by apply tg_ret].
  eapply tg_bind; [instantiate (1 := λ _, True); split_match; by apply DT_plain|]. intros _ _. by apply tg_modify.
Qed.

Lemma DT_reconcileFetched orig : validReport orig = true → DT (reconcileFetched orig) (λ _, True).
Proof.
  intros Ho. unfold reconcileFetched. eapply tg_bind; [apply tg_modify; by intros s Hs|intros _ _].
  eapply tg_bind; [apply DT_setCondition; [done|set_solver|done]|intros _ _].
  eapply tg_bind; [apply DT_reconcileBootcNode|]. intros [res err] _.
  eapply tg_bind; [instantiate (1 := λ _, True); split_match; (apply DT_setCondition; [done|set_solver|done])|intros _ _].
  eapply tg_bind; [apply tg_gets|]. intros bn (s & Hs & ->).
  eapply tg_bind; [instantiate (1 := λ _, True); split_match; [by apply tg_ret|]|intros _ _].
  { eapply tg_bind; [by apply tg_wrapf, DT_dcallE|]. intros got (x & Hx & Hg). apply tg_modify. intros s' _. by apply Hx. }
  eapply tg_bind; [apply DT_rebootIfNeeded|intros _ _]. split_match; by apply tg_throw || apply tg_ret.
Qed.

(** The pass starts from the BootcNode it read, not from the one before. *)
Lemma reconcileFetched_typed orig s :
  validReport orig = true → typed validDRequest validDAnswer (reconcileFetched orig s) (λ _, True).
Proof.
  intros Ho. assert (reconcileFetched orig s = reconcileFetched orig (setBn orig s)) as -> by done.
  by eapply typed_mono; [|by apply DT_reconcileFetched].
Qed.

(** C25. The daemon reports valid conditions.  In every pass, whatever the host, the
    registry and the API server answer: as long as the BootcNodes it read are valid,
    so is every status it sends (conditions with valid status, reason and transition
    time, at most one per type). *)
Theorem DReconcile_valid reqName s :
  wpg (DReconcile reqName) s [] (λ h _ _,
    guarded (λ h r, Forall validDAnswer h → validDRequest r) h).
Proof.
  eapply (typed_wp _ _ _ _ (λ _, True)); [|apply guarded_nil]. intros _. unfold DReconcile, gets, gbind at 1. simpl.
  repeat (split_match; [done|]). split; [done|]. intros [b|e] Hx; [|simpl; by destruct (IsNotFound e)].
  exact (reconcileFetched_typed b s (Hx b eq_refl)).
Qed.
End Typing.

Module SchemaWitness.
Import LibModel.
#[local] Existing Instance idOrder.
#[local] Existing Instance RolloutWitness.config.

(** ** Passes over valid objects *)

Definition validAnswerb (e : event) : bool :=
  let '(Ev r x) := e in
  match r return resp r → bool with
  | GetPool _ | UpdatePool _ | UpdatePoolStatus _ => λ x, match x with Ok p => validPool p | Err _ => true end
  | ListPools => λ x, match x with Ok l => forallb validPool l | Err _ => true end
  | GetBootcNode _ | CreateBootcNode _ | PatchBootcNode _ _ => λ x, match x with Ok b => validBootcNode b | Err _ => true end
  | ListBootcNodes => λ x, match x with Ok l => forallb validBootcNode l | Err _ => true end
  | _ => λ _, true
  end x.

Lemma forallb_elem {A} (f : A → bool) l x : forallb f l = true → x ∈ l → f x = true.
Proof. rewrite forallb_forall. intros Hf Hx. by apply Hf, list_elem_of_In. Qed.

Lemma validAnswerb_ok h : forallb validAnswerb h = true → Forall validAnswer h.
Proof.
  intros Hh. apply Forall_forall. intros [r x] He. apply (forallb_elem _ _ _ Hh) in He.
  destruct r; simpl in *; try done; intros; subst; eauto using forallb_elem.
Qed.

(** The pass of [ReconcileWitness]: it writes BootcNodes and the status. *)
Lemma Reconcile_valid_witness :
  let h := ReconcileWitness.pass0.1.2 in
  Forall validAnswer h ∧ guarded (λ h r, Forall validAnswer h → validRequest r) h ∧
  existsb (λ e, match ev_req e with UpdatePoolStatus _ => true | _ => false end) h = true.
Proof.
  split_and!; [apply validAnswerb_ok; vm_compute; reflexivity| |vm_compute; reflexivity].
  destruct (wpg_sim _ _ ReconcileWitness.world0 _ (Reconcile_valid "workers" ReconcileWitness.drains0)) as [_ H].
  exact H.
Defined.

Definition validDAnswerb (e : ev dresp) : bool :=
  let '(Ev r x) := e in
  match r return dresp r → bool with
  | DGetBootcNode _ | DPatchStatus _ _ => λ x, match x with Ok b => validReport b | Err _ => true end
  | _ => λ _, true
  end x.

Lemma validDAnswerb_ok h : forallb validDAnswerb h = true → Forall validDAnswer h.
Proof.
  intros Hh. apply Forall_forall. intros [r x] He. apply (forallb_elem _ _ _ Hh) in He.
  destruct r; simpl in *; try done; intros; subst; eauto.
Qed.

Import DaemonWitness.

Lemma DReconcile_valid_witness :
  let h := (pass w0 false).1.2 in
  Forall validDAnswer h ∧ guarded (λ h r, Forall validDAnswer h → validDRequest r) h ∧
  existsb (λ e, match ev_req e with DPatchStatus _ _ => true | _ => false end) h = true.
Proof.
  split_and!; [apply validDAnswerb_ok; vm_compute; reflexivity| |vm_compute; reflexivity].
  destruct (pass w0 false) as [[w' t] [s r]] eqn:E. unfold pass in E.
  exact (wpg_run dsim _ _ _ _ _ _ _ _ (DReconcile_valid "w1" (mkDState (dw_bn w0) false)) E).
Defined.

(** ** A message that does not fit

    The schema limits the message of a condition to 32768 characters.  The daemon
    puts the whole error of a failed staging into it, which carries every error line
    of the staging unit: many lines make a status that the API server rejects. *)
Definition maxMessage : Z := 32768.
Fixpoint repeated (n : nat) (s : string) : string := match n with 0 => "" | S n => s +:+ repeated n s end.
Definition longOutput : string := repeated 520 "error: Pulling: Importing: Copying blob: unexpected end of file ".
Definition failedOp : stageOp := mkStageOp "" None (Some (ErrString longOutput)) 1.
Definition wLong : DWorld := mkDWorld 60 (wanted DesiredImageStateStaged) (Ok onA) failedOp None (Ok tt).

Definition sentMessages (h : dhistory) : list Z :=
  List.flat_map (λ e, match ev_req e with
    | DPatchStatus _ new => (λ c, Z.of_nat (String.length (c_message c))) <$> bns_Conditions (bn_status new)
    | _ => []
    end) h.

Example message_too_long : existsb (λ n, (maxMessage <? n)%Z) (sentMessages (pass wLong false).1.2) = true.
Proof. vm_compute. reflexivity. Qed.
End SchemaWitness.
